(* ===== verification/_CoqProject ===== *)
-Q . S2P
Prelude.v
GoMonad.v
FileSystem.v
Checksum.v
LogEntry.v
Store.v
Snapshot.v
Session.v
Config.v
Counter.v
GoLog.v
Log.v
Fsm.v
Node.v
Roles.v
Follower.v
Leader.v
Candidate.v
Raft.v
Demo.v
Frame.v
Election.v
Campaign.v
Json.v
Cluster.v
ElectionSafety.v
Persistence.v
Replication.v
Matching.v
Commit.v
Apply.v
Votes.v
Lifecycle.v
Compaction.v
Progress.v
Propose.v
History.v
LogMatching.v
StaleReply.v
Range.v
Codec.v
Transport.v
Server.v
Liveness.v
Isolation.v
