(* ===== verification/Prelude.v ===== *)
(** * go-raft: a verification development

    This library models the Raft implementation of [src/internal/], its counter
    state machine [src/counter/] and the cluster such nodes form, and proves what
    makes them correct, the places included where the code does less than it
    means to.  Definitions are translated function by function and keep the
    names of the source; a method [m] of a type [T] is [T__m] where the bare name
    would clash.

    ** The program

    A node ([Raft] in raft.go) holds a persistent store (term and vote, store.go), a
    write-ahead log (the library go-log), a state machine (fsm.go), a session table
    that recognises repeated client requests (session.go), snapshots on disk
    (snapshot.go) and a role object: follower, candidate or leader
    (follower_role.go, candidate_role.go, leader_role.go).  The server (main.go)
    calls its methods from the RPC routes and from two tickers; every method takes
    one mutex.  Goroutines started by the roles make the remote calls
    (transport.go) and take the mutex again when these return.

    ** The files

    - Prelude: Go integers at their width, bytes, little-endian fields, lists,
      tactics.
    - GoMonad: state, panics, exhausted recursion; [moves] (what a computation may
      change, whatever happens), [rwp], [go_wp] and [settles].
    - FileSystem: [os] and [io] calls with a stream of injectable failures; what a
      name may hold after a power failure.
    - Checksum, LogEntry, Store, Snapshot, Session, Config, Counter: log_entry.go,
      store.go, snapshot.go, session.go, config.go, counter.go and the CRC they
      use.  Formats round-trip (exactly when), writes are atomic under crashes,
      setters change memory and file together or not at all.
    - GoLog: the interface [GoLog] of the log library and of [os] on its directory,
      the laws [GoLogLaws] the callers rely on, one per operation, and [MemLog], a
      log in memory with injectable failures that satisfies them.
      Log: log.go over that interface.
    - Fsm: the interface [FSM] of fsm.go and the counter machine.
    - Node: the [Raft] struct as the record [Raft L F] over any log [L] and state
      machine [F]; role objects in a heap, because goroutines keep using an object
      after the node has left the role; channels; started goroutines as [Task]s.
    - Roles, Follower, Leader, Candidate, Raft: raft.go and the three role files.
      A function that makes a remote call is cut there: what precedes the call
      starts a task, the rest is a [_reply] or [_done] definition.
    - Demo: concrete nodes for the concrete runs.
    - Frame: what most of the code leaves alone, once for every relation of the
      classes [Calm], [Quiet] and [Frame].  Election, Campaign: the election
      invariant of one node and its preservation by every function.  Cluster:
      nodes, messages and the [step] relation, with an executable scheduler; a
      stopped node leaves its files and its log.
    - ElectionSafety: no term has two leaders.  Persistence: the pair (term, vote)
      of a node, in memory or on disk, only moves up.  Progress: the commit index
      of a running node never decreases.  Liveness: one tick of the election timer.
      Isolation: a node that is cut off, through any interleaving of its ticks,
      failing calls, snapshots and proposals.
    - Replication: AppendEntries on the follower.  Matching: the leader's request
      and the follower's log together, through [serve].  Commit: the commit rule,
      acknowledgements and failed calls on the leader.  Propose: proposals.
      Apply: both appliers refine one fold over the entries.
    - History: what every function does to the log and which entries it sends.
      LogMatching: over all runs, logs that agree on the term of an entry agree up
      to it.  StaleReply: a run in which a late reply breaks agreement on
      committed entries.
    - Votes: durable votes, read-only pre-votes, recursion depth.  Lifecycle:
      disabled nodes, disabling and enabling, failed pre-votes.  Compaction:
      taking, restoring and installing snapshots.
    - Range: replies are in the range of their Go types.
    - Json: what [encoding/json] writes and reads, byte for byte; what it makes of a
      string ([wire_string]), which the cluster's [serve] applies.  Codec: the
      decoder by destination type, base64, the messages of transport.go and their
      round trips.  Transport: the five remote calls over a network that is a
      parameter.  Server: main.go over gin as a parameter; a call through all of
      it is a step of the cluster.

    ** How the code is modelled

    A method is a computation [GoM S A]: state passing with a panic outcome that
    keeps the state reached.  A critical section of the mutex is one definition
    and runs atomically; a method that releases the mutex ([TakeSnapshot],
    [Propose], every goroutine) is split where it does, and [Cluster.step] lets
    anything happen in between.  uint64 and int arithmetic is written with its
    wrap-around ([u64], [i64], [i16], [u32]).  A Go map is a [gmap].  The random
    generator is the stream of numbers it will draw, the wall clock the stream of
    readings it will return, a disk the stream of outcomes of its calls.

    Fuel appears where the recursion of the code is not structural.  The loops
    that apply and collect entries or walk back over a term get one round per
    index, which the theorems show to be enough.  [HandleRequestVote] and
    [HandleAppendEntries] of a follower call themselves on the role object they
    create: two rounds are enough while the disk works ([request_vote_terminates]),
    none are when it always fails ([failing_disk_recurses_forever]); in a cluster
    step that runs out of fuel the process dies.  The applier loop of a leader
    takes the number of its rounds as an argument.

    The parser of JSON takes the number of arrays and objects that may be open
    (10000, as in Go), the loops over one text its length.

    ** The theorems

    Over all runs of a cluster: [election_safety], [term_and_vote_monotone],
    [commit_index_monotone], and, where logs are neither compacted nor lost in a
    crash and the client identifiers sent are valid UTF-8, [log_matching].
    [call_is_serve] and [lost_call_is_failed_reply] tie the messages of the cluster
    to the bytes on the wire.  [silent_node_campaigns] is the liveness of the
    election timer, against the node's own failing calls.  Of one node, for any state: what a successful AppendEntries, a granted vote, a
    proposal, an acknowledgement, the commit rule, a pre-vote, taking or installing
    a snapshot mean.  Across nodes: [replication_extends_agreement], [appliers_agree].  Of the
    files: round trips, atomicity under crashes and detection of corruption.
    Each has a witness at concrete nodes.  The theorems of the last group state
    behaviour the authors will want to know of: what a failed remote call does to
    [nextIndex] and to the term, a disk that always fails, a leader that is
    switched off and on, a new node that installs a snapshot, a reply that arrives
    terms later ([late_reply_breaks_commit]: committed entries can differ, so the
    state machine safety of Raft does not hold of this code), an entry that JSON
    changes on its way ([proposal_changed_in_transit]).

    ** What is not modelled

    The log library itself (a parameter with laws), gob (a parameter with its
    round-trip law), gin (a parameter with laws), the HTTP client and server
    between a call and a route (a parameter: the request arrives, or the call
    fails), time-outs and connection limits, the parsing of flags, signals and
    printing, scripts and tests.  In the cluster messages arrive as JSON
    delivers them, or not at all, or more than once; [call_is_serve] shows that this
    is what the code's own encoding does to them.  A forwarded proposal is the value
    [ProposalForward]; its call is [Transport__Propose].  One round of the leader's
    applier is atomic here, although the code runs it without the mutex.  Bounds assumed: no term reaches 2^64 - 1, and at most
    2^62 members, whose names are at most 10 MiB of valid UTF-8 ([membership_ok]; a
    name is a network address; [members_ok], which does without UTF-8, is enough
    for [term_and_vote_monotone]). *)
From Stdlib Require Export ZArith Lia Init.Byte Strings.Byte.
From stdpp Require Export base gmap list strings numbers.

Declare Scope go_scope.
Delimit Scope go_scope with go.
Create HintDb go discriminated.
Create Rewrite HintDb go.
Create HintDb go_bounds discriminated.

(** ** Go integers

    A [uint64]/[uint32]/[uint16] is a [Z] in range; arithmetic wraps by reducing
    modulo the width.  A Go [int] is 64 bits wide on the supported targets and
    wraps in two's complement. *)
Definition u64_max : Z := 18446744073709551615.
Definition u64 (z : Z) : Z := z mod 18446744073709551616.
Definition u32 (z : Z) : Z := z mod 4294967296.
Definition i64 (z : Z) : Z :=
  (z + 9223372036854775808) mod 18446744073709551616 - 9223372036854775808.
Definition i16 (z : Z) : Z := (z + 32768) mod 65536 - 32768.

Definition is_u64 (z : Z) : Prop := (0 <= z < 18446744073709551616)%Z.
Definition is_u32 (z : Z) : Prop := (0 <= z < 4294967296)%Z.

Lemma u64_range z : is_u64 (u64 z).
Proof. unfold is_u64, u64. apply Z.mod_pos_bound. lia. Qed.

Lemma u64_small z : is_u64 z → u64 z = z.
Proof. unfold is_u64, u64. intros. by apply Z.mod_small. Qed.

Lemma i64_small z : (-9223372036854775808 <= z < 9223372036854775808)%Z → i64 z = z.
Proof. unfold i64. intros. rewrite Z.mod_small; lia. Qed.

Lemma i16_small z : (-32768 <= z < 32768)%Z → i16 z = z.
Proof. unfold i16. intros. rewrite Z.mod_small; lia. Qed.

(** ** Bytes *)
Abbreviation bytes := (list byte).

#[global] Instance byte_eq_dec : EqDecision byte := Byte.byte_eq_dec.

Definition byte_of_Z (z : Z) : byte :=
  default x00 (Byte.of_N (Z.to_N (z mod 256))).
Definition Z_of_byte (b : byte) : Z := Z.of_N (Byte.to_N b).

Lemma Z_of_byte_range b : (0 <= Z_of_byte b < 256)%Z.
Proof.
  unfold Z_of_byte. pose proof (Byte.to_N_bounded b). lia.
Qed.

Lemma Z_of_byte_of_Z z : Z_of_byte (byte_of_Z z) = (z mod 256)%Z.
Proof.
  unfold Z_of_byte, byte_of_Z.
  pose proof (Z.mod_pos_bound z 256 ltac:(lia)) as Hb.
  destruct (Byte.of_N (Z.to_N (z mod 256))) as [b|] eqn:E; simpl.
  - apply Byte.to_of_N in E. rewrite E. rewrite Z2N.id; lia.
  - apply Byte.of_N_None_iff in E. lia.
Qed.

Lemma byte_of_Z_of_byte b : byte_of_Z (Z_of_byte b) = b.
Proof.
  unfold byte_of_Z. rewrite Z.mod_small by apply Z_of_byte_range.
  unfold Z_of_byte. rewrite N2Z.id, Byte.of_to_N. done.
Qed.

#[global] Instance Z_of_byte_inj : Inj (=) (=) Z_of_byte.
Proof.
  intros a b H. rewrite <- (byte_of_Z_of_byte a), <- (byte_of_Z_of_byte b).
  by rewrite H.
Qed.

(** ** [encoding/binary]: little-endian integers

    [le_put n z] is what [binary.LittleEndian.PutUintNN] stores for an [n]-byte
    integer, [le_get l] what [binary.LittleEndian.UintNN] loads. *)
Fixpoint le_put (n : nat) (z : Z) : bytes :=
  match n with
  | O => []
  | S n' => byte_of_Z z :: le_put n' (z / 256)
  end.

Fixpoint le_get (l : bytes) : Z :=
  match l with
  | [] => 0
  | b :: l' => Z_of_byte b + 256 * le_get l'
  end%Z.

Abbreviation put_u64 := (le_put 8).
Abbreviation put_u32 := (le_put 4).

Lemma length_le_put n z : length (le_put n z) = n.
Proof. revert z; induction n; intros; simpl; auto. Qed.

Lemma le_get_bound l : (0 <= le_get l < 256 ^ Z.of_nat (length l))%Z.
Proof.
  induction l as [|b l IH]; cbn [le_get length]; [lia|].
  pose proof (Z_of_byte_range b).
  rewrite Nat2Z.inj_succ, Z.pow_succ_r by lia. lia.
Qed.

Lemma le_get_put n z : le_get (le_put n z) = (z mod 256 ^ Z.of_nat n)%Z.
Proof.
  revert z; induction n as [|n IH]; intros z; cbn [le_get le_put].
  { by rewrite Z.mod_1_r. }
  rewrite IH, Z_of_byte_of_Z, Nat2Z.inj_succ, Z.pow_succ_r by lia.
  assert (0 < 256 ^ Z.of_nat n)%Z by (apply Z.pow_pos_nonneg; lia).
  rewrite Z.rem_mul_r by lia. lia.
Qed.

Lemma le_put_get l : le_put (length l) (le_get l) = l.
Proof.
  induction l as [|b l IH]; cbn [le_get le_put length]; [done|].
  pose proof (Z_of_byte_range b).
  f_equal.
  - unfold byte_of_Z.
    rewrite Z.mul_comm, Z_mod_plus_full.
    apply byte_of_Z_of_byte.
  - rewrite Z.mul_comm, Z.div_add by lia.
    rewrite Z.div_small by lia. apply IH.
Qed.

Lemma le_put_get' n l : length l = n → le_put n (le_get l) = l.
Proof. intros <-. apply le_put_get. Qed.

Lemma le_get_put_u64 z : is_u64 z → le_get (put_u64 z) = z.
Proof. intros H. rewrite le_get_put. apply Z.mod_small. exact H. Qed.

Lemma le_get_put_u32 z : is_u32 z → le_get (put_u32 z) = z.
Proof. intros H. rewrite le_get_put. apply Z.mod_small. exact H. Qed.

Lemma le_get_u64_range l : length l = 8 → is_u64 (le_get l).
Proof. intros H. pose proof (le_get_bound l) as B. by rewrite H in B. Qed.

Lemma le_get_u32_range l : length l = 4 → is_u32 (le_get l).
Proof. intros H. pose proof (le_get_bound l) as B. by rewrite H in B. Qed.

Lemma le_get_inj l1 l2 : length l1 = length l2 → le_get l1 = le_get l2 → l1 = l2.
Proof.
  intros Hl H. rewrite <- (le_put_get l1), <- (le_put_get l2). by rewrite Hl, H.
Qed.

Lemma le_get_snoc l b : le_get (l ++ [b]) = (le_get l + 256 ^ Z.of_nat (length l) * Z_of_byte b)%Z.
Proof.
  induction l as [|x l IH]; cbn [app le_get length]; [lia|].
  rewrite IH, Nat2Z.inj_succ, Z.pow_succ_r by lia. lia.
Qed.

#[global] Arguments le_put : simpl never.
#[global] Arguments le_get : simpl never.

#[export] Hint Rewrite length_le_put : go.
#[export] Hint Resolve le_get_u64_range le_get_u32_range u64_range : go_bounds.

(** ** Go strings

    A Go string is an immutable byte sequence; so is a Rocq [string]. *)
Definition string_bytes (s : string) : bytes := String.list_byte_of_string s.
Definition bytes_string (l : bytes) : string := String.string_of_list_byte l.

Lemma bytes_string_bytes s : bytes_string (string_bytes s) = s.
Proof. apply String.string_of_list_byte_of_string. Qed.

Lemma string_bytes_string l : string_bytes (bytes_string l) = l.
Proof. apply String.list_byte_of_string_of_list_byte. Qed.

Lemma string_bytes_nil s : string_bytes s = [] ↔ s = ""%string.
Proof. destruct s; simpl; [done|]. by split. Qed.

#[global] Instance string_bytes_inj : Inj (=) (=) string_bytes.
Proof.
  intros a b H. by rewrite <- (bytes_string_bytes a), <- (bytes_string_bytes b), H.
Qed.

#[global] Instance string_append_assoc : Assoc (=) String.append.
Proof. intros a b c. induction a as [|x a IH]; [done|]. exact (f_equal (String x) IH). Qed.

(** ** Errors *)
Inductive error :=
| ErrIO                                  (* a failed system call *)
| ErrNotExist                            (* os.ErrNotExist *)
| ErrExist                               (* os.ErrExist *)
| ErrEOF                                 (* io.EOF *)
| ErrUnexpectedEOF                       (* io.ErrUnexpectedEOF *)
| ErrNew (msg : string)                  (* errors.New *)
| ErrFmt (msg : string) (args : list Z)  (* fmt.Errorf without %w *)
| ErrWrap (msg : string) (e : error).    (* fmt.Errorf with %w *)

#[global] Instance error_eq_dec : EqDecision error.
Proof. solve_decision. Defined.

(** The [any] values that flow through the program: [nil], [struct{}{}] and the
    results a state machine returns. *)
Inductive any := AnyNil | AnyUnit | AnyBool (b : bool) | AnyBytes (l : bytes).

#[global] Instance any_eq_dec : EqDecision any.
Proof. solve_decision. Defined.

(** ** Lists *)
Lemma take_app_exact {A} (l k : list A) n : length l = n → take n (l ++ k) = l.
Proof. intros <-. by rewrite take_app_length. Qed.

Lemma drop_app_exact {A} (l k : list A) n : length l = n → drop n (l ++ k) = k.
Proof. intros <-. by rewrite drop_app_length. Qed.

Lemma filter_all {A} (P : A → Prop) `{∀ x, Decision (P x)} (l : list A) : Forall P l → filter P l = l.
Proof. induction 1 as [|x l Hx Hl IH]; [done|]. by rewrite list.filter_cons_True, IH. Qed.

Lemma take_drop_split {A} n (l : list A) : l = take n l ++ drop n l.
Proof. by rewrite take_drop. Qed.

(** ** Tactics *)

(** Split a boolean comparison of the program into the facts [lia] uses. *)
Ltac zbool :=
  repeat match goal with
  | H : (_ <? _)%Z = true |- _ => apply Z.ltb_lt in H
  | H : (_ <? _)%Z = false |- _ => apply Z.ltb_ge in H
  | H : (_ <=? _)%Z = true |- _ => apply Z.leb_le in H
  | H : (_ <=? _)%Z = false |- _ => apply Z.leb_gt in H
  | H : (_ =? _)%Z = true |- _ => apply Z.eqb_eq in H
  | H : (_ =? _)%Z = false |- _ => apply Z.eqb_neq in H
  | H : (_ && _) = true |- _ => apply andb_true_iff in H; destruct H
  | H : (_ || _) = false |- _ => apply orb_false_iff in H; destruct H
  | H : negb _ = true |- _ => apply negb_true_iff in H
  | H : negb _ = false |- _ => apply negb_false_iff in H
  end.

(** Case on the innermost scrutinee of the goal, keeping the equation. *)
Ltac split_match :=
  match goal with
  | |- context [match ?x with _ => _ end] =>
      lazymatch x with
      | context [match _ with _ => _ end] => fail
      | _ => destruct x eqn:?
      end
  end.

Ltac split_match_in H :=
  match type of H with
  | context [match ?x with _ => _ end] =>
      lazymatch x with
      | context [match _ with _ => _ end] => fail
      | _ => destruct x eqn:?
      end
  end.
