(* ===== verification/GoMonad.v ===== *)
(** * The effects of the Go code: state, panics and bounded recursion

    A Go function that mutates shared state is a computation [GoM S A]: from a
    state to an outcome and the state it leaves behind.  A panic keeps the state
    reached so far, as in Go, where the deferred [Unlock] runs but nothing is
    rolled back.  [OutOfFuel] marks a recursion that has not returned within the
    given depth.  The notations [x ← m; k] and [m;; k] are stdpp's. *)
From S2P Require Import Prelude.

Inductive outcome (A : Type) :=
| Ret (a : A)
| Panic (msg : string)
| OutOfFuel.
Arguments Ret {A} a.
Arguments Panic {A} msg.
Arguments OutOfFuel {A}.

Definition GoM (S A : Type) : Type := S → outcome A * S.

#[global] Instance GoM_ret S : MRet (GoM S) := λ A a s, (Ret a, s).
#[global] Instance GoM_bind S : MBind (GoM S) := λ A B f m s,
  match m s with
  | (Ret a, s') => f a s'
  | (Panic e, s') => (Panic e, s')
  | (OutOfFuel, s') => (OutOfFuel, s')
  end.

Definition gets {S A} (f : S → A) : GoM S A := λ s, (Ret (f s), s).
Definition modify {S} (f : S → S) : GoM S unit := λ s, (Ret tt, f s).
Definition go_panic {S A} (msg : string) : GoM S A := λ s, (Panic msg, s).
Definition out_of_fuel {S A} : GoM S A := λ s, (OutOfFuel, s).

Definition when {S} (b : bool) (m : GoM S unit) : GoM S unit :=
  if b then m else mret tt.

(** [for _, x := range l { f(x) }] *)
Fixpoint go_each {S A} (f : A → GoM S unit) (l : list A) : GoM S unit :=
  match l with
  | [] => mret tt
  | x :: l' => f x;; go_each f l'
  end.

(** [defer func() { if r := recover(); r != nil { handler } }()] *)
Definition recovering {S} (m : GoM S unit) (handler : GoM S unit) : GoM S unit := λ s,
  match m s with
  | (Panic _, s') => handler s'
  | r => r
  end.

(** Run a computation on a part of the state. *)
Definition zoom {S T A} (get : S → T) (put : T → S → S) (m : GoM T A) : GoM S A :=
  λ s, let '(r, t) := m (get s) in (r, put t s).

(** [if err := m; err != nil { cleanup; return fmt.Errorf(ctx, err) }; k] *)
Definition go_try {S} (ctx : string) (cleanup : GoM S unit)
    (m k : GoM S (option error)) : GoM S (option error) :=
  err ← m;
  match err with
  | Some e => cleanup;; mret (Some (ErrWrap ctx e))
  | None => k
  end.

(** ** Running *)
Section run.
Context {S : Type}.

Lemma bind_run {A B} (m : GoM S A) (f : A → GoM S B) s :
  (m ≫= f) s = match m s with
               | (Ret a, s') => f a s'
               | (Panic e, s') => (Panic e, s')
               | (OutOfFuel, s') => (OutOfFuel, s')
               end.
Proof. done. Qed.

Lemma bind_ret_run {A B} (m : GoM S A) (f : A → GoM S B) s a s' :
  m s = (Ret a, s') → (m ≫= f) s = f a s'.
Proof. intros H. by rewrite bind_run, H. Qed.

Lemma bind_inv {A B} (m : GoM S A) (f : A → GoM S B) s b s' :
  (m ≫= f) s = (Ret b, s') → ∃ a s1, m s = (Ret a, s1) ∧ f a s1 = (Ret b, s').
Proof. rewrite bind_run. intros H. repeat case_match; simplify_eq; eauto. Qed.
End run.

(** ** Transition relations of computations

    [moves R m]: whatever state [m] starts in and however it ends (return,
    panic, exhausted fuel), the state it leaves is related to the first by [R].
    For a preorder [R] the property follows the structure of the code. *)
Definition moves {S A} (R : relation S) (m : GoM S A) : Prop :=
  ∀ s, R s (m s).2.

Lemma moves_run {S A} (R : relation S) (m : GoM S A) s r s' : moves R m → m s = (r, s') → R s s'.
Proof. intros Hm E. specialize (Hm s). by rewrite E in Hm. Qed.

Create HintDb moves.

Section moves.
Context {S : Type} (R : relation S) `{!PreOrder R}.

Lemma moves_ret {A} (a : A) : moves R (mret a : GoM S A).
Proof. intros s. reflexivity. Qed.

Lemma moves_gets {A} (f : S → A) : moves R (gets f).
Proof. intros s. reflexivity. Qed.

Lemma moves_panic {A} msg : moves R (go_panic msg : GoM S A).
Proof. intros s. reflexivity. Qed.

Lemma moves_fuel {A} : moves R (out_of_fuel : GoM S A).
Proof. intros s. reflexivity. Qed.

Lemma moves_modify f : (∀ s, R s (f s)) → moves R (modify f).
Proof. intros H s. apply H. Qed.

Lemma moves_bind {A B} (m : GoM S A) (f : A → GoM S B) :
  moves R m → (∀ a, moves R (f a)) → moves R (m ≫= f).
Proof.
  intros Hm Hf s. specialize (Hm s). rewrite bind_run.
  destruct (m s) as [[a| |] s'] eqn:E; simpl in *; [|done|done].
  etrans; [exact Hm|]. apply Hf.
Qed.

(** The same at one state, where the first step is known there only. *)
Lemma moves_at_bind {A B} (m : GoM S A) (f : A → GoM S B) s :
  R s (m s).2 → (∀ a, moves R (f a)) → R s ((m ≫= f) s).2.
Proof.
  intros Hm Hf. rewrite bind_run.
  destruct (m s) as [[a| |] s'] eqn:E; simpl in *; [|done|done].
  etrans; [exact Hm|]. apply Hf.
Qed.

Lemma moves_at_gets {A B} (g : S → A) (f : A → GoM S B) s :
  R s (f (g s) s).2 → R s ((gets g ≫= f) s).2.
Proof. done. Qed.

Lemma moves_when b (m : GoM S unit) : moves R m → moves R (when b m).
Proof. destruct b; [done|]. intros _. apply moves_ret. Qed.

Lemma moves_each {A} (f : A → GoM S unit) l :
  (∀ x, moves R (f x)) → moves R (go_each f l).
Proof.
  intros Hf. induction l as [|x l IH]; simpl; [apply moves_ret|].
  apply moves_bind; auto.
Qed.

Lemma moves_recovering (m h : GoM S unit) :
  moves R m → moves R h → moves R (recovering m h).
Proof.
  intros Hm Hh s. unfold recovering. specialize (Hm s).
  destruct (m s) as [[a|e|] s'] eqn:E; simpl in *; try done.
  etrans; [exact Hm|]. apply Hh.
Qed.

Lemma moves_try ctx (c : GoM S unit) (m k : GoM S (option error)) :
  moves R c → moves R m → moves R k → moves R (go_try ctx c m k).
Proof.
  intros Hc Hm Hk. apply moves_bind; [done|]. intros [e|]; [|done].
  apply moves_bind; [done|]. intros. apply moves_ret.
Qed.
End moves.

Lemma moves_zoom {S T A} (R : relation S) (get : S → T) (put : T → S → S)
    (Q : relation T) (m : GoM T A) :
  moves Q m → (∀ s t, Q (get s) t → R s (put t s)) → moves R (zoom get put m).
Proof.
  intros Hm H s. unfold zoom. specialize (Hm (get s)).
  destruct (m (get s)) as [r t]; simpl in *. auto.
Qed.

#[export] Hint Resolve moves_ret moves_gets moves_panic moves_fuel moves_bind
  moves_when moves_each moves_recovering moves_try : moves.

(** Decompose a [moves] goal along the code; leaves the state updates. *)
Ltac moves_step :=
  match goal with
  | |- moves _ (mret _) => apply moves_ret
  | |- moves _ (gets _) => apply moves_gets
  | |- moves _ (go_panic _) => apply moves_panic
  | |- moves _ out_of_fuel => apply moves_fuel
  | |- moves _ (_ ≫= _) => apply moves_bind; [try typeclasses eauto ..|intros ?]
  | |- moves _ (when _ _) => apply moves_when
  | |- moves _ (go_each _ _) => apply moves_each; [try typeclasses eauto ..|intros ?]
  | |- moves _ (recovering _ _) => apply moves_recovering
  | |- moves _ (go_try _ _ _ _) => apply moves_try
  | |- moves _ (match ?x with _ => _ end) => destruct x eqn:?
  | |- moves _ (let '_ := ?x in _) => destruct x eqn:?
  | |- moves _ _ => solve [eauto with moves nocore]
  | |- moves _ (match ?x with _ => _ end _ _ _ _) => destruct x eqn:?
  | |- moves _ (match ?x with _ => _ end _ _ _ _ _) => destruct x eqn:?
  | |- moves _ (match ?x with _ => _ end _ _ _ _ _ _) => destruct x eqn:?
  end.
Ltac moves_auto := repeat (moves_step; try typeclasses eauto).

(** ** Code that settles

    [settles m]: [m] returns or panics, it never runs out of fuel. *)
Definition settles {S A} (m : GoM S A) : Prop := ∀ s, (m s).1 ≠ OutOfFuel.

Create HintDb settles.

Section settles.
Context {S : Type}.

Lemma settles_ret {A} (a : A) : settles (mret a : GoM S A).
Proof. done. Qed.
Lemma settles_gets {A} (f : S → A) : settles (gets f).
Proof. done. Qed.
Lemma settles_modify (f : S → S) : settles (modify f).
Proof. done. Qed.
Lemma settles_panic {A} msg : settles (go_panic msg : GoM S A).
Proof. done. Qed.
Lemma settles_bind {A B} (m : GoM S A) (f : A → GoM S B) :
  settles m → (∀ a, settles (f a)) → settles (m ≫= f).
Proof.
  intros Hm Hf s. specialize (Hm s). rewrite bind_run.
  destruct (m s) as [[a| |] s']; simpl in *; [apply Hf|done|done].
Qed.
Lemma settles_when b (m : GoM S unit) : settles m → settles (when b m).
Proof. by destruct b. Qed.
Lemma settles_each {A} (f : A → GoM S unit) l : (∀ x, settles (f x)) → settles (go_each f l).
Proof. intros Hf. induction l as [|x l IH]; [done|]. by apply settles_bind. Qed.
End settles.

#[export] Hint Resolve settles_ret settles_gets settles_modify settles_panic : settles.

Ltac settles_step :=
  match goal with
  | |- settles (_ ≫= _) => apply settles_bind; [|intros ?]
  | |- settles (when _ _) => apply settles_when
  | |- settles (go_each _ _) => apply settles_each; intros ?
  | |- settles (match ?x with _ => _ end) => destruct x
  | |- settles _ => solve [eauto with settles nocore]
  end.
Ltac settles_auto := repeat settles_step.

(** ** Moving along a relation and knowing where

    [rwp R m s Q]: from [s] the computation moves along [R], and if it returns
    then [Q] holds of the result and the state. *)
Definition rwp {S A} (R : relation S) (m : GoM S A) (s : S) (Q : A → S → Prop) : Prop :=
  R s (m s).2 ∧ ∀ a, (m s).1 = Ret a → Q a (m s).2.

Section rwp.
Context {S : Type} (R : relation S) `{!PreOrder R}.

Lemma rwp_bind {A B} (m : GoM S A) (f : A → GoM S B) s P Q :
  rwp R m s P → (∀ a s', P a s' → rwp R (f a) s' Q) → rwp R (m ≫= f) s Q.
Proof.
  intros [Hm HP] Hf. unfold rwp. rewrite bind_run.
  destruct (m s) as [[a| |] s'] eqn:E; simpl in *; [|done|done].
  destruct (Hf a s') as [Hf1 Hf2]; [by apply HP|]. split; [by etrans|done].
Qed.

Lemma rwp_moves {A} (m : GoM S A) s : moves R m → rwp R m s (λ _ _, True).
Proof. intros Hm. by split. Qed.

Lemma rwp_ret {A} (a : A) s (Q : A → S → Prop) : Q a s → rwp R (mret a) s Q.
Proof. intros HQ. split; [reflexivity|]. by intros ? [= <-]. Qed.

Lemma rwp_gets {A} (f : S → A) s (Q : A → S → Prop) : Q (f s) s → rwp R (gets f) s Q.
Proof. intros HQ. split; [reflexivity|]. by intros ? [= <-]. Qed.

Lemma rwp_conseq {A} (m : GoM S A) s (P Q : A → S → Prop) :
  rwp R m s P → (∀ a s', P a s' → Q a s') → rwp R m s Q.
Proof. intros [Hm HP] HPQ. split; auto. Qed.

(** A first step that is only known to move. *)
Lemma rwp_bind_moves {A B} (m : GoM S A) (f : A → GoM S B) s Q :
  moves R m → (∀ a s', rwp R (f a) s' Q) → rwp R (m ≫= f) s Q.
Proof. intros Hm Hf. eapply rwp_bind; [by apply rwp_moves|]. auto. Qed.
End rwp.

(** ** Weakest preconditions

    [go_wp m s Q]: running [m] from [s] ends with an outcome and a state that
    satisfy [Q].  Since computations are functions this is total correctness up
    to [OutOfFuel], which is an outcome like any other. *)
Definition go_wp {S A} (m : GoM S A) (s : S) (Q : outcome A → S → Prop) : Prop :=
  Q (m s).1 (m s).2.

(** The postcondition of a continuation: it runs after a return, and is skipped
    by a panic. *)
Definition on_ret {S A B} (k : A → S → Prop) (Q : outcome B → S → Prop)
    (r : outcome A) (s : S) : Prop :=
  match r with
  | Ret a => k a s
  | Panic e => Q (Panic e) s
  | OutOfFuel => Q OutOfFuel s
  end.

Section wp.
Context {S : Type}.

Lemma wp_conseq {A} (m : GoM S A) s (P Q : outcome A → S → Prop) :
  go_wp m s P → (∀ r s', P r s' → Q r s') → go_wp m s Q.
Proof. unfold go_wp. auto. Qed.

Lemma wp_run {A} (m : GoM S A) s Q r s' : m s = (r, s') → go_wp m s Q → Q r s'.
Proof. unfold go_wp. by intros ->. Qed.

Lemma wp_exists {A} (m : GoM S A) s Q :
  go_wp m s Q → ∃ r s', m s = (r, s') ∧ Q r s'.
Proof. unfold go_wp. destruct (m s). eauto. Qed.

Lemma wp_ret {A} (a : A) s (Q : outcome A → S → Prop) :
  Q (Ret a) s → go_wp (mret a : GoM S A) s Q.
Proof. done. Qed.

Lemma wp_gets {A} (f : S → A) s (Q : outcome A → S → Prop) :
  Q (Ret (f s)) s → go_wp (gets f) s Q.
Proof. done. Qed.

Lemma wp_modify f s (Q : outcome unit → S → Prop) :
  Q (Ret tt) (f s) → go_wp (modify f) s Q.
Proof. done. Qed.

Lemma wp_bind {A B} (m : GoM S A) (f : A → GoM S B) s Q :
  go_wp m s (on_ret (λ a s', go_wp (f a) s' Q) Q) → go_wp (m ≫= f) s Q.
Proof. unfold go_wp, on_ret. rewrite bind_run. destruct (m s) as [[] ?]; done. Qed.

Lemma wp_try ctx (c : GoM S unit) (m k : GoM S (option error)) s Q :
  go_wp m s
    (on_ret (λ err s', match err with
      | Some e => go_wp c s' (on_ret (λ _ s'', Q (Ret (Some (ErrWrap ctx e))) s'') Q)
      | None => go_wp k s' Q end) Q) →
  go_wp (go_try ctx c m k) s Q.
Proof.
  intros H. apply wp_bind. eapply wp_conseq; [exact H|].
  intros [[e|]| |] s'; simpl; try done. intros Hc. by apply wp_bind.
Qed.
End wp.

Lemma wp_zoom {S T A} (get : S → T) (put : T → S → S) (m : GoM T A) s Q :
  go_wp m (get s) (λ r t, Q r (put t s)) → go_wp (zoom get put m) s Q.
Proof. unfold go_wp, zoom. by destruct (m (get s)). Qed.

Lemma wp_moves {S A} (R : relation S) (m : GoM S A) s :
  moves R m → go_wp m s (λ _ s', R s s').
Proof. intros H. apply H. Qed.

Ltac wp_step :=
  match goal with
  | |- on_ret _ _ (Ret _) _ => cbv beta iota delta [on_ret]
  | |- go_wp (mret _) _ _ => apply wp_ret; unfold on_ret
  | |- go_wp (gets _) _ _ => apply wp_gets; unfold on_ret
  | |- go_wp (modify _) _ _ => apply wp_modify; unfold on_ret
  | |- go_wp (go_try _ _ _ _) _ _ => apply wp_try
  | |- go_wp (_ ≫= _) _ _ => apply wp_bind
  | |- go_wp (zoom _ _ _) _ _ => apply wp_zoom
  end.
