(* ===== verification/FileSystem.v ===== *)
(** * The file operations of package [os]

    Two images of the directory: what a running process sees ([fs_cur]) and
    which directory entries are on stable storage ([fs_dur]).  A file carries
    its bytes and whether they have been flushed.  Every system call consults an
    arbitrary outcome stream [fs_io], so a theorem about all streams covers
    every combination of failing calls; a crash at some point of a function is
    the run in which every later call fails, since a failed call has no effect
    beyond the bytes a short write may leave. *)
From S2P Require Import Prelude GoMonad.

Record File := mkFile { f_data : bytes; f_synced : bool }.

Inductive io_outcome :=
| IoOk
| IoFail (e : error) (k : nat).  (* a write may have stored [k] bytes *)

Record Fs := mkFs {
  fs_cur : gmap string File;
  fs_dur : gmap string File;
  fs_io : nat → io_outcome;
  fs_clock : nat
}.

Definition set_fs_cur (m : gmap string File) (fs : Fs) : Fs :=
  mkFs m (fs_dur fs) (fs_io fs) (fs_clock fs).
Definition set_fs_dur (m : gmap string File) (fs : Fs) : Fs :=
  mkFs (fs_cur fs) m (fs_io fs) (fs_clock fs).

(** One system call: take the next outcome. *)
Definition syscall : GoM Fs io_outcome := λ fs,
  (Ret (fs_io fs (fs_clock fs)),
   mkFs (fs_cur fs) (fs_dur fs) (fs_io fs) (S (fs_clock fs))).

Definition sys_unit (f : Fs → Fs) : GoM Fs (option error) :=
  o ← syscall;
  match o with
  | IoOk => modify f;; mret None
  | IoFail e _ => mret (Some e)
  end.

Definition os_MkdirAll (dir : string) : GoM Fs (option error) := sys_unit id.

(** [os.OpenFile(name, O_CREATE|O_TRUNC|O_WRONLY, _)] *)
Definition os_OpenTrunc (name : string) : GoM Fs (option error) :=
  sys_unit (λ fs, set_fs_cur (<[name := mkFile [] false]> (fs_cur fs)) fs).

Definition append_file (name : string) (l : bytes) (fs : Fs) : Fs :=
  set_fs_cur (alter (λ f, mkFile (f_data f ++ l) false) name (fs_cur fs)) fs.

Definition file_Write (name : string) (l : bytes) : GoM Fs (option error) :=
  o ← syscall;
  match o with
  | IoOk => modify (append_file name l);; mret None
  | IoFail e k => modify (append_file name (take k l));; mret (Some e)
  end.

Definition file_Sync (name : string) : GoM Fs (option error) :=
  sys_unit (λ fs, set_fs_cur (alter (λ f, mkFile (f_data f) true) name (fs_cur fs)) fs).

Definition file_Close (name : string) : GoM Fs (option error) := sys_unit id.

Definition os_Rename (old new : string) : GoM Fs (option error) :=
  sys_unit (λ fs,
    match fs_cur fs !! old with
    | Some f => set_fs_cur (<[new := f]> (delete old (fs_cur fs))) fs
    | None => fs
    end).

(** Open a directory, flush its entries, close it; the callers ignore every
    error of the last two. *)
Definition dir_OpenSyncClose (dir : string) : GoM Fs unit :=
  err ← sys_unit id;
  match err with
  | Some _ => mret tt
  | None => _ ← sys_unit (λ fs, set_fs_dur (fs_cur fs) fs); _ ← sys_unit id; mret tt
  end.

(** [os.Open] for reading: the bytes still to be read stand for the handle. *)
Definition os_Open (name : string) : GoM Fs (error + bytes) :=
  o ← syscall;
  match o with
  | IoFail e _ => mret (inl e)
  | IoOk =>
      c ← gets (λ fs, fs_cur fs !! name);
      mret (match c with Some f => inr (f_data f) | None => inl ErrNotExist end)
  end.

(** [io.ReadFull] with a buffer of [n] bytes ([binary.Read] of an [n]-byte
    integer does the same): the bytes read and the rest. *)
Definition io_ReadFull (n : nat) (rest : bytes) : GoM Fs (error + bytes * bytes) :=
  match n with
  | O => mret (inr ([], rest))
  | _ =>
      o ← syscall;
      match o with
      | IoFail e _ => mret (inl e)
      | IoOk =>
          mret (match rest with
                | [] => inl ErrEOF
                | _ => if (n <=? length rest)%nat
                       then inr (take n rest, drop n rest)
                       else inl ErrUnexpectedEOF
                end)
      end
  end.

Definition os_IsNotExist (e : error) : bool := bool_decide (e = ErrNotExist).

Fixpoint errors_Is (e target : error) : bool :=
  bool_decide (e = target)
  || match e with ErrWrap _ e' => errors_Is e' target | _ => false end.

(** ** Crashes

    What a name may hold after a power failure: the entry of either directory
    image, with its bytes if they were flushed and anything otherwise. *)
Definition crash_content (fs : Fs) (name : string) (o : option bytes) : Prop :=
  ∃ image, (image = fs_cur fs ∨ image = fs_dur fs) ∧
    match image !! name with
    | None => o = None
    | Some f => if f_synced f then o = Some (f_data f) else True
    end.

(** No system call of the stream from now on fails. *)
Definition io_reliable (fs : Fs) : Prop := ∀ n, fs_clock fs ≤ n → fs_io fs n = IoOk.

(** ** Replacing a file through a temporary one *)
Definition tmp_of (name : string) : string := name +:+ ".tmp".

Lemma tmp_ne (name : string) : tmp_of name ≠ name.
Proof.
  unfold tmp_of. induction name as [|c n IH]; simpl; [done|]. intros [= H]. auto.
Qed.

(** Only the temporary file differs, and nothing became durable. *)
Definition only_tmp (name : string) (fs fs' : Fs) : Prop :=
  fs_dur fs' = fs_dur fs
  ∧ ∀ n, n ≠ tmp_of name → fs_cur fs' !! n = fs_cur fs !! n.

(** The same, and the temporary file holds [c]. *)
Definition tmp_holds (name : string) (fs : Fs) (c : bytes) (synced : bool) (fs' : Fs) : Prop :=
  only_tmp name fs fs' ∧ fs_cur fs' !! tmp_of name = Some (mkFile c synced).

(** The name was replaced by a flushed file. *)
Definition replaced (name : string) (content : bytes) (fs fs' : Fs) : Prop :=
  fs_cur fs' !! name = Some (mkFile content true)
  ∧ (∀ n, n ≠ name → n ≠ tmp_of name → fs_cur fs' !! n = fs_cur fs !! n)
  ∧ (fs_dur fs' = fs_dur fs ∨ fs_dur fs' = fs_cur fs').

Lemma replaced_crash name c fs fs' o :
  replaced name c fs fs' → crash_content fs' name o →
  crash_content fs name o ∨ o = Some c.
Proof.
  intros (Hc & _ & Hd) (img & [-> | ->] & H).
  - rewrite Hc in H. by right.
  - destruct Hd as [Hd|Hd]; rewrite Hd in H.
    + left. exists (fs_dur fs). auto.
    + rewrite Hc in H. by right.
Qed.

Lemma only_tmp_crash name fs fs' o :
  only_tmp name fs fs' → crash_content fs' name o → crash_content fs name o.
Proof.
  intros (Hd & Hc) (img & [-> | ->] & H).
  - rewrite Hc in H by (apply not_eq_sym, tmp_ne). exists (fs_cur fs). auto.
  - rewrite Hd in H. exists (fs_dur fs). auto.
Qed.

#[export] Instance only_tmp_preorder name : PreOrder (only_tmp name).
Proof.
  split.
  - intros fs. by split.
  - intros x y z [H1 H2] [H3 H4]. split; [congruence|].
    intros n Hn. rewrite H4 by done. auto.
Qed.

(** Specifications of the calls on the way: success advances the temporary
    file, failure leaves everything else alone. *)
Section atomic_replace.
Context (name : string) (fs0 : Fs).

Lemma wp_sys_unit f fs (Q : outcome (option error) → Fs → Prop) :
  (∀ n, Q (Ret None) (f (mkFs (fs_cur fs) (fs_dur fs) (fs_io fs) n))) →
  (∀ e n, Q (Ret (Some e)) (mkFs (fs_cur fs) (fs_dur fs) (fs_io fs) n)) →
  go_wp (sys_unit f) fs Q.
Proof.
  intros H1 H2. unfold go_wp, sys_unit. rewrite bind_run. simpl.
  destruct (fs_io fs (fs_clock fs)) as [|e k]; simpl; auto.
Qed.

Lemma wp_MkdirAll d fs (Q : outcome (option error) → Fs → Prop) :
  only_tmp name fs0 fs →
  (∀ err fs', only_tmp name fs0 fs' → Q (Ret err) fs') →
  go_wp (os_MkdirAll d) fs Q.
Proof. intros [H1 H2] H. apply wp_sys_unit; intros; apply H; by split. Qed.

Lemma wp_OpenTrunc fs (Q : outcome (option error) → Fs → Prop) :
  only_tmp name fs0 fs →
  (∀ fs', tmp_holds name fs0 [] false fs' → Q (Ret None) fs') →
  (∀ e fs', only_tmp name fs0 fs' → Q (Ret (Some e)) fs') →
  go_wp (os_OpenTrunc (tmp_of name)) fs Q.
Proof.
  intros [H1 H2] Hok Hfail. apply wp_sys_unit; intros.
  - apply Hok. split; [split|]; simpl; [done| |apply lookup_insert_eq].
    intros m Hm. rewrite lookup_insert_ne by done. auto.
  - apply Hfail. by split.
Qed.

Lemma append_tmp c b l fs n :
  tmp_holds name fs0 c b fs →
  tmp_holds name fs0 (c ++ l) false
    (append_file (tmp_of name) l (mkFs (fs_cur fs) (fs_dur fs) (fs_io fs) n)).
Proof.
  intros [[H1 H2] H3]. split; [split|]; simpl; [done| |].
  - intros m Hm. rewrite lookup_alter_ne by done. auto.
  - by rewrite lookup_alter_eq, H3.
Qed.

Lemma wp_file_Write c b l fs (Q : outcome (option error) → Fs → Prop) :
  tmp_holds name fs0 c b fs →
  (∀ fs', tmp_holds name fs0 (c ++ l) false fs' → Q (Ret None) fs') →
  (∀ e fs', only_tmp name fs0 fs' → Q (Ret (Some e)) fs') →
  go_wp (file_Write (tmp_of name) l) fs Q.
Proof.
  intros H Hok Hfail. unfold go_wp, file_Write. rewrite bind_run. simpl.
  destruct (fs_io fs (fs_clock fs)) as [|e k]; simpl.
  - by apply Hok, append_tmp with b.
  - apply Hfail, (append_tmp c b (take k l)), H.
Qed.

Lemma wp_file_Sync c b fs (Q : outcome (option error) → Fs → Prop) :
  tmp_holds name fs0 c b fs →
  (∀ fs', tmp_holds name fs0 c true fs' → Q (Ret None) fs') →
  (∀ e fs', only_tmp name fs0 fs' → Q (Ret (Some e)) fs') →
  go_wp (file_Sync (tmp_of name)) fs Q.
Proof.
  intros [[H1 H2] H3] Hok Hfail. apply wp_sys_unit; intros.
  - apply Hok. split; [split|]; simpl; [done| |].
    + intros m Hm. rewrite lookup_alter_ne by done. auto.
    + by rewrite lookup_alter_eq, H3.
  - apply Hfail. by split.
Qed.

Lemma wp_file_Close c b fs (Q : outcome (option error) → Fs → Prop) :
  tmp_holds name fs0 c b fs →
  (∀ fs', tmp_holds name fs0 c b fs' → Q (Ret None) fs') →
  (∀ e fs', only_tmp name fs0 fs' → Q (Ret (Some e)) fs') →
  go_wp (file_Close (tmp_of name)) fs Q.
Proof.
  intros [[H1 H2] H3] Hok Hfail. apply wp_sys_unit; intros;
    [apply Hok|apply Hfail]; by repeat split.
Qed.

Lemma wp_file_Close_tmp fs (Q : outcome (option error) → Fs → Prop) :
  only_tmp name fs0 fs →
  (∀ err fs', only_tmp name fs0 fs' → Q (Ret err) fs') →
  go_wp (file_Close (tmp_of name)) fs Q.
Proof. intros [H1 H2] H. apply wp_sys_unit; intros; apply H; by split. Qed.

Lemma wp_Rename c fs (Q : outcome (option error) → Fs → Prop) :
  tmp_holds name fs0 c true fs →
  (∀ fs', replaced name c fs0 fs' → fs_dur fs' = fs_dur fs0 → Q (Ret None) fs') →
  (∀ e fs', only_tmp name fs0 fs' → Q (Ret (Some e)) fs') →
  go_wp (os_Rename (tmp_of name) name) fs Q.
Proof.
  intros [[H1 H2] H3] Hok Hfail. apply wp_sys_unit; intros.
  - simpl. rewrite H3. apply Hok; [|done].
    split; [|split]; simpl; [apply lookup_insert_eq| |by left].
    intros m Hm Ht. rewrite lookup_insert_ne, lookup_delete_ne by done. auto.
  - apply Hfail. by split.
Qed.

Lemma wp_dir_sync d c fs (Q : outcome unit → Fs → Prop) :
  replaced name c fs0 fs →
  (∀ fs', replaced name c fs0 fs' → Q (Ret tt) fs') →
  go_wp (dir_OpenSyncClose d) fs Q.
Proof.
  intros H Hok. unfold dir_OpenSyncClose.
  assert (∀ n, replaced name c fs0 (mkFs (fs_cur fs) (fs_dur fs) (fs_io fs) n)) as Hn
    by (intros; exact H).
  apply wp_bind, wp_sys_unit; intros; simpl; [|by apply wp_ret, Hok].
  apply wp_bind, wp_sys_unit; intros; simpl;
    apply wp_bind, wp_sys_unit; intros; apply wp_ret, Hok.
  all: try exact H.
  all: destruct H as (Ha & Hb & _); repeat split; auto.
Qed.
End atomic_replace.

(** ** Calls that cannot fail, and calls that cannot succeed *)
Definition call_ok (m : GoM Fs (option error)) : Prop :=
  ∀ fs, io_reliable fs → ∃ fs', m fs = (Ret None, fs') ∧ io_reliable fs'.

Definition keeps_io (f : Fs → Fs) : Prop :=
  ∀ fs, fs_io (f fs) = fs_io fs ∧ fs_clock (f fs) = fs_clock fs.

Lemma sys_unit_ok f : keeps_io f → call_ok (sys_unit f).
Proof.
  intros Hf fs Hr. unfold sys_unit. rewrite bind_run. cbn [syscall]. rewrite Hr by done.
  eexists. split; [reflexivity|]. intros n Hn. destruct (Hf (mkFs (fs_cur fs) (fs_dur fs) (fs_io fs) (S (fs_clock fs)))) as [-> Hc].
  rewrite Hc in Hn. apply Hr. simpl in Hn. lia.
Qed.

Lemma file_Write_ok name l : call_ok (file_Write name l).
Proof.
  intros fs Hr. unfold file_Write. rewrite bind_run. cbn [syscall]. rewrite Hr by done.
  eexists. split; [reflexivity|]. intros n Hn. apply Hr. simpl in Hn. lia.
Qed.

Lemma os_Rename_ok old new : call_ok (os_Rename old new).
Proof. apply sys_unit_ok. intros fs. by destruct (fs_cur fs !! old). Qed.

Lemma dir_sync_ok dir fs : io_reliable fs →
  ∃ fs', dir_OpenSyncClose dir fs = (Ret tt, fs') ∧ io_reliable fs'.
Proof.
  intros Hr. unfold dir_OpenSyncClose.
  destruct (sys_unit_ok id) with (fs := fs) as (f1 & E1 & R1); [done|done|].
  destruct (sys_unit_ok (λ fs, set_fs_dur (fs_cur fs) fs)) with (fs := f1) as (f2 & E2 & R2); [done|done|].
  destruct (sys_unit_ok id) with (fs := f2) as (f3 & E3 & R3); [done|done|].
  exists f3. by rewrite (bind_ret_run _ _ _ _ _ E1), (bind_ret_run _ _ _ _ _ E2), (bind_ret_run _ _ _ _ _ E3).
Qed.

(** Every system call fails, now and later. *)
Definition io_broken (fs : Fs) : Prop := ∀ n, fs_io fs n = IoFail ErrIO 0.

(** ** Reading without failures *)
Lemma reliable_tick fs : io_reliable fs →
  io_reliable (mkFs (fs_cur fs) (fs_dur fs) (fs_io fs) (S (fs_clock fs))).
Proof. intros H n Hn. apply H. simpl in Hn. lia. Qed.

Lemma wp_os_Open name fs (Q : outcome (error + bytes) → Fs → Prop) :
  io_reliable fs →
  (∀ fs', io_reliable fs' → fs_cur fs' = fs_cur fs → fs_dur fs' = fs_dur fs →
     Q (Ret (match fs_cur fs !! name with Some f => inr (f_data f) | None => inl ErrNotExist end)) fs') →
  go_wp (os_Open name) fs Q.
Proof.
  intros Hr HQ. pose proof (reliable_tick _ Hr) as Hr'.
  unfold os_Open. apply wp_bind. unfold go_wp at 1, syscall. simpl.
  rewrite Hr by done. apply wp_bind, wp_gets. simpl. apply wp_ret. by apply HQ.
Qed.

Lemma wp_io_ReadFull n l k fs (Q : outcome (error + bytes * bytes) → Fs → Prop) :
  io_reliable fs → length l = n →
  (∀ fs', io_reliable fs' → fs_cur fs' = fs_cur fs → fs_dur fs' = fs_dur fs →
     Q (Ret (inr (l, k))) fs') →
  go_wp (io_ReadFull n (l ++ k)) fs Q.
Proof.
  intros Hr Hn HQ. pose proof (reliable_tick _ Hr) as Hr'.
  destruct n as [|n]; cbn [io_ReadFull].
  { destruct l; [|done]. by apply wp_ret, HQ. }
  apply wp_bind. unfold go_wp at 1, syscall. cbn [fst snd on_ret]. rewrite Hr by done.
  apply wp_ret. destruct (l ++ k) as [|b r] eqn:E.
  { destruct l; [done|done]. }
  rewrite <- E, length_app. destruct (Nat.leb_spec (S n) (length l + length k)); [|lia].
  rewrite take_app_exact, drop_app_exact by done. by apply HQ.
Qed.

(** Reading with failures: an error, or the first [n] bytes and the rest. *)
Lemma wp_io_ReadFull_any n rest fs (Q : outcome (error + bytes * bytes) → Fs → Prop) :
  (∀ e fs', Q (Ret (inl e)) fs') →
  (∀ fs', (n <= length rest)%nat → Q (Ret (inr (take n rest, drop n rest))) fs') →
  go_wp (io_ReadFull n rest) fs Q.
Proof.
  intros He Hok. destruct n as [|n]; cbn [io_ReadFull].
  { apply wp_ret, (Hok fs). lia. }
  apply wp_bind. unfold go_wp at 1, syscall. cbn [fst snd on_ret].
  destruct (fs_io fs (fs_clock fs)); apply wp_ret; [|done].
  destruct rest as [|b r] eqn:E; [done|]. rewrite <- E in *.
  destruct (Nat.leb_spec (S n) (length rest)); auto.
Qed.
