(* ===== verification/Checksum.v ===== *)
(** * Checksums and hashes of the Go standard library

    [hash/crc32] (IEEE polynomial, used by the log-entry and the snapshot
    formats) and [hash/fnv] (64-bit FNV-1a, used by the counter) as executable
    functions on bytes, with the algebra the formats rely on: the CRC register
    update is a bijection in the register and in the byte, so changing one byte
    of a message always changes its checksum. *)
From S2P Require Import Prelude.
Local Open Scope Z_scope.

(** One shift of the reflected CRC register; 0xEDB88320 is the reflected IEEE
    polynomial. *)
Definition crc_round (c : Z) : Z :=
  if Z.odd c then Z.lxor (Z.shiftr c 1) 3988292384 else Z.shiftr c 1.

Definition crc_byte (c : Z) (b : byte) : Z :=
  Nat.iter 8 crc_round (Z.lxor c (Z_of_byte b)).

Definition crc_update (c : Z) (l : bytes) : Z := foldl crc_byte c l.

(** [crc32.ChecksumIEEE] *)
Definition ChecksumIEEE (l : bytes) : Z :=
  Z.lxor (crc_update 4294967295 l) 4294967295.

(** [fnv.New64a], [Write] and [Sum64] *)
Definition fnv64a (l : bytes) : Z :=
  foldl (λ h b, u64 (Z.lxor h (Z_of_byte b) * 1099511628211))
    14695981039346656037 l.

Example ChecksumIEEE_check_value :
  ChecksumIEEE (string_bytes "123456789") = 3421780262.
Proof. vm_compute. reflexivity. Qed.

Example fnv64a_check_value : fnv64a (string_bytes "a") = 12638187200555641996.
Proof. vm_compute. reflexivity. Qed.

(** ** Ranges *)
Lemma lxor_u32 a b : is_u32 a → is_u32 b → is_u32 (Z.lxor a b).
Proof.
  unfold is_u32. intros Ha Hb. split.
  { apply Z.lxor_nonneg. lia. }
  destruct (decide (Z.lxor a b = 0)) as [->|Hn]; [lia|].
  apply (Z.log2_lt_pow2 _ 32); [assert (0 <= Z.lxor a b) by (apply Z.lxor_nonneg; lia); lia|].
  pose proof (Z.log2_lxor a b ltac:(lia) ltac:(lia)).
  assert (Z.log2 a < 32).
  { destruct (decide (a = 0)) as [->|]; [done|]. apply Z.log2_lt_pow2; lia. }
  assert (Z.log2 b < 32).
  { destruct (decide (b = 0)) as [->|]; [done|]. apply Z.log2_lt_pow2; lia. }
  lia.
Qed.

Lemma shiftr1_u32 c : is_u32 c → is_u32 (Z.shiftr c 1).
Proof.
  unfold is_u32. intros. rewrite Z.shiftr_div_pow2 by lia.
  change (2 ^ 1) with 2. split; [apply Z.div_pos; lia|].
  apply Z.div_lt_upper_bound; lia.
Qed.

Lemma Z_of_byte_u32 b : is_u32 (Z_of_byte b).
Proof. pose proof (Z_of_byte_range b). unfold is_u32. lia. Qed.

Lemma crc_round_u32 c : is_u32 c → is_u32 (crc_round c).
Proof.
  intros. unfold crc_round. destruct (Z.odd c); [apply lxor_u32|];
    auto using shiftr1_u32. unfold is_u32; lia.
Qed.

Lemma iter_round_u32 n c : is_u32 c → is_u32 (Nat.iter n crc_round c).
Proof. intros. induction n; simpl; auto using crc_round_u32. Qed.

Lemma crc_byte_u32 c b : is_u32 c → is_u32 (crc_byte c b).
Proof. intros. apply iter_round_u32, lxor_u32; auto using Z_of_byte_u32. Qed.

Lemma crc_update_u32 l c : is_u32 c → is_u32 (crc_update c l).
Proof.
  revert c; induction l as [|b l IH]; intros c Hc; simpl; [done|].
  apply IH, crc_byte_u32, Hc.
Qed.

Lemma ChecksumIEEE_u32 l : is_u32 (ChecksumIEEE l).
Proof. apply lxor_u32; [apply crc_update_u32|]; unfold is_u32; lia. Qed.

(** ** Injectivity *)
Lemma lxor_cancel_r a b c : Z.lxor a c = Z.lxor b c → a = b.
Proof.
  intros H. rewrite <- (Z.lxor_0_r a), <- (Z.lxor_0_r b).
  rewrite <- (Z.lxor_nilpotent c), <- !Z.lxor_assoc. by rewrite H.
Qed.

Lemma lxor_cancel_l a b c : Z.lxor c a = Z.lxor c b → a = b.
Proof. rewrite !(Z.lxor_comm c). apply lxor_cancel_r. Qed.

Lemma testbit31_shiftr1 c : is_u32 c → Z.testbit (Z.shiftr c 1) 31 = false.
Proof.
  intros [Hc1 Hc2]. rewrite Z.shiftr_spec by lia.
  change (31 + 1) with 32.
  destruct (decide (c = 0)) as [->|]; [done|].
  apply Z.bits_above_log2; [lia|]. apply Z.log2_lt_pow2; lia.
Qed.

Lemma crc_round_bit31 c : is_u32 c → Z.testbit (crc_round c) 31 = Z.odd c.
Proof.
  intros Hc. unfold crc_round. destruct (Z.odd c).
  - rewrite Z.lxor_spec, testbit31_shiftr1 by done. reflexivity.
  - by apply testbit31_shiftr1.
Qed.

Lemma odd_shiftr1_inj a b :
  Z.odd a = Z.odd b → Z.shiftr a 1 = Z.shiftr b 1 → a = b.
Proof.
  rewrite !Z.shiftr_div_pow2 by lia. change (2 ^ 1) with 2.
  rewrite <- !Z.div2_div. intros Ho Hs.
  rewrite (Z.div2_odd a), (Z.div2_odd b). by rewrite Ho, Hs.
Qed.

Lemma crc_round_inj a b : is_u32 a → is_u32 b → crc_round a = crc_round b → a = b.
Proof.
  intros Ha Hb H.
  assert (Z.odd a = Z.odd b) as Ho.
  { by rewrite <- (crc_round_bit31 a), <- (crc_round_bit31 b), H. }
  apply odd_shiftr1_inj; [done|].
  unfold crc_round in H. rewrite Ho in H. destruct (Z.odd b); [|done].
  by apply lxor_cancel_r in H.
Qed.

Lemma iter_round_inj n a b :
  is_u32 a → is_u32 b → Nat.iter n crc_round a = Nat.iter n crc_round b → a = b.
Proof.
  induction n as [|n IH]; simpl; intros Ha Hb H; [done|].
  apply IH; auto. apply crc_round_inj; auto using iter_round_u32.
Qed.

Lemma crc_byte_inj_l a b x : is_u32 a → is_u32 b → crc_byte a x = crc_byte b x → a = b.
Proof.
  intros Ha Hb H. apply iter_round_inj in H;
    auto using lxor_u32, Z_of_byte_u32. by apply lxor_cancel_r in H.
Qed.

Lemma crc_byte_inj_r c x y : is_u32 c → crc_byte c x = crc_byte c y → x = y.
Proof.
  intros Hc H. apply iter_round_inj in H; auto using lxor_u32, Z_of_byte_u32.
  apply lxor_cancel_l in H. by apply (inj Z_of_byte).
Qed.

Lemma crc_update_inj l a b :
  is_u32 a → is_u32 b → crc_update a l = crc_update b l → a = b.
Proof.
  revert a b; induction l as [|x l IH]; simpl; intros a b Ha Hb H; [done|].
  apply IH in H; auto using crc_byte_u32. by apply crc_byte_inj_l in H.
Qed.

(** Changing one byte of a message changes its checksum. *)
Lemma ChecksumIEEE_one_byte (p s : bytes) (x y : byte) :
  ChecksumIEEE (p ++ x :: s) = ChecksumIEEE (p ++ y :: s) → x = y.
Proof.
  unfold ChecksumIEEE, crc_update. intros H%lxor_cancel_r.
  rewrite !foldl_app in H. simpl in H.
  assert (is_u32 (foldl crc_byte 4294967295 p)) as Hp
    by (apply crc_update_u32; unfold is_u32; lia).
  apply crc_update_inj in H; auto using crc_byte_u32.
  by apply crc_byte_inj_r in H.
Qed.

Lemma ChecksumIEEE_insert (l : bytes) i x y :
  l !! i = Some x → ChecksumIEEE (<[i:=y]> l) = ChecksumIEEE l → y = x.
Proof.
  intros Hi H.
  pose proof (lookup_lt_Some _ _ _ Hi) as Hlt.
  rewrite <- (take_drop_middle l i x Hi) in H at 2.
  rewrite insert_take_drop in H by done.
  by apply ChecksumIEEE_one_byte in H.
Qed.

#[export] Hint Resolve ChecksumIEEE_u32 crc_update_u32 : go_bounds.
