(* ===== verification/LogEntry.v ===== *)
(** * Log entries: [internal/log_entry.go]

    The record of one log slot and its two binary formats (the legacy
    [term ++ data] and the session format), with and without a CRC trailer.
    The theorems say exactly for which entries the parser inverts the printer
    (the formats are told apart by a heuristic, so not for all), that the
    printer always inverts the parser, and that the CRC variant refuses every
    single-byte corruption. *)
From S2P Require Import Prelude Checksum.
Local Open Scope Z_scope.

Record LogEntry := mkLogEntry {
  Data : bytes;
  Term : Z;
  ClientId : string;
  SequenceNumber : Z
}.

#[global] Instance LogEntry_eq_dec : EqDecision LogEntry.
Proof. solve_decision. Defined.

Definition Serialize (e : LogEntry) : bytes :=
  if bool_decide (ClientId e = ""%string) && (SequenceNumber e =? 0)
  then put_u64 (Term e) ++ Data e
  else
    let clientIdBytes := string_bytes (ClientId e) in
    put_u64 (Term e)
    ++ put_u32 (u32 (Z.of_nat (length clientIdBytes)))
    ++ clientIdBytes
    ++ put_u64 (SequenceNumber e)
    ++ Data e.

Definition DeserializeLogEntry (data : bytes) : error + LogEntry :=
  if Z.of_nat (length data) <? 8
  then inl (ErrFmt "log entry too short" [Z.of_nat (length data)])
  else
    let term := le_get (take 8 data) in
    let clientIdLen := le_get (take 4 (drop 8 data)) in
    let requiredLen := 8 + 4 + clientIdLen + 8 in
    if (12 <=? Z.of_nat (length data))
       && ((0 <? clientIdLen) && (clientIdLen <=? 1024)
           && (requiredLen <=? Z.of_nat (length data)))
    then
      let n := Z.to_nat clientIdLen in
      inr {| Term := term;
             ClientId := bytes_string (take n (drop 12 data));
             SequenceNumber := le_get (take 8 (drop (12 + n) data));
             Data := drop (Z.to_nat requiredLen) data |}
    else
      inr {| Term := term; ClientId := ""; SequenceNumber := 0;
             Data := drop 8 data |}.

Definition SerializeWithCRC (e : LogEntry) : bytes :=
  let payload := Serialize e in
  payload ++ put_u32 (ChecksumIEEE payload).

Definition DeserializeLogEntryWithCRC (data : bytes) : error + LogEntry :=
  if Z.of_nat (length data) <? 12
  then inl (ErrFmt "log entry with CRC too short" [Z.of_nat (length data)])
  else
    let payload := take (length data - 4) data in
    let expected := le_get (drop (length data - 4) data) in
    let actual := ChecksumIEEE payload in
    if negb (expected =? actual)
    then inl (ErrFmt "log entry CRC mismatch" [expected; actual])
    else DeserializeLogEntry payload.

(** ** What the parser can tell apart *)

(** The values a Go [LogEntry] can hold. *)
Definition entry_wf (e : LogEntry) : Prop :=
  is_u64 (Term e) ∧ is_u64 (SequenceNumber e)
  ∧ is_u32 (Z.of_nat (length (string_bytes (ClientId e)))).

(** Legacy payloads the heuristic takes for a session header. *)
Definition session_shaped (d : bytes) : Prop :=
  (4 <= length d)%nat
  ∧ 0 < le_get (take 4 d) <= 1024
  ∧ le_get (take 4 d) + 12 <= Z.of_nat (length d).

#[global] Instance session_shaped_dec d : Decision (session_shaped d).
Proof. apply _. Defined.

(** Entries that survive [Serialize] then [DeserializeLogEntry]. *)
Definition canonical (e : LogEntry) : Prop :=
  if decide (ClientId e = ""%string)
  then SequenceNumber e = 0 ∧ ¬ session_shaped (Data e)
  else Z.of_nat (length (string_bytes (ClientId e))) <= 1024.

#[global] Instance canonical_dec e : Decision (canonical e).
Proof. unfold canonical. destruct (decide _); apply _. Defined.

(** ** Lemmas *)
Lemma DeserializeLogEntry_long d :
  (8 <= length d)%nat → ∃ e, DeserializeLogEntry d = inr e.
Proof.
  intros H. unfold DeserializeLogEntry.
  destruct (Z.ltb_spec (Z.of_nat (length d)) 8); [lia|].
  case_match; eauto.
Qed.

Lemma length_Serialize e : (8 <= length (Serialize e))%nat.
Proof.
  unfold Serialize. case_match;
    rewrite !length_app, length_le_put; lia.
Qed.

(** Whatever the parser makes of the rest, the term survives. *)
Lemma DeserializeLogEntry_Term e : is_u64 (Term e) →
  ∃ e', DeserializeLogEntry (Serialize e) = inr e' ∧ Term e' = Term e.
Proof.
  intros Ht. assert (take 8 (Serialize e) = put_u64 (Term e)) as Htake.
  { unfold Serialize. case_match; by apply take_app_exact, length_le_put. }
  pose proof (length_Serialize e). unfold DeserializeLogEntry.
  destruct (Z.ltb_spec (Z.of_nat (length (Serialize e))) 8); [lia|].
  rewrite Htake, le_get_put_u64 by done. case_match; eauto.
Qed.

Lemma DeserializeLogEntry_legacy t d :
  is_u64 t → ¬ session_shaped d →
  DeserializeLogEntry (put_u64 t ++ d) = inr (mkLogEntry d t "" 0).
Proof.
  intros Ht Hs. unfold DeserializeLogEntry.
  rewrite length_app, length_le_put.
  destruct (Z.ltb_spec (Z.of_nat (8 + length d)) 8); [lia|].
  rewrite take_app_exact, drop_app_exact by apply length_le_put.
  rewrite le_get_put_u64 by done.
  destruct (_ && _) eqn:E; [|done].
  exfalso. apply Hs. zbool. unfold session_shaped. lia.
Qed.

Lemma DeserializeLogEntry_session t n q d :
  is_u64 t → is_u64 q → (0 < length n <= 1024)%nat →
  DeserializeLogEntry
    (put_u64 t ++ put_u32 (u32 (Z.of_nat (length n))) ++ n ++ put_u64 q ++ d)
  = inr (mkLogEntry d t (bytes_string n) q).
Proof.
  intros Ht Hq Hn. unfold DeserializeLogEntry.
  assert (u32 (Z.of_nat (length n)) = Z.of_nat (length n)) as ->
    by (unfold u32; apply Z.mod_small; lia).
  set (buf := put_u64 t ++ _).
  assert (length buf = 20 + length n + length d)%nat as Hlen
    by (unfold buf; rewrite !length_app, !length_le_put; lia).
  assert (drop 8 buf = put_u32 (Z.of_nat (length n)) ++ n ++ put_u64 q ++ d) as H8
    by (unfold buf; by rewrite drop_app_exact by apply length_le_put).
  assert (drop 12 buf = n ++ put_u64 q ++ d) as H12.
  { change 12%nat with (8 + 4)%nat. rewrite <- drop_drop, H8.
    by rewrite drop_app_exact by apply length_le_put. }
  rewrite Hlen, H8.
  rewrite (take_app_exact (put_u32 _)) by apply length_le_put.
  rewrite le_get_put_u32 by (unfold is_u32; lia).
  destruct (Z.ltb_spec (Z.of_nat (20 + length n + length d)) 8); [lia|].
  replace (_ && _) with true.
  2:{ symmetry. rewrite !andb_true_iff, !Z.leb_le, Z.ltb_lt. lia. }
  rewrite Nat2Z.id. rewrite <- (drop_drop buf _ 12), H12.
  rewrite take_app_length, drop_app_length.
  rewrite (take_app_exact (put_u64 q)) by apply length_le_put.
  replace (Z.to_nat (8 + 4 + Z.of_nat (length n) + 8))
    with (12 + (length n + 8))%nat by lia.
  rewrite <- drop_drop, H12, <- drop_drop, drop_app_length.
  rewrite drop_app_exact by apply length_le_put.
  unfold buf. rewrite take_app_exact by apply length_le_put.
  by rewrite !le_get_put_u64 by done.
Qed.

(** An anonymous entry with a sequence number is written in the session format
    and read back in the legacy one. *)
Lemma DeserializeLogEntry_empty_client t q d :
  is_u64 t →
  DeserializeLogEntry (put_u64 t ++ put_u32 0 ++ [] ++ put_u64 q ++ d)
  = inr (mkLogEntry (put_u32 0 ++ put_u64 q ++ d) t "" 0).
Proof.
  intros Ht. rewrite app_nil_l. apply DeserializeLogEntry_legacy; [done|].
  intros (_ & H & _). rewrite take_app_exact in H by apply length_le_put.
  rewrite le_get_put_u32 in H by (unfold is_u32; lia). lia.
Qed.

Lemma Serialize_legacy e :
  ClientId e = ""%string → SequenceNumber e = 0 →
  Serialize e = put_u64 (Term e) ++ Data e.
Proof. intros Hc Hq. unfold Serialize. by rewrite bool_decide_true, Hq by done. Qed.

Lemma Serialize_session e :
  ClientId e ≠ ""%string ∨ SequenceNumber e ≠ 0 →
  Serialize e =
    put_u64 (Term e)
    ++ put_u32 (u32 (Z.of_nat (length (string_bytes (ClientId e)))))
    ++ string_bytes (ClientId e) ++ put_u64 (SequenceNumber e) ++ Data e.
Proof.
  intros H. unfold Serialize. destruct (_ && _) eqn:E; [|done].
  apply andb_true_iff in E as [E1%bool_decide_eq_true E2%Z.eqb_eq]. tauto.
Qed.

Lemma string_bytes_length_pos s : s ≠ ""%string → (0 < length (string_bytes s))%nat.
Proof.
  intros H. destruct (string_bytes s) eqn:E; simpl; [|lia].
  by apply string_bytes_nil in E.
Qed.

(** The bytes of a buffer, cut at the parser's offsets. *)
Lemma take_drop_cut (d : bytes) a b :
  take a (drop b d) ++ drop (b + a) d = drop b d.
Proof. rewrite <- drop_drop. apply take_drop. Qed.

Lemma put_take_drop n (d : bytes) a :
  (a + n <= length d)%nat → le_put n (le_get (take n (drop a d))) = take n (drop a d).
Proof. intros H. apply le_put_get'. rewrite length_take, length_drop. lia. Qed.

Lemma put_take n (d : bytes) :
  (n <= length d)%nat → le_put n (le_get (take n d)) = take n d.
Proof. intros H. apply le_put_get'. rewrite length_take. lia. Qed.

(** ** Properties *)

(** C23: [DeserializeLogEntry] inverts [Serialize] on exactly the canonical
    entries: those with a client id of at most 1024 bytes, and those with no
    client id, sequence number zero and data that is not shaped like a session
    header. *)
Theorem entry_roundtrip_iff (e : LogEntry) (Hwf : entry_wf e) :
  DeserializeLogEntry (Serialize e) = inr e ↔ canonical e.
Proof.
  destruct Hwf as (Ht & Hq & Hn). unfold canonical.
  destruct (decide (ClientId e = ""%string)) as [Hc|Hc].
  - destruct (decide (SequenceNumber e = 0)) as [Hz|Hz].
    + rewrite Serialize_legacy by done. split.
      * intros H. split; [done|]. intros (Hl & Hb & Hf).
        destruct e as [d t c q]; cbn [Data Term ClientId SequenceNumber] in *; subst.
        unfold DeserializeLogEntry in H.
        rewrite drop_app_exact, length_app, length_le_put in H
          by apply length_le_put.
        destruct (Z.ltb_spec (Z.of_nat (8 + length d)) 8); [lia|].
        destruct (_ && _) eqn:E; zbool.
        -- injection H as _ _ H' _.
           apply (f_equal string_bytes) in H'. rewrite string_bytes_string in H'.
           apply (f_equal length) in H'.
           rewrite length_take, length_drop in H'. simpl in H'. lia.
        -- apply andb_false_iff in E as [E|E]; [zbool; lia|].
           apply andb_false_iff in E as [E|E]; [|zbool; lia].
           apply andb_false_iff in E as [E|E]; zbool; lia.
      * intros [_ Hs]. rewrite DeserializeLogEntry_legacy by done.
        destruct e; cbn [Data Term ClientId SequenceNumber] in *; by subst.
    + rewrite Serialize_session, Hc by tauto. cbn [string_bytes String.list_byte_of_string length].
      rewrite DeserializeLogEntry_empty_client by done.
      split; [|tauto]. intros [= H]. apply (f_equal SequenceNumber) in H.
      simpl in H. lia.
  - pose proof (string_bytes_length_pos _ Hc) as Hpos.
    rewrite Serialize_session by tauto. split.
    + intros H. destruct (Z.leb_spec (Z.of_nat (length (string_bytes (ClientId e)))) 1024);
        [done|exfalso].
      rewrite DeserializeLogEntry_legacy in H; [|done|].
      * injection H as H. apply (f_equal ClientId) in H. by simpl in H.
      * intros (_ & Hb & _). rewrite take_app_exact in Hb by apply length_le_put.
        unfold u32 in Hb. rewrite Z.mod_small in Hb by (unfold is_u32 in Hn; lia).
        rewrite le_get_put_u32 in Hb by done. lia.
    + intros Hle. rewrite DeserializeLogEntry_session by (done || lia).
      rewrite bytes_string_bytes. by destruct e.
Qed.

Lemma entry_roundtrip_iff_witness :
  canonical (mkLogEntry (string_bytes "set x") 7 "client-1" 3)
  ∧ DeserializeLogEntry (Serialize (mkLogEntry (string_bytes "set x") 7 "client-1" 3))
    = inr (mkLogEntry (string_bytes "set x") 7 "client-1" 3).
Proof.
  assert (canonical (mkLogEntry (string_bytes "set x") 7 "client-1" 3)) as H
    by (by vm_compute).
  split; [exact H|].
  apply (entry_roundtrip_iff (mkLogEntry (string_bytes "set x") 7 "client-1" 3)).
  - unfold entry_wf, is_u64, is_u32. simpl. lia.
  - exact H.
Defined.

Lemma DeserializeLogEntry_inv d e :
  DeserializeLogEntry d = inr e →
  (8 <= length d)%nat ∧ Term e = le_get (take 8 d)
  ∧ ((ClientId e = ""%string ∧ SequenceNumber e = 0 ∧ Data e = drop 8 d)
     ∨ ∃ n, (0 < n <= 1024)%nat ∧ (20 + n <= length d)%nat
          ∧ le_get (take 4 (drop 8 d)) = Z.of_nat n
          ∧ ClientId e = bytes_string (take n (drop 12 d))
          ∧ SequenceNumber e = le_get (take 8 (drop (12 + n) d))
          ∧ Data e = drop (20 + n) d).
Proof.
  unfold DeserializeLogEntry.
  destruct (Z.ltb_spec (Z.of_nat (length d)) 8); [done|].
  destruct (_ && _) eqn:E; intros [= <-]; (split; [lia|]);
    cbn [Data Term ClientId SequenceNumber]; (split; [done|]).
  - right. zbool. exists (Z.to_nat (le_get (take 4 (drop 8 d)))).
    rewrite Z2Nat.id by lia. repeat (split; [lia || done|]).
    f_equal. lia.
  - by left.
Qed.

Lemma Serialize_Deserialize d e : DeserializeLogEntry d = inr e → Serialize e = d.
Proof.
  intros H.
  apply DeserializeLogEntry_inv in H as (Hl & Ht & [(Hc & Hq & Hd)|(n & Hn & Hlen & Hg & Hc & Hq & Hd)]).
  - rewrite Serialize_legacy, Ht, Hd by done.
    rewrite put_take by lia. apply take_drop.
  - assert (string_bytes (ClientId e) = take n (drop 12 d)) as Hcb
      by (by rewrite Hc, string_bytes_string).
    assert (length (string_bytes (ClientId e)) = n) as Hcl
      by (rewrite Hcb, length_take, length_drop; lia).
    rewrite Serialize_session.
    2:{ left. intros H0. rewrite H0 in Hcl. simpl in Hcl. lia. }
    rewrite Hcl, Ht, Hcb, Hq, Hd.
    assert (u32 (Z.of_nat n) = le_get (take 4 (drop 8 d))) as ->
      by (rewrite Hg; unfold u32; apply Z.mod_small; lia).
    rewrite put_take, !put_take_drop by lia.
    replace (20 + n)%nat with ((12 + n) + 8)%nat by lia.
    rewrite take_drop_cut. rewrite (take_drop_cut d n 12).
    change 12%nat with (8 + 4)%nat. rewrite take_drop_cut. apply take_drop.
Qed.

(** C24: [Serialize] inverts [DeserializeLogEntry] on every buffer the parser
    accepts, ambiguous ones included, so a log slot that a leader parses, sends
    and a follower prints again is stored byte for byte. *)
Theorem serialize_after_deserialize (d : bytes) (e : LogEntry)
    (H : DeserializeLogEntry d = inr e) :
  Serialize e = d.
Proof. by apply Serialize_Deserialize. Qed.

Lemma serialize_after_deserialize_witness :
  Serialize (mkLogEntry (string_bytes "ab") 1 "" 0)
  = put_u64 1 ++ string_bytes "ab".
Proof.
  apply (serialize_after_deserialize (put_u64 1 ++ string_bytes "ab")).
  vm_compute. reflexivity.
Defined.

(** The parser fails only on buffers shorter than a term. *)
Lemma DeserializeLogEntry_error_iff d :
  (∃ err, DeserializeLogEntry d = inl err) ↔ (length d < 8)%nat.
Proof.
  split.
  - intros [err H]. destruct (decide (length d < 8)%nat) as [|Hn]; [done|].
    destruct (DeserializeLogEntry_long d) as [e He]; [lia|congruence].
  - intros H. unfold DeserializeLogEntry.
    destruct (Z.ltb_spec (Z.of_nat (length d)) 8); [eauto|lia].
Qed.

Lemma DeserializeLogEntryWithCRC_payload p c :
  length c = 4%nat → (8 <= length p)%nat →
  DeserializeLogEntryWithCRC (p ++ c)
  = if le_get c =? ChecksumIEEE p then DeserializeLogEntry p
    else inl (ErrFmt "log entry CRC mismatch" [le_get c; ChecksumIEEE p]).
Proof.
  intros Hc Hp. unfold DeserializeLogEntryWithCRC.
  rewrite length_app, Hc.
  destruct (Z.ltb_spec (Z.of_nat (length p + 4)) 12); [lia|].
  rewrite take_app_exact, drop_app_exact by lia.
  by destruct (le_get c =? ChecksumIEEE p).
Qed.

Lemma DeserializeLogEntryWithCRC_ok e :
  DeserializeLogEntryWithCRC (SerializeWithCRC e) = DeserializeLogEntry (Serialize e).
Proof.
  unfold SerializeWithCRC.
  rewrite DeserializeLogEntryWithCRC_payload
    by (apply length_le_put || apply length_Serialize).
  rewrite le_get_put_u32 by apply ChecksumIEEE_u32. by rewrite Z.eqb_refl.
Qed.

(** The CRC format detects every single-byte corruption: overwrite any one
    byte of a written entry, payload or trailer, with a different value and
    [DeserializeLogEntryWithCRC] reports a CRC mismatch; the untouched buffer
    parses like the plain format. *)
Theorem crc_detects_corruption (e : LogEntry) (i : nat) (x y : byte)
    (Hi : SerializeWithCRC e !! i = Some x) (Hxy : y ≠ x) :
  DeserializeLogEntryWithCRC (SerializeWithCRC e) = DeserializeLogEntry (Serialize e)
  ∧ ∃ args, DeserializeLogEntryWithCRC (<[i:=y]> (SerializeWithCRC e))
            = inl (ErrFmt "log entry CRC mismatch" args).
Proof.
  split; [apply DeserializeLogEntryWithCRC_ok|].
  pose proof (length_Serialize e). unfold SerializeWithCRC in *.
  set (p := Serialize e) in *. set (c := put_u32 (ChecksumIEEE p)) in *.
  assert (length c = 4%nat) as Hc by apply length_le_put.
  assert (le_get c = ChecksumIEEE p) as Hg
    by (apply le_get_put_u32, ChecksumIEEE_u32).
  destruct (decide (i < length p)%nat) as [Hlt|Hge].
  - rewrite lookup_app_l in Hi by done. rewrite insert_app_l by done.
    rewrite DeserializeLogEntryWithCRC_payload by (rewrite ?length_insert; done).
    destruct (Z.eqb_spec (le_get c) (ChecksumIEEE (<[i:=y]> p))) as [E|]; [|eauto].
    exfalso. apply Hxy. eapply ChecksumIEEE_insert; [exact Hi|]. congruence.
  - assert (i < length (p ++ c))%nat as Hlen by (by eapply lookup_lt_Some).
    rewrite length_app in Hlen.
    rewrite lookup_app_r in Hi by lia.
    rewrite insert_app_r_alt by lia.
    rewrite DeserializeLogEntryWithCRC_payload by (rewrite ?length_insert; done).
    destruct (Z.eqb_spec (le_get (<[(i - length p)%nat:=y]> c)) (ChecksumIEEE p)) as [E|]; [|eauto].
    exfalso. apply Hxy. rewrite <- Hg in E.
    apply le_get_inj in E; [|by rewrite length_insert].
    assert (<[(i - length p)%nat:=y]> c !! (i - length p)%nat = Some y) as Hy
      by (apply list_lookup_insert_eq; lia).
    rewrite E in Hy. congruence.
Qed.

Lemma crc_detects_corruption_witness :
  ∃ args, DeserializeLogEntryWithCRC
            (<[0%nat:=x05]> (SerializeWithCRC (mkLogEntry (string_bytes "v") 1 "" 0)))
          = inl (ErrFmt "log entry CRC mismatch" args).
Proof.
  apply (crc_detects_corruption (mkLogEntry (string_bytes "v") 1 "" 0) 0 x01 x05);
    [by vm_compute | done].
Defined.
