(* ===== verification/Store.v ===== *)
(** * Persistent node state: [internal/store.go]

    [currentTerm] and [votedFor] live in [store.data], replaced atomically by
    write-to-temp, fsync, rename and directory sync; the other fields are
    volatile.  The theorems: every setter either reports success and the file
    holds the new values, or reports an error and neither memory nor file
    changed; a power failure anywhere inside a setter leaves the old or the new
    pair, never a mixture; and [NewStore] reads back what was last written. *)
From S2P Require Import Prelude GoMonad FileSystem.
Local Open Scope Z_scope.

Record Store := mkStore {
  commitIndex : Z;
  currentTerm : Z;
  lastApplied : Z;
  leaderId : string;
  st_name : string;
  votedFor : string
}.

Definition set_commitIndex v s := mkStore v (currentTerm s) (lastApplied s) (leaderId s) (st_name s) (votedFor s).
Definition set_currentTerm v s := mkStore (commitIndex s) v (lastApplied s) (leaderId s) (st_name s) (votedFor s).
Definition set_lastApplied v s := mkStore (commitIndex s) (currentTerm s) v (leaderId s) (st_name s) (votedFor s).
Definition set_leaderId v s := mkStore (commitIndex s) (currentTerm s) (lastApplied s) v (st_name s) (votedFor s).
Definition set_votedFor v s := mkStore (commitIndex s) (currentTerm s) (lastApplied s) (leaderId s) (st_name s) v.

(** The store's methods run on the store and the file system. *)
Abbreviation StoreM := (GoM (Store * Fs)).

Definition on_fs {A} (m : GoM Fs A) : StoreM A := zoom snd (λ fs s, (s.1, fs)) m.
Definition upd (f : Store → Store) : StoreM unit := modify (λ s, (f s.1, s.2)).

(** [filepath.Dir] is only used as the argument of calls on the one data
    directory, so the model passes the file name itself. *)
Definition Store__write : StoreM (option error) :=
  s ← gets fst;
  let name := st_name s in
  let tempName := tmp_of name in
  let close := _ ← on_fs (file_Close tempName); mret tt in
  err ← on_fs (os_MkdirAll name);
  match err with
  | Some e => if errors_Is e ErrExist then mret None else mret (Some (ErrWrap "mkdir" e))
  | None => mret None
  end ≫= λ err,
  match err with Some e => mret (Some e) | None =>
  go_try "open tmp" (mret tt) (on_fs (os_OpenTrunc tempName)) (
  go_try "write term" close (on_fs (file_Write tempName (put_u64 (currentTerm s)))) (
  let votedForBytes := string_bytes (votedFor s) in
  go_try "write votedFor len" close
    (on_fs (file_Write tempName (put_u32 (u32 (Z.of_nat (length votedForBytes)))))) (
  go_try "write votedFor" close (on_fs (file_Write tempName votedForBytes)) (
  go_try "fsync file" close (on_fs (file_Sync tempName)) (
  go_try "close tmp" (mret tt) (on_fs (file_Close tempName)) (
  go_try "rename" (mret tt) (on_fs (os_Rename tempName name)) (
  on_fs (dir_OpenSyncClose name);; mret None)))))))
  end.

(** The file contents after the name is opened. *)
Definition Store__read_body (f : bytes) : StoreM (option error) :=
  r1 ← on_fs (io_ReadFull 8 f);
  match r1 with inl e => mret (Some (ErrWrap "read term" e)) | inr (term, f) =>
  r2 ← on_fs (io_ReadFull 4 f);
  match r2 with inl e => mret (Some (ErrWrap "read votedFor len" e)) | inr (n, f) =>
  let n := le_get n in
  if Z.shiftl 10 20 <? n then mret (Some (ErrFmt "votedFor too large" [n])) else
  r3 ← on_fs (io_ReadFull (Z.to_nat n) f);
  match r3 with inl e => mret (Some (ErrWrap "read votedFor" e)) | inr (votedForBytes, _) =>
  upd (set_currentTerm (le_get term));;
  upd (set_votedFor (bytes_string votedForBytes));;
  mret None
  end end end.

Definition Store__read : StoreM (option error) :=
  s ← gets fst;
  r ← on_fs (os_Open (st_name s));
  match r with
  | inl e => mret (Some e)
  | inr f => Store__read_body f
  end.

Definition NewStore (name : string) : GoM Fs (error + Store) := λ fs,
  let '(r, (s, fs')) := Store__read (mkStore 0 0 0 "" name "", fs) in
  match r with
  | Ret None => (Ret (inr s), fs')
  | Ret (Some e) =>
      if os_IsNotExist e then (Ret (inr s), fs')
      else (Ret (inl (ErrWrap "failed to read persistent state" e)), fs')
  | Panic m => (Panic m, fs')
  | OutOfFuel => (OutOfFuel, fs')
  end.

Definition Store__GetCurrentTerm : StoreM Z := gets (λ s, currentTerm s.1).
Definition Store__GetLeaderId : StoreM string := gets (λ s, leaderId s.1).
Definition Store__GetVotedFor : StoreM string := gets (λ s, votedFor s.1).

Definition Store__IncrementCurrentTerm : StoreM (Z * option error) :=
  upd (λ s, set_currentTerm (u64 (currentTerm s + 1)) s);;
  err ← Store__write;
  match err with
  | Some e =>
      upd (λ s, set_currentTerm (u64 (currentTerm s - 1)) s);;
      t ← Store__GetCurrentTerm;
      mret (t, Some (ErrWrap "persist IncrementCurrentTerm" e))
  | None => t ← Store__GetCurrentTerm; mret (t, None)
  end.

Definition Store__SetCurrentTerm (v : Z) : StoreM (Z * option error) :=
  prev ← Store__GetCurrentTerm;
  upd (set_currentTerm v);;
  err ← Store__write;
  match err with
  | Some e =>
      upd (set_currentTerm prev);;
      t ← Store__GetCurrentTerm;
      mret (t, Some (ErrWrap "persist SetCurrentTerm" e))
  | None => t ← Store__GetCurrentTerm; mret (t, None)
  end.

Definition Store__SetLeaderId (l : string) : StoreM string :=
  upd (set_leaderId l);; Store__GetLeaderId.

Definition Store__SetVotedFor (v : string) : StoreM (option error) :=
  prev ← Store__GetVotedFor;
  upd (set_votedFor v);;
  err ← Store__write;
  match err with
  | Some e =>
      upd (set_votedFor prev);;
      mret (Some (ErrWrap "persist SetVotedFor" e))
  | None => mret None
  end.

Definition Store__SetCurrentTermAndVotedFor (term : Z) (v : string) : StoreM (option error) :=
  prevTerm ← Store__GetCurrentTerm;
  prevVotedFor ← Store__GetVotedFor;
  upd (set_currentTerm term);;
  upd (set_votedFor v);;
  err ← Store__write;
  match err with
  | Some e =>
      upd (set_currentTerm prevTerm);;
      upd (set_votedFor prevVotedFor);;
      mret (Some (ErrWrap "persist SetCurrentTermAndVotedFor" e))
  | None => mret None
  end.

(** ** Specifications *)
Definition store_encode (t : Z) (v : string) : bytes :=
  put_u64 t
  ++ put_u32 (u32 (Z.of_nat (length (string_bytes v))))
  ++ string_bytes v.

Lemma wp_on_fs {A} (m : GoM Fs A) s fs (Q : outcome A → Store * Fs → Prop) :
  go_wp m fs (λ r fs', Q r (s, fs')) → go_wp (on_fs m) (s, fs) Q.
Proof. intros H. by apply wp_zoom. Qed.

(** [write] leaves memory alone; it either replaces the file by the encoding of
    memory or touches nothing but the temporary file. *)
Definition write_post (s : Store) (fs : Fs) (r : outcome (option error)) (p : Store * Fs) : Prop :=
  p.1 = s ∧ match r with
  | Ret None => replaced (st_name s) (store_encode (currentTerm s) (votedFor s)) fs p.2
  | Ret (Some _) => only_tmp (st_name s) fs p.2
  | _ => False
  end.

Lemma wp_close_cleanup s fs0 fs (e : option error) :
  only_tmp (st_name s) fs0 fs → is_Some e →
  go_wp (_ ← on_fs (file_Close (tmp_of (st_name s))); mret tt) (s, fs)
    (on_ret (λ _ p, write_post s fs0 (Ret e) p) (write_post s fs0)).
Proof.
  intros H [x ->]. wp_step. apply wp_on_fs.
  eapply wp_file_Close_tmp; [exact H|].
  intros. by apply wp_ret.
Qed.

Lemma wp_Store__write s fs : go_wp Store__write (s, fs) (write_post s fs).
Proof.
  unfold Store__write. wp_step. wp_step. cbn [fst].
  wp_step. apply wp_on_fs. eapply wp_MkdirAll; [reflexivity|].
  intros err fs1 H1. simpl.
  assert (∀ Q, (∀ e, Q (Ret e) (s, fs1)) →
    go_wp (match err with
           | Some e => if errors_Is e ErrExist then mret None
                       else mret (Some (ErrWrap "mkdir" e))
           | None => mret None end : StoreM (option error)) (s, fs1) Q) as Hmk.
  { intros Q HQ. destruct err; [destruct (errors_Is _ _)|]; by apply wp_ret. }
  wp_step. apply Hmk. intros [e|]; simpl; [by apply wp_ret|].
  wp_step. apply wp_on_fs. eapply wp_OpenTrunc; [exact H1| |].
  2:{ intros. apply wp_ret. by split. }
  intros fs2 H2. wp_step. wp_step. apply wp_on_fs.
  eapply wp_file_Write; [exact H2| |intros; by apply wp_close_cleanup].
  intros fs3 H3. wp_step. wp_step. apply wp_on_fs.
  eapply wp_file_Write; [exact H3| |intros; by apply wp_close_cleanup].
  intros fs4 H4. wp_step. wp_step. apply wp_on_fs.
  eapply wp_file_Write; [exact H4| |intros; by apply wp_close_cleanup].
  intros fs5 H5. wp_step. wp_step. apply wp_on_fs.
  eapply wp_file_Sync; [exact H5| |intros; by apply wp_close_cleanup].
  intros fs6 H6. wp_step. wp_step. apply wp_on_fs.
  eapply wp_file_Close; [exact H6| |intros; apply wp_ret; by split].
  intros fs7 H7. wp_step. wp_step. apply wp_on_fs.
  eapply wp_Rename; [exact H7| |intros; apply wp_ret; by split].
  intros fs8 H8 _. wp_step. wp_step. apply wp_on_fs.
  eapply wp_dir_sync; [exact H8|].
  intros fs9 H9. apply wp_ret. split; [done|].
  by rewrite app_nil_l, <- app_assoc in H9.
Qed.

Lemma Store__write_run s fs :
  ∃ r fs', Store__write (s, fs) = (Ret r, (s, fs'))
    ∧ match r with
      | None => replaced (st_name s) (store_encode (currentTerm s) (votedFor s)) fs fs'
      | Some _ => only_tmp (st_name s) fs fs'
      end.
Proof.
  pose proof (wp_Store__write s fs) as H. unfold go_wp, write_post in H.
  destruct (Store__write (s, fs)) as [r [s' fs']]; simpl in H.
  destruct H as [-> H]. destruct r as [r| |]; [|done|done]. exists r, fs'.
  split; [done|]. by destruct r.
Qed.

(** With a disk that works the write succeeds; with one that always fails it
    reports it. *)
Lemma on_fs_run {A} (m : GoM Fs A) s fs r fs' : m fs = (r, fs') → on_fs m (s, fs) = (r, (s, fs')).
Proof. intros E. unfold on_fs, zoom. simpl. by rewrite E. Qed.

Definition store_ok (s : Store) (m : StoreM (option error)) : Prop :=
  ∀ fs, io_reliable fs → ∃ fs', m (s, fs) = (Ret None, (s, fs')) ∧ io_reliable fs'.

Lemma store_ok_try s ctx c m k : call_ok m → store_ok s k → store_ok s (go_try ctx c (on_fs m) k).
Proof.
  intros Hm Hk fs R. destruct (Hm fs R) as (fs1 & E1 & R1). unfold go_try.
  rewrite (bind_ret_run _ _ _ _ _ (on_fs_run _ s _ _ _ E1)). by apply Hk.
Qed.

Lemma Store__write_reliable s : store_ok s Store__write.
Proof.
  intros fs R. unfold Store__write. rewrite bind_run. cbn [gets fst].
  destruct (sys_unit_ok id) with (fs := fs) as (fs1 & E1 & R1); [done|done|].
  rewrite (bind_ret_run _ _ _ _ _ (on_fs_run (os_MkdirAll (st_name s)) s _ _ _ E1)).
  revert fs1 R1 E1. enough (∀ k, store_ok s k →
    ∀ fs1, io_reliable fs1 → sys_unit id fs = (Ret None, fs1) →
    ∃ fs', (mret None ≫= λ err : option error, match err with Some e => mret (Some e) | None => k end)
             (s, fs1) = (Ret None, (s, fs')) ∧ io_reliable fs') as Hk.
  { apply Hk. repeat (apply store_ok_try; [first [apply file_Write_ok|apply os_Rename_ok|by apply sys_unit_ok]|]).
    intros fs2 R2. destruct (dir_sync_ok (st_name s) fs2 R2) as (fs3 & E3 & R3).
    rewrite (bind_ret_run _ _ _ _ _ (on_fs_run _ s _ _ _ E3)). by exists fs3. }
  intros k Hk fs1 R1 _. by apply Hk.
Qed.

Lemma Store__write_broken s fs : io_broken fs →
  ∃ fs', Store__write (s, fs) = (Ret (Some (ErrWrap "mkdir" ErrIO)), (s, fs')) ∧ io_broken fs'.
Proof.
  intros B. unfold Store__write. rewrite bind_run. cbn [gets fst].
  assert (os_MkdirAll (st_name s) fs = (Ret (Some ErrIO), mkFs (fs_cur fs) (fs_dur fs) (fs_io fs) (S (fs_clock fs))))
    as E by (unfold os_MkdirAll, sys_unit; rewrite bind_run; cbn [syscall]; by rewrite B).
  rewrite (bind_ret_run _ _ _ _ _ (on_fs_run _ s _ _ _ E)). by eexists.
Qed.

(** What every setter promises: on success memory and file agree on the new
    pair; on an error neither changed. *)
Definition store_updated (s : Store) (fs : Fs) (t : Z) (v : string)
    (err : option error) (s' : Store) (fs' : Fs) : Prop :=
  match err with
  | None => s' = set_votedFor v (set_currentTerm t s)
            ∧ replaced (st_name s) (store_encode t v) fs fs'
  | Some _ => s' = s ∧ only_tmp (st_name s) fs fs'
  end.

Lemma SetCurrentTermAndVotedFor_run t v s fs :
  ∃ err s' fs', Store__SetCurrentTermAndVotedFor t v (s, fs) = (Ret err, (s', fs'))
                ∧ store_updated s fs t v err s' fs'.
Proof.
  unfold Store__SetCurrentTermAndVotedFor.
  destruct (Store__write_run (set_votedFor v (set_currentTerm t s)) fs) as (r & fs' & E & H).
  repeat (rewrite bind_run; simpl). rewrite E.
  destruct r as [e|]; simpl; (do 3 eexists; split; [reflexivity|]); [|by split].
  split; [by destruct s|exact H].
Qed.

Lemma SetCurrentTermAndVotedFor_reliable t v s fs : io_reliable fs →
  ∃ fs', Store__SetCurrentTermAndVotedFor t v (s, fs)
         = (Ret None, (set_votedFor v (set_currentTerm t s), fs')) ∧ io_reliable fs'.
Proof.
  intros R. destruct (Store__write_reliable (set_votedFor v (set_currentTerm t s)) fs R) as (fs' & E & R').
  exists fs'. unfold Store__SetCurrentTermAndVotedFor. repeat (rewrite bind_run; simpl). by rewrite E.
Qed.

Lemma SetCurrentTermAndVotedFor_broken t v s fs : io_broken fs →
  ∃ e fs', Store__SetCurrentTermAndVotedFor t v (s, fs) = (Ret (Some e), (s, fs')) ∧ io_broken fs'.
Proof.
  intros B. destruct (Store__write_broken (set_votedFor v (set_currentTerm t s)) fs B) as (fs' & E & B').
  unfold Store__SetCurrentTermAndVotedFor. repeat (rewrite bind_run; simpl). rewrite E. eexists _, fs'.
  split; [|done]. by destruct s.
Qed.

Lemma SetVotedFor_run v s fs :
  ∃ err s' fs', Store__SetVotedFor v (s, fs) = (Ret err, (s', fs'))
                ∧ store_updated s fs (currentTerm s) v err s' fs'.
Proof.
  unfold Store__SetVotedFor.
  destruct (Store__write_run (set_votedFor v s) fs) as (r & fs' & E & H).
  repeat (rewrite bind_run; simpl). rewrite E.
  destruct r as [e|]; simpl; (do 3 eexists; split; [reflexivity|]); (split; [|exact H]);
    by destruct s.
Qed.

Lemma SetCurrentTerm_run t s fs :
  ∃ err s' fs', Store__SetCurrentTerm t (s, fs) = (Ret (currentTerm s', err), (s', fs'))
                ∧ store_updated s fs t (votedFor s) err s' fs'.
Proof.
  unfold Store__SetCurrentTerm.
  destruct (Store__write_run (set_currentTerm t s) fs) as (r & fs' & E & H).
  repeat (rewrite bind_run; simpl). rewrite E.
  destruct r as [e|]; simpl; (do 3 eexists; split; [reflexivity|]); (split; [|exact H]);
    by destruct s.
Qed.

Lemma IncrementCurrentTerm_run s fs :
  is_u64 (currentTerm s) →
  ∃ err s' fs', Store__IncrementCurrentTerm (s, fs) = (Ret (currentTerm s', err), (s', fs'))
                ∧ store_updated s fs (u64 (currentTerm s + 1)) (votedFor s) err s' fs'.
Proof.
  intros Ht. unfold Store__IncrementCurrentTerm.
  destruct (Store__write_run (set_currentTerm (u64 (currentTerm s + 1)) s) fs) as (r & fs' & E & H).
  repeat (rewrite bind_run; simpl). rewrite E.
  destruct r as [e|]; simpl; (do 3 eexists; split; [reflexivity|]); (split; [|exact H]);
    [|by destruct s].
  cbn [fst currentTerm set_currentTerm]. replace (u64 (u64 (currentTerm s + 1) - 1)) with (currentTerm s); [by destruct s|].
  unfold u64, is_u64 in *. rewrite Zminus_mod_idemp_l, Z.add_simpl_r. by rewrite Z.mod_small.
Qed.

Lemma wp_Store__read_body t v s fs (Q : outcome (option error) → Store * Fs → Prop) :
  io_reliable fs → is_u64 t →
  Z.of_nat (length (string_bytes v)) <= 10485760 →
  (∀ fs', fs_cur fs' = fs_cur fs → fs_dur fs' = fs_dur fs →
    Q (Ret None) (set_votedFor v (set_currentTerm t s), fs')) →
  go_wp (Store__read_body (store_encode t v)) (s, fs) Q.
Proof.
  intros Hr Ht Hv HQ. unfold Store__read_body, store_encode.
  assert (u32 (Z.of_nat (length (string_bytes v))) = Z.of_nat (length (string_bytes v))) as ->
    by (unfold u32; apply Z.mod_small; lia).
  wp_step. apply wp_on_fs. apply wp_io_ReadFull; [done|apply length_le_put|].
  intros fs1 Hr1 Hc1 Hd1. wp_step. wp_step. apply wp_on_fs.
  apply wp_io_ReadFull; [done|apply length_le_put|].
  intros fs2 Hr2 Hc2 Hd2. wp_step. cbv zeta.
  rewrite le_get_put_u32 by (unfold is_u32; lia).
  change (Z.shiftl 10 20) with 10485760.
  destruct (Z.ltb_spec 10485760 (Z.of_nat (length (string_bytes v)))); [lia|].
  rewrite Nat2Z.id. wp_step. apply wp_on_fs.
  rewrite <- (app_nil_r (string_bytes v)).
  apply wp_io_ReadFull; [done|by rewrite app_nil_r|].
  intros fs3 Hr3 Hc3 Hd3. wp_step. unfold upd. repeat wp_step. cbn [fst snd].
  rewrite le_get_put_u64, bytes_string_bytes by done. apply HQ; congruence.
Qed.

(** ** Reading with failures

    A file that exists is not reported missing; any other failure is allowed. *)
Definition io_honest (fs : Fs) : Prop := ∀ n e k, fs_io fs n = IoFail e k → e ≠ ErrNotExist.

Lemma io_ReadFull_cur n l fs : fs_cur (io_ReadFull n l fs).2 = fs_cur fs.
Proof.
  destruct n; [done|]. cbn [io_ReadFull]. rewrite bind_run. cbn [syscall].
  by destruct (fs_io fs (fs_clock fs)).
Qed.

(** What [read_body] returns on the encoding: an error that is not
    [os.ErrNotExist], or success with the encoded pair. *)
Lemma Store__read_body_any t v s fs :
  is_u64 t → Z.of_nat (length (string_bytes v)) <= 10485760 →
  go_wp (Store__read_body (store_encode t v)) (s, fs) (λ r p, fs_cur p.2 = fs_cur fs ∧
    ((∃ c e, r = Ret (Some (ErrWrap c e)))
     ∨ (r = Ret None ∧ p.1 = set_votedFor v (set_currentTerm t s)))).
Proof.
  intros Ht Hv. unfold Store__read_body, store_encode.
  assert (u32 (Z.of_nat (length (string_bytes v))) = Z.of_nat (length (string_bytes v))) as ->
    by (unfold u32; apply Z.mod_small; lia).
  assert (∀ n l fs (Q : outcome (error + bytes * bytes) → Fs → Prop),
    (∀ e fs', fs_cur fs' = fs_cur fs → Q (Ret (inl e)) fs') →
    (∀ fs', fs_cur fs' = fs_cur fs → Q (Ret (inr (take n l, drop n l))) fs') →
    go_wp (io_ReadFull n l) fs Q) as Hread.
  { clear. intros n l fs Q He Hok. pose proof (io_ReadFull_cur n l fs) as Hc.
    assert (go_wp (io_ReadFull n l) fs (λ r fs', (∃ e, r = Ret (inl e))
      ∨ r = Ret (inr (take n l, drop n l)))) as Hw.
    { apply wp_io_ReadFull_any; eauto. }
    unfold go_wp in *. destruct (io_ReadFull n l fs) as [r fs']; simpl in *.
    destruct Hw as [[e ->] | ->]; auto. }
  wp_step. apply wp_on_fs, Hread; intros; cbv beta; wp_step; [apply wp_ret; eauto|].
  rewrite take_app_exact, drop_app_exact by apply length_le_put.
  wp_step. apply wp_on_fs, Hread; intros; cbv beta; wp_step; [apply wp_ret; split; [simpl; congruence|eauto]|].
  rewrite take_app_exact, drop_app_exact by apply length_le_put. cbv zeta.
  rewrite !le_get_put_u32, le_get_put_u64 by (unfold is_u32; try done; lia).
  change (Z.shiftl 10 20) with 10485760.
  destruct (Z.ltb_spec 10485760 (Z.of_nat (length (string_bytes v)))); [lia|].
  rewrite Nat2Z.id. wp_step. apply wp_on_fs, Hread; intros; cbv beta; wp_step;
    [apply wp_ret; split; [simpl; congruence|eauto]|].
  unfold upd. repeat wp_step. cbn [fst snd]. split; [congruence|]. right. split; [done|].
  by rewrite take_ge, bytes_string_bytes.
Qed.

(** The pair a store file stands for; a missing file stands for a new node. *)
Definition file_holds (f : option File) (t : Z) (v : string) : Prop :=
  match f_data <$> f with
  | Some b => b = store_encode t v
  | None => t = 0 ∧ v = ""%string
  end.

Lemma NewStore_reads name fs t v st fs' :
  io_honest fs → file_holds (fs_cur fs !! name) t v → is_u64 t →
  Z.of_nat (length (string_bytes v)) <= 10485760 →
  NewStore name fs = (Ret (inr st), fs') →
  st = mkStore 0 t 0 "" name v ∧ fs_cur fs' = fs_cur fs.
Proof.
  intros Hh Hf Ht Hv. unfold NewStore, Store__read. rewrite bind_run. cbn [gets st_name fst].
  set (s0 := mkStore _ _ _ _ _ _). rewrite bind_run.
  unfold on_fs, zoom, os_Open. rewrite !bind_run. cbn [syscall fst snd].
  destruct (fs_io fs (fs_clock fs)) as [|e k] eqn:Eio.
  - rewrite bind_run. cbn [gets mret GoM_ret fs_cur fst snd].
    unfold file_holds in Hf. set (fs1 := mkFs _ _ _ _).
    destruct (fs_cur fs !! name) as [f|]; simpl in Hf.
    + subst. rewrite Hf. pose proof (Store__read_body_any t v s0 fs1 Ht Hv) as Hw. unfold go_wp in Hw.
      destruct (Store__read_body (store_encode t v) (s0, fs1)) as [r [s' fs2]]; simpl in Hw.
      destruct Hw as [Hc [(c & e & ->)|[-> ->]]]; [done|]. by intros [= <- <-].
    + destruct Hf as [-> ->]. by intros [= <- <-].
  - cbn [mret GoM_ret fst snd]. unfold os_IsNotExist. case_bool_decide as He; [|done].
    by destruct (Hh _ _ _ Eio).
Qed.

(** ** Properties *)

(** C18: a power failure anywhere inside a write of the store (a run in which
    every later system call fails, or after it returned) leaves [store.data]
    with its previous contents or with the complete new encoding of
    [currentTerm] and [votedFor]; memory is not changed by the write. *)
Theorem store_write_crash_atomic (s s' : Store) (fs fs' : Fs) (r : outcome (option error))
    (o : option bytes)
    (Hrun : Store__write (s, fs) = (r, (s', fs')))
    (Hcrash : crash_content fs' (st_name s) o) :
  s' = s ∧ (crash_content fs (st_name s) o
            ∨ o = Some (store_encode (currentTerm s) (votedFor s))).
Proof.
  destruct (Store__write_run s fs) as (r' & fs'' & E & H).
  rewrite E in Hrun. injection Hrun as <- <- <-. split; [done|].
  destruct r' as [e|].
  - left. by eapply only_tmp_crash.
  - by eapply replaced_crash.
Qed.

Definition demo_fs : Fs := mkFs ∅ ∅ (λ _, IoOk) 0.
Definition demo_store : Store := mkStore 0 4 0 "" "store.data" "n2".

Lemma store_write_crash_atomic_witness :
  crash_content (Store__write (demo_store, demo_fs)).2.2 "store.data"
    (Some (store_encode 4 "n2"))
  ∧ ((Store__write (demo_store, demo_fs)).2.1 = demo_store
     ∧ (crash_content demo_fs "store.data" (Some (store_encode 4 "n2"))
        ∨ Some (store_encode 4 "n2") = Some (store_encode 4 "n2"))).
Proof.
  assert (crash_content (Store__write (demo_store, demo_fs)).2.2 "store.data"
    (Some (store_encode 4 "n2"))) as H.
  { eexists. split; [left; reflexivity|]. vm_compute. reflexivity. }
  split; [exact H|].
  apply (store_write_crash_atomic demo_store _ demo_fs
           (Store__write (demo_store, demo_fs)).2.2 (Store__write (demo_store, demo_fs)).1).
  - vm_compute. reflexivity.
  - exact H.
Defined.

(** C19: every setter of a persisted field is all-or-nothing. When it returns no
    error, memory and the flushed file both hold the new term and vote; when it
    returns an error, memory is rolled back and no file but the temporary one
    changed. [IncrementCurrentTerm] wraps at 2^64. *)
Theorem store_setters_all_or_nothing (s : Store) (fs : Fs) (t : Z) (v : string)
    (Ht : is_u64 (currentTerm s)) :
  (∃ err s' fs', Store__SetCurrentTermAndVotedFor t v (s, fs) = (Ret err, (s', fs'))
     ∧ store_updated s fs t v err s' fs')
  ∧ (∃ err s' fs', Store__SetVotedFor v (s, fs) = (Ret err, (s', fs'))
     ∧ store_updated s fs (currentTerm s) v err s' fs')
  ∧ (∃ err s' fs', Store__SetCurrentTerm t (s, fs) = (Ret (currentTerm s', err), (s', fs'))
     ∧ store_updated s fs t (votedFor s) err s' fs')
  ∧ (∃ err s' fs', Store__IncrementCurrentTerm (s, fs) = (Ret (currentTerm s', err), (s', fs'))
     ∧ store_updated s fs (u64 (currentTerm s + 1)) (votedFor s) err s' fs').
Proof.
  split_and!; eauto using SetCurrentTermAndVotedFor_run, SetVotedFor_run,
    SetCurrentTerm_run, IncrementCurrentTerm_run.
Qed.

Lemma store_setters_all_or_nothing_witness :
  ∃ err s' fs', Store__SetVotedFor "n3" (demo_store, demo_fs) = (Ret err, (s', fs'))
                ∧ store_updated demo_store demo_fs 4 "n3" err s' fs'.
Proof.
  apply (store_setters_all_or_nothing demo_store demo_fs 0 "n3").
  unfold is_u64. simpl. lia.
Defined.

(** Durability. After a write that reported success, [NewStore] on the same
    files returns a store with exactly the written term and vote (and fresh
    volatile fields), provided the reads succeed and the vote is not larger than
    the 10 MiB the reader accepts. *)
Theorem store_recovers_last_write (s : Store) (fs fs' fs1 : Fs)
    (Hw : Store__write (s, fs) = (Ret None, (s, fs')))
    (Hcur : fs_cur fs1 = fs_cur fs') (Hio : io_reliable fs1)
    (Ht : is_u64 (currentTerm s))
    (Hv : Z.of_nat (length (string_bytes (votedFor s))) <= 10485760) :
  ∃ fs2, NewStore (st_name s) fs1
         = (Ret (inr (mkStore 0 (currentTerm s) 0 "" (st_name s) (votedFor s))), fs2).
Proof.
  destruct (Store__write_run s fs) as (r & fs'' & E & H).
  rewrite E in Hw. injection Hw as -> ->. destruct H as (Hf & _).
  pose (s0 := mkStore 0 0 0 "" (st_name s) "").
  assert (go_wp Store__read (s0, fs1) (λ r p, r = Ret None ∧
    p.1 = mkStore 0 (currentTerm s) 0 "" (st_name s) (votedFor s))) as Hwp.
  { unfold Store__read. wp_step. wp_step. cbn [fst]. wp_step. apply wp_on_fs.
    apply wp_os_Open; [done|]. intros fs2 Hr2 _ _. wp_step.
    cbn [st_name s0]. rewrite Hcur, Hf. cbn [f_data].
    apply wp_Store__read_body; auto. }
  apply wp_exists in Hwp as (r & [s' fs2] & Hrun & -> & Hs). simpl in Hs. subst s'.
  exists fs2. unfold NewStore. fold s0. by rewrite Hrun.
Qed.

Lemma store_recovers_last_write_witness :
  ∃ fs2, NewStore "store.data" (Store__write (demo_store, demo_fs)).2.2
         = (Ret (inr (mkStore 0 4 0 "" "store.data" "n2")), fs2).
Proof.
  apply (store_recovers_last_write demo_store demo_fs
           (Store__write (demo_store, demo_fs)).2.2).
  - vm_compute. reflexivity.
  - reflexivity.
  - intros n _. reflexivity.
  - unfold is_u64. simpl. lia.
  - simpl. lia.
Defined.
