(* ===== verification/Snapshot.v ===== *)
(** * Snapshot files: [internal/snapshot.go]

    [SaveSnapshot] writes the V2 format through a temporary file,
    [LoadSnapshot] recognises V2 by its first byte and falls back to V1.  The
    theorems: what is saved is what is loaded, exactly up to the 256 MiB the
    loader accepts; a crash leaves the old or the new snapshot; one corrupted
    data byte is always detected; and V1 files are read back exactly when the
    low byte of their index is not the version byte of V2. *)
From S2P Require Import Prelude GoMonad FileSystem Checksum.
Local Open Scope Z_scope.

Record Snapshot := mkSnapshot {
  LastIncludedIndex : Z;
  LastIncludedTerm : Z;
  sn_Data : bytes
}.

Definition maxSnapshotSize : Z := Z.shiftl 256 20.
Definition snapshotFormatV2 : byte := x02.

Definition SaveSnapshot (name : string) (snapshot : Snapshot) : GoM Fs (option error) :=
  let tempName := tmp_of name in
  let close := _ ← file_Close tempName; mret tt in
  err ← os_MkdirAll name;
  match err with
  | Some e => if errors_Is e ErrExist then mret None else mret (Some (ErrWrap "mkdir" e))
  | None => mret None
  end ≫= λ err,
  match err with Some e => mret (Some e) | None =>
  go_try "open tmp" (mret tt) (os_OpenTrunc tempName) (
  go_try "write version" close (file_Write tempName [snapshotFormatV2]) (
  go_try "write lastIncludedIndex" close
    (file_Write tempName (put_u64 (LastIncludedIndex snapshot))) (
  go_try "write lastIncludedTerm" close
    (file_Write tempName (put_u64 (LastIncludedTerm snapshot))) (
  go_try "write data len" close
    (file_Write tempName (put_u64 (u64 (Z.of_nat (length (sn_Data snapshot)))))) (
  go_try "write data" close (file_Write tempName (sn_Data snapshot)) (
  let checksum := ChecksumIEEE (sn_Data snapshot) in
  go_try "write crc" close (file_Write tempName (put_u32 checksum)) (
  go_try "fsync" close (file_Sync tempName) (
  go_try "close tmp" (mret tt) (file_Close tempName) (
  go_try "rename" (mret tt) (os_Rename tempName name) (
  dir_OpenSyncClose name;; mret None))))))))))
  end.

(** The format readers take the bytes of the open file that are not read yet. *)
Definition loadSnapshotV1 (f : bytes) : GoM Fs (error + Snapshot) :=
  r ← io_ReadFull 8 f;
  match r with inl e => mret (inl (ErrWrap "read lastIncludedIndex" e)) | inr (i, f) =>
  r ← io_ReadFull 8 f;
  match r with inl e => mret (inl (ErrWrap "read lastIncludedTerm" e)) | inr (t, f) =>
  r ← io_ReadFull 4 f;
  match r with inl e => mret (inl (ErrWrap "read data len" e)) | inr (n, f) =>
  let n := le_get n in
  if maxSnapshotSize <? n then mret (inl (ErrFmt "snapshot data too large" [n])) else
  r ← io_ReadFull (Z.to_nat n) f;
  match r with inl e => mret (inl (ErrWrap "read data" e)) | inr (data, _) =>
  mret (inr (mkSnapshot (le_get i) (le_get t) data))
  end end end end.

Definition loadSnapshotV2 (f : bytes) : GoM Fs (error + Snapshot) :=
  r ← io_ReadFull 8 f;
  match r with inl e => mret (inl (ErrWrap "read lastIncludedIndex" e)) | inr (i, f) =>
  r ← io_ReadFull 8 f;
  match r with inl e => mret (inl (ErrWrap "read lastIncludedTerm" e)) | inr (t, f) =>
  r ← io_ReadFull 8 f;
  match r with inl e => mret (inl (ErrWrap "read data len" e)) | inr (n, f) =>
  let n := le_get n in
  if maxSnapshotSize <? n then mret (inl (ErrFmt "snapshot data too large" [n])) else
  r ← io_ReadFull (Z.to_nat n) f;
  match r with inl e => mret (inl (ErrWrap "read data" e)) | inr (data, f) =>
  r ← io_ReadFull 4 f;
  match r with inl e => mret (inl (ErrWrap "read crc" e)) | inr (c, _) =>
  let expectedCRC := le_get c in
  let actualCRC := ChecksumIEEE data in
  if negb (expectedCRC =? actualCRC)
  then mret (inl (ErrFmt "snapshot CRC mismatch" [expectedCRC; actualCRC]))
  else mret (inr (mkSnapshot (le_get i) (le_get t) data))
  end end end end end.

Definition LoadSnapshot (name : string) : GoM Fs (error + Snapshot) :=
  r ← os_Open name;
  match r with inl e => mret (inl e) | inr f =>
  r ← io_ReadFull 1 f;
  match r with inl e => mret (inl (ErrWrap "read first byte" e)) | inr (firstByte, rest) =>
  if bool_decide (firstByte = [snapshotFormatV2]) then loadSnapshotV2 rest
  else
    (* Seek(0, SeekStart) *)
    err ← sys_unit id;
    match err with
    | Some e => mret (inl (ErrWrap "seek" e))
    | None => loadSnapshotV1 f
    end
  end end.

(** ** The formats *)
Definition snapshot_wf (sn : Snapshot) : Prop :=
  is_u64 (LastIncludedIndex sn) ∧ is_u64 (LastIncludedTerm sn)
  ∧ is_u64 (Z.of_nat (length (sn_Data sn))).

Definition encode_v2_with (sn : Snapshot) (crc : Z) : bytes :=
  [snapshotFormatV2]
  ++ put_u64 (LastIncludedIndex sn)
  ++ put_u64 (LastIncludedTerm sn)
  ++ put_u64 (u64 (Z.of_nat (length (sn_Data sn))))
  ++ sn_Data sn ++ put_u32 crc.

Definition encode_v2 (sn : Snapshot) : bytes :=
  encode_v2_with sn (ChecksumIEEE (sn_Data sn)).

Definition encode_v1 (sn : Snapshot) : bytes :=
  put_u64 (LastIncludedIndex sn) ++ put_u64 (LastIncludedTerm sn)
  ++ put_u32 (Z.of_nat (length (sn_Data sn))) ++ sn_Data sn.

(** ** Writing *)
Lemma wp_close_cleanup_fs name fs0 fs (e : option error)
    (P : outcome (option error) → Fs → Prop) :
  only_tmp name fs0 fs →
  (∀ fs', only_tmp name fs0 fs' → P (Ret e) fs') →
  go_wp (_ ← file_Close (tmp_of name); mret tt) fs (on_ret (λ _ p, P (Ret e) p) P).
Proof.
  intros H HP. wp_step. eapply wp_file_Close_tmp; [exact H|].
  intros err fs' H'. apply wp_ret. by apply HP.
Qed.

Definition save_post (name : string) (sn : Snapshot) (fs : Fs)
    (r : outcome (option error)) (fs' : Fs) : Prop :=
  match r with
  | Ret None => replaced name (encode_v2 sn) fs fs'
  | Ret (Some _) => only_tmp name fs fs'
  | _ => False
  end.

Lemma wp_SaveSnapshot name sn fs : go_wp (SaveSnapshot name sn) fs (save_post name sn fs).
Proof.
  unfold SaveSnapshot. wp_step. eapply wp_MkdirAll; [reflexivity|].
  intros err fs1 H1. wp_step.
  assert (∀ Q, (∀ e, Q (Ret e) fs1) →
    go_wp (match err with
           | Some e => if errors_Is e ErrExist then mret None
                       else mret (Some (ErrWrap "mkdir" e))
           | None => mret None end : GoM Fs (option error)) fs1 Q) as Hmk.
  { intros Q HQ. destruct err; [destruct (errors_Is _ _)|]; by apply wp_ret. }
  wp_step. apply Hmk. intros [e|]; wp_step; [by apply wp_ret|].
  wp_step. eapply wp_OpenTrunc; [exact H1| |intros; by apply wp_ret].
  intros fs2 H2. do 2 wp_step.
  eapply wp_file_Write; [exact H2| |intros; by apply wp_close_cleanup_fs with fs].
  intros fs3 H3. do 2 wp_step.
  eapply wp_file_Write; [exact H3| |intros; by apply wp_close_cleanup_fs with fs].
  intros fs4 H4. do 2 wp_step.
  eapply wp_file_Write; [exact H4| |intros; by apply wp_close_cleanup_fs with fs].
  intros fs5 H5. do 2 wp_step.
  eapply wp_file_Write; [exact H5| |intros; by apply wp_close_cleanup_fs with fs].
  intros fs6 H6. do 2 wp_step.
  eapply wp_file_Write; [exact H6| |intros; by apply wp_close_cleanup_fs with fs].
  intros fs7 H7. do 2 wp_step.
  eapply wp_file_Write; [exact H7| |intros; by apply wp_close_cleanup_fs with fs].
  intros fs8 H8. do 2 wp_step.
  eapply wp_file_Sync; [exact H8| |intros; by apply wp_close_cleanup_fs with fs].
  intros fs9 H9. do 2 wp_step.
  eapply wp_file_Close; [exact H9| |intros; by apply wp_ret].
  intros fs10 H10. do 2 wp_step.
  eapply wp_Rename; [exact H10| |intros; by apply wp_ret].
  intros fs11 H11 _. do 2 wp_step.
  eapply wp_dir_sync; [exact H11|].
  intros fs12 H12. apply wp_ret. simpl.
  rewrite app_nil_l, <- !app_assoc in H12. exact H12.
Qed.

(** ** Reading *)

(** Read an exact prefix of the remaining bytes. *)
Ltac read_full Hr :=
  wp_step; apply wp_io_ReadFull; [exact Hr|apply length_le_put|];
  let fs := fresh "fs" in let Hr' := fresh "Hr" in
  intros fs Hr' _ _; wp_step.

Lemma wp_loadSnapshotV2 sn crc fs (Q : outcome (error + Snapshot) → Fs → Prop) :
  io_reliable fs → snapshot_wf sn → is_u32 crc →
  (∀ fs', Q (Ret (
     if maxSnapshotSize <? Z.of_nat (length (sn_Data sn))
     then inl (ErrFmt "snapshot data too large" [Z.of_nat (length (sn_Data sn))])
     else if negb (crc =? ChecksumIEEE (sn_Data sn))
     then inl (ErrFmt "snapshot CRC mismatch" [crc; ChecksumIEEE (sn_Data sn)])
     else inr sn)) fs') →
  go_wp (loadSnapshotV2 (put_u64 (LastIncludedIndex sn) ++ put_u64 (LastIncludedTerm sn)
    ++ put_u64 (u64 (Z.of_nat (length (sn_Data sn)))) ++ sn_Data sn ++ put_u32 crc)) fs Q.
Proof.
  intros Hr (Hi & Ht & Hn) Hc HQ. unfold loadSnapshotV2.
  rewrite (u64_small (Z.of_nat _)) by done.
  read_full Hr. read_full Hr0. read_full Hr1. cbv zeta.
  rewrite !le_get_put_u64 by done.
  destruct (_ <? _); [by apply wp_ret|]. rewrite Nat2Z.id.
  wp_step. apply wp_io_ReadFull; [done|done|]. intros fs3 Hr3 _ _. wp_step.
  rewrite <- (app_nil_r (put_u32 crc)).
  wp_step. apply wp_io_ReadFull; [done|apply length_le_put|]. intros fs4 Hr4 _ _. wp_step.
  cbv zeta. rewrite le_get_put_u32 by done. specialize (HQ fs4).
  destruct (negb _); apply wp_ret; [done|]. by destruct sn.
Qed.

Lemma wp_loadSnapshotV1 sn fs (Q : outcome (error + Snapshot) → Fs → Prop) :
  io_reliable fs → snapshot_wf sn →
  Z.of_nat (length (sn_Data sn)) <= maxSnapshotSize →
  (∀ fs', Q (Ret (inr sn)) fs') →
  go_wp (loadSnapshotV1 (encode_v1 sn)) fs Q.
Proof.
  intros Hr (Hi & Ht & _) Hn HQ. unfold loadSnapshotV1, encode_v1.
  read_full Hr. read_full Hr0. read_full Hr1. cbv zeta.
  change maxSnapshotSize with 268435456 in *.
  rewrite !le_get_put_u64, le_get_put_u32 by (done || unfold is_u32; lia).
  destruct (Z.ltb_spec 268435456 (Z.of_nat (length (sn_Data sn)))); [lia|].
  rewrite Nat2Z.id, <- (app_nil_r (sn_Data sn)).
  wp_step. apply wp_io_ReadFull; [done|by rewrite app_nil_r|]. intros fs3 Hr3 _ _. wp_step.
  apply wp_ret. destruct sn; apply HQ.
Qed.

(** [LoadSnapshot] up to the choice of the format. *)
Lemma wp_LoadSnapshot name b f s fs (Q : outcome (error + Snapshot) → Fs → Prop) :
  io_reliable fs → fs_cur fs !! name = Some (mkFile (b :: f) s) →
  (∀ fs', io_reliable fs' →
     go_wp (if decide (b = x02) then loadSnapshotV2 f else loadSnapshotV1 (b :: f)) fs' Q) →
  go_wp (LoadSnapshot name) fs Q.
Proof.
  intros Hr Hf HQ. unfold LoadSnapshot. wp_step. apply wp_os_Open; [done|].
  intros fs1 Hr1 _ _. rewrite Hf. wp_step. cbn [f_data].
  wp_step. apply (wp_io_ReadFull 1 [b] f); [done|done|]. intros fs2 Hr2 _ _. wp_step.
  unfold snapshotFormatV2. specialize (HQ _ Hr2) as HQ2.
  destruct (decide (b = x02)) as [->|Hb].
  - by rewrite bool_decide_true by done.
  - rewrite bool_decide_false by congruence.
    wp_step. unfold sys_unit. wp_step. unfold go_wp at 1, syscall. cbn [fst snd on_ret].
    rewrite Hr2 by done. do 3 wp_step. apply HQ, reliable_tick, Hr2.
Qed.

Lemma LoadSnapshot_v2 name sn crc s fs :
  io_reliable fs → snapshot_wf sn → is_u32 crc →
  fs_cur fs !! name = Some (mkFile (encode_v2_with sn crc) s) →
  ∃ fs', LoadSnapshot name fs = (Ret (
     if maxSnapshotSize <? Z.of_nat (length (sn_Data sn))
     then inl (ErrFmt "snapshot data too large" [Z.of_nat (length (sn_Data sn))])
     else if negb (crc =? ChecksumIEEE (sn_Data sn))
     then inl (ErrFmt "snapshot CRC mismatch" [crc; ChecksumIEEE (sn_Data sn)])
     else inr sn), fs').
Proof.
  intros Hr Hwf Hc Hf.
  assert (go_wp (LoadSnapshot name) fs (λ r _, r = Ret (
     if maxSnapshotSize <? Z.of_nat (length (sn_Data sn))
     then inl (ErrFmt "snapshot data too large" [Z.of_nat (length (sn_Data sn))])
     else if negb (crc =? ChecksumIEEE (sn_Data sn))
     then inl (ErrFmt "snapshot CRC mismatch" [crc; ChecksumIEEE (sn_Data sn)])
     else inr sn))) as Hwp.
  { eapply wp_LoadSnapshot; [done|exact Hf|]. intros fs1 Hr1.
    rewrite decide_True by done. by apply wp_loadSnapshotV2. }
  apply wp_exists in Hwp as (r & fs' & H & ->). eauto.
Qed.

(** ** Properties *)

(** C20: a snapshot that [SaveSnapshot] reports as saved is loaded back
    unchanged by [LoadSnapshot], provided its data is at most 256 MiB; a larger
    one, which [SaveSnapshot] accepts as well, can never be loaded again. *)
Theorem snapshot_save_load (name : string) (sn : Snapshot) (fs fs' fs1 : Fs)
    (Hwf : snapshot_wf sn)
    (Hsave : SaveSnapshot name sn fs = (Ret None, fs'))
    (Hcur : fs_cur fs1 = fs_cur fs') (Hio : io_reliable fs1) :
  ∃ fs2, LoadSnapshot name fs1 =
    (Ret (if Z.of_nat (length (sn_Data sn)) <=? maxSnapshotSize
          then inr sn
          else inl (ErrFmt "snapshot data too large" [Z.of_nat (length (sn_Data sn))])), fs2).
Proof.
  pose proof (wp_run _ _ _ _ _ Hsave (wp_SaveSnapshot name sn fs)) as (Hf & _).
  rewrite <- Hcur in Hf.
  destruct (LoadSnapshot_v2 name sn _ _ fs1 Hio Hwf (ChecksumIEEE_u32 _) Hf) as [fs2 H].
  exists fs2. rewrite H, Z.eqb_refl. cbn [negb].
  by rewrite Z.ltb_antisym; destruct (_ <=? _).
Qed.

Definition demo_snapshot : Snapshot := mkSnapshot 42 5 (string_bytes "hello snapshot").
Definition demo_fs : Fs := mkFs ∅ ∅ (λ _, IoOk) 0.
Definition demo_saved : Fs := (SaveSnapshot "d/snapshot.data" demo_snapshot demo_fs).2.

Lemma snapshot_save_load_witness :
  ∃ fs2, LoadSnapshot "d/snapshot.data" demo_saved = (Ret (inr demo_snapshot), fs2).
Proof.
  apply (snapshot_save_load "d/snapshot.data" demo_snapshot demo_fs demo_saved demo_saved).
  - unfold snapshot_wf, is_u64. simpl. lia.
  - vm_compute. reflexivity.
  - reflexivity.
  - intros n _. reflexivity.
Defined.

(** Saving a snapshot is atomic under power failure: at every point of
    [SaveSnapshot], whichever call fails, the snapshot file holds its previous
    contents or the complete new V2 encoding. *)
Theorem snapshot_save_crash_atomic (name : string) (sn : Snapshot) (fs fs' : Fs)
    (r : outcome (option error)) (o : option bytes)
    (Hrun : SaveSnapshot name sn fs = (r, fs'))
    (Hcrash : crash_content fs' name o) :
  crash_content fs name o ∨ o = Some (encode_v2 sn).
Proof.
  pose proof (wp_run _ _ _ _ _ Hrun (wp_SaveSnapshot name sn fs)) as H.
  unfold save_post in H. destruct r as [[e|]| |]; [| |done|done].
  - left. by eapply only_tmp_crash.
  - by eapply replaced_crash.
Qed.

Lemma snapshot_save_crash_atomic_witness :
  crash_content demo_fs "d/snapshot.data" (Some (encode_v2 demo_snapshot))
  ∨ Some (encode_v2 demo_snapshot) = Some (encode_v2 demo_snapshot).
Proof.
  apply (snapshot_save_crash_atomic "d/snapshot.data" demo_snapshot demo_fs demo_saved
           (SaveSnapshot "d/snapshot.data" demo_snapshot demo_fs).1).
  - vm_compute. reflexivity.
  - eexists. split; [left; reflexivity|]. vm_compute. reflexivity.
Defined.

(** C21: [LoadSnapshot] detects every corruption of one data byte of a saved
    snapshot and refuses the file. *)
Theorem snapshot_detects_corruption (name : string) (sn : Snapshot) (i : nat) (x y : byte)
    (s : bool) (fs : Fs)
    (Hwf : snapshot_wf sn) (Hio : io_reliable fs)
    (Hi : sn_Data sn !! i = Some x) (Hxy : y ≠ x)
    (Hf : fs_cur fs !! name = Some (mkFile (<[(25 + i)%nat := y]> (encode_v2 sn)) s)) :
  ∃ e fs', LoadSnapshot name fs = (Ret (inl e), fs').
Proof.
  pose (sn' := mkSnapshot (LastIncludedIndex sn) (LastIncludedTerm sn) (<[i:=y]> (sn_Data sn))).
  assert (<[(25 + i)%nat := y]> (encode_v2 sn)
          = encode_v2_with sn' (ChecksumIEEE (sn_Data sn))) as Henc.
  { unfold encode_v2, encode_v2_with. subst sn'.
    cbn [LastIncludedIndex LastIncludedTerm sn_Data]. rewrite length_insert.
    pose proof (lookup_lt_Some _ _ _ Hi).
    rewrite (insert_app_r_alt [_]) by (simpl; lia). do 2 f_equal.
    rewrite insert_app_r_alt by (rewrite length_le_put; simpl; lia). f_equal.
    rewrite insert_app_r_alt by (rewrite !length_le_put; simpl; lia). f_equal.
    rewrite insert_app_r_alt by (rewrite !length_le_put; simpl; lia). f_equal.
    rewrite insert_app_l by (rewrite !length_le_put; simpl; lia).
    f_equal. f_equal. rewrite !length_le_put. simpl. lia. }
  rewrite Henc in Hf.
  assert (snapshot_wf sn') as Hwf'.
  { destruct Hwf as (? & ? & ?). unfold snapshot_wf. simpl. by rewrite length_insert. }
  destruct (LoadSnapshot_v2 name sn' _ _ fs Hio Hwf' (ChecksumIEEE_u32 _) Hf) as [fs' H].
  rewrite H. destruct (_ <? _); [eauto|].
  destruct (Z.eqb_spec (ChecksumIEEE (sn_Data sn)) (ChecksumIEEE (sn_Data sn'))) as [E|];
    [|simpl; eauto].
  exfalso. apply Hxy. eapply ChecksumIEEE_insert; [exact Hi|]. by rewrite E.
Qed.

Definition corrupted_fs : Fs :=
  mkFs {["s" := mkFile (<[(25 + 0)%nat := x00]> (encode_v2 demo_snapshot)) true]} ∅ (λ _, IoOk) 0.

Lemma snapshot_detects_corruption_witness :
  ∃ e fs', LoadSnapshot "s" corrupted_fs = (Ret (inl e), fs').
Proof.
  apply (snapshot_detects_corruption "s" demo_snapshot 0 x68 x00 true).
  - unfold snapshot_wf, is_u64. simpl. lia.
  - intros n _. reflexivity.
  - reflexivity.
  - done.
  - reflexivity.
Defined.

Lemma wp_loadSnapshotV2_index f fs :
  go_wp (loadSnapshotV2 f) fs (λ r _, ∀ sn, r = Ret (inr sn) →
    LastIncludedIndex sn = le_get (take 8 f)).
Proof.
  unfold loadSnapshotV2.
  assert (∀ e : error, ∀ sn, Ret (inl e) = Ret (inr sn : error + Snapshot) →
    LastIncludedIndex sn = le_get (take 8 f)) as Hl by done.
  wp_step. apply wp_io_ReadFull_any; intros; wp_step; [by apply wp_ret|].
  wp_step. apply wp_io_ReadFull_any; intros; wp_step; [by apply wp_ret|].
  wp_step. apply wp_io_ReadFull_any; intros; wp_step; [by apply wp_ret|].
  cbv zeta. destruct (_ <? _); [by apply wp_ret|].
  wp_step. apply wp_io_ReadFull_any; intros; wp_step; [by apply wp_ret|].
  wp_step. apply wp_io_ReadFull_any; intros; wp_step; [by apply wp_ret|].
  cbv zeta. destruct (negb _); apply wp_ret; [done|]. by intros sn [= <-].
Qed.

Lemma encode_v1_cons sn :
  encode_v1 sn = byte_of_Z (LastIncludedIndex sn)
    :: (le_put 7 (LastIncludedIndex sn / 256)
        ++ put_u64 (LastIncludedTerm sn)
        ++ put_u32 (Z.of_nat (length (sn_Data sn))) ++ sn_Data sn).
Proof. done. Qed.

Lemma byte_of_Z_is_02 z : byte_of_Z z = x02 ↔ z mod 256 = 2.
Proof.
  rewrite <- Z_of_byte_of_Z. split.
  - by intros ->.
  - intros H. apply (inj Z_of_byte). rewrite H. done.
Qed.

(** Read as V2, a V1 file of an index with low byte 2 yields another index. *)
Lemma v1_as_v2_index i t rest :
  0 <= i < 72057594037927936 → i mod 256 = 2 →
  le_get (take 8 (le_put 7 (i / 256) ++ put_u64 t ++ rest)) ≠ i.
Proof.
  intros Hi Hm.
  assert (take 8 (le_put 7 (i / 256) ++ put_u64 t ++ rest)
          = le_put 7 (i / 256) ++ [byte_of_Z t]) as -> by done.
  rewrite le_get_snoc, length_le_put, le_get_put.
  pose proof (Z_of_byte_range (byte_of_Z t)).
  change (256 ^ Z.of_nat 7) with 72057594037927936.
  assert (0 <= i / 256 < 281474976710656)
    by (split; [apply Z.div_pos; lia|apply Z.div_lt_upper_bound; lia]).
  rewrite Z.mod_small by lia. intros E.
  assert (Z_of_byte (byte_of_Z t) = 0) as Hb by lia.
  rewrite Hb in E. pose proof (Z.div_mod i 256 ltac:(lia)). lia.
Qed.

(** C22: backward compatibility, exactly: a V1 file (index below 2^56, data
    within the limit) is loaded as the snapshot it encodes if and only if the
    low byte of its index is not 2, the V2 version byte. The first snapshot of
    every 256 indices is misread. *)
Theorem v1_loaded_iff (name : string) (sn : Snapshot) (s : bool) (fs : Fs)
    (Hwf : snapshot_wf sn) (Hio : io_reliable fs)
    (Hlen : Z.of_nat (length (sn_Data sn)) <= maxSnapshotSize)
    (Hidx : LastIncludedIndex sn < 72057594037927936)
    (Hf : fs_cur fs !! name = Some (mkFile (encode_v1 sn) s)) :
  (∃ fs', LoadSnapshot name fs = (Ret (inr sn), fs'))
  ↔ LastIncludedIndex sn mod 256 ≠ 2.
Proof.
  rewrite encode_v1_cons in Hf. rewrite <- byte_of_Z_is_02. split.
  - intros [fs' H] Hb.
    assert (go_wp (LoadSnapshot name) fs (λ r _, r ≠ Ret (inr sn))) as Hwp.
    { eapply wp_LoadSnapshot; [done|exact Hf|]. intros fs1 Hr1.
      rewrite decide_True by done.
      eapply wp_conseq; [apply wp_loadSnapshotV2_index|].
      intros r s' Hr ->. specialize (Hr _ eq_refl). symmetry in Hr. revert Hr.
      apply v1_as_v2_index; [destruct Hwf as [[? ?] _]; lia|].
      by apply byte_of_Z_is_02. }
    unfold go_wp in Hwp. rewrite H in Hwp. by apply Hwp.
  - intros Hb.
    assert (go_wp (LoadSnapshot name) fs (λ r _, r = Ret (inr sn))) as Hwp.
    { eapply wp_LoadSnapshot; [done|exact Hf|]. intros fs1 Hr1.
      rewrite decide_False by done. rewrite <- encode_v1_cons.
      by apply wp_loadSnapshotV1. }
    apply wp_exists in Hwp as (r & fs' & H & ->). eauto.
Qed.

Definition v1_fs (i : Z) : Fs :=
  mkFs {["s" := mkFile (encode_v1 (mkSnapshot i 1 (string_bytes "state"))) true]} ∅ (λ _, IoOk) 0.

Lemma v1_loaded_iff_witness :
  (∃ fs', LoadSnapshot "s" (v1_fs 258) = (Ret (inr (mkSnapshot 258 1 (string_bytes "state"))), fs'))
  ↔ 258 mod 256 ≠ 2.
Proof.
  apply (v1_loaded_iff "s" (mkSnapshot 258 1 (string_bytes "state")) true).
  - unfold snapshot_wf, is_u64. simpl. lia.
  - intros n _. reflexivity.
  - vm_compute. discriminate.
  - simpl. lia.
  - reflexivity.
Defined.
