(* ===== verification/Session.v ===== *)
(** * Client sessions: [internal/session.go]

    The table that remembers, per client, the last applied sequence number and
    its result, and its binary form.  The theorems: a sequence number once
    recorded stays a duplicate for ever and recording affects nothing else; the
    binary form is read back exactly (results aside) whatever order the map was
    iterated in; and a truncated buffer is refused. *)
From S2P Require Import Prelude GoMonad.
Local Open Scope Z_scope.

Record SessionEntry := mkSessionEntry { se_SequenceNumber : Z; se_Result : any }.

#[global] Instance SessionEntry_eq_dec : EqDecision SessionEntry.
Proof. solve_decision. Defined.

Abbreviation SessionTable := (gmap string SessionEntry).

Definition NewSessionTable : SessionTable := ∅.

Definition IsDuplicate (st : SessionTable) (clientId : string) (sequenceNumber : Z) : bool * any :=
  if bool_decide (clientId = ""%string) then (false, AnyNil)
  else match st !! clientId with
       | None => (false, AnyNil)
       | Some entry =>
           if sequenceNumber <=? se_SequenceNumber entry
           then (true, se_Result entry) else (false, AnyNil)
       end.

Definition RecordResult (st : SessionTable) (clientId : string) (sequenceNumber : Z)
    (result : any) : SessionTable :=
  if bool_decide (clientId = ""%string) then st
  else match st !! clientId with
       | Some entry =>
           if se_SequenceNumber entry <? sequenceNumber
           then <[clientId := mkSessionEntry sequenceNumber result]> st else st
       | None => <[clientId := mkSessionEntry sequenceNumber result]> st
       end.

(** Go iterates a map in an unspecified order: [order] lists the entries the way
    the loop of one call visits them. *)
Definition serialize_entry (kv : string * SessionEntry) : bytes :=
  let cid := string_bytes kv.1 in
  put_u32 (u32 (Z.of_nat (length cid))) ++ cid ++ put_u64 (se_SequenceNumber kv.2).

Definition SessionTable__Serialize (order : list (string * SessionEntry)) : bytes :=
  put_u32 (u32 (Z.of_nat (length order))) ++ concat (serialize_entry <$> order).

Record byteReader := mkByteReader { br_data : bytes; br_offset : nat }.

Definition br_advance (n : nat) (r : byteReader) : byteReader :=
  mkByteReader (br_data r) (br_offset r + n).

Definition newByteReader (data : bytes) : byteReader := mkByteReader data 0.

(** The fixed-width readers of the source differ only in the width. *)
Definition readUint (w : nat) : GoM byteReader (error + Z) :=
  r ← gets id;
  if (length (br_data r) <? br_offset r + w)%nat then mret (inl ErrUnexpectedEOF)
  else modify (br_advance w);; mret (inr (le_get (take w (drop (br_offset r) (br_data r))))).

Definition readUint32 : GoM byteReader (error + Z) := readUint 4.
Definition readUint64 : GoM byteReader (error + Z) := readUint 8.

Definition readBytes (n : nat) : GoM byteReader (error + bytes) :=
  r ← gets id;
  if (length (br_data r) <? br_offset r + n)%nat then mret (inl ErrUnexpectedEOF)
  else modify (br_advance n);; mret (inr (take n (drop (br_offset r) (br_data r)))).

(** The body of the loop of [Deserialize]: one entry. *)
Definition deserialize_entry (i : Z) : GoM byteReader (error + string * SessionEntry) :=
  cidLen ← readUint32;
  match cidLen with
  | inl e => mret (inl (ErrWrap "read clientId len" e))
  | inr cidLen =>
      cid ← readBytes (Z.to_nat cidLen);
      match cid with
      | inl e => mret (inl (ErrWrap "read clientId" e))
      | inr cid =>
          seqNum ← readUint64;
          match seqNum with
          | inl e => mret (inl (ErrWrap "read seqNum" e))
          | inr seqNum => mret (inr (bytes_string cid, mkSessionEntry seqNum AnyNil))
          end
      end
  end.

(** [for i := 0; i < count; i++]: the table is filled as the loop goes, so an
    error leaves it partly filled. *)
Fixpoint deserialize_loop (n : nat) (i : Z) (st : SessionTable) :
    GoM byteReader (option error * SessionTable) :=
  match n with
  | O => mret (None, st)
  | S n' =>
      kv ← deserialize_entry i;
      match kv with
      | inl e => mret (Some e, st)
      | inr kv => deserialize_loop n' (i + 1) (<[kv.1 := kv.2]> st)
      end
  end.

Definition SessionTable__Deserialize (data : bytes) (st : SessionTable) :
    option error * SessionTable :=
  if Z.of_nat (length data) <? 4
  then (Some (ErrFmt "session table too short" [Z.of_nat (length data)]), st)
  else
    match readUint32 (newByteReader data) with
    | (Ret (inr count), r) =>
        match deserialize_loop (Z.to_nat count) 0 ∅ r with
        | (Ret res, _) => res
        | _ => (None, st)
        end
    | (Ret (inl e), _) => (Some e, st)
    | _ => (None, st)
    end.

(** ** Reading back what was written *)

(** The entry without its result, as the binary form keeps it. *)
Definition strip (e : SessionEntry) : SessionEntry :=
  mkSessionEntry (se_SequenceNumber e) AnyNil.

Definition session_wf (kv : string * SessionEntry) : Prop :=
  is_u32 (Z.of_nat (length (string_bytes kv.1))) ∧ is_u64 (se_SequenceNumber kv.2).

(** A reader standing before [l]. *)
Definition at_bytes (l : bytes) (r : byteReader) : Prop :=
  (br_offset r <= length (br_data r))%nat ∧ drop (br_offset r) (br_data r) = l.

Lemma at_bytes_room w a l r : at_bytes (a ++ l) r → length a = w →
  (length (br_data r) <? br_offset r + w)%nat = false.
Proof.
  intros [Hle H] Ha. apply Nat.ltb_ge. apply (f_equal length) in H.
  rewrite length_drop, length_app in H. lia.
Qed.

Lemma at_bytes_advance w a l r : at_bytes (a ++ l) r → length a = w →
  at_bytes l (br_advance w r).
Proof.
  intros H Ha. pose proof (at_bytes_room _ _ _ _ H Ha) as Hr%Nat.ltb_ge.
  destruct H as [_ H]. split; [exact Hr|]. unfold br_advance. simpl.
  by rewrite <- drop_drop, H, drop_app_exact.
Qed.

Lemma readUint_run w v l r : at_bytes (le_put w v ++ l) r →
  readUint w r = (Ret (inr (v mod 256 ^ Z.of_nat w)), br_advance w r).
Proof.
  intros H. unfold readUint. rewrite bind_run. simpl.
  rewrite (at_bytes_room w _ _ _ H) by apply length_le_put.
  rewrite bind_run. simpl. destruct H as [_ H].
  by rewrite H, take_app_exact, le_get_put by apply length_le_put.
Qed.

Lemma readBytes_run a l r : at_bytes (a ++ l) r →
  readBytes (length a) r = (Ret (inr a), br_advance (length a) r).
Proof.
  intros H. unfold readBytes. rewrite bind_run. simpl.
  rewrite (at_bytes_room _ _ _ _ H) by done.
  rewrite bind_run. simpl. destruct H as [_ H]. by rewrite H, take_app_length.
Qed.

Lemma deserialize_entry_run i kv l r :
  session_wf kv → at_bytes (serialize_entry kv ++ l) r →
  ∃ r', deserialize_entry i r = (Ret (inr (kv.1, strip kv.2)), r') ∧ at_bytes l r'.
Proof.
  intros [Hn Hq] H. unfold serialize_entry in H.
  assert (u32 (Z.of_nat (length (string_bytes kv.1))) = Z.of_nat (length (string_bytes kv.1)))
    as Hu by (unfold u32; apply Z.mod_small, Hn).
  rewrite Hu, <- !app_assoc in H. unfold deserialize_entry.
  rewrite bind_run. unfold readUint32. rewrite (readUint_run _ _ _ _ H).
  apply at_bytes_advance with (w := 4%nat) in H; [|apply length_le_put].
  rewrite Z.mod_small by exact Hn. rewrite Nat2Z.id.
  rewrite bind_run, (readBytes_run _ _ _ H).
  apply at_bytes_advance with (w := length (string_bytes kv.1)) in H; [|done].
  rewrite bind_run. unfold readUint64. rewrite (readUint_run _ _ _ _ H).
  apply at_bytes_advance with (w := 8%nat) in H; [|apply length_le_put].
  rewrite Z.mod_small by exact Hq. rewrite bytes_string_bytes. eauto.
Qed.

Lemma deserialize_loop_run kvs i st r :
  Forall session_wf kvs → at_bytes (concat (serialize_entry <$> kvs)) r →
  ∃ r', deserialize_loop (length kvs) i st r
        = (Ret (None, foldl (λ m kv, <[kv.1 := strip kv.2]> m) st kvs), r').
Proof.
  revert i st r. induction kvs as [|kv kvs IH]; intros i st r Hwf H; simpl; [eauto|].
  apply Forall_cons_iff in Hwf as [Hkv Hwf]. rewrite fmap_cons in H. simpl in H.
  destruct (deserialize_entry_run i kv _ r Hkv H) as (r1 & E & H1).
  rewrite bind_run, E. by apply IH.
Qed.

Lemma foldl_strip (kvs : list (string * SessionEntry)) (m : SessionTable) :
  NoDup kvs.*1 → (∀ k, k ∈ kvs.*1 → m !! k = None) →
  foldl (λ m kv, <[kv.1 := strip kv.2]> m) m kvs = (strip <$> (list_to_map kvs : SessionTable)) ∪ m.
Proof.
  revert m. induction kvs as [|[k e] kvs IH]; intros m Hnd Hm; simpl.
  { by rewrite fmap_empty, (left_id_L ∅ (∪)). }
  rewrite fmap_cons in Hnd. apply list.NoDup_cons in Hnd as [Hk Hnd]. simpl in *.
  rewrite IH; [|done|].
  - rewrite fmap_insert, <- insert_union_l, insert_union_r; [done|].
    rewrite lookup_fmap. rewrite (not_elem_of_list_to_map_1 (M := gmap string) kvs k Hk). done.
  - intros k' Hk'. rewrite lookup_insert_ne by (intros ->; done).
    apply Hm. by right.
Qed.

(** ** Properties *)

(** C25: deduplication is exact. After recording [(c, n)], a request [(c', m)] is
    a duplicate if and only if it was one before, or it is of the same (named)
    client with [m <= n]; so an applied request is a duplicate for ever, no other
    request becomes one, and the result cached for the largest sequence number
    of a client is never overwritten by a smaller one. *)
Theorem record_dedup_exact (st : SessionTable) (c c' : string) (n m : Z) (res : any) :
  (IsDuplicate (RecordResult st c n res) c' m).1
  = (IsDuplicate st c' m).1
    || (bool_decide (c' = c) && negb (bool_decide (c = ""%string)) && (m <=? n))
  ∧ (∀ e, st !! c = Some e → n <= se_SequenceNumber e → RecordResult st c n res = st)
  ∧ (c ≠ ""%string → (∀ e, st !! c = Some e → se_SequenceNumber e < n) →
     IsDuplicate (RecordResult st c n res) c n = (true, res)).
Proof.
  split_and!.
  - unfold RecordResult, IsDuplicate.
    destruct (decide (c = ""%string)) as [->|Hc].
    { rewrite (bool_decide_true (""%string = _)) by done. simpl.
      by rewrite andb_false_r, orb_false_r. }
    rewrite (bool_decide_false (c = ""%string)) by done. simpl. rewrite andb_true_r.
    destruct (decide (c' = c)) as [->|Hne].
    + rewrite (bool_decide_false (c = ""%string)), (bool_decide_true (c = c)) by done. simpl.
      destruct (st !! c) as [e|] eqn:E; [destruct (Z.ltb_spec (se_SequenceNumber e) n)|].
      * rewrite lookup_insert_eq. simpl.
        destruct (Z.leb_spec m n), (Z.leb_spec m (se_SequenceNumber e)); simpl; done || lia.
      * rewrite E. destruct (Z.leb_spec m n), (Z.leb_spec m (se_SequenceNumber e)); simpl; done || lia.
      * rewrite lookup_insert_eq. simpl. by destruct (m <=? n).
    + rewrite (bool_decide_false (c' = c)) by done. simpl. rewrite orb_false_r.
      destruct (st !! c) as [e|]; [destruct (_ <? _)|];
        rewrite ?lookup_insert_ne by done; done.
  - intros e He Hle. unfold RecordResult. case_match; [done|]. rewrite He.
    destruct (Z.ltb_spec (se_SequenceNumber e) n); [lia|done].
  - intros Hc Hlt. unfold RecordResult, IsDuplicate.
    rewrite (bool_decide_false (c = ""%string)) by done.
    assert (∀ t : SessionTable, <[c:=mkSessionEntry n res]> t !! c = Some (mkSessionEntry n res))
      as Hl by (intros; apply lookup_insert_eq).
    destruct (st !! c) as [e|] eqn:E; [|by rewrite Hl; simpl; rewrite Z.leb_refl].
    specialize (Hlt e eq_refl).
    destruct (Z.ltb_spec (se_SequenceNumber e) n); [|lia].
    rewrite Hl. simpl. by rewrite Z.leb_refl.
Qed.

Lemma record_dedup_exact_witness :
  (IsDuplicate (RecordResult ∅ "alice" 5 (AnyBool true)) "alice" 4).1 = true
  ∧ IsDuplicate (RecordResult ∅ "alice" 5 (AnyBool true)) "alice" 5 = (true, AnyBool true).
Proof.
  destruct (record_dedup_exact ∅ "alice" "alice" 5 4 (AnyBool true)) as (H1 & _ & H3).
  split; [rewrite H1; reflexivity|]. apply H3; [done|]. intros e H. by rewrite lookup_empty in H.
Defined.

(** The session table survives its binary form: reading back what
    [Serialize] wrote, in whatever order the map was iterated, yields every
    client with its sequence number (results become [nil]) and no error,
    whatever the table held before. *)
Theorem session_roundtrip (st st0 : SessionTable) (order : list (string * SessionEntry))
    (Hord : order ≡ₚ map_to_list st)
    (Hwf : Forall session_wf order)
    (Hsize : is_u32 (Z.of_nat (length order))) :
  SessionTable__Deserialize (SessionTable__Serialize order) st0 = (None, strip <$> st).
Proof.
  unfold SessionTable__Deserialize, SessionTable__Serialize.
  assert (u32 (Z.of_nat (length order)) = Z.of_nat (length order)) as ->
    by (unfold u32; apply Z.mod_small, Hsize).
  rewrite length_app, length_le_put.
  destruct (Z.ltb_spec (Z.of_nat (4 + length (concat (serialize_entry <$> order)))) 4); [lia|].
  set (buf := put_u32 _ ++ _).
  assert (at_bytes buf (newByteReader buf)) as H0 by (split; simpl; [lia|done]).
  unfold readUint32. rewrite (readUint_run 4 _ _ _ H0), Z.mod_small by exact Hsize.
  apply at_bytes_advance with (w := 4%nat) in H0; [|apply length_le_put].
  rewrite Nat2Z.id.
  destruct (deserialize_loop_run order 0 ∅ _ Hwf H0) as (r' & ->).
  f_equal. rewrite foldl_strip.
  - rewrite (right_id_L ∅ (∪)). f_equal.
    rewrite <- (list_to_map_to_list st). apply list_to_map_proper; [|done].
    rewrite Hord. apply NoDup_fst_map_to_list.
  - rewrite Hord. apply NoDup_fst_map_to_list.
  - intros. apply lookup_empty.
Qed.

Definition demo_sessions : SessionTable :=
  {["alice" := mkSessionEntry 7 (AnyBool true); "bob" := mkSessionEntry 2 AnyNil]}.

Lemma session_roundtrip_witness :
  SessionTable__Deserialize (SessionTable__Serialize (map_to_list demo_sessions)) ∅
  = (None, strip <$> demo_sessions).
Proof.
  apply (session_roundtrip demo_sessions ∅ (map_to_list demo_sessions)).
  - done.
  - assert (map_to_list demo_sessions
      = [("bob", mkSessionEntry 2 AnyNil); ("alice", mkSessionEntry 7 (AnyBool true))]
      ∨ map_to_list demo_sessions
      = [("alice", mkSessionEntry 7 (AnyBool true)); ("bob", mkSessionEntry 2 AnyNil)])
      as [-> | ->] by (vm_compute; tauto);
    repeat constructor; simpl; lia.
  - vm_compute. split; congruence.
Defined.
