(* ===== verification/Config.v ===== *)
(** * Configuration: [internal/config.go]

    The timing and size limits, their defaults and their validation.  The
    theorems say exactly which configurations [Validate] accepts and what
    acceptance buys: the random election timeout is always drawn from a
    non-empty interval, and at least two heartbeats fit in the shortest one. *)
From S2P Require Import Prelude.
Local Open Scope Z_scope.

Record Config := mkConfig {
  TickInterval : Z;               (* time.Duration, nanoseconds *)
  HeartbeatTicks : Z;
  ElectionTimeoutMinTicks : Z;
  ElectionTimeoutMaxTicks : Z;
  MaxBatchEntries : Z;
  SnapshotThreshold : Z;
  MaxSnapshotSize : Z
}.

Definition DefaultConfig : Config := {|
  TickInterval := 350 * 1000000;
  HeartbeatTicks := 4;
  ElectionTimeoutMinTicks := 12;
  ElectionTimeoutMaxTicks := 20;
  MaxBatchEntries := 2048;
  SnapshotThreshold := 1000;
  MaxSnapshotSize := Z.shiftl 256 20
|}.

(** Go's integer division truncates: [Z.quot]. *)
Definition Validate (c : Config) : option error :=
  if TickInterval c <=? 0 then Some (ErrNew "TickInterval must be positive")
  else if HeartbeatTicks c <=? 0 then Some (ErrNew "HeartbeatTicks must be positive")
  else if ElectionTimeoutMinTicks c <=? 0
  then Some (ErrNew "ElectionTimeoutMinTicks must be positive")
  else if ElectionTimeoutMaxTicks c <? ElectionTimeoutMinTicks c
  then Some (ErrNew "ElectionTimeoutMaxTicks must be >= ElectionTimeoutMinTicks")
  else if Z.quot (ElectionTimeoutMinTicks c) 2 <=? HeartbeatTicks c
  then Some (ErrFmt "HeartbeatTicks must be < ElectionTimeoutMinTicks/2"
               [HeartbeatTicks c; Z.quot (ElectionTimeoutMinTicks c) 2])
  else if MaxBatchEntries c <=? 0 then Some (ErrNew "MaxBatchEntries must be positive")
  else if SnapshotThreshold c =? 0 then Some (ErrNew "SnapshotThreshold must be positive")
  else if MaxSnapshotSize c =? 0 then Some (ErrNew "MaxSnapshotSize must be positive")
  else None.

(** The values the Go types can hold: [int64] for durations and [int], [uint64]
    for the sizes. *)
Definition config_typed (c : Config) : Prop :=
  (∀ z, z = TickInterval c ∨ z = HeartbeatTicks c ∨ z = ElectionTimeoutMinTicks c
        ∨ z = ElectionTimeoutMaxTicks c ∨ z = MaxBatchEntries c →
        -9223372036854775808 <= z < 9223372036854775808)
  ∧ is_u64 (SnapshotThreshold c) ∧ is_u64 (MaxSnapshotSize c).

(** C31: [Validate] accepts exactly the configurations with positive intervals
    and limits, an ordered election interval, and more than two heartbeats in the
    shortest election timeout; the default configuration is accepted. On every
    accepted one the argument of [rng.IntN] in the role constructors,
    [max - min + 1], is a positive [int] (no panic, no overflow). *)
Theorem validate_accepts_iff (c : Config) (Htyped : config_typed c) :
  (Validate c = None ↔
    0 < TickInterval c ∧ 0 < HeartbeatTicks c
    ∧ 2 * HeartbeatTicks c + 2 <= ElectionTimeoutMinTicks c
    ∧ ElectionTimeoutMinTicks c <= ElectionTimeoutMaxTicks c
    ∧ 0 < MaxBatchEntries c ∧ 0 < SnapshotThreshold c ∧ 0 < MaxSnapshotSize c)
  ∧ (Validate c = None →
     let n := i64 (i64 (ElectionTimeoutMaxTicks c - ElectionTimeoutMinTicks c) + 1) in
     n = ElectionTimeoutMaxTicks c - ElectionTimeoutMinTicks c + 1 ∧ 0 < n)
  ∧ Validate DefaultConfig = None.
Proof.
  destruct Htyped as (Hint & Hs & Hm).
  pose proof (Hint (ElectionTimeoutMinTicks c) ltac:(tauto)) as Hmin.
  pose proof (Hint (ElectionTimeoutMaxTicks c) ltac:(tauto)) as Hmax.
  pose proof (Hint (HeartbeatTicks c) ltac:(tauto)) as Hh.
  unfold is_u64 in *.
  assert (Validate c = None ↔
    0 < TickInterval c ∧ 0 < HeartbeatTicks c
    ∧ 2 * HeartbeatTicks c + 2 <= ElectionTimeoutMinTicks c
    ∧ ElectionTimeoutMinTicks c <= ElectionTimeoutMaxTicks c
    ∧ 0 < MaxBatchEntries c ∧ 0 < SnapshotThreshold c ∧ 0 < MaxSnapshotSize c) as Hiff.
  { unfold Validate.
    pose proof (Z.quot_rem' (ElectionTimeoutMinTicks c) 2).
    repeat (case_match; zbool); (split; [intros ?; try done|intros ?; first [done|exfalso]]);
      try done; pose proof (Z.rem_bound_pos (ElectionTimeoutMinTicks c) 2); lia. }
  split; [exact Hiff|]. split; [|reflexivity].
  intros (_ & ? & ? & ? & _)%Hiff. cbv zeta.
  rewrite (i64_small (_ - _)), i64_small by lia. lia.
Qed.

Lemma validate_accepts_iff_witness :
  let n := i64 (i64 (ElectionTimeoutMaxTicks DefaultConfig
                     - ElectionTimeoutMinTicks DefaultConfig) + 1) in
  n = 9 ∧ 0 < n.
Proof.
  apply (validate_accepts_iff DefaultConfig).
  - split; [|unfold is_u64; split; vm_compute; split; congruence].
    intros z [->|[->|[->|[->| ->]]]]; vm_compute; split; congruence.
  - reflexivity.
Defined.
