(* ===== verification/Counter.v ===== *)
(** * The deduplicating counter: [counter/counter.go]

    A counter that ignores an id it has seen during the last day: ids are kept
    as 64-bit hashes, in one slot per minute of the day and in one set of all
    live hashes; moving to another minute clears the slots in between.  The
    theorems: the slots partition the live set, every [Increment] of a
    non-negative minute returns without panic, keeps the invariant and adds
    exactly once per live id; the clearing loop terminates and clears exactly
    the minutes passed; a snapshot restores the whole state. *)
From S2P Require Import Prelude GoMonad Checksum.
Local Open Scope Z_scope.

Record Counter := mkCounter {
  minute : Z;
  present : gmap Z bool;
  slots : list (gmap Z bool);
  value : Z
}.

Definition numberOfSlots : Z := 1440.

Definition NewCounter : Counter := mkCounter (-1) ∅ (replicate (Z.to_nat numberOfSlots) ∅) 0.

Definition Retrieve : GoM Counter Z := gets value.

Definition set_minute v c := mkCounter v (present c) (slots c) (value c).
Definition set_present v c := mkCounter (minute c) v (slots c) (value c).
Definition set_slots v c := mkCounter (minute c) (present c) v (value c).
Definition set_value v c := mkCounter (minute c) (present c) (slots c) v.

Definition hashString (s : string) : Z := fnv64a (string_bytes s).

(** [c.slots[i]]: an index outside the slice panics. *)
Definition slot_at (i : Z) : GoM Counter (gmap Z bool) := λ c,
  if i <? 0 then (Panic "index out of range", c)
  else match slots c !! Z.to_nat i with
       | Some s => (Ret s, c)
       | None => (Panic "index out of range", c)
       end.

(** Deleting every key of a slot from [present] and from the slot itself. *)
Definition clearMinute (m : Z) : GoM Counter unit :=
  let i := Z.rem m numberOfSlots in
  slot ← slot_at i;
  modify (λ c, set_slots (<[Z.to_nat i := ∅]> (slots c))
                 (set_present (present c ∖ slot) c)).

Fixpoint clear_loop (fuel : nat) (i to : Z) : GoM Counter unit :=
  match fuel with
  | O => out_of_fuel
  | S fuel =>
      clearMinute i;;
      if i =? to then mret tt
      else clear_loop fuel (Z.rem (i16 (i + 1)) numberOfSlots) to
  end.

(** The loop visits all 1440 minutes in 1440 rounds, so that much fuel decides
    whether it ever meets [to]. *)
Definition clearMinuteRange (from to : Z) : GoM Counter unit :=
  if from =? -1 then mret tt
  else clear_loop (Z.to_nat numberOfSlots) (Z.rem (i16 (from + 1)) numberOfSlots) to.

(** The three assignments that count a new id. *)
Definition count_new (hash m v : Z) : GoM Counter unit :=
  modify (λ c, set_present (<[hash := true]> (present c)) c);;
  slot ← slot_at m;
  modify (λ c, set_slots (<[Z.to_nat m := <[hash := true]> slot]> (slots c)) c);;
  modify (set_value v).

Definition Increment (id : string) (n m : Z) : GoM Counter bool :=
  c ← gets (λ c, c);
  let v := i64 (value c + n) in
  if v <? 0 then mret false else
  let m := Z.rem m numberOfSlots in
  when (negb (m =? minute c))
    (clearMinuteRange (minute c) m;; modify (set_minute m));;
  let hash := hashString id in
  c ← gets (λ c, c);
  if bool_decide (is_Some (present c !! hash)) then mret true else
  count_new hash m v;;
  mret true.

(** ** Invariant *)

(** [h] is recorded in slot [i]. *)
Definition in_slot (c : Counter) (i : nat) (h : Z) : Prop :=
  ∃ s, slots c !! i = Some s ∧ is_Some (s !! h).

Record counter_inv (c : Counter) : Prop := {
  inv_slots : length (slots c) = 1440%nat;
  inv_minute : -1 <= minute c < 1440;
  inv_value : 0 <= value c < 9223372036854775808;
  inv_present : ∀ h, is_Some (present c !! h) ↔ ∃ i, in_slot c i h;
  inv_disjoint : ∀ h i j, in_slot c i h → in_slot c j h → i = j
}.

(** [c'] is [c] with the slots of [P] emptied. *)
Record cleared (P : nat → Prop) (c c' : Counter) : Prop := {
  cl_minute : minute c' = minute c;
  cl_value : value c' = value c;
  cl_length : length (slots c') = length (slots c);
  cl_slots : ∀ i h, in_slot c' i h ↔ in_slot c i h ∧ ¬ P i;
  cl_present : ∀ h, is_Some (present c' !! h) ↔
     is_Some (present c !! h) ∧ ¬ ∃ i, P i ∧ in_slot c i h
}.

(** Minute [i] lies in the cyclic interval from [a] to [b]. *)
Definition cyc (a b : Z) (i : nat) : Prop := (Z.of_nat i - a) mod 1440 <= (b - a) mod 1440.

#[global] Instance cyc_dec a b i : Decision (cyc a b i).
Proof. unfold cyc. apply _. Defined.

Lemma cleared_inv P c c' : cleared P c c' → counter_inv c → counter_inv c'.
Proof.
  intros [Hm Hv Hl Hs Hp] [Il Im Iv Ip Id]. split; try congruence.
  - intros h. rewrite Hp, Ip. split.
    + intros [[i Hi] Hn]. exists i. apply Hs. split; [done|].
      intros HP. apply Hn. eauto.
    + intros [i [Hi HP]%Hs]. split; [by exists i|].
      intros (j & HPj & Hj). by rewrite (Id h i j Hi Hj) in HP.
  - intros h i j [Hi _]%Hs [Hj _]%Hs. eauto.
Qed.

Lemma cleared_trans P Q c1 c2 c3 :
  cleared P c1 c2 → cleared Q c2 c3 → cleared (λ i, P i ∨ Q i) c1 c3.
Proof.
  intros [? ? ? Hs1 Hp1] [? ? ? Hs2 Hp2]. split; try congruence.
  - intros i h. rewrite Hs2, Hs1. tauto.
  - intros h. rewrite Hp2, Hp1. split.
    + intros [[H1 H2] H3]. split; [done|]. intros (i & [HP|HQ] & Hi).
      * apply H2. eauto.
      * apply H3. exists i. split; [done|]. apply Hs1. split; [done|].
        intros HP. apply H2. eauto.
    + intros [H1 H2]. repeat split; [done| |].
      * intros (i & HP & Hi). apply H2. eauto.
      * intros (i & HQ & [Hi _]%Hs1). apply H2. eauto.
Qed.

Lemma cleared_ext P Q c c' : (∀ i, (i < 1440)%nat → P i ↔ Q i) →
  length (slots c) = 1440%nat → cleared P c c' → cleared Q c c'.
Proof.
  intros HPQ Hlen [? ? ? Hs Hp].
  assert (∀ i h, in_slot c i h → (i < 1440)%nat) as Hlt.
  { intros i h (s & Hi & _). apply lookup_lt_Some in Hi. congruence. }
  split; try done.
  - intros i h. rewrite Hs. split; intros [H1 H2]; (split; [done|]);
      rewrite HPQ in * by eauto; done.
  - intros h. rewrite Hp. split; intros [H1 H2]; (split; [done|]);
      intros (i & HP & Hi); apply H2; exists i; (split; [|done]); apply HPQ; eauto.
Qed.

(** ** Clearing *)

(** Division and modulo by a constant, for [lia]. *)
Ltac mod_lia := Z.to_euclidean_division_equations; lia.

Lemma rem_1440 m : 0 <= m → 0 <= Z.rem m 1440 < 1440.
Proof. intros. by apply Z.rem_bound_pos. Qed.

Lemma slot_at_run i c : 0 <= i < 1440 → length (slots c) = 1440%nat →
  ∃ s, slot_at i c = (Ret s, c) ∧ slots c !! Z.to_nat i = Some s.
Proof.
  intros Hi Hl. unfold slot_at. destruct (Z.ltb_spec i 0); [lia|].
  destruct (lookup_lt_is_Some_2 (slots c) (Z.to_nat i)) as [s Hs]; [lia|].
  rewrite Hs. eauto.
Qed.

Lemma clearMinute_run m c : 0 <= m < 1440 → counter_inv c →
  ∃ c', clearMinute m c = (Ret tt, c') ∧ cleared (λ i, i = Z.to_nat m) c c'.
Proof.
  intros Hm [Il Im Iv Ip Id]. unfold clearMinute.
  change numberOfSlots with 1440. rewrite Z.rem_small by lia.
  destruct (slot_at_run m c Hm Il) as (s & Hr & Hs).
  rewrite (bind_ret_run _ _ _ _ _ Hr). eexists. split; [reflexivity|].
  split; simpl; try done.
  - apply length_insert.
  - intros i h. unfold in_slot. simpl. split.
    + intros (s' & Hi & Hh). destruct (decide (i = Z.to_nat m)) as [->|Hne].
      * rewrite list_lookup_insert_eq in Hi by lia. injection Hi as <-.
        rewrite lookup_empty in Hh. by destruct Hh.
      * rewrite list_lookup_insert_ne in Hi by done. eauto.
    + intros [(s' & Hi & Hh) Hne]. exists s'.
      rewrite list_lookup_insert_ne by congruence. done.
  - intros h. rewrite lookup_difference_is_Some. split.
    + intros [H1 H2]. split; [done|]. intros (i & -> & s' & Hi & Hh).
      rewrite Hs in Hi. injection Hi as <-. rewrite H2 in Hh. by destruct Hh.
    + intros [H1 H2]. split; [done|]. apply eq_None_not_Some. intros Hh.
      apply H2. exists (Z.to_nat m). split; [done|]. by exists s.
Qed.

Lemma cyc_step i to j : 0 <= i < 1440 → 0 <= to < 1440 → i ≠ to → (j < 1440)%nat →
  (j = Z.to_nat i ∨ cyc (Z.rem (i16 (i + 1)) 1440) to j) ↔ cyc i to j.
Proof.
  intros. unfold cyc. rewrite i16_small by lia. rewrite Z.rem_mod_nonneg by lia.
  destruct (decide (i = 1439)) as [->|].
  - change ((1439 + 1) mod 1440) with 0. mod_lia.
  - rewrite (Z.mod_small (i + 1)) by lia. mod_lia.
Qed.

Lemma clear_loop_run fuel i to c :
  0 <= i < 1440 → 0 <= to < 1440 → (to - i) mod 1440 < Z.of_nat fuel → counter_inv c →
  ∃ c', clear_loop fuel i to c = (Ret tt, c') ∧ cleared (cyc i to) c c'.
Proof.
  revert i c. induction fuel as [|fuel IH]; intros i c Hi Hto Hf Hinv; [mod_lia|].
  cbn [clear_loop].
  destruct (clearMinute_run i c Hi Hinv) as (c1 & H1 & Hc1).
  rewrite (bind_ret_run _ _ _ _ _ H1).
  destruct (Z.eqb_spec i to) as [->|Hne].
  - eexists. split; [reflexivity|].
    eapply cleared_ext; [|apply Hinv|exact Hc1]. intros j Hj. unfold cyc. mod_lia.
  - assert (0 <= Z.rem (i16 (i + 1)) 1440 < 1440) as Hi'
      by (apply rem_1440; rewrite i16_small; lia).
    destruct (IH (Z.rem (i16 (i + 1)) numberOfSlots) c1) as (c2 & H2 & Hc2);
      [exact Hi'|done| |by eapply cleared_inv|].
    { change numberOfSlots with 1440. rewrite i16_small by lia.
      rewrite Z.rem_mod_nonneg by lia.
      destruct (decide (i = 1439)) as [->|]; [change ((1439 + 1) mod 1440) with 0|
        rewrite (Z.mod_small (i + 1)) by lia]; mod_lia. }
    exists c2. split; [exact H2|].
    eapply cleared_ext; [|apply Hinv|by eapply cleared_trans].
    intros j Hj. by apply cyc_step.
Qed.

Lemma clearMinuteRange_run from to c :
  0 <= from < 1440 → 0 <= to < 1440 → counter_inv c →
  ∃ c', clearMinuteRange from to c = (Ret tt, c')
        ∧ cleared (cyc ((from + 1) mod 1440) to) c c'.
Proof.
  intros Hf Hto Hinv. unfold clearMinuteRange.
  destruct (Z.eqb_spec from (-1)); [lia|].
  change numberOfSlots with 1440. rewrite i16_small, Z.rem_mod_nonneg by lia.
  apply clear_loop_run; [|done| |done]; mod_lia.
Qed.

(** The part of [Increment] that moves to minute [m]. *)
Definition expires (c : Counter) (m : Z) (i : nat) : Prop :=
  minute c ≠ -1 ∧ minute c ≠ m ∧ cyc ((minute c + 1) mod 1440) m i.

Lemma advance_run m c : 0 <= m < 1440 → counter_inv c →
  ∃ c', when (negb (m =? minute c))
          (clearMinuteRange (minute c) m;; modify (set_minute m)) c = (Ret tt, c')
    ∧ counter_inv c' ∧ minute c' = m ∧ value c' = value c
    ∧ (∀ i h, in_slot c' i h ↔ in_slot c i h ∧ ¬ expires c m i)
    ∧ (∀ h, is_Some (present c' !! h) ↔ ∃ i, in_slot c i h ∧ ¬ expires c m i).
Proof.
  intros Hm Hinv. unfold expires. destruct (Z.eqb_spec m (minute c)) as [->|Hne]; simpl.
  { exists c. split_and!; try done; [tauto|]. intros h. rewrite (inv_present c Hinv).
    split; intros [i Hi]; exists i; tauto. }
  destruct (decide (minute c = -1)) as [Hn|Hn].
  - unfold clearMinuteRange. rewrite Hn. simpl. eexists. split; [reflexivity|].
    destruct Hinv as [? ? ? Ip ?]. split_and!; try done.
    + split; try done. simpl. lia.
    + intros i h. change (in_slot (set_minute m c) i h) with (in_slot c i h). tauto.
    + intros h. change (present (set_minute m c)) with (present c). rewrite Ip.
      split; intros [i Hi]; exists i; tauto.
  - pose proof (inv_minute c Hinv).
    destruct (clearMinuteRange_run (minute c) m c) as (c1 & H1 & Hc1); [lia|done|done|].
    rewrite (bind_ret_run _ _ _ _ _ H1). eexists. split; [reflexivity|].
    pose proof (cleared_inv _ _ _ Hc1 Hinv) as [J1 J2 J3 J4 J5].
    destruct Hc1 as [_ Hv _ Hs Hp]. split_and!; try done.
    + split; try done. simpl. lia.
    + intros i h. change (in_slot (set_minute m c1) i h) with (in_slot c1 i h).
      rewrite Hs. assert (minute c ≠ m) by congruence. tauto.
    + intros h. change (present (set_minute m c1)) with (present c1).
      rewrite J4. split; intros [i Hi]; exists i;
        assert (minute c ≠ m) by congruence; rewrite Hs in *; tauto.
Qed.

(** ** Counting *)
Lemma count_new_run h k v c :
  counter_inv c → 0 <= k < 1440 → 0 <= v < 9223372036854775808 → ¬ is_Some (present c !! h) →
  ∃ c', count_new h k v c = (Ret tt, c') ∧ counter_inv c'
    ∧ minute c' = minute c ∧ value c' = v
    ∧ ∀ h', is_Some (present c' !! h') ↔ h' = h ∨ is_Some (present c !! h').
Proof.
  intros [Il Im Iv Ip Id] Hk Hv Hd. unfold count_new. rewrite bind_run. cbn [modify].
  destruct (slot_at_run k (set_present (<[h:=true]> (present c)) c)) as (s & Hr & Hsl); [done..|].
  rewrite (bind_ret_run _ _ _ _ _ Hr). eexists. split; [reflexivity|]. simpl in Hsl.
  set (c2 := set_value _ _).
  assert (∀ i h', in_slot c2 i h' ↔ in_slot c i h' ∨ (i = Z.to_nat k ∧ h' = h)) as Hs2.
  { intros i h'. unfold in_slot. simpl. destruct (decide (i = Z.to_nat k)) as [->|Hne].
    - rewrite list_lookup_insert_eq, Hsl by lia. split.
      + intros (s' & [= <-] & Hh). rewrite lookup_insert_is_Some' in Hh.
        destruct Hh as [<-|Hh]; [by right|left; eauto].
      + intros [(s' & [= <-] & Hh)|[_ ->]]; eexists; (split; [reflexivity|]);
          rewrite lookup_insert_is_Some'; auto.
    - rewrite list_lookup_insert_ne by done. split; [by left|]. intros [?|[? _]]; done. }
  assert (∀ h', is_Some (present c2 !! h') ↔ h' = h ∨ is_Some (present c !! h')) as Hp2.
  { intros h'. simpl. rewrite lookup_insert_is_Some'. by split; (intros [?|?]; [left|right]). }
  split_and!; try done. split; simpl; try done.
  - by rewrite length_insert.
  - intros h'. rewrite lookup_insert_is_Some', Ip. split.
    + intros [<-|[i Hi]]; [exists (Z.to_nat k)|exists i]; apply Hs2; tauto.
    + intros [i [Hi|[_ ->]]%Hs2]; [right; eauto|by left].
  - intros h' i j [Hi|[-> ->]]%Hs2 [Hj|[-> Heq]]%Hs2; try done; [by eapply Id| |];
      exfalso; apply Hd, Ip; try subst h'; eauto.
Qed.

Lemma NewCounter_inv : counter_inv NewCounter.
Proof.
  assert (∀ i h, ¬ in_slot NewCounter i h) as Hno.
  { intros i h (s & Hs & Hh). apply lookup_replicate in Hs as [-> _].
    rewrite lookup_empty in Hh. by destruct Hh. }
  split; [done|simpl; lia|simpl; lia| |].
  - intros h. simpl. rewrite lookup_empty. split; [by intros []|]. intros [i Hi]. by apply Hno in Hi.
  - intros h i j Hi. by apply Hno in Hi.
Qed.

(** A minute outside the day is never met: no amount of fuel is enough, so the
    Go loop does not return. *)
Lemma clear_loop_diverges fuel i to c :
  0 <= i < 1440 → ¬ 0 <= to < 1440 → counter_inv c →
  (clear_loop fuel i to c).1 = OutOfFuel.
Proof.
  revert i c. induction fuel as [|fuel IH]; intros i c Hi Hto Hinv; [done|].
  cbn [clear_loop]. destruct (clearMinute_run i c Hi Hinv) as (c1 & H1 & Hc1).
  rewrite (bind_ret_run _ _ _ _ _ H1). destruct (Z.eqb_spec i to); [lia|].
  apply IH; [|done|by eapply cleared_inv].
  apply rem_1440. rewrite i16_small; lia.
Qed.

(** [id] was counted before and is still remembered at minute [m]. *)
Definition live (c : Counter) (m : Z) (id : string) : Prop :=
  ∃ i, in_slot c i (hashString id) ∧ ¬ expires c m i.

Lemma increment_run (c : Counter) (id : string) (n m : Z)
    (Hinv : counter_inv c) (Hm : 0 <= m < 32768) :
  ∃ b c', Increment id n m c = (Ret b, c') ∧ counter_inv c' ∧
    if i64 (value c + n) <? 0 then b = false ∧ c' = c
    else b = true ∧ minute c' = m mod 1440
         ∧ (live c (m mod 1440) id → value c' = value c)
         ∧ (¬ live c (m mod 1440) id → value c' = i64 (value c + n))
         ∧ ∀ h, is_Some (present c' !! h) ↔
             h = hashString id ∨ ∃ i, in_slot c i h ∧ ¬ expires c (m mod 1440) i.
Proof.
  unfold Increment. rewrite bind_run. cbn [gets].
  destruct (Z.ltb_spec (i64 (value c + n)) 0) as [Hv|Hv]; [by exists false, c|].
  assert (0 <= i64 (value c + n) < 9223372036854775808) as Hrange.
  { split; [done|]. unfold i64. pose proof (Z.mod_pos_bound
      (value c + n + 9223372036854775808) 18446744073709551616). lia. }
  change numberOfSlots with 1440. rewrite Z.rem_mod_nonneg by lia.
  assert (0 <= m mod 1440 < 1440) as Hm' by (apply Z.mod_pos_bound; lia).
  set (k := m mod 1440) in *. clearbody k.
  destruct (advance_run k c Hm' Hinv) as (c1 & H1 & Hinv1 & Hk & Hval & Hs & Hp).
  cbv zeta. rewrite (bind_ret_run _ _ _ _ _ H1), bind_run. cbn [gets].
  assert (live c k id ↔ is_Some (present c1 !! hashString id)) as Hlive
    by (by rewrite Hp).
  case_bool_decide as Hd.
  { exists true, c1. split_and!; try done; [by rewrite <- Hlive in Hd|].
    intros h. rewrite Hp. split; [by right|]. intros [->|H]; [by apply Hp|done]. }
  destruct (count_new_run (hashString id) k (i64 (value c + n)) c1)
    as (c2 & H2 & Hinv2 & Hk2 & Hv2 & Hp2); [done..|].
  rewrite (bind_ret_run _ _ _ _ _ H2). exists true, c2. split_and!; try done.
  - congruence.
  - intros Hl. exfalso. apply Hd. by apply Hlive.
  - intros h'. by rewrite Hp2, Hp.
Qed.

Lemma increment_total (c : Counter) (id : string) (n m : Z) :
  counter_inv c → 0 <= m < 32768 →
  ∃ b c', Increment id n m c = (Ret b, c') ∧ counter_inv c'
          ∧ (c' = c ∨ minute c' = m mod 1440).
Proof.
  intros Hinv Hm. destruct (increment_run c id n m Hinv Hm) as (b & c' & Hrun & Hi & H).
  exists b, c'. split_and!; [done..|]. destruct (_ <? 0); [left|right]; apply H.
Qed.

(** ** Properties *)

(** C29: [Increment] is total and counts once. From any state satisfying the
    invariant (the slots partition the set of live hashes, the value is a
    non-negative [int64]) and for every non-negative [int16] minute it returns
    without panicking or looping, keeps the invariant, and: if the wrapped
    sum of value and [n] is negative, it returns [false] and
    changes nothing; otherwise it returns [true], adds [n] exactly when the id is
    not live, afterwards remembers the id, and forgets exactly the ids of the
    minutes passed since the last call. *)
Theorem increment_counts_once (c : Counter) (id : string) (n m : Z)
    (Hinv : counter_inv c) (Hm : 0 <= m < 32768) :
  ∃ b c', Increment id n m c = (Ret b, c') ∧ counter_inv c' ∧
    if i64 (value c + n) <? 0 then b = false ∧ c' = c
    else b = true ∧ minute c' = m mod 1440
         ∧ (live c (m mod 1440) id → value c' = value c)
         ∧ (¬ live c (m mod 1440) id → value c' = i64 (value c + n))
         ∧ ∀ h, is_Some (present c' !! h) ↔
             h = hashString id ∨ ∃ i, in_slot c i h ∧ ¬ expires c (m mod 1440) i.
Proof. by apply increment_run. Qed.

Lemma increment_counts_once_witness :
  ∃ b c', Increment "key_a" 1 500 NewCounter = (Ret b, c') ∧ counter_inv c' ∧
    if i64 (value NewCounter + 1) <? 0 then b = false ∧ c' = NewCounter
    else b = true ∧ minute c' = 500 mod 1440
         ∧ (live NewCounter (500 mod 1440) "key_a" → value c' = value NewCounter)
         ∧ (¬ live NewCounter (500 mod 1440) "key_a" → value c' = i64 (value NewCounter + 1))
         ∧ ∀ h, is_Some (present c' !! h) ↔
             h = hashString "key_a"
             ∨ ∃ i, in_slot NewCounter i h ∧ ¬ expires NewCounter (500 mod 1440) i.
Proof. apply (increment_counts_once NewCounter "key_a" 1 500); [apply NewCounter_inv|lia]. Defined.

(** The scenario of [TestIncrement3]. *)
Example increment_test3 :
  value (Increment "key_a" 1 700 (Increment "key_b" 1 100 (Increment "key_a" 1 600
    (Increment "key_a" 1 500 NewCounter).2).2).2).2 = 3.
Proof. vm_compute. reflexivity. Qed.

(** ** Snapshot and restore

    [encoding/gob] is used through two functions on [counterSnapshot]; what the
    counter relies on is that decoding an encoding gives the value back. *)
Record counterSnapshot := mkCounterSnapshot {
  cs_Minute : Z;
  cs_Present : gmap Z bool;
  cs_Slots : list (gmap Z bool);
  cs_Value : Z
}.

Class GobCodec := {
  gob_Encode : counterSnapshot → error + bytes;
  gob_Decode : bytes → error + counterSnapshot
}.

Class GobRoundtrip `{GobCodec} :=
  gob_decode_encode s l : gob_Encode s = inr l → gob_Decode l = inr s.

Section snapshot.
Context `{GobCodec}.

Definition Counter__Snapshot : GoM Counter (error + bytes) :=
  c ← gets (λ c, c);
  let state := mkCounterSnapshot (minute c) (present c) (slots c) (value c) in
  mret (gob_Encode state).

Definition Counter__Restore (data : bytes) : GoM Counter (option error) :=
  match gob_Decode data with
  | inl e => mret (Some e)
  | inr state =>
      modify (set_minute (cs_Minute state));;
      modify (set_present (cs_Present state));;
      modify (set_slots (cs_Slots state));;
      modify (set_value (cs_Value state));;
      mret None
  end.
End snapshot.

(** A snapshot taken from any counter and restored into any other one
    reproduces the whole state (so deduplication goes on as before), taking it
    changes nothing, and a snapshot that does not decode leaves the counter as
    it was. *)
Theorem counter_snapshot_restore `{GobRoundtrip} (c c0 : Counter) (data : bytes)
    (Hsnap : (Counter__Snapshot c).1 = Ret (inr data)) :
  Counter__Restore data c0 = (Ret None, c)
  ∧ (Counter__Snapshot c).2 = c
  ∧ ∀ bad e, gob_Decode bad = inl e → Counter__Restore bad c0 = (Ret (Some e), c0).
Proof.
  unfold Counter__Snapshot in Hsnap. simpl in Hsnap. injection Hsnap as Hs.
  split_and!; [|done|].
  - unfold Counter__Restore. rewrite (gob_decode_encode _ _ Hs). by destruct c.
  - intros bad e Hb. unfold Counter__Restore. by rewrite Hb.
Qed.

(** A concrete codec: the positive number stdpp assigns to a countable value,
    in little-endian bytes. *)
Definition snapshot_code (s : counterSnapshot) : positive :=
  encode (cs_Minute s, cs_Present s, cs_Slots s, cs_Value s).

#[local] Instance demo_codec : GobCodec := {|
  gob_Encode s :=
    let z := Z.pos (snapshot_code s) in
    inr (le_put (Z.to_nat (Z.log2 z + 1)) z);
  gob_Decode l :=
    match decode (Z.to_pos (le_get l)) with
    | Some (m, p, sl, v) => inr (mkCounterSnapshot m p sl v)
    | None => inl ErrUnexpectedEOF
    end
|}.

#[local] Instance demo_roundtrip : GobRoundtrip.
Proof.
  intros s l Hl. unfold gob_Decode, demo_codec. set (z := Z.pos (snapshot_code s)).
  assert (l = le_put (Z.to_nat (Z.log2 z + 1)) z) as -> by (by injection Hl as <-).
  rewrite le_get_put, Z.mod_small.
  - subst z. cbn [Z.to_pos]. unfold snapshot_code. rewrite decode_encode. by destruct s.
  - assert (0 < z) as Hz by done. split; [lia|].
    destruct (Z.log2_spec z Hz) as [_ Hlt]. pose proof (Z.log2_nonneg z).
    rewrite Z2Nat.id by lia. eapply Z.lt_le_trans; [exact Hlt|].
    rewrite <- Z.add_1_r. apply Z.pow_le_mono_l. lia.
Qed.

Lemma counter_snapshot_restore_witness :
  Counter__Restore (le_put (Z.to_nat (Z.log2 (Z.pos (snapshot_code
      (mkCounterSnapshot 3 ∅ [] 5))) + 1)) (Z.pos (snapshot_code (mkCounterSnapshot 3 ∅ [] 5))))
    NewCounter = (Ret None, mkCounter 3 ∅ [] 5).
Proof.
  apply (counter_snapshot_restore (mkCounter 3 ∅ [] 5) NewCounter).
  reflexivity.
Defined.
