(* ===== verification/GoLog.v ===== *)
(** * The write-ahead log library: interface

    [github.com/hirebarend/go-log] is not part of the repository.  [GoLog] lists
    the operations the program calls; every definition of the development is
    written against it.  [GoLogLaws] states what the callers rely on (an
    append-only sequence of byte records with consecutive indices, cut at either
    end by the two truncations; a directory of segment files that [os] lists,
    removes and creates, each of which can fail); the theorems that need it say so.
    [MemLog] is a concrete log with injectable failures that satisfies the laws: it
    is what the concrete runs of the other files evaluate on. *)
From S2P Require Import Prelude.
From Stdlib Require Import Ascii.
Local Open Scope Z_scope.

Class GoLog (L : Type) := {
  log_GetLastIndex : L → Z * option error;
  log_Read : Z → L → error + bytes;
  log_Write : bytes → L → (Z * option error) * L;
  log_Commit : L → L;
  log_WriteCommit : bytes → L → (Z * option error) * L;
  log_TruncateFrom : Z → L → option error * L;
  log_TruncateTo : Z → L → option error * L;
  (* [os] on the log's directory; [os.Create] with the [Close] after it *)
  log_ReadDir : L → error + list string;
  log_Remove : string → L → option error * L;
  log_Create : string → L → option error * L;
  log_Load : L → option error * L
}.

(** The name [fmt.Sprintf("%020d.seg", i)] of the segment that starts at [i]. *)
Fixpoint dec_digits (n : nat) (z : Z) : string :=
  match n with
  | O => ""
  | S n' => dec_digits n' (z / 10)
            +:+ String (ascii_of_nat (48 + Z.to_nat (z mod 10))) ""
  end.

Definition seg_name (startIndex : Z) : string := dec_digits 20 startIndex +:+ ".seg".

(** [strings.HasSuffix(name, ".seg")] *)
Definition is_seg (name : string) : bool :=
  bool_decide (String.substring (String.length name - 4) 4 name = ".seg").

(** What the callers rely on, through three ghost views of a log: the index before
    the first record kept, the records, and the files in its directory. *)
Class GoLogLaws (L : Type) `{GoLog L} := {
  log_base : L → Z;
  log_items : L → list bytes;
  log_file : L → string → option bytes;
  log_last (l : L) : Z := log_base l + Z.of_nat (length (log_items l));
  log_base_nonneg l : 0 <= log_base l;
  log_last_spec l : log_GetLastIndex l = (log_last l, None);
  log_read_hit l i d :
    log_base l < i → log_items l !! Z.to_nat (i - log_base l - 1) = Some d →
    log_Read i l = inr d;
  log_read_miss l i :
    ¬ (log_base l < i <= log_last l) → ∃ e, log_Read i l = inl e;
  log_write_spec d l i err l' :
    log_Write d l = ((i, err), l') →
    log_base l' = log_base l ∧
    match err with
    | None => i = log_last l + 1 ∧ log_items l' = log_items l ++ [d]
    | Some _ => log_items l' = log_items l
    end;
  log_commit_spec l :
    log_base (log_Commit l) = log_base l ∧ log_items (log_Commit l) = log_items l;
  log_writecommit_spec d l i err l' :
    log_WriteCommit d l = ((i, err), l') →
    log_base l' = log_base l ∧
    match err with
    | None => i = log_last l + 1 ∧ log_items l' = log_items l ++ [d]
    | Some _ => log_items l' = log_items l
    end;
  log_truncate_from_spec i l err l' :
    log_TruncateFrom i l = (err, l') → log_base l < i →
    log_base l' = log_base l ∧
    match err with
    | None => log_items l' = take (Z.to_nat (i - log_base l - 1)) (log_items l)
    | Some _ => log_items l' = log_items l
    end;
  (* whole segments are dropped: at most the records up to [i] *)
  log_truncate_to_spec i l err l' :
    log_TruncateTo i l = (err, l') → i <= log_last l →
    log_base l <= log_base l' ∧ (log_base l' <= log_base l ∨ log_base l' <= i)
    ∧ log_items l' = drop (Z.to_nat (log_base l' - log_base l)) (log_items l);
  log_readdir_spec l names n : log_ReadDir l = inr names → n ∈ names ↔ is_Some (log_file l n);
  log_remove_spec n l l' m : log_Remove n l = (None, l') →
    log_file l' m = if decide (m = n) then None else log_file l m;
  log_create_spec n l l' m : log_Create n l = (None, l') →
    log_file l' m = if decide (m = n) then Some [] else log_file l m;
  (* a segment's file is named after its first index: one empty segment is an empty log *)
  log_load_spec l l' i : log_Load l = (None, l') → 0 < i → is_u64 i →
    log_file l (seg_name i) = Some [] →
    (∀ n, is_Some (log_file l n) → is_seg n = true → n = seg_name i) →
    log_base l' = i - 1 ∧ log_items l' = []
}.

(** ** A log in memory

    Its records are never written to its files, which stay as [os.Create] left
    them. *)
Record MemLog := mkMemLog {
  ml_base : N;
  ml_items : list bytes;
  ml_fail : list bool;    (* which of the next operations that can fail do *)
  ml_dir : list string    (* names of the files *)
}.

Definition mem_fails (l : MemLog) : bool := default false (head (ml_fail l)).

Definition mem_base (l : MemLog) : Z := Z.of_N (ml_base l).
Definition mem_last (l : MemLog) : Z := mem_base l + Z.of_nat (length (ml_items l)).

Definition mem_write (d : bytes) (l : MemLog) : (Z * option error) * MemLog :=
  if mem_fails l
  then ((0, Some ErrIO), mkMemLog (ml_base l) (ml_items l) (tail (ml_fail l)) (ml_dir l))
  else ((mem_last l + 1, None),
        mkMemLog (ml_base l) (ml_items l ++ [d]) (tail (ml_fail l)) (ml_dir l)).

Definition mem_truncate_from (i : Z) (l : MemLog) : option error * MemLog :=
  if mem_fails l
  then (Some ErrIO, mkMemLog (ml_base l) (ml_items l) (tail (ml_fail l)) (ml_dir l))
  else (None, mkMemLog (ml_base l) (take (Z.to_nat (i - mem_base l - 1)) (ml_items l))
                (tail (ml_fail l)) (ml_dir l)).

Definition mem_remove (n : string) (l : MemLog) : option error * MemLog :=
  if mem_fails l then (Some ErrIO, mkMemLog (ml_base l) (ml_items l) (tail (ml_fail l)) (ml_dir l))
  else (None, mkMemLog (ml_base l) (ml_items l) (tail (ml_fail l)) (filter (λ m, m ≠ n) (ml_dir l))).

Definition mem_create (n : string) (l : MemLog) : option error * MemLog :=
  if mem_fails l then (Some ErrIO, mkMemLog (ml_base l) (ml_items l) (tail (ml_fail l)) (ml_dir l))
  else (None, mkMemLog (ml_base l) (ml_items l) (tail (ml_fail l)) (n :: ml_dir l)).

(** Loading reads the start index off the segment name; a directory of one
    segment is an empty log, any other leaves the records as they are. *)
Definition parse_dec (l : bytes) : Z := foldl (λ a b, 10 * a + (Z_of_byte b - 48)) 0 l.

Definition mem_load (l : MemLog) : option error * MemLog :=
  match filter (λ n, is_seg n = true) (ml_dir l) with
  | n :: names =>
      if forallb (λ m, bool_decide (m = n)) names then
        let start := parse_dec (string_bytes (String.substring 0 20 n)) in
        (None, mkMemLog (Z.to_N (start - 1)) [] (ml_fail l) (ml_dir l))
      else (None, l)
  | [] => (None, l)
  end.

Definition mem_file (l : MemLog) (n : string) : option bytes :=
  if decide (n ∈ ml_dir l) then Some [] else None.

#[export] Instance MemLog_GoLog : GoLog MemLog := {|
  log_GetLastIndex l := (mem_last l, None);
  log_Read i l :=
    if (mem_base l <? i) && (i <=? mem_last l)
    then match ml_items l !! Z.to_nat (i - mem_base l - 1) with
         | Some d => inr d
         | None => inl ErrIO
         end
    else inl (ErrNew "index out of range");
  log_Write := mem_write;
  log_Commit l := l;
  log_WriteCommit := mem_write;
  log_TruncateFrom := mem_truncate_from;
  log_TruncateTo i l :=
    (None, if (mem_base l <? i) && (i <=? mem_last l)
           then mkMemLog (Z.to_N i) (drop (Z.to_nat (i - mem_base l)) (ml_items l)) (ml_fail l) (ml_dir l)
           else l);
  log_ReadDir l := inr (ml_dir l);
  log_Remove := mem_remove;
  log_Create := mem_create;
  log_Load := mem_load
|}.

(** ** The laws hold of it *)
Lemma string_bytes_app s t : string_bytes (s +:+ t) = string_bytes s ++ string_bytes t.
Proof.
  unfold string_bytes. induction s as [|c s IH]; [done|].
  change (byte_of_ascii c :: String.list_byte_of_string (s +:+ t)
          = byte_of_ascii c :: (String.list_byte_of_string s ++ String.list_byte_of_string t)).
  by rewrite IH.
Qed.

Lemma length_dec_digits n z : String.length (dec_digits n z) = n.
Proof.
  revert z. assert (∀ s c, String.length (s +:+ String c "") = S (String.length s)) as Happ.
  { induction s as [|x s IH]; intros c; simpl; [done|]. by rewrite IH. }
  induction n as [|n IH]; intros z; [done|]. cbn [dec_digits]. by rewrite Happ, IH.
Qed.

Lemma substring_prefix s t : String.substring 0 (String.length s) (s +:+ t) = s.
Proof. induction s as [|c s IH]; simpl; [by destruct t|]. by rewrite IH. Qed.

Lemma substring_all t : String.substring 0 (String.length t) t = t.
Proof. induction t as [|c t IH]; simpl; [done|]. by rewrite IH. Qed.

Lemma substring_suffix s t :
  String.substring (String.length s) (String.length t) (s +:+ t) = t.
Proof. induction s as [|c s IH]; simpl; [apply substring_all|apply IH]. Qed.

Lemma length_append s t : String.length (s +:+ t) = (String.length s + String.length t)%nat.
Proof. induction s as [|c s IH]; simpl; [done|]. by rewrite IH. Qed.

Lemma is_seg_seg_name i : is_seg (seg_name i) = true.
Proof.
  unfold is_seg, seg_name. apply bool_decide_eq_true.
  rewrite length_append. change (String.length ".seg") with 4%nat. rewrite Nat.add_sub.
  apply (substring_suffix _ ".seg").
Qed.

Lemma parse_digit d : 0 <= d < 10 →
  Z_of_byte (byte_of_ascii (ascii_of_nat (48 + Z.to_nat d))) - 48 = d.
Proof.
  intros Hd. assert (d = 0 ∨ d = 1 ∨ d = 2 ∨ d = 3 ∨ d = 4 ∨ d = 5 ∨ d = 6 ∨ d = 7 ∨ d = 8 ∨ d = 9)
    by lia. by repeat destruct H as [-> | H]; [..|subst d].
Qed.

Lemma parse_dec_digits n z : 0 <= z →
  parse_dec (string_bytes (dec_digits n z)) = z mod 10 ^ Z.of_nat n.
Proof.
  revert z. induction n as [|n IH]; intros z Hz; [by rewrite Z.mod_1_r|].
  cbn [dec_digits]. unfold parse_dec. rewrite string_bytes_app, foldl_app.
  fold (parse_dec (string_bytes (dec_digits n (z / 10)))).
  rewrite IH by (apply Z.div_pos; lia).
  change (string_bytes (String ?a "")) with [byte_of_ascii a]. cbn [foldl].
  rewrite parse_digit by (apply Z.mod_pos_bound; lia).
  rewrite Nat2Z.inj_succ, Z.pow_succ_r by lia.
  rewrite (Z.rem_mul_r z 10) by (try apply Z.pow_pos_nonneg; lia). lia.
Qed.

Lemma mem_write_spec d l i err l' :
  mem_write d l = ((i, err), l') →
  mem_base l' = mem_base l ∧
  match err with
  | None => i = mem_last l + 1 ∧ ml_items l' = ml_items l ++ [d]
  | Some _ => ml_items l' = ml_items l
  end.
Proof. unfold mem_write. destruct (mem_fails l); by intros [= <- <- <-]. Qed.

Lemma seg_name_start i : String.substring 0 20 (seg_name i) = dec_digits 20 i.
Proof.
  pose proof (substring_prefix (dec_digits 20 i) ".seg") as H.
  by rewrite length_dec_digits in H.
Qed.

Lemma mem_file_Some l n : is_Some (mem_file l n) ↔ n ∈ ml_dir l.
Proof. unfold mem_file. by destruct (decide _); split. Qed.

Lemma mem_remove_spec n l l' m : mem_remove n l = (None, l') →
  mem_file l' m = if decide (m = n) then None else mem_file l m.
Proof.
  unfold mem_remove. destruct (mem_fails l); intros [=]. subst l'. unfold mem_file. cbn [ml_dir].
  destruct (decide (m = n)) as [->|Hne].
  - by rewrite decide_False by (rewrite list_elem_of_filter; tauto).
  - apply decide_ext. rewrite list_elem_of_filter. tauto.
Qed.

Lemma mem_create_spec n l l' m : mem_create n l = (None, l') →
  mem_file l' m = if decide (m = n) then Some [] else mem_file l m.
Proof.
  unfold mem_create. destruct (mem_fails l); intros [=]. subst l'. unfold mem_file. cbn [ml_dir].
  destruct (decide (m = n)) as [->|Hne].
  - by rewrite decide_True by by left.
  - apply decide_ext. rewrite elem_of_cons. tauto.
Qed.

Lemma mem_load_spec l l' i : mem_load l = (None, l') → 0 < i → is_u64 i →
  mem_file l (seg_name i) = Some [] →
  (∀ n, is_Some (mem_file l n) → is_seg n = true → n = seg_name i) →
  mem_base l' = i - 1 ∧ ml_items l' = [].
Proof.
  intros Hl Hi Hu Hf Hall. unfold mem_load in Hl.
  assert (∀ n, n ∈ filter (λ n, is_seg n = true) (ml_dir l) → n = seg_name i) as Hone.
  { intros n [Hs Hn]%list_elem_of_filter. by apply Hall; [apply mem_file_Some|]. }
  assert (seg_name i ∈ filter (λ n, is_seg n = true) (ml_dir l)) as Hin.
  { apply list_elem_of_filter. split; [apply is_seg_seg_name|]. apply mem_file_Some. by rewrite Hf. }
  destruct (filter _ (ml_dir l)) as [|n names]; [by apply elem_of_nil in Hin|].
  assert (n = seg_name i) as -> by (apply Hone; by left).
  assert (forallb (λ m, bool_decide (m = seg_name i)) names = true) as E.
  { apply forallb_forall. intros m Hm. apply bool_decide_eq_true, Hone. right. by apply list_elem_of_In. }
  rewrite E, seg_name_start in Hl. apply (f_equal snd) in Hl. cbn [snd] in Hl. subst l'. unfold mem_base. cbn [ml_base ml_items]. split; [|done].
  rewrite parse_dec_digits by lia. unfold is_u64 in Hu.
  rewrite Z.mod_small by (change (10 ^ Z.of_nat 20) with 100000000000000000000; lia). lia.
Qed.

#[export] Instance MemLog_laws : GoLogLaws MemLog.
Proof.
  refine {| log_base := mem_base; log_items := ml_items; log_file := mem_file |}.
  - intros l. unfold mem_base. lia.
  - done.
  - intros l i d Hi Hd. simpl. pose proof (lookup_lt_Some _ _ _ Hd). unfold mem_last.
    destruct (Z.ltb_spec (mem_base l) i), (Z.leb_spec i (mem_base l + Z.of_nat (length (ml_items l))));
      try lia. simpl. by rewrite Hd.
  - intros l i Hi. simpl. change (mem_last l) with (mem_base l + Z.of_nat (length (ml_items l))) in *.
    destruct (Z.ltb_spec (mem_base l) i), (Z.leb_spec i (mem_base l + Z.of_nat (length (ml_items l))));
      simpl; eauto. exfalso. lia.
  - intros d l i err l' H. by apply mem_write_spec in H.
  - done.
  - intros d l i err l' H. by apply mem_write_spec in H.
  - intros i l err l' H Hi. simpl in H. unfold mem_truncate_from in H.
    destruct (mem_fails l); by injection H as <- <-.
  - intros i l err l' H Hi. simpl in H. injection H as <- <-. unfold mem_last.
    destruct (Z.ltb_spec (mem_base l) i), (Z.leb_spec i (mem_base l + Z.of_nat (length (ml_items l))));
      simpl; rewrite ?Z.sub_diag; try (split_and!; [lia|lia|done]).
    unfold mem_base in *. simpl. rewrite Z2N.id by lia. split_and!; [lia|lia|done].
  - intros l names n [= <-]. by rewrite mem_file_Some.
  - apply mem_remove_spec.
  - apply mem_create_spec.
  - apply mem_load_spec.
Defined.
