(* ===== verification/Log.v ===== *)
(** * Log queries: [internal/log.go]

    The helper functions over the write-ahead log that the roles share.  The
    theorems: the search for the last index of a term finds it whenever terms do
    not decrease along the log, and the up-to-date test of a vote is the
    lexicographic order on (term, index). *)
From S2P Require Import Prelude LogEntry GoLog.
Local Open Scope Z_scope.

Section log.
Context {L : Type} `{GoLog L}.

Definition GetLastLogEntryIndexAndTerm (log : L) : Z * Z :=
  let '(lastLogEntryIndex, err) := log_GetLastIndex log in
  match err with
  | Some _ => (0, 0)
  | None =>
      if lastLogEntryIndex =? 0 then (0, 0)
      else match log_Read lastLogEntryIndex log with
           | inl _ => (0, 0)
           | inr data =>
               match DeserializeLogEntry data with
               | inl _ => (0, 0)
               | inr lastLogEntry => (lastLogEntryIndex, Term lastLogEntry)
               end
           end
  end.

(** [for i := last; i > 0; i--]: [i] rounds are enough. *)
Fixpoint last_of_term_loop (log : L) (term : Z) (fuel : nat) (i : Z) : Z :=
  match fuel with
  | O => 0
  | S fuel =>
      if 0 <? i then
        match log_Read i log with
        | inl _ => 0
        | inr data =>
            match DeserializeLogEntry data with
            | inl _ => 0
            | inr logEntry =>
                if Term logEntry =? term then i
                else if Term logEntry <? term then 0
                else last_of_term_loop log term fuel (i - 1)
            end
        end
      else 0
  end.

Definition GetLastLogEntryIndexOfTerm (log : L) (term : Z) : Z :=
  if term =? 0 then 0
  else
    let '(lastLogEntryIndex, err) := log_GetLastIndex log in
    if bool_decide (is_Some err) || (lastLogEntryIndex =? 0) then 0
    else last_of_term_loop log term (Z.to_nat lastLogEntryIndex) lastLogEntryIndex.

Definition IsEqualOrMoreRecent (log : L) (index term : Z) : bool :=
  let '(myLastLogEntryIndex, myLastLogEntryTerm) := GetLastLogEntryIndexAndTerm log in
  if myLastLogEntryTerm <? term then true
  else if (term =? myLastLogEntryTerm) && (myLastLogEntryIndex <=? index) then true
  else false.

Definition LogEntryMatchesTermAtIndex (log : L) (index term : Z) : bool :=
  if index =? 0 then true
  else match log_Read index log with
       | inl _ => false
       | inr data =>
           match DeserializeLogEntry data with
           | inl _ => false
           | inr prevLogEntry => if negb (Term prevLogEntry =? term) then false else true
           end
       end.

(** The term the log holds at an index, when the slot can be read. *)
Definition term_at (log : L) (i : Z) : option Z :=
  match log_Read i log with
  | inl _ => None
  | inr data => match DeserializeLogEntry data with
                | inl _ => None
                | inr e => Some (Term e)
                end
  end.

(** The entry at an index. *)
Definition entry_at (log : L) (i : Z) : option LogEntry :=
  match log_Read i log with
  | inl _ => None
  | inr data => match DeserializeLogEntry data with
                | inl _ => None
                | inr e => Some e
                end
  end.

(** Every slot from the first readable one on is readable, and terms do not
    decrease. *)
Definition terms_ordered (log : L) : Prop :=
  ∀ i j ti tj, i <= j → term_at log i = Some ti → term_at log j = Some tj → ti <= tj.

Definition readable_suffix (log : L) (last : Z) : Prop :=
  ∀ i j, 0 < i <= j → j <= last → is_Some (term_at log i) → is_Some (term_at log j).

Lemma last_of_term_loop_spec log term fuel i :
  terms_ordered log → Z.of_nat fuel = i → readable_suffix log i →
  let r := last_of_term_loop log term fuel i in
  (r = 0 ∧ ∀ j, 0 < j <= i → term_at log j ≠ Some term)
  ∨ (0 < r <= i ∧ term_at log r = Some term ∧ ∀ j, r < j <= i → term_at log j ≠ Some term).
Proof.
  intros Hord. revert i. induction fuel as [|fuel IH]; intros i Hi Hsuf.
  { left. split; [done|]. lia. }
  cbn [last_of_term_loop]. destruct (Z.ltb_spec 0 i); [|lia].
  assert (term_at log i = None → ∀ j, 0 < j <= i → term_at log j ≠ Some term) as Hnone.
  { intros Hn j Hj Hjt. destruct (Hsuf j i) as [t Ht]; [lia|lia|eauto|congruence]. }
  unfold term_at in Hnone at 1.
  destruct (log_Read i log) as [e|d] eqn:Er; [left; auto|].
  destruct (DeserializeLogEntry d) as [e|le] eqn:Ed; [left; auto|].
  assert (term_at log i = Some (Term le)) as Ht by (unfold term_at; by rewrite Er, Ed).
  destruct (Z.eqb_spec (Term le) term) as [Heq|Hne].
  { right. split; [lia|]. split; [by rewrite Ht, Heq|]. lia. }
  destruct (Z.ltb_spec (Term le) term) as [Hlt|Hge].
  - left. split; [done|]. intros j Hj Hjt.
    specialize (Hord j i term (Term le)). lia || (specialize (Hord ltac:(lia) Hjt Ht); lia).
  - assert (∀ j, 0 < j <= i → (j <= i - 1 → term_at log j ≠ Some term) → term_at log j ≠ Some term)
      as Hstep.
    { intros j Hj Hj'. destruct (decide (j = i)) as [->|]; [rewrite Ht; congruence|]. apply Hj'. lia. }
    destruct (IH (i - 1)) as [[Hr Hall]|(Hr & Hrt & Hall)]; [lia| | |].
    { intros a b Hab Hb. apply Hsuf; lia. }
    + left. split; [done|]. intros j Hj. apply Hstep; [done|]. intros. apply Hall. lia.
    + right. split; [lia|]. split; [done|]. intros j Hj. apply Hstep; [lia|]. intros. apply Hall. lia.
Qed.
End log.

(** ** Over a log that keeps its laws *)
Section laws.
Context {L : Type} `{GoLogLaws L}.

(** Every record kept is an entry. *)
Definition decodable (log : L) : Prop :=
  ∀ d, d ∈ log_items log → ∃ e, DeserializeLogEntry d = inr e.

Lemma log_item_at (log : L) i : log_base log < i <= log_last log →
  ∃ d, log_items log !! Z.to_nat (i - log_base log - 1) = Some d ∧ log_Read i log = inr d.
Proof.
  intros Hi. destruct (lookup_lt_is_Some_2 (log_items log) (Z.to_nat (i - log_base log - 1)))
    as [d Hd]; [unfold log_last in Hi; lia|].
  exists d. split; [done|]. apply log_read_hit; [lia|done].
Qed.

Lemma entry_at_is_Some (log : L) i : decodable log →
  is_Some (entry_at log i) ↔ log_base log < i <= log_last log.
Proof.
  intros Hdec. unfold entry_at. split.
  - intros [e He]. destruct (decide (log_base log < i <= log_last log)) as [|Hn]; [done|].
    destruct (log_read_miss log i Hn) as [err Herr]. by rewrite Herr in He.
  - intros Hi. destruct (log_item_at log i Hi) as (d & Hd & Hr). rewrite Hr.
    destruct (Hdec d) as [e He]; [by apply list_elem_of_lookup_2 in Hd|]. rewrite He. eauto.
Qed.

Lemma term_at_entry_at (log : L) i : term_at log i = Term <$> entry_at log i.
Proof.
  unfold term_at, entry_at. destruct (log_Read i log); [done|].
  by destruct (DeserializeLogEntry _).
Qed.

Lemma term_at_is_Some (log : L) i : decodable log →
  is_Some (term_at log i) ↔ log_base log < i <= log_last log.
Proof. intros Hd. by rewrite term_at_entry_at, fmap_is_Some, entry_at_is_Some. Qed.

(** The bytes kept at an index: what a read returns, when it returns. *)
Definition item_at (log : L) (i : Z) : option bytes :=
  if decide (log_base log < i) then log_items log !! Z.to_nat (i - log_base log - 1) else None.

Lemma entry_at_item_at (log : L) i :
  entry_at log i = d ← item_at log i; match DeserializeLogEntry d with inl _ => None | inr e => Some e end.
Proof.
  unfold item_at, entry_at. destruct (decide (log_base log < i)) as [Hi|Hi].
  - destruct (log_items log !! Z.to_nat (i - log_base log - 1)) as [d|] eqn:E; simpl.
    + by rewrite (log_read_hit log i d Hi E).
    + apply lookup_ge_None in E. destruct (log_read_miss log i) as [e ->]; [|done]. unfold log_last. lia.
  - destruct (log_read_miss log i) as [e ->]; [lia|done].
Qed.

(** Two logs with the same bytes at an index have the same entry there. *)
Lemma entry_at_view (log log' : L) i : item_at log' i = item_at log i → entry_at log' i = entry_at log i.
Proof. intros Hi. by rewrite !entry_at_item_at, Hi. Qed.

Lemma item_at_same (log log' : L) : log_base log' = log_base log → log_items log' = log_items log →
  ∀ i, item_at log' i = item_at log i.
Proof. intros Hb Hi i. unfold item_at. by rewrite Hb, Hi. Qed.

(** The index and term of the last entry, as read. *)
Lemma GetLastLogEntryIndexAndTerm_spec (log : L) : decodable log →
  GetLastLogEntryIndexAndTerm log
  = match term_at log (log_last log) with
    | Some t => (log_last log, t)
    | None => (0, 0)
    end.
Proof.
  intros Hdec. unfold GetLastLogEntryIndexAndTerm. rewrite log_last_spec.
  unfold term_at. destruct (Z.eqb_spec (log_last log) 0) as [Hz|Hz].
  - destruct (log_read_miss log (log_last log)) as [e ->]; [|done].
    pose proof (log_base_nonneg log). lia.
  - destruct (log_Read (log_last log) log); [done|]. by destruct (DeserializeLogEntry _).
Qed.
End laws.

(** [GetLastLogEntryIndexOfTerm] returns the greatest index that holds an
    entry of the term, and 0 exactly when no kept entry has it (or the term is
    0), for every log whose entries decode and whose terms do not decrease; the
    early exits of its backward scan lose nothing. *)
Theorem last_index_of_term_exact {L : Type} `{GoLogLaws L} (log : L) (term : Z)
    (Hdec : decodable log) (Hord : terms_ordered log) (Hterm : term ≠ 0) :
  let r := GetLastLogEntryIndexOfTerm log term in
  (r = 0 ∧ ∀ j, 0 < j → term_at log j ≠ Some term)
  ∨ (0 < r <= log_last log ∧ term_at log r = Some term
     ∧ ∀ j, r < j → term_at log j ≠ Some term).
Proof.
  unfold GetLastLogEntryIndexOfTerm. rewrite log_last_spec.
  destruct (Z.eqb_spec term 0); [done|].
  pose proof (log_base_nonneg log).
  assert (∀ j, log_last log < j → term_at log j ≠ Some term) as Hbig.
  { intros j Hj Ht. assert (is_Some (term_at log j)) as Hs by eauto.
    apply term_at_is_Some in Hs; [lia|done]. }
  assert (0 <= log_last log) by (unfold log_last; lia).
  case_bool_decide as Hn; [by destruct Hn|]. simpl.
  destruct (Z.eqb_spec (log_last log) 0) as [Hz|Hz].
  { left. split; [done|]. intros j Hj. apply Hbig. lia. }
  destruct (last_of_term_loop_spec log term (Z.to_nat (log_last log)) (log_last log))
    as [[Hr Hall]|(Hr & Ht & Hall)]; [done|lia| | |].
  - intros i j Hij Hj Hs. apply term_at_is_Some in Hs; [|done]. apply term_at_is_Some; [done|]. lia.
  - left. split; [done|]. intros j Hj.
    destruct (Z.le_gt_cases j (log_last log)); [apply Hall; lia|by apply Hbig; lia].
  - right. split; [done|]. split; [done|]. intros j Hj.
    destruct (Z.le_gt_cases j (log_last log)); [apply Hall; lia|by apply Hbig; lia].
Qed.

(** A log with terms 1, 1, 3 at the indices 5, 6, 7. *)
Definition demo_log : MemLog :=
  mkMemLog 4 [Serialize (mkLogEntry [] 1 "" 0); Serialize (mkLogEntry [x61] 1 "" 0);
              Serialize (mkLogEntry [] 3 "" 0)] [] [].

Lemma demo_log_terms i t : term_at demo_log i = Some t →
  (i = 5 ∧ t = 1) ∨ (i = 6 ∧ t = 1) ∨ (i = 7 ∧ t = 3).
Proof.
  intros Ht. assert (5 <= i <= 7) as Hi.
  { destruct (decide (4 < i <= 7)) as [|Hn]; [lia|].
    destruct (log_read_miss demo_log i) as [e He]; [exact Hn|].
    unfold term_at in Ht. by rewrite He in Ht. }
  assert (i = 5 ∨ i = 6 ∨ i = 7) as [-> |[-> | ->]] by lia; vm_compute in Ht;
    injection Ht as <-; auto.
Qed.

Lemma last_index_of_term_exact_witness :
  GetLastLogEntryIndexOfTerm demo_log 1 = 6 ∧
  let r := GetLastLogEntryIndexOfTerm demo_log 1 in
  (r = 0 ∧ ∀ j, 0 < j → term_at demo_log j ≠ Some 1)
  ∨ (0 < r <= log_last demo_log ∧ term_at demo_log r = Some 1
     ∧ ∀ j, r < j → term_at demo_log j ≠ Some 1).
Proof.
  split; [reflexivity|].
  apply (last_index_of_term_exact demo_log 1); [| |done].
  - intros d Hd. change (log_items demo_log) with (ml_items demo_log) in Hd.
    cbn [ml_items demo_log] in Hd. rewrite !elem_of_cons in Hd. destruct Hd as [-> |[-> |[-> |Hd]]];
      [eexists; reflexivity..|by apply elem_of_nil in Hd].
  - intros i j ti tj Hij Hi%demo_log_terms Hj%demo_log_terms. lia.
Defined.

(** The up-to-date test is the lexicographic order on (term, index). *)
Lemma IsEqualOrMoreRecent_lex {L} `{GoLog L} (log : L) index term :
  IsEqualOrMoreRecent log index term = true ↔
  let '(myIndex, myTerm) := GetLastLogEntryIndexAndTerm log in
  myTerm < term ∨ (myTerm = term ∧ myIndex <= index).
Proof.
  unfold IsEqualOrMoreRecent. destruct (GetLastLogEntryIndexAndTerm log) as [i t].
  destruct (Z.ltb_spec t term), (Z.eqb_spec term t), (Z.leb_spec i index); simpl; split; intros; try done; lia.
Qed.

(** The consistency test accepts exactly the entry with that term. *)
Lemma LogEntryMatchesTermAtIndex_iff {L} `{GoLog L} (log : L) index term :
  LogEntryMatchesTermAtIndex log index term = true ↔
  index = 0 ∨ term_at log index = Some term.
Proof.
  unfold LogEntryMatchesTermAtIndex, term_at. destruct (Z.eqb_spec index 0); [by split; [left|]|].
  destruct (log_Read index log); [split; [done|by intros [?|?]]|].
  destruct (DeserializeLogEntry _) as [|e]; [split; [done|by intros [?|?]]|].
  destruct (Z.eqb_spec (Term e) term) as [<-|]; simpl; split; auto; try done.
  by intros [?|[= ?]].
Qed.
