(* ===== verification/Fsm.v ===== *)
(** * The replicated state machine: [internal/fsm.go]

    [FSM] is the interface of the source; the node's code is written against it,
    so its theorems hold of every implementation.  [CounterFSM] is the default
    one.  Its [Apply] reads the wall clock, which the model makes explicit: the
    state carries the stream of times the calls will see.  The theorem says that
    with a sane clock applying is total and answers [true]; the example that
    replicas with different clocks that apply the same commands diverge. *)
From S2P Require Import Prelude GoMonad Counter.
Local Open Scope Z_scope.

Class FSM (F : Type) := {
  fsm_Apply : bytes → GoM F any;
  fsm_Snapshot : GoM F (error + bytes);
  fsm_Restore : bytes → GoM F (option error)
}.

(** [time.Now()] as the hour and minute the code takes from it. *)
Record CounterFSM := mkCounterFSM {
  fsm_counter : Counter;
  fsm_clock : nat → Z * Z;
  fsm_calls : nat
}.

Definition NewFSM (clock : nat → Z * Z) : CounterFSM := mkCounterFSM NewCounter clock 0.

Definition time_Now : GoM CounterFSM (Z * Z) := λ f,
  (Ret (fsm_clock f (fsm_calls f)), mkCounterFSM (fsm_counter f) (fsm_clock f) (S (fsm_calls f))).

Definition on_counter {A} : GoM Counter A → GoM CounterFSM A :=
  zoom fsm_counter (λ c f, mkCounterFSM c (fsm_clock f) (fsm_calls f)).

Definition CounterFSM__Apply (data : bytes) : GoM CounterFSM any :=
  now ← time_Now;
  let '(hour, minute) := now in
  _ ← on_counter (Increment (bytes_string data) 1 (i16 (hour * 60 + minute)));
  mret (AnyBool true).

Definition CounterFSM__Snapshot `{GobCodec} : GoM CounterFSM (error + bytes) :=
  on_counter Counter__Snapshot.

Definition CounterFSM__Restore `{GobCodec} (data : bytes) : GoM CounterFSM (option error) :=
  on_counter (Counter__Restore data).

#[export] Instance CounterFSM_FSM `{GobCodec} : FSM CounterFSM := {|
  fsm_Apply := CounterFSM__Apply;
  fsm_Snapshot := CounterFSM__Snapshot;
  fsm_Restore := CounterFSM__Restore
|}.

(** A clock that shows times of the day. *)
Definition sane_clock (clock : nat → Z * Z) : Prop :=
  ∀ k, 0 <= (clock k).1 < 24 ∧ 0 <= (clock k).2 < 60.

(** C30: with a clock that shows times of the day, applying any command to a
    counter machine that satisfies the counter's invariant returns (no panic, no
    endless loop), answers [true], keeps the invariant, and the counter ends at
    the minute shown or is left alone because its value would overflow. *)
Theorem counter_fsm_apply_total (f : CounterFSM) (data : bytes)
    (Hclock : sane_clock (fsm_clock f)) (Hinv : counter_inv (fsm_counter f)) :
  ∃ f', CounterFSM__Apply data f = (Ret (AnyBool true), f')
    ∧ counter_inv (fsm_counter f') ∧ sane_clock (fsm_clock f')
    ∧ (fsm_counter f' = fsm_counter f
       ∨ minute (fsm_counter f')
         = (fsm_clock f (fsm_calls f)).1 * 60 + (fsm_clock f (fsm_calls f)).2).
Proof.
  unfold CounterFSM__Apply. rewrite bind_run. cbn [time_Now].
  destruct (Hclock (fsm_calls f)) as [Hh Hm].
  destruct (fsm_clock f (fsm_calls f)) as [h m] eqn:E. cbn [fst snd] in *.
  rewrite i16_small by lia.
  destruct (increment_total (fsm_counter f) (bytes_string data) 1 (h * 60 + m))
    as (b & c' & Hrun & Hinv' & Hmin); [done|lia|].
  rewrite bind_run. unfold on_counter, zoom. cbn [fsm_counter]. rewrite Hrun. cbn.
  eexists. split; [reflexivity|]. split_and!; try done. cbn [fsm_counter].
  destruct Hmin as [-> | Hmin]; [by left|right]. rewrite Hmin. apply Z.mod_small. lia.
Qed.

Lemma counter_fsm_apply_total_witness :
  ∃ f', CounterFSM__Apply [x61] (NewFSM (λ _, (8, 20))) = (Ret (AnyBool true), f')
    ∧ counter_inv (fsm_counter f') ∧ sane_clock (fsm_clock f')
    ∧ (fsm_counter f' = NewCounter ∨ minute (fsm_counter f') = 8 * 60 + 20).
Proof.
  apply (counter_fsm_apply_total (NewFSM (λ _, (8, 20))) [x61]); [|apply NewCounter_inv].
  intros k. simpl. lia.
Defined.

(** Two replicas apply the same three commands; the second one applies the last
    after the clock has gone round, so it counts the repeated id again. *)
Example replicas_diverge :
  let run clock := value (fsm_counter
    (CounterFSM__Apply [x61] (CounterFSM__Apply [x62] (CounterFSM__Apply [x61]
      (NewFSM clock)).2).2).2) in
  run (λ _, (8, 20)) = 2
  ∧ run (λ k, match k with 0%nat => (8, 20) | 1%nat => (8, 19) | _ => (8, 21) end) = 3.
Proof. vm_compute. by split. Qed.
