(* ===== verification/Node.v ===== *)
(** * The state of a node

    The [Raft] struct of [internal/raft.go] together with everything its methods
    reach: the store and its files, the log, the state machine, the role objects,
    the channels proposals wait on and the goroutines that were started.

    Role objects live in a heap ([r_roles]) and are named by address, because the
    program keeps using an object after the node has moved to another role: a
    goroutine started by an old candidate still counts votes on it.  A goroutine
    is a [Task]: the function it was started with and its arguments; the files of
    the roles define what happens when its remote call returns. *)
From S2P Require Import Prelude GoMonad FileSystem LogEntry Store Snapshot Session Config GoLog Log Fsm.
Local Open Scope Z_scope.

(** [internal/follower_role.go] *)
Record FollowerRole := mkFollowerRole {
  f_electionDeadline : Z;
  f_electionTicks : Z
}.

(** [internal/candidate_role.go] *)
Record CandidateRole := mkCandidateRole {
  c_electionDeadline : Z;
  c_electionTicks : Z;
  c_majority : Z;
  c_nodes : list string;
  c_preVote : bool;
  c_preVotes : Z;
  c_votes : Z
}.

(** [internal/leader_role.go]; [applierCh] has one slot, [applierStopCh] is only
    ever closed. *)
Record LeaderRole := mkLeaderRole {
  l_applierCh : bool;
  l_applierStopCh : bool;
  l_heartbeatDeadline : Z;
  l_heartbeatTicks : Z;
  l_inflight : gmap string bool;
  l_lastAckTicks : gmap string Z;
  l_leaderTicks : Z;
  l_matchIndex : gmap string Z;
  l_nextIndex : gmap string Z;
  l_pending : gmap Z (list nat)
}.

Inductive RaftRole :=
| RFollower (f : FollowerRole)
| RCandidate (c : CandidateRole)
| RLeader (l : LeaderRole).

Definition GetType (x : RaftRole) : string :=
  match x with
  | RFollower _ => "follower"
  | RCandidate _ => "candidate"
  | RLeader _ => "leader"
  end.

(** A [chan any] of capacity one. *)
Record Chan := mkChan { ch_buf : option any; ch_closed : bool }.

(** The goroutines a node starts: [go f(args)], the receiver first. *)
Inductive Task :=
| GoSendPreVote (c : nat) (node : string) (term : Z) (candidateId : string)
    (lastLogEntryIndex lastLogEntryTerm : Z)
| GoSendRequestVote (c : nat) (node : string) (term : Z) (candidateId : string)
    (lastLogEntryIndex lastLogEntryTerm : Z)
| GoSendAppendEntries (l : nat) (node : string) (term : Z) (leaderId : string)
    (prevLogEntryIndex prevLogEntryTerm : Z) (logEntries : list LogEntry) (leaderCommitIndex : Z)
| GoSendInstallSnapshot (l : nat) (node : string) (term : Z) (leaderId : string)
| GoApplier (l : nat).

#[global] Instance Task_eq_dec : EqDecision Task.
Proof. solve_decision. Defined.

Section node.
Context {L F : Type}.

Record Raft := mkRaft {
  r_config : Config;
  r_dataDir : string;
  r_enabled : bool;
  r_fsm : F;
  r_healthy : bool;
  r_id : string;
  r_log : L;
  r_nodes : list string;
  r_rng : nat → Z;  (* the numbers the generator will draw *)
  r_role : option nat;  (* the role object in [r_roles] *)
  r_roleEpoch : Z;
  r_snapshotIndex : Z;
  r_snapshotTerm : Z;
  r_sessions : SessionTable;
  r_store : Store;
  r_shutdown : bool;  (* [shutdownCh] is closed *)
  r_fs : Fs;  (* the files of [dataDir] *)
  r_roles : gmap nat RaftRole;  (* every role object ever allocated *)
  r_chans : gmap nat Chan;  (* the waiters' channels *)
  r_tasks : gmap nat Task;  (* the goroutines not yet finished *)
  r_next : nat  (* the next free address *)
}.

Definition set_r_enabled (v : bool) (r : Raft) : Raft :=
  mkRaft (r_config r) (r_dataDir r) v (r_fsm r) (r_healthy r) (r_id r) (r_log r) (r_nodes r)
    (r_rng r) (r_role r) (r_roleEpoch r) (r_snapshotIndex r) (r_snapshotTerm r) (r_sessions r)
    (r_store r) (r_shutdown r) (r_fs r) (r_roles r) (r_chans r) (r_tasks r) (r_next r).
Definition set_r_fsm (v : F) (r : Raft) : Raft :=
  mkRaft (r_config r) (r_dataDir r) (r_enabled r) v (r_healthy r) (r_id r) (r_log r) (r_nodes
    r) (r_rng r) (r_role r) (r_roleEpoch r) (r_snapshotIndex r) (r_snapshotTerm r) (r_sessions
    r) (r_store r) (r_shutdown r) (r_fs r) (r_roles r) (r_chans r) (r_tasks r) (r_next r).
Definition set_r_healthy (v : bool) (r : Raft) : Raft :=
  mkRaft (r_config r) (r_dataDir r) (r_enabled r) (r_fsm r) v (r_id r) (r_log r) (r_nodes r)
    (r_rng r) (r_role r) (r_roleEpoch r) (r_snapshotIndex r) (r_snapshotTerm r) (r_sessions r)
    (r_store r) (r_shutdown r) (r_fs r) (r_roles r) (r_chans r) (r_tasks r) (r_next r).
Definition set_r_log (v : L) (r : Raft) : Raft :=
  mkRaft (r_config r) (r_dataDir r) (r_enabled r) (r_fsm r) (r_healthy r) (r_id r) v (r_nodes
    r) (r_rng r) (r_role r) (r_roleEpoch r) (r_snapshotIndex r) (r_snapshotTerm r) (r_sessions
    r) (r_store r) (r_shutdown r) (r_fs r) (r_roles r) (r_chans r) (r_tasks r) (r_next r).
Definition set_r_rng (v : nat → Z) (r : Raft) : Raft :=
  mkRaft (r_config r) (r_dataDir r) (r_enabled r) (r_fsm r) (r_healthy r) (r_id r) (r_log r)
    (r_nodes r) v (r_role r) (r_roleEpoch r) (r_snapshotIndex r) (r_snapshotTerm r)
    (r_sessions r) (r_store r) (r_shutdown r) (r_fs r) (r_roles r) (r_chans r) (r_tasks r)
    (r_next r).
Definition set_r_role (v : option nat) (r : Raft) : Raft :=
  mkRaft (r_config r) (r_dataDir r) (r_enabled r) (r_fsm r) (r_healthy r) (r_id r) (r_log r)
    (r_nodes r) (r_rng r) v (r_roleEpoch r) (r_snapshotIndex r) (r_snapshotTerm r) (r_sessions
    r) (r_store r) (r_shutdown r) (r_fs r) (r_roles r) (r_chans r) (r_tasks r) (r_next r).
Definition set_r_roleEpoch (v : Z) (r : Raft) : Raft :=
  mkRaft (r_config r) (r_dataDir r) (r_enabled r) (r_fsm r) (r_healthy r) (r_id r) (r_log r)
    (r_nodes r) (r_rng r) (r_role r) v (r_snapshotIndex r) (r_snapshotTerm r) (r_sessions r)
    (r_store r) (r_shutdown r) (r_fs r) (r_roles r) (r_chans r) (r_tasks r) (r_next r).
Definition set_r_snapshotIndex (v : Z) (r : Raft) : Raft :=
  mkRaft (r_config r) (r_dataDir r) (r_enabled r) (r_fsm r) (r_healthy r) (r_id r) (r_log r)
    (r_nodes r) (r_rng r) (r_role r) (r_roleEpoch r) v (r_snapshotTerm r) (r_sessions r)
    (r_store r) (r_shutdown r) (r_fs r) (r_roles r) (r_chans r) (r_tasks r) (r_next r).
Definition set_r_snapshotTerm (v : Z) (r : Raft) : Raft :=
  mkRaft (r_config r) (r_dataDir r) (r_enabled r) (r_fsm r) (r_healthy r) (r_id r) (r_log r)
    (r_nodes r) (r_rng r) (r_role r) (r_roleEpoch r) (r_snapshotIndex r) v (r_sessions r)
    (r_store r) (r_shutdown r) (r_fs r) (r_roles r) (r_chans r) (r_tasks r) (r_next r).
Definition set_r_sessions (v : SessionTable) (r : Raft) : Raft :=
  mkRaft (r_config r) (r_dataDir r) (r_enabled r) (r_fsm r) (r_healthy r) (r_id r) (r_log r)
    (r_nodes r) (r_rng r) (r_role r) (r_roleEpoch r) (r_snapshotIndex r) (r_snapshotTerm r) v
    (r_store r) (r_shutdown r) (r_fs r) (r_roles r) (r_chans r) (r_tasks r) (r_next r).
Definition set_r_store (v : Store) (r : Raft) : Raft :=
  mkRaft (r_config r) (r_dataDir r) (r_enabled r) (r_fsm r) (r_healthy r) (r_id r) (r_log r)
    (r_nodes r) (r_rng r) (r_role r) (r_roleEpoch r) (r_snapshotIndex r) (r_snapshotTerm r)
    (r_sessions r) v (r_shutdown r) (r_fs r) (r_roles r) (r_chans r) (r_tasks r) (r_next r).
Definition set_r_shutdown (v : bool) (r : Raft) : Raft :=
  mkRaft (r_config r) (r_dataDir r) (r_enabled r) (r_fsm r) (r_healthy r) (r_id r) (r_log r)
    (r_nodes r) (r_rng r) (r_role r) (r_roleEpoch r) (r_snapshotIndex r) (r_snapshotTerm r)
    (r_sessions r) (r_store r) v (r_fs r) (r_roles r) (r_chans r) (r_tasks r) (r_next r).
Definition set_r_fs (v : Fs) (r : Raft) : Raft :=
  mkRaft (r_config r) (r_dataDir r) (r_enabled r) (r_fsm r) (r_healthy r) (r_id r) (r_log r)
    (r_nodes r) (r_rng r) (r_role r) (r_roleEpoch r) (r_snapshotIndex r) (r_snapshotTerm r)
    (r_sessions r) (r_store r) (r_shutdown r) v (r_roles r) (r_chans r) (r_tasks r) (r_next
    r).
Definition set_r_roles (v : gmap nat RaftRole) (r : Raft) : Raft :=
  mkRaft (r_config r) (r_dataDir r) (r_enabled r) (r_fsm r) (r_healthy r) (r_id r) (r_log r)
    (r_nodes r) (r_rng r) (r_role r) (r_roleEpoch r) (r_snapshotIndex r) (r_snapshotTerm r)
    (r_sessions r) (r_store r) (r_shutdown r) (r_fs r) v (r_chans r) (r_tasks r) (r_next r).
Definition set_r_chans (v : gmap nat Chan) (r : Raft) : Raft :=
  mkRaft (r_config r) (r_dataDir r) (r_enabled r) (r_fsm r) (r_healthy r) (r_id r) (r_log r)
    (r_nodes r) (r_rng r) (r_role r) (r_roleEpoch r) (r_snapshotIndex r) (r_snapshotTerm r)
    (r_sessions r) (r_store r) (r_shutdown r) (r_fs r) (r_roles r) v (r_tasks r) (r_next r).
Definition set_r_tasks (v : gmap nat Task) (r : Raft) : Raft :=
  mkRaft (r_config r) (r_dataDir r) (r_enabled r) (r_fsm r) (r_healthy r) (r_id r) (r_log r)
    (r_nodes r) (r_rng r) (r_role r) (r_roleEpoch r) (r_snapshotIndex r) (r_snapshotTerm r)
    (r_sessions r) (r_store r) (r_shutdown r) (r_fs r) (r_roles r) (r_chans r) v (r_next r).
Definition set_r_next (v : nat) (r : Raft) : Raft :=
  mkRaft (r_config r) (r_dataDir r) (r_enabled r) (r_fsm r) (r_healthy r) (r_id r) (r_log r)
    (r_nodes r) (r_rng r) (r_role r) (r_roleEpoch r) (r_snapshotIndex r) (r_snapshotTerm r)
    (r_sessions r) (r_store r) (r_shutdown r) (r_fs r) (r_roles r) (r_chans r) (r_tasks r) v.

End node.
Arguments Raft : clear implicits.

(** The node's code is written in [RaftM]. *)
Abbreviation RaftM L F := (GoM (Raft L F)).

Section ops.
Context {L F : Type}.
Abbreviation M := (RaftM L F).

(** Run the methods of the parts. *)
Definition on_store {A} : StoreM A → M A :=
  zoom (λ r, (r_store r, r_fs r)) (λ p r, set_r_fs p.2 (set_r_store p.1 r)).
Definition on_files {A} : GoM Fs A → M A := zoom r_fs set_r_fs.
Definition on_fsm {A} : GoM F A → M A := zoom r_fsm set_r_fsm.
Definition on_log {A} (f : L → A * L) : M A := λ r,
  let '(a, l) := f (r_log r) in (Ret a, set_r_log l r).

Definition set_commit (v : Z) : M unit :=
  modify (λ r, set_r_store (set_commitIndex v (r_store r)) r).
Definition set_applied (v : Z) : M unit :=
  modify (λ r, set_r_store (set_lastApplied v (r_store r)) r).

(** Allocate a role object; read and write one. *)
Definition new_role (x : RaftRole) : M nat :=
  a ← gets r_next;
  modify (λ r, set_r_next (S (r_next r)) (set_r_roles (<[a := x]> (r_roles r)) r));;
  mret a.

Definition read_role (a : nat) : M RaftRole :=
  x ← gets (λ r, r_roles r !! a);
  match x with
  | Some x => mret x
  | None => go_panic "nil pointer dereference"
  end.

Definition write_role (a : nat) (x : RaftRole) : M unit :=
  modify (λ r, set_r_roles (<[a := x]> (r_roles r)) r).

(** The receiver of a method has the method's type. *)
Definition read_follower (a : nat) : M FollowerRole :=
  x ← read_role a;
  match x with RFollower f => mret f | _ => go_panic "receiver" end.
Definition read_candidate (a : nat) : M CandidateRole :=
  x ← read_role a;
  match x with RCandidate c => mret c | _ => go_panic "receiver" end.
Definition read_leader (a : nat) : M LeaderRole :=
  x ← read_role a;
  match x with RLeader l => mret l | _ => go_panic "receiver" end.

Definition update_candidate (a : nat) (f : CandidateRole → CandidateRole) : M unit :=
  c ← read_candidate a; write_role a (RCandidate (f c)).
Definition update_leader (a : nat) (f : LeaderRole → LeaderRole) : M unit :=
  l ← read_leader a; write_role a (RLeader (f l)).

(** [r.role.GetType()]: a nil role panics. *)
Definition role_type : M string :=
  a ← gets r_role;
  match a with
  | Some a => x ← read_role a; mret (GetType x)
  | None => go_panic "nil pointer dereference"
  end.

(** [go f(args)] *)
Definition spawn (t : Task) : M unit :=
  modify (λ r, set_r_next (S (r_next r)) (set_r_tasks (<[r_next r := t]> (r_tasks r)) r)).

(** [make(chan any, 1)], [close(ch)] and [ch <- v]; a send on a full channel
    blocks for ever. *)
Definition make_chan : M nat :=
  a ← gets r_next;
  modify (λ r, set_r_next (S (r_next r)) (set_r_chans (<[a := mkChan None false]> (r_chans r)) r));;
  mret a.

Definition close_chan (a : nat) : M unit :=
  c ← gets (λ r, r_chans r !! a);
  match c with
  | Some c =>
      if ch_closed c then go_panic "close of closed channel"
      else modify (λ r, set_r_chans (<[a := mkChan (ch_buf c) true]> (r_chans r)) r)
  | None => go_panic "close of nil channel"
  end.

Definition send_chan (a : nat) (v : any) : M unit :=
  c ← gets (λ r, r_chans r !! a);
  match c with
  | Some c =>
      if ch_closed c then go_panic "send on closed channel"
      else match ch_buf c with
           | None => modify (λ r, set_r_chans (<[a := mkChan (Some v) false]> (r_chans r)) r)
           | Some _ => out_of_fuel
           end
  | None => out_of_fuel
  end.

(** [raft.rng.IntN(n)] *)
Definition rng_IntN (n : Z) : M Z :=
  if n <=? 0 then go_panic "invalid argument to IntN"
  else
    g ← gets r_rng;
    modify (set_r_rng (λ k, g (S k)));;
    mret (g 0%nat mod n).

(** [ElectionTimeoutMinTicks + rng.IntN(Max - Min + 1)] *)
Definition random_deadline : M Z :=
  c ← gets r_config;
  k ← rng_IntN (i64 (i64 (ElectionTimeoutMaxTicks c - ElectionTimeoutMinTicks c) + 1));
  mret (i64 (ElectionTimeoutMinTicks c + k)).

Definition majority_of (nodes : list string) : Z :=
  i64 (Z.quot (Z.of_nat (length nodes)) 2 + 1).

Definition snapshotPath (r : Raft L F) : string := r_dataDir r +:+ "/snapshot.data".
End ops.
