(* ===== verification/Roles.v ===== *)
(** * Shared node operations: [internal/raft.go]

    The helpers of [Raft] the roles call: the last entry with the snapshot as a
    fallback, the up-to-date test, advancing the commit index, installing a
    snapshot and resetting the log; leaving a role ([OnExit]), giving up
    ([markUnhealthy]) and becoming a follower. *)
From S2P Require Import Prelude GoMonad FileSystem LogEntry Store Snapshot Session Config GoLog Log Fsm Node.
Local Open Scope Z_scope.

Section roles.
Context {L F : Type} `{GoLog L} `{FSM F}.
Abbreviation M := (RaftM L F).

Definition GetCurrentTerm : M Z := on_store Store__GetCurrentTerm.
Definition SetLeaderId (l : string) : M unit := _ ← on_store (Store__SetLeaderId l); mret tt.

Definition Raft__GetLeaderId : M string := on_store Store__GetLeaderId.

Definition getLastLogEntryIndexAndTerm : M (Z * Z) :=
  p ← gets (λ r, GetLastLogEntryIndexAndTerm (r_log r));
  if 0 <? p.1 then mret p
  else gets (λ r, (r_snapshotIndex r, r_snapshotTerm r)).

Definition isLogEqualOrMoreRecent (index term : Z) : M bool :=
  my ← getLastLogEntryIndexAndTerm;
  let '(myIndex, myTerm) := my in
  if myTerm <? term then mret true
  else if (term =? myTerm) && (myIndex <=? index) then mret true
  else mret false.

(** The compare-and-swap loop: the callers hold the mutex and nobody else
    writes the commit index, so its first attempt succeeds. *)
Definition setCommitIndex (commitIdx : Z) : M unit :=
  p ← gets (λ r, log_GetLastIndex (r_log r));
  let '(lastLogEntryIndex, err) := p in
  if bool_decide (is_Some err) || (lastLogEntryIndex =? 0) then mret tt
  else
    let commitIdx := if lastLogEntryIndex <? commitIdx then lastLogEntryIndex else commitIdx in
    current ← gets (λ r, commitIndex (r_store r));
    if commitIdx <=? current then mret tt else set_commit commitIdx.

(** Every error is ignored, a directory that cannot be read included. *)
Definition resetLog (startIndex : Z) : M unit :=
  _ ← on_log (log_TruncateFrom 1);
  entries ← gets (λ r, log_ReadDir (r_log r));
  match entries with
  | inl _ => mret tt
  | inr entries => go_each (λ e, when (is_seg e) (_ ← on_log (log_Remove e); mret tt)) entries
  end;;
  _ ← on_log (log_Create (seg_name startIndex));
  _ ← on_log log_Load;
  mret tt.

Definition raise_to (lastIncludedIndex : Z) : M unit :=
  c ← gets (λ r, commitIndex (r_store r));
  when (c <? lastIncludedIndex) (set_commit lastIncludedIndex);;
  a ← gets (λ r, lastApplied (r_store r));
  when (a <? lastIncludedIndex) (set_applied lastIncludedIndex).

Definition installSnapshot (lastIncludedIndex lastIncludedTerm : Z) (data : bytes)
    : M (option error) :=
  path ← gets snapshotPath;
  err ← on_files (SaveSnapshot path (mkSnapshot lastIncludedIndex lastIncludedTerm data));
  match err with Some e => mret (Some e) | None =>
  err ← on_fsm (fsm_Restore data);
  match err with Some e => mret (Some e) | None =>
  modify (set_r_snapshotIndex lastIncludedIndex);;
  modify (set_r_snapshotTerm lastIncludedTerm);;
  raise_to lastIncludedIndex;;
  p ← gets (λ r, log_GetLastIndex (r_log r));
  let lastLogEntryIndex := p.1 in
  (if (0 <? lastLogEntryIndex) && (lastLogEntryIndex <=? lastIncludedIndex)
   then resetLog (u64 (lastIncludedIndex + 1))
   else when (lastIncludedIndex <? lastLogEntryIndex)
          (_ ← on_log (log_TruncateTo lastIncludedIndex); mret tt));;
  mret None
  end end.

(** ** Leaving a role *)
Definition set_l_stop (l : LeaderRole) : LeaderRole :=
  mkLeaderRole (l_applierCh l) true (l_heartbeatDeadline l) (l_heartbeatTicks l)
    (l_inflight l) (l_lastAckTicks l) (l_leaderTicks l) (l_matchIndex l) (l_nextIndex l)
    (l_pending l).
Definition set_l_pending (v : gmap Z (list nat)) (l : LeaderRole) : LeaderRole :=
  mkLeaderRole (l_applierCh l) (l_applierStopCh l) (l_heartbeatDeadline l) (l_heartbeatTicks l)
    (l_inflight l) (l_lastAckTicks l) (l_leaderTicks l) (l_matchIndex l) (l_nextIndex l) v.

Definition LeaderRole__stopApplier (a : nat) : M unit :=
  l ← read_leader a;
  if l_applierStopCh l then go_panic "close of closed channel"
  else write_role a (RLeader (set_l_stop l)).

(** Go visits the map in some order; the entries are independent of each
    other, so the model takes the order of [map_to_list]. *)
Definition LeaderRole__OnExit (a : nat) : M unit :=
  LeaderRole__stopApplier a;;
  l ← read_leader a;
  go_each (λ '(idx, waiters),
    go_each close_chan waiters;;
    update_leader a (λ l, set_l_pending (delete idx (l_pending l)) l))
    (map_to_list (l_pending l)).

Definition RaftRole__OnExit (a : nat) : M unit :=
  x ← read_role a;
  match x with
  | RFollower _ => mret tt
  | RCandidate _ => mret tt
  | RLeader _ => LeaderRole__OnExit a
  end.

Definition exit_current_role : M unit :=
  a ← gets r_role;
  match a with Some a => RaftRole__OnExit a | None => mret tt end.

Definition markUnhealthy : M unit :=
  modify (set_r_healthy false);;
  modify (set_r_enabled false);;
  exit_current_role.

(** ** Becoming a follower *)
Definition NewFollowerRole : M nat :=
  deadline ← random_deadline;
  new_role (RFollower (mkFollowerRole deadline 0)).

Definition FollowerRole__OnEnter (term : Z) : M unit :=
  currentTerm ← GetCurrentTerm;
  if currentTerm <? term then
    err ← on_store (Store__SetCurrentTermAndVotedFor term "");
    match err with
    | Some _ => markUnhealthy
    | None => SetLeaderId ""
    end
  else SetLeaderId "".

(** [r.roleEpoch++; role := New...; r.role = role] *)
Definition enter_role (new : M nat) : M nat :=
  modify (λ r, set_r_roleEpoch (u64 (r_roleEpoch r + 1)) r);;
  a ← new;
  modify (set_r_role (Some a));;
  mret a.

Definition becomeFollower (term : Z) : M nat :=
  exit_current_role;;
  a ← enter_role NewFollowerRole;
  FollowerRole__OnEnter term;;
  mret a.
End roles.
