(* ===== verification/Follower.v ===== *)
(** * The follower: [internal/follower_role.go]

    Every handler of a follower but its [Tick], which starts an election (see
    Candidate.v).  A handler that sees a higher term becomes a follower of that
    term and starts over on the new object: [HandleAppendEntries] and
    [HandleRequestVote] recurse, and do so again whenever the term could not be
    persisted, so they take fuel. *)
From S2P Require Import Prelude GoMonad FileSystem LogEntry Store Snapshot Session Config GoLog Log Fsm Node Roles.
Local Open Scope Z_scope.

(** The (term, success, conflictIndex, conflictTerm) of an AppendEntries reply. *)
Record AppendReply := mkAppendReply {
  ar_term : Z;
  ar_success : bool;
  ar_conflictIndex : Z;
  ar_conflictTerm : Z
}.

Section follower.
Context {L F : Type} `{GoLog L} `{FSM F}.
Abbreviation M := (RaftM L F).

Definition resetElectionTimer (a : nat) : M unit :=
  deadline ← random_deadline;
  _ ← read_follower a;
  write_role a (RFollower (mkFollowerRole deadline 0)).

Fixpoint writeEntries (entries : list LogEntry) : M bool :=
  match entries with
  | [] => mret true
  | logEntry :: entries =>
      res ← on_log (log_Write (Serialize logEntry));
      match res.2 with
      | Some _ => mret false
      | None => writeEntries entries
      end
  end.

Definition write_and_commit (entries : list LogEntry) : M unit :=
  ok ← writeEntries entries;
  when ok (on_log (λ l, (tt, log_Commit l))).

(** The loop over [logEntries[i:]] at [idx = prevLogEntryIndex + 1 + i]. *)
Fixpoint appendEntries_from (idx : Z) (logEntries : list LogEntry) : M unit :=
  match logEntries with
  | [] => mret tt
  | entry :: rest =>
      raw ← gets (λ r, log_Read idx (r_log r));
      match raw with
      | inr raw =>
          match DeserializeLogEntry raw with
          | inl _ => mret tt
          | inr logEntryAtIdx =>
              if negb (Term logEntryAtIdx =? Term entry) then
                err ← on_log (log_TruncateFrom idx);
                match err with
                | None => write_and_commit (entry :: rest)
                | Some _ => mret tt
                end
              else appendEntries_from (u64 (idx + 1)) rest
          end
      | inl _ => write_and_commit (entry :: rest)
      end
  end.

Definition FollowerRole__appendEntries (prevLogEntryIndex : Z) (logEntries : list LogEntry) : M unit :=
  appendEntries_from (u64 (prevLogEntryIndex + 1)) logEntries.

(** One entry goes to the state machine, once per client request. *)
Definition apply_entry (logEntry : LogEntry) : M unit :=
  if (0 <? Z.of_nat (length (Data logEntry))) then
    if negb (bool_decide (ClientId logEntry = ""%string)) then
      dup ← gets (λ r, IsDuplicate (r_sessions r) (ClientId logEntry) (SequenceNumber logEntry));
      if negb dup.1 then
        result ← on_fsm (fsm_Apply (Data logEntry));
        modify (λ r, set_r_sessions
          (RecordResult (r_sessions r) (ClientId logEntry) (SequenceNumber logEntry) result) r)
      else mret tt
    else _ ← on_fsm (fsm_Apply (Data logEntry)); mret tt
  else mret tt.

(** [for idx := ...; idx <= last; idx++]; the fuel is the number of rounds,
    the last test included. *)
Fixpoint apply_loop (fuel : nat) (idx last : Z) : M unit :=
  match fuel with
  | O => out_of_fuel
  | S fuel =>
      if idx <=? last then
        e ← gets (λ r, entry_at (r_log r) idx);
        match e with
        | None => mret tt
        | Some logEntry =>
            apply_entry logEntry;;
            set_applied idx;;
            apply_loop fuel (u64 (idx + 1)) last
        end
      else mret tt
  end.

Definition FollowerRole__applyToFiniteStateMachine : M unit :=
  commitIdx ← gets (λ r, commitIndex (r_store r));
  applied ← gets (λ r, lastApplied (r_store r));
  if commitIdx <=? applied then mret tt
  else apply_loop (S (Z.to_nat (commitIdx - applied))) (u64 (applied + 1)) commitIdx.

(** Walk back over the entries of the conflicting term. *)
Fixpoint conflict_loop (log : L) (snapIndex conflictTerm : Z) (fuel : nat) (conflictIndex : Z) : Z :=
  match fuel with
  | O => conflictIndex
  | S fuel =>
      if (1 <? conflictIndex) && (u64 (snapIndex + 1) <? conflictIndex) then
        match entry_at log (conflictIndex - 1) with
        | None => conflictIndex
        | Some logEntry =>
            if negb (Term logEntry =? conflictTerm) then conflictIndex
            else conflict_loop log snapIndex conflictTerm fuel (conflictIndex - 1)
        end
      else conflictIndex
  end.

Definition checkLogConsistency (index term : Z) (r : Raft L F) : bool * Z * Z :=
  if index =? 0 then (true, 0, 0)
  else if index =? r_snapshotIndex r then
    if term =? r_snapshotTerm r then (true, 0, 0)
    else (false, u64 (r_snapshotIndex r + 1), 0)
  else if index <? r_snapshotIndex r then (false, u64 (r_snapshotIndex r + 1), 0)
  else
    match entry_at (r_log r) index with
    | None => (false, index, 0)
    | Some logEntryAtIndex =>
        if Term logEntryAtIndex =? term then (true, 0, 0)
        else
          let conflictTerm := Term logEntryAtIndex in
          (false, conflict_loop (r_log r) (r_snapshotIndex r) conflictTerm (Z.to_nat index) index,
           conflictTerm)
    end.

Fixpoint FollowerRole__HandleAppendEntries (fuel : nat) (a : nat) (term : Z) (leaderId : string)
    (prevLogEntryIndex prevLogEntryTerm : Z) (logEntries : list LogEntry)
    (leaderCommitIndex : Z) : M AppendReply :=
  match fuel with
  | O => out_of_fuel
  | S fuel =>
      currentTerm ← GetCurrentTerm;
      if term <? currentTerm then mret (mkAppendReply currentTerm false 0 0)
      else if currentTerm <? term then
        followerRole ← becomeFollower term;
        FollowerRole__HandleAppendEntries fuel followerRole term leaderId
          prevLogEntryIndex prevLogEntryTerm logEntries leaderCommitIndex
      else
        resetElectionTimer a;;
        last ← gets (λ r, log_GetLastIndex (r_log r));
        let lastLogEntryIndex := last.1 in
        if lastLogEntryIndex <? prevLogEntryIndex
        then mret (mkAppendReply currentTerm false (u64 (lastLogEntryIndex + 1)) 0)
        else
          c ← gets (checkLogConsistency prevLogEntryIndex prevLogEntryTerm);
          let '(ok, conflictIndex, conflictTerm) := c in
          if negb ok then mret (mkAppendReply currentTerm false conflictIndex conflictTerm)
          else
            SetLeaderId leaderId;;
            FollowerRole__appendEntries prevLogEntryIndex logEntries;;
            setCommitIndex leaderCommitIndex;;
            FollowerRole__applyToFiniteStateMachine;;
            mret (mkAppendReply currentTerm true 0 0)
  end.

Definition FollowerRole__HandlePreVote (term : Z) (candidateId : string)
    (lastLogEntryIndex lastLogEntryTerm : Z) : M (Z * bool) :=
  currentTerm ← GetCurrentTerm;
  if term <? currentTerm then mret (currentTerm, false)
  else
    ok ← isLogEqualOrMoreRecent lastLogEntryIndex lastLogEntryTerm;
    if negb ok then mret (currentTerm, false) else mret (currentTerm, true).

Fixpoint FollowerRole__HandleRequestVote (fuel : nat) (a : nat) (term : Z) (candidateId : string)
    (lastLogEntryIndex lastLogEntryTerm : Z) : M (Z * bool) :=
  match fuel with
  | O => out_of_fuel
  | S fuel =>
      currentTerm ← GetCurrentTerm;
      if term <? currentTerm then mret (currentTerm, false)
      else if currentTerm <? term then
        followerRole ← becomeFollower term;
        FollowerRole__HandleRequestVote fuel followerRole term candidateId
          lastLogEntryIndex lastLogEntryTerm
      else
        voted ← on_store Store__GetVotedFor;
        if negb (bool_decide (voted = ""%string)) && negb (bool_decide (voted = candidateId))
        then mret (currentTerm, false)
        else
          ok ← isLogEqualOrMoreRecent lastLogEntryIndex lastLogEntryTerm;
          if negb ok then mret (currentTerm, false)
          else
            err ← on_store (Store__SetVotedFor candidateId);
            match err with
            | Some _ => markUnhealthy;; mret (currentTerm, false)
            | None => resetElectionTimer a;; mret (currentTerm, true)
            end
  end.

Definition FollowerRole__HandleInstallSnapshot (a : nat) (term : Z) (leaderId : string)
    (lastIncludedIndex lastIncludedTerm : Z) (data : bytes) : M Z :=
  currentTerm ← GetCurrentTerm;
  if term <? currentTerm then mret currentTerm
  else
    err ← (if currentTerm <? term
           then on_store (Store__SetCurrentTermAndVotedFor term "")
           else mret None);
    match err with
    | Some _ => markUnhealthy;; mret currentTerm
    | None =>
        resetElectionTimer a;;
        SetLeaderId leaderId;;
        snapIndex ← gets r_snapshotIndex;
        if lastIncludedIndex <=? snapIndex then mret currentTerm
        else _ ← installSnapshot lastIncludedIndex lastIncludedTerm data; mret currentTerm
    end.
End follower.

(** A proposal ends at once, goes to another node ([transport.Propose], which
    carries the data only), or waits on a channel. *)
Inductive proposal :=
| ProposalDone (result : any) (err : option error)
| ProposalForward (leaderId : string) (data : bytes)
| ProposalWaiting (l : nat) (index : Z) (ch : nat).

Section propose.
Context {L F : Type} `{GoLog L} `{FSM F}.
Abbreviation M := (RaftM L F).

(** Followers and candidates share this code. *)
Definition FollowerRole__HandlePropose (data : bytes) (clientId : string) (sequenceNumber epoch : Z)
    : M proposal :=
  leader ← Raft__GetLeaderId;
  if bool_decide (leader = ""%string) then mret (ProposalDone AnyNil (Some (ErrNew "no known leader")))
  else mret (ProposalForward leader data).
End propose.
