(* ===== verification/Leader.v ===== *)
(** * The leader: [internal/leader_role.go]

    Taking office, heartbeats and the lease, replication (what is sent to a peer
    and what its reply does to [nextIndex] and [matchIndex]), the commit rule,
    proposals and the applier.  A function that makes a remote call is cut there:
    what it does before the call starts a [Task], and its [_reply] definition is
    the rest, with the answer as arguments. *)
From Stdlib Require Import Sorting.Permutation.
From stdpp Require Import sorting.
From S2P Require Import Prelude GoMonad FileSystem LogEntry Store Snapshot Session Config GoLog Log Fsm Node Roles Follower.
Local Open Scope Z_scope.

Definition set_l_applierCh v (l : LeaderRole) : LeaderRole :=
  mkLeaderRole v (l_applierStopCh l) (l_heartbeatDeadline l) (l_heartbeatTicks l) (l_inflight l)
    (l_lastAckTicks l) (l_leaderTicks l) (l_matchIndex l) (l_nextIndex l) (l_pending l).
Definition set_l_heartbeatTicks v (l : LeaderRole) : LeaderRole :=
  mkLeaderRole (l_applierCh l) (l_applierStopCh l) (l_heartbeatDeadline l) v (l_inflight l)
    (l_lastAckTicks l) (l_leaderTicks l) (l_matchIndex l) (l_nextIndex l) (l_pending l).
Definition set_l_inflight v (l : LeaderRole) : LeaderRole :=
  mkLeaderRole (l_applierCh l) (l_applierStopCh l) (l_heartbeatDeadline l) (l_heartbeatTicks l)
    v (l_lastAckTicks l) (l_leaderTicks l) (l_matchIndex l) (l_nextIndex l) (l_pending l).
Definition set_l_lastAckTicks v (l : LeaderRole) : LeaderRole :=
  mkLeaderRole (l_applierCh l) (l_applierStopCh l) (l_heartbeatDeadline l) (l_heartbeatTicks l)
    (l_inflight l) v (l_leaderTicks l) (l_matchIndex l) (l_nextIndex l) (l_pending l).
Definition set_l_leaderTicks v (l : LeaderRole) : LeaderRole :=
  mkLeaderRole (l_applierCh l) (l_applierStopCh l) (l_heartbeatDeadline l) (l_heartbeatTicks l)
    (l_inflight l) (l_lastAckTicks l) v (l_matchIndex l) (l_nextIndex l) (l_pending l).
Definition set_l_matchIndex v (l : LeaderRole) : LeaderRole :=
  mkLeaderRole (l_applierCh l) (l_applierStopCh l) (l_heartbeatDeadline l) (l_heartbeatTicks l)
    (l_inflight l) (l_lastAckTicks l) (l_leaderTicks l) v (l_nextIndex l) (l_pending l).
Definition set_l_nextIndex v (l : LeaderRole) : LeaderRole :=
  mkLeaderRole (l_applierCh l) (l_applierStopCh l) (l_heartbeatDeadline l) (l_heartbeatTicks l)
    (l_inflight l) (l_lastAckTicks l) (l_leaderTicks l) (l_matchIndex l) v (l_pending l).

(** [m\[k\]] of a Go map: the zero value when the key is missing. *)
Definition map_Z (m : gmap string Z) (k : string) : Z := default 0 (m !! k).
Definition map_bool (m : gmap string bool) (k : string) : bool := default false (m !! k).

Section leader.
Context {L F : Type} `{GoLog L} `{FSM F}.
Abbreviation M := (RaftM L F).

Definition NewLeaderRole : M nat :=
  c ← gets r_config;
  new_role (RLeader (mkLeaderRole false false (HeartbeatTicks c) 0 ∅ ∅ 0 ∅ ∅ ∅)).

(** ** What to send to a peer *)

(** [for i := next; i <= to; i++]: the entries up to the first one that cannot
    be read; the log's last index is below [2^64 - 1]. *)
Fixpoint collect_entries (log : L) (fuel : nat) (i to : Z) : list LogEntry :=
  match fuel with
  | O => []
  | S fuel =>
      if i <=? to then
        match entry_at log i with
        | Some logEntry => logEntry :: collect_entries log fuel (u64 (i + 1)) to
        | None => []
        end
      else []
  end.

Definition batch_entries (r : Raft L F) (next lastLogEntryIndex : Z) : list LogEntry :=
  if next <=? lastLogEntryIndex then
    let count := u64 (lastLogEntryIndex - next + 1) in
    let max := u64 (MaxBatchEntries (r_config r)) in
    let to := if max <? count then u64 (next + max - 1) else lastLogEntryIndex in
    collect_entries (r_log r) (Z.to_nat (to - next + 1)) next to
  else [].

Definition prev_term (r : Raft L F) (prevLogEntryIndex : Z) : Z :=
  if 0 <? prevLogEntryIndex then
    if prevLogEntryIndex =? r_snapshotIndex r then r_snapshotTerm r
    else match entry_at (r_log r) prevLogEntryIndex with
         | Some logEntry => Term logEntry
         | None => 0
         end
  else 0.

(** The goroutine started for [node]; [next] is its [nextIndex], or the index
    after the last one when that is 0. *)
Definition replication_task (r : Raft L F) (a : nat) (node : string) (term : Z)
    (next lastLogEntryIndex : Z) : Task :=
  let prevLogEntryIndex := if 0 <? next then next - 1 else 0 in
  GoSendAppendEntries a node term (leaderId (r_store r)) prevLogEntryIndex
    (prev_term r prevLogEntryIndex) (batch_entries r next lastLogEntryIndex)
    (commitIndex (r_store r)).

Definition needs_snapshot (r : Raft L F) (next : Z) : bool :=
  (0 <? r_snapshotIndex r) && (next <=? r_snapshotIndex r).

Definition set_inflight (a : nat) (node : string) (b : bool) : M unit :=
  update_leader a (λ l, set_l_inflight (<[node := b]> (l_inflight l)) l).

Definition LeaderRole__sendAppendEntriesToAllNodes (a : nat) : M unit :=
  update_leader a (set_l_heartbeatTicks 0);;
  currentTerm ← GetCurrentTerm;
  last ← gets (λ r, log_GetLastIndex (r_log r));
  let lastLogEntryIndex := last.1 in
  nodes ← gets r_nodes;
  self ← gets r_id;
  go_each (λ node,
    if bool_decide (node = self) then mret tt
    else
      l ← read_leader a;
      if map_bool (l_inflight l) node then mret tt
      else
        set_inflight a node true;;
        let next := if map_Z (l_nextIndex l) node =? 0 then u64 (lastLogEntryIndex + 1)
                    else map_Z (l_nextIndex l) node in
        r ← gets (λ r, r);
        if needs_snapshot r next then spawn (GoSendInstallSnapshot a node currentTerm self)
        else spawn (replication_task r a node currentTerm next lastLogEntryIndex)) nodes.

Definition LeaderRole__retrySendAppendEntriesToNode (a : nat) (node : string) (term : Z) : M unit :=
  l ← read_leader a;
  if map_bool (l_inflight l) node then mret tt
  else
    set_inflight a node true;;
    let next := map_Z (l_nextIndex l) node in
    r ← gets (λ r, r);
    if needs_snapshot r next then spawn (GoSendInstallSnapshot a node term (r_id r))
    else
      let lastLogEntryIndex := (log_GetLastIndex (r_log r)).1 in
      let next := if next =? 0 then u64 (lastLogEntryIndex + 1) else next in
      spawn (replication_task r a node term next lastLogEntryIndex).

(** ** The commit rule *)
Definition triggerApplier (a : nat) : M unit := update_leader a (set_l_applierCh true).

Definition LeaderRole__tryToAdvanceCommitIndex (a : nat) : M unit :=
  currentTerm ← GetCurrentTerm;
  l ← read_leader a;
  nodes ← gets r_nodes;
  let matches := merge_sort Z.le ((λ n, map_Z (l_matchIndex l) n) <$> nodes) in
  if (length matches =? 0)%nat then mret tt
  else
    let idx := (length matches - Nat.div (length matches) 2 - 1)%nat in
    match matches !! idx with
    | None => mret tt
    | Some candidate =>
        if candidate =? 0 then mret tt
        else
          e ← gets (λ r, entry_at (r_log r) candidate);
          match e with
          | None => mret tt
          | Some logEntry =>
              if negb (Term logEntry =? currentTerm) then mret tt
              else
                c ← gets (λ r, commitIndex (r_store r));
                when (c <? candidate) (setCommitIndex candidate;; triggerApplier a)
          end
    end.

(** ** Taking office *)
Definition init_peers (self : string) (lastLogEntryIndex : Z) (nodes : list string)
    (l : LeaderRole) : LeaderRole :=
  foldl (λ l p,
    if bool_decide (p = self) then l
    else
      set_l_lastAckTicks (<[p := 0]> (l_lastAckTicks l))
        (set_l_nextIndex (<[p := u64 (lastLogEntryIndex + 1)]> (l_nextIndex l))
          (set_l_matchIndex (<[p := 0]> (l_matchIndex l)) l))) l nodes.

Definition set_self (self : string) (lastLogEntryIndex : Z) (l : LeaderRole) : LeaderRole :=
  set_l_nextIndex (<[self := u64 (lastLogEntryIndex + 1)]> (l_nextIndex l))
    (set_l_matchIndex (<[self := lastLogEntryIndex]> (l_matchIndex l)) l).

Definition LeaderRole__OnEnter (a : nat) (term : Z) : M unit :=
  currentTerm ← GetCurrentTerm;
  if negb (currentTerm =? term) then _ ← becomeFollower term; mret tt
  else
    self ← gets r_id;
    SetLeaderId self;;
    last ← gets (λ r, log_GetLastIndex (r_log r));
    nodes ← gets r_nodes;
    update_leader a (λ l, set_self self last.1 (init_peers self last.1 nodes l));;
    res ← on_log (log_Write (Serialize (mkLogEntry [] term "" 0)));
    match res.2 with
    | Some _ => _ ← becomeFollower term; mret tt
    | None =>
        on_log (λ l, (tt, log_Commit l));;
        last ← gets (λ r, log_GetLastIndex (r_log r));
        match last.2 with
        | Some _ => _ ← becomeFollower term; mret tt
        | None =>
            update_leader a (set_self self last.1);;
            LeaderRole__sendAppendEntriesToAllNodes a;;
            LeaderRole__tryToAdvanceCommitIndex a;;
            spawn (GoApplier a)
        end
    end.

Definition becomeLeader (term : Z) : M nat :=
  exit_current_role;;
  a ← enter_role NewLeaderRole;
  LeaderRole__OnEnter a term;;
  mret a.

(** ** Ticks and the lease *)
Definition lease_acked (r : Raft L F) (l : LeaderRole) : Z :=
  foldl (λ acked p,
    if bool_decide (p = r_id r) then acked
    else if i64 (l_leaderTicks l - map_Z (l_lastAckTicks l) p)
            <? ElectionTimeoutMinTicks (r_config r)
         then i64 (acked + 1) else acked) 1 (r_nodes r).

Definition lease_expired (r : Raft L F) (l : LeaderRole) : bool :=
  (ElectionTimeoutMinTicks (r_config r) <? l_leaderTicks l)
  && (lease_acked r l <? majority_of (r_nodes r)).

(** [l.raft.becomeFollower(l.raft.store.GetCurrentTerm())] *)
Definition step_down : M unit :=
  currentTerm ← GetCurrentTerm; _ ← becomeFollower currentTerm; mret tt.

Definition LeaderRole__Tick (a : nat) : M unit :=
  update_leader a (λ l, set_l_leaderTicks (i64 (l_leaderTicks l + 1))
                          (set_l_heartbeatTicks (i64 (l_heartbeatTicks l + 1)) l));;
  l ← read_leader a;
  when (l_heartbeatDeadline l <=? l_heartbeatTicks l)
    (LeaderRole__sendAppendEntriesToAllNodes a);;
  r ← gets (λ r, r);
  l ← read_leader a;
  when (lease_expired r l) step_down.

(** ** Requests from other nodes *)
Definition LeaderRole__HandleAppendEntries (fuel : nat) (term : Z) (leaderId : string)
    (prevLogEntryIndex prevLogEntryTerm : Z) (logEntries : list LogEntry)
    (leaderCommit : Z) : M AppendReply :=
  currentTerm ← GetCurrentTerm;
  self ← gets r_id;
  if term <? currentTerm then mret (mkAppendReply currentTerm false 0 0)
  else if (term =? currentTerm) && bool_decide (leaderId = self)
  then mret (mkAppendReply currentTerm false 0 0)
  else
    followerRole ← becomeFollower term;
    FollowerRole__HandleAppendEntries fuel followerRole term leaderId
      prevLogEntryIndex prevLogEntryTerm logEntries leaderCommit.

Definition LeaderRole__HandlePreVote (term : Z) (candidateId : string)
    (lastLogEntryIndex lastLogEntryTerm : Z) : M (Z * bool) :=
  currentTerm ← GetCurrentTerm; mret (currentTerm, false).

Definition LeaderRole__HandleInstallSnapshot (term : Z) (leaderId : string)
    (lastIncludedIndex lastIncludedTerm : Z) (data : bytes) : M Z :=
  currentTerm ← GetCurrentTerm;
  if term <=? currentTerm then mret currentTerm
  else
    followerRole ← becomeFollower term;
    FollowerRole__HandleInstallSnapshot followerRole term leaderId
      lastIncludedIndex lastIncludedTerm data.

Definition LeaderRole__HandleRequestVote (fuel : nat) (term : Z) (candidateId : string)
    (lastLogEntryIndex lastLogEntryTerm : Z) : M (Z * bool) :=
  currentTerm ← GetCurrentTerm;
  if term <=? currentTerm then mret (currentTerm, false)
  else
    followerRole ← becomeFollower term;
    FollowerRole__HandleRequestVote fuel followerRole term candidateId
      lastLogEntryIndex lastLogEntryTerm.

(** ** Proposals: up to the wait, and giving up on it *)
Definition LeaderRole__HandlePropose (a : nat) (data : bytes) (clientId : string)
    (sequenceNumber epoch : Z) : M proposal :=
  sessions ← gets r_sessions;
  let '(isDup, cachedResult) := IsDuplicate sessions clientId sequenceNumber in
  if negb (bool_decide (clientId = ""%string)) && isDup
  then mret (ProposalDone cachedResult None)
  else
    currentEpoch ← gets r_roleEpoch;
    stale ← (if negb (currentEpoch =? epoch) then mret true
             else t ← role_type; mret (negb (bool_decide (t = "leader"%string))));
    if (stale : bool)
    then mret (ProposalDone AnyNil (Some (ErrNew "leader stepped down")))
    else
      r ← gets (λ r, r);
      l ← read_leader a;
      if lease_expired r l
      then mret (ProposalDone AnyNil (Some (ErrNew "leader lease expired")))
      else
        currentTerm ← GetCurrentTerm;
        res ← on_log (log_WriteCommit
                (Serialize (mkLogEntry data currentTerm clientId sequenceNumber)));
        let '(index, err) := res in
        match err with
        | Some e => mret (ProposalDone AnyNil (Some e))
        | None =>
            ch ← make_chan;
            update_leader a (λ l, set_l_pending
              (<[index := default [] (l_pending l !! index) ++ [ch]]> (l_pending l)) l);;
            LeaderRole__sendAppendEntriesToAllNodes a;;
            update_leader a (λ l,
              if map_Z (l_matchIndex l) (r_id r) <? index
              then set_l_matchIndex (<[r_id r := index]> (l_matchIndex l)) l else l);;
            update_leader a (λ l,
              if map_Z (l_nextIndex l) (r_id r) <? u64 (index + 1)
              then set_l_nextIndex (<[r_id r := u64 (index + 1)]> (l_nextIndex l)) l else l);;
            mret (ProposalWaiting a index ch)
        end.

(** [case res, ok := <-ch]: [None] while the channel is empty and open. *)
Definition propose_result (ch : nat) (r : Raft L F) : option (any * option error) :=
  match r_chans r !! ch with
  | Some (mkChan (Some res) _) => Some (res, None)
  | Some (mkChan None true) => Some (AnyNil, Some (ErrNew "leader stepped down"))
  | _ => None
  end.

(** Replace the first occurrence by the last element and shorten. *)
Definition remove_waiter (ch : nat) (ws : list nat) : list nat :=
  match list_find (λ w, w = ch) ws with
  | None => ws
  | Some (i, _) => removelast (<[i := List.last ws 0%nat]> ws)
  end.

(** [case <-ctx.Done()] *)
Definition LeaderRole__HandlePropose_cancel (a : nat) (index : Z) (ch : nat) : M unit :=
  l ← read_leader a;
  let ws := default [] (l_pending l !! index) in
  when (0 <? Z.of_nat (length ws))
    (let ws' := remove_waiter ch ws in
     update_leader a (λ l, set_l_pending
       (if (0 <? Z.of_nat (length ws')) then <[index := ws']> (l_pending l)
        else delete index (l_pending l)) l)).

(** ** The applier *)
Definition apply_for_result (logEntry : LogEntry) : M any :=
  if (0 <? Z.of_nat (length (Data logEntry))) then
    if negb (bool_decide (ClientId logEntry = ""%string)) then
      dup ← gets (λ r, IsDuplicate (r_sessions r) (ClientId logEntry) (SequenceNumber logEntry));
      if (dup.1 : bool) then mret dup.2
      else
        result ← on_fsm (fsm_Apply (Data logEntry));
        modify (λ r, set_r_sessions
          (RecordResult (r_sessions r) (ClientId logEntry) (SequenceNumber logEntry) result) r);;
        mret result
    else on_fsm (fsm_Apply (Data logEntry))
  else mret AnyNil.

Definition deliver_result (logEntry : LogEntry) (result : any) (ch : nat) : M unit :=
  let result := if bool_decide (result = AnyNil) && (0 <? Z.of_nat (length (Data logEntry)))
                then AnyUnit else result in
  send_chan ch result;;
  close_chan ch.

Definition take_waiters (a : nat) (idx : Z) : M (list nat) :=
  l ← read_leader a;
  let waiters := default [] (l_pending l !! idx) in
  when (0 <? Z.of_nat (length waiters))
    (update_leader a (λ l, set_l_pending (delete idx (l_pending l)) l));;
  mret waiters.

Fixpoint LeaderRole__apply_loop (a : nat) (fuel : nat) (idx last : Z) : M unit :=
  match fuel with
  | O => out_of_fuel
  | S fuel =>
      if idx <=? last then
        e ← gets (λ r, entry_at (r_log r) idx);
        match e with
        | None => mret tt
        | Some logEntry =>
            result ← apply_for_result logEntry;
            waiters ← take_waiters a idx;
            go_each (deliver_result logEntry result) waiters;;
            set_applied idx;;
            LeaderRole__apply_loop a fuel (u64 (idx + 1)) last
        end
      else mret tt
  end.

Definition LeaderRole__applyToFiniteStateMachine (a : nat) : M unit :=
  commitIdx ← gets (λ r, commitIndex (r_store r));
  applied ← gets (λ r, lastApplied (r_store r));
  if commitIdx <=? applied then mret tt
  else LeaderRole__apply_loop a (S (Z.to_nat (commitIdx - applied))) (u64 (applied + 1)) commitIdx.

(** One round of the outer [select]: the goroutine ends ([true]) when it takes
    the stop signal, waits ([false]) when neither channel is ready, and
    otherwise applies until its channel is empty.  When both are ready either
    may be taken: [stop_first] is that choice. *)
Fixpoint applier_drain (fuel : nat) (a : nat) : M unit :=
  match fuel with
  | O => out_of_fuel
  | S fuel =>
      update_leader a (set_l_applierCh false);;
      LeaderRole__applyToFiniteStateMachine a;;
      l ← read_leader a;
      if l_applierCh l then applier_drain fuel a else mret tt
  end.

Definition LeaderRole__applier_round (fuel : nat) (stop_first : bool) (a : nat) : M bool :=
  l ← read_leader a;
  if l_applierStopCh l && (stop_first || negb (l_applierCh l)) then mret true
  else if l_applierCh l then applier_drain fuel a;; mret false
  else mret false.

(** The deferred [recover] of the goroutine. *)
Definition LeaderRole__applier (fuel : nat) (stop_first : bool) (a : nat) : M bool := λ r,
  match LeaderRole__applier_round fuel stop_first a r with
  | (Panic _, r') => (markUnhealthy;; mret true) r'
  | res => res
  end.

(** ** Replies *)
Definition raise_match (a : nat) (node : string) (v : Z) : M unit :=
  update_leader a (λ l,
    if map_Z (l_matchIndex l) node <? v
    then set_l_matchIndex (<[node := v]> (l_matchIndex l)) l else l).

Definition raise_next (a : nat) (node : string) (v : Z) : M unit :=
  update_leader a (λ l,
    if map_Z (l_nextIndex l) node <? v
    then set_l_nextIndex (<[node := v]> (l_nextIndex l)) l else l).

Definition record_ack (a : nat) (node : string) : M unit :=
  update_leader a (λ l, set_l_lastAckTicks (<[node := l_leaderTicks l]> (l_lastAckTicks l)) l).

(** Where to continue after a rejection. *)
Definition backtrack (log : L) (conflictIndex conflictTerm : Z) : Z :=
  let next :=
    if negb (conflictTerm =? 0) then
      let lastOfTerm := GetLastLogEntryIndexOfTerm log conflictTerm in
      if 0 <? lastOfTerm then u64 (lastOfTerm + 1) else conflictIndex
    else conflictIndex in
  if next <? 1 then 1 else next.

(** The success and failure branches; the result is [needsRetry]. *)
Definition append_acknowledged (a : nat) (node : string) (prevLogEntryIndex : Z)
    (logEntries : list LogEntry) : M bool :=
  record_ack a node;;
  let lastSent := if 0 <? Z.of_nat (length logEntries)
                  then u64 (prevLogEntryIndex + Z.of_nat (length logEntries))
                  else prevLogEntryIndex in
  raise_match a node lastSent;;
  raise_next a node (u64 (lastSent + 1));;
  LeaderRole__tryToAdvanceCommitIndex a;;
  last ← gets (λ r, log_GetLastIndex (r_log r));
  l ← read_leader a;
  mret (map_Z (l_nextIndex l) node <=? last.1).

Definition append_rejected (a : nat) (node : string) (conflictIndex conflictTerm : Z) : M bool :=
  l ← read_leader a;
  if 1 <? map_Z (l_nextIndex l) node then
    log ← gets r_log;
    update_leader a (λ l, set_l_nextIndex
      (<[node := backtrack log conflictIndex conflictTerm]> (l_nextIndex l)) l);;
    mret true
  else mret false.

Definition LeaderRole__sendAppendEntriesToNode_reply (a : nat) (node : string) (term : Z)
    (prevLogEntryIndex : Z) (logEntries : list LogEntry) (reply : AppendReply) : M unit :=
  let t := ar_term reply in
  l ← read_leader a;
  when (map_bool (l_inflight l) node) (set_inflight a node false);;
  currentTerm ← GetCurrentTerm;
  if currentTerm <? t then _ ← becomeFollower t; mret tt
  else
    ty ← role_type;
    if negb (bool_decide (ty = "leader"%string)) || negb (t =? term) then mret tt
    else
      needsRetry ← (if ar_success reply
                    then append_acknowledged a node prevLogEntryIndex logEntries
                    else append_rejected a node (ar_conflictIndex reply) (ar_conflictTerm reply));
      when needsRetry (LeaderRole__retrySendAppendEntriesToNode a node term).

(** [sendInstallSnapshotToNode] before the call: the file, or nothing to send. *)
Definition LeaderRole__sendInstallSnapshotToNode (a : nat) (node : string) : M (option Snapshot) :=
  path ← gets snapshotPath;
  snapshot ← on_files (LoadSnapshot path);
  match snapshot with
  | inl _ => set_inflight a node false;; mret None
  | inr snapshot => mret (Some snapshot)
  end.

Definition LeaderRole__sendInstallSnapshotToNode_reply (a : nat) (node : string)
    (snapshot : Snapshot) (t : Z) : M unit :=
  set_inflight a node false;;
  currentTerm ← GetCurrentTerm;
  if currentTerm <? t then _ ← becomeFollower t; mret tt
  else
    ty ← role_type;
    if negb (bool_decide (ty = "leader"%string)) then mret tt
    else
      record_ack a node;;
      raise_match a node (LastIncludedIndex snapshot);;
      raise_next a node (u64 (LastIncludedIndex snapshot + 1));;
      LeaderRole__tryToAdvanceCommitIndex a.
End leader.
