(* ===== verification/Candidate.v ===== *)
(** * The candidate: [internal/candidate_role.go]

    The pre-vote round, the election, and the counting of both kinds of votes;
    [becomeCandidate] of [internal/raft.go] and the follower's [Tick], which
    calls it.  The vote counters sit on the role object, which the goroutines
    keep after the node has left the role. *)
From S2P Require Import Prelude GoMonad FileSystem LogEntry Store Snapshot Session Config GoLog Log Fsm Node Roles Follower Leader.
Local Open Scope Z_scope.

Definition set_c_electionTicks v (c : CandidateRole) : CandidateRole :=
  mkCandidateRole (c_electionDeadline c) v (c_majority c) (c_nodes c) (c_preVote c)
    (c_preVotes c) (c_votes c).
Definition set_c_preVote v (c : CandidateRole) : CandidateRole :=
  mkCandidateRole (c_electionDeadline c) (c_electionTicks c) (c_majority c) (c_nodes c) v
    (c_preVotes c) (c_votes c).
Definition set_c_preVotes v (c : CandidateRole) : CandidateRole :=
  mkCandidateRole (c_electionDeadline c) (c_electionTicks c) (c_majority c) (c_nodes c)
    (c_preVote c) v (c_votes c).
Definition set_c_votes v (c : CandidateRole) : CandidateRole :=
  mkCandidateRole (c_electionDeadline c) (c_electionTicks c) (c_majority c) (c_nodes c)
    (c_preVote c) (c_preVotes c) v.

Section candidate.
Context {L F : Type} `{GoLog L} `{FSM F}.
Abbreviation M := (RaftM L F).

Definition NewCandidateRole : M nat :=
  deadline ← random_deadline;
  nodes ← gets r_nodes;
  new_role (RCandidate (mkCandidateRole deadline 0 (majority_of nodes) nodes true 0 0)).

Definition CandidateRole__startElection (a : nat) : M unit :=
  res ← on_store Store__IncrementCurrentTerm;
  let '(currentTerm, err) := res in
  match err with Some _ => markUnhealthy | None =>
  self ← gets r_id;
  err ← on_store (Store__SetVotedFor self);
  match err with Some _ => markUnhealthy | None =>
  update_candidate a (λ c, set_c_votes (i64 (c_votes c + 1)) c);;
  c ← read_candidate a;
  if c_majority c <=? c_votes c then _ ← becomeLeader currentTerm; mret tt
  else
    last ← getLastLogEntryIndexAndTerm;
    go_each (λ node,
      if bool_decide (node = self) then mret tt
      else spawn (GoSendRequestVote a node currentTerm self last.1 last.2)) (c_nodes c)
  end end.

Definition CandidateRole__startPreElection (a : nat) : M unit :=
  currentTerm ← GetCurrentTerm;
  update_candidate a (λ c, set_c_preVotes (i64 (c_preVotes c + 1)) c);;
  c ← read_candidate a;
  if c_majority c <=? c_preVotes c then
    update_candidate a (set_c_preVote false);;
    CandidateRole__startElection a
  else
    last ← getLastLogEntryIndexAndTerm;
    self ← gets r_id;
    go_each (λ node,
      if bool_decide (node = self) then mret tt
      else spawn (GoSendPreVote a node currentTerm self last.1 last.2)) (c_nodes c).

Definition CandidateRole__OnEnter (a : nat) : M unit :=
  c ← read_candidate a;
  if c_preVote c then CandidateRole__startPreElection a else CandidateRole__startElection a.

Definition becomeCandidate : M nat :=
  exit_current_role;;
  a ← enter_role NewCandidateRole;
  CandidateRole__OnEnter a;;
  mret a.

Definition CandidateRole__Tick (a : nat) : M unit :=
  update_candidate a (λ c, set_c_electionTicks (i64 (c_electionTicks c + 1)) c);;
  c ← read_candidate a;
  when (c_electionDeadline c <=? c_electionTicks c) (_ ← becomeCandidate; mret tt).

Definition FollowerRole__Tick (a : nat) : M unit :=
  f ← read_follower a;
  let f := mkFollowerRole (f_electionDeadline f) (i64 (f_electionTicks f + 1)) in
  write_role a (RFollower f);;
  when (f_electionDeadline f <=? f_electionTicks f) (_ ← becomeCandidate; mret tt).

(** ** Requests from other nodes *)
Definition CandidateRole__HandleAppendEntries (fuel : nat) (term : Z) (leaderId : string)
    (prevLogEntryIndex prevLogEntryTerm : Z) (logEntries : list LogEntry)
    (leaderCommitIndex : Z) : M AppendReply :=
  currentTerm ← GetCurrentTerm;
  if term <? currentTerm then mret (mkAppendReply currentTerm false 0 0)
  else
    followerRole ← becomeFollower term;
    FollowerRole__HandleAppendEntries fuel followerRole term leaderId
      prevLogEntryIndex prevLogEntryTerm logEntries leaderCommitIndex.

Definition CandidateRole__HandlePreVote (term : Z) (candidateId : string)
    (lastLogEntryIndex lastLogEntryTerm : Z) : M (Z * bool) :=
  currentTerm ← GetCurrentTerm;
  if term <? currentTerm then mret (currentTerm, false)
  else
    ok ← isLogEqualOrMoreRecent lastLogEntryIndex lastLogEntryTerm;
    if negb ok then mret (currentTerm, false) else mret (currentTerm, true).

Definition CandidateRole__HandleRequestVote (fuel : nat) (term : Z) (candidateId : string)
    (lastLogEntryIndex lastLogEntryTerm : Z) : M (Z * bool) :=
  currentTerm ← GetCurrentTerm;
  if term <=? currentTerm then mret (currentTerm, false)
  else
    followerRole ← becomeFollower term;
    FollowerRole__HandleRequestVote fuel followerRole term candidateId
      lastLogEntryIndex lastLogEntryTerm.

Definition CandidateRole__HandleInstallSnapshot (term : Z) (leaderId : string)
    (lastIncludedIndex lastIncludedTerm : Z) (data : bytes) : M Z :=
  currentTerm ← GetCurrentTerm;
  if term <? currentTerm then mret currentTerm
  else
    followerRole ← becomeFollower term;
    FollowerRole__HandleInstallSnapshot followerRole term leaderId
      lastIncludedIndex lastIncludedTerm data.

Definition CandidateRole__HandlePropose (data : bytes) (clientId : string) (sequenceNumber epoch : Z)
    : M proposal :=
  leader ← Raft__GetLeaderId;
  if bool_decide (leader = ""%string) then mret (ProposalDone AnyNil (Some (ErrNew "no known leader")))
  else mret (ProposalForward leader data).

(** ** Replies *)
Definition CandidateRole__sendPreVote_reply (a : nat) (node : string) (term : Z)
    (t : Z) (granted : bool) : M unit :=
  currentTerm ← GetCurrentTerm;
  if currentTerm <? t then _ ← becomeFollower t; mret tt
  else if negb granted then mret tt
  else
    ty ← role_type;
    c ← read_candidate a;
    if negb (bool_decide (ty = "candidate"%string)) || negb (c_preVote c)
       || negb (currentTerm =? term) then mret tt
    else
      update_candidate a (λ c, set_c_preVotes (i64 (c_preVotes c + 1)) c);;
      c ← read_candidate a;
      when (c_majority c <=? c_preVotes c)
        (update_candidate a (set_c_preVote false);;
         CandidateRole__startElection a).

Definition CandidateRole__sendRequestVote_reply (a : nat) (node : string) (term : Z)
    (t : Z) (voteGranted : bool) : M unit :=
  currentTerm ← GetCurrentTerm;
  if currentTerm <? t then _ ← becomeFollower t; mret tt
  else if negb voteGranted || negb (t =? term) then mret tt
  else
    ty ← role_type;
    if negb (bool_decide (ty = "candidate"%string)) || negb (currentTerm =? term) then mret tt
    else
      update_candidate a (λ c, set_c_votes (i64 (c_votes c + 1)) c);;
      c ← read_candidate a;
      when (c_majority c <=? c_votes c) (_ ← becomeLeader term; mret tt).
End candidate.
