(* ===== verification/Raft.v ===== *)
(** * The node: [internal/raft.go]

    Construction from what is on disk, the public entry points, which dispatch to
    the current role while the node is enabled, snapshots, and the replies to the
    remote calls of [internal/transport.go], a failed call included. *)
From S2P Require Import Prelude GoMonad FileSystem LogEntry Store Snapshot Session Config GoLog Log Fsm Node Roles Follower Leader Candidate.
Local Open Scope Z_scope.

Section raft.
Context {L F : Type} `{GoLog L} `{FSM F}.
Abbreviation M := (RaftM L F).

(** ** Construction *)
Definition NewRaft_restore : M unit :=
  path ← gets snapshotPath;
  snapshot ← on_files (LoadSnapshot path);
  match snapshot with
  | inr snapshot =>
      when (0 <? LastIncludedIndex snapshot)
        (modify (set_r_snapshotIndex (LastIncludedIndex snapshot));;
         modify (set_r_snapshotTerm (LastIncludedTerm snapshot));;
         _ ← on_fsm (fsm_Restore (sn_Data snapshot));
         raise_to (LastIncludedIndex snapshot))
  | inl _ => mret tt
  end.

(** Every entry of the log beyond [lastApplied] is applied, committed or not. *)
Definition NewRaft_replay : M unit :=
  last ← gets (λ r, log_GetLastIndex (r_log r));
  applied ← gets (λ r, lastApplied (r_store r));
  apply_loop (S (Z.to_nat (last.1 - applied))) (u64 (applied + 1)) last.1.

(** [n] is where allocation continues: addresses are never used again. *)
Definition NewRaft (id dataDir : string) (nodes : list string) (log : L) (store : Store)
    (fs : Fs) (fsm : F) (config : Config) (rng : nat → Z) (n : nat) : outcome unit * Raft L F :=
  (NewRaft_restore;;
   NewRaft_replay;;
   _ ← becomeFollower 0;
   mret tt)
    (mkRaft config dataDir true fsm true id log nodes rng None 0 0 0 NewSessionTable store
       false fs ∅ ∅ ∅ n).

(** ** Dispatch *)
Definition current_role : M (nat * RaftRole) :=
  a ← gets r_role;
  match a with
  | Some a => x ← read_role a; mret (a, x)
  | None => go_panic "nil pointer dereference"
  end.

Definition if_enabled {A} (otherwise : Z → A) (k : M A) : M A :=
  enabled ← gets r_enabled;
  if negb enabled then t ← GetCurrentTerm; mret (otherwise t) else k.

Definition Raft__HandleAppendEntries (fuel : nat) (term : Z) (leaderId : string)
    (prevLogEntryIndex prevLogEntryTerm : Z) (logEntries : list LogEntry)
    (leaderCommitIndex : Z) : M AppendReply :=
  if_enabled (λ t, mkAppendReply t false 0 0) (
    ax ← current_role;
    match ax with
    | (a, RFollower _) => FollowerRole__HandleAppendEntries fuel a
    | (_, RCandidate _) => CandidateRole__HandleAppendEntries fuel
    | (_, RLeader _) => LeaderRole__HandleAppendEntries fuel
    end term leaderId prevLogEntryIndex prevLogEntryTerm logEntries leaderCommitIndex).

Definition Raft__HandlePreVote (term : Z) (candidateId : string)
    (lastLogEntryIndex lastLogEntryTerm : Z) : M (Z * bool) :=
  if_enabled (λ t, (t, false)) (
    ax ← current_role;
    match ax with
    | (_, RFollower _) => FollowerRole__HandlePreVote
    | (_, RCandidate _) => CandidateRole__HandlePreVote
    | (_, RLeader _) => LeaderRole__HandlePreVote
    end term candidateId lastLogEntryIndex lastLogEntryTerm).

Definition Raft__HandleRequestVote (fuel : nat) (term : Z) (candidateId : string)
    (lastLogEntryIndex lastLogEntryTerm : Z) : M (Z * bool) :=
  if_enabled (λ t, (t, false)) (
    ax ← current_role;
    match ax with
    | (a, RFollower _) => FollowerRole__HandleRequestVote fuel a
    | (_, RCandidate _) => CandidateRole__HandleRequestVote fuel
    | (_, RLeader _) => LeaderRole__HandleRequestVote fuel
    end term candidateId lastLogEntryIndex lastLogEntryTerm).

Definition Raft__HandleInstallSnapshot (term : Z) (leaderId : string)
    (lastIncludedIndex lastIncludedTerm : Z) (data : bytes) : M Z :=
  if_enabled (λ t, t) (
    ax ← current_role;
    match ax with
    | (a, RFollower _) => FollowerRole__HandleInstallSnapshot a
    | (_, RCandidate _) => CandidateRole__HandleInstallSnapshot
    | (_, RLeader _) => LeaderRole__HandleInstallSnapshot
    end term leaderId lastIncludedIndex lastIncludedTerm data).

Definition Raft__Tick : M unit :=
  r ← gets (λ r, r);
  if negb (r_enabled r) || negb (r_healthy r) then mret tt
  else
    ax ← current_role;
    match ax with
    | (a, RFollower _) => FollowerRole__Tick a
    | (a, RCandidate _) => CandidateRole__Tick a
    | (a, RLeader _) => LeaderRole__Tick a
    end.

(** [Propose] in two halves: the mutex is free between them. *)
Definition Raft__ProposeWithSession_lookup : M (error + nat * Z) :=
  r ← gets (λ r, r);
  if negb (r_enabled r) || negb (r_healthy r) then mret (inl (ErrNew "node unavailable"))
  else ax ← current_role; mret (inr (ax.1, r_roleEpoch r)).

Definition RaftRole__HandlePropose (a : nat) (data : bytes) (clientId : string)
    (sequenceNumber epoch : Z) : M proposal :=
  x ← read_role a;
  match x with
  | RFollower _ => FollowerRole__HandlePropose data clientId sequenceNumber epoch
  | RCandidate _ => CandidateRole__HandlePropose data clientId sequenceNumber epoch
  | RLeader _ => LeaderRole__HandlePropose a data clientId sequenceNumber epoch
  end.

Definition Raft__ProposeWithSession (data : bytes) (clientId : string) (sequenceNumber : Z)
    : M proposal :=
  p ← Raft__ProposeWithSession_lookup;
  match p with
  | inl e => mret (ProposalDone AnyNil (Some e))
  | inr (role, epoch) => RaftRole__HandlePropose role data clientId sequenceNumber epoch
  end.

Definition Raft__Propose (data : bytes) : M proposal := Raft__ProposeWithSession data "" 0.

(** ** Switching a node off and on *)
Definition Raft__Disable : M unit :=
  enabled ← gets r_enabled;
  if negb enabled then mret tt
  else
    modify (set_r_enabled false);;
    ax ← current_role;
    RaftRole__OnExit ax.1;;
    SetLeaderId "".

Definition Raft__Enable : M unit :=
  enabled ← gets r_enabled;
  if (enabled : bool) then mret tt
  else
    currentTerm ← GetCurrentTerm;
    _ ← becomeFollower currentTerm;
    modify (set_r_enabled true).

Definition Raft__Shutdown : M unit :=
  modify (set_r_shutdown true);;
  enabled ← gets r_enabled;
  if negb enabled then mret tt
  else
    modify (set_r_enabled false);;
    exit_current_role;;
    SetLeaderId "".

(** ** Snapshots: three phases, the middle one without the mutex *)
Definition TakeSnapshot_capture : M (option error + Snapshot) :=
  r ← gets (λ r, r);
  let applied := lastApplied (r_store r) in
  if applied <=? r_snapshotIndex r then mret (inl None)
  else if u64 (applied - r_snapshotIndex r) <? SnapshotThreshold (r_config r) then mret (inl None)
  else
    term ← (if applied =? r_snapshotIndex r then mret (inr (r_snapshotTerm r))
            else mret (match log_Read applied (r_log r) with
                       | inl e => inl e
                       | inr raw => match DeserializeLogEntry raw with
                                    | inl e => inl e
                                    | inr logEntry => inr (Term logEntry)
                                    end
                       end));
    match term with
    | inl e => mret (inl (Some e))
    | inr snapTerm =>
        data ← on_fsm fsm_Snapshot;
        match data with
        | inl e => mret (inl (Some e))
        | inr data => mret (inr (mkSnapshot applied snapTerm data))
        end
    end.

Definition TakeSnapshot_save (snapshot : Snapshot) : M (option error) :=
  path ← gets snapshotPath;
  on_files (SaveSnapshot path snapshot).

Definition TakeSnapshot_finish (snapshot : Snapshot) : M unit :=
  snapIndex ← gets r_snapshotIndex;
  when (snapIndex <? LastIncludedIndex snapshot)
    (modify (set_r_snapshotIndex (LastIncludedIndex snapshot));;
     modify (set_r_snapshotTerm (LastIncludedTerm snapshot));;
     last ← gets (λ r, log_GetLastIndex (r_log r));
     when (LastIncludedIndex snapshot <? last.1)
       (_ ← on_log (log_TruncateTo (LastIncludedIndex snapshot)); mret tt)).

Definition Raft__TakeSnapshot : M (option error) :=
  c ← TakeSnapshot_capture;
  match c with
  | inl err => mret err
  | inr snapshot =>
      err ← TakeSnapshot_save snapshot;
      match err with
      | Some e => mret (Some e)
      | None => TakeSnapshot_finish snapshot;; mret None
      end
  end.

(** ** Remote calls

    What [internal/transport.go] returns when a call fails in any way: the term
    of the request, and no success. *)
Definition AppendEntries_failed (term : Z) : AppendReply := mkAppendReply term false 0 0.
Definition PreVote_failed (term : Z) : Z * bool := (term, false).
Definition RequestVote_failed (term : Z) : Z * bool := (term, false).
Definition InstallSnapshot_failed (term : Z) : Z := term.

(** The goroutines from the return of their remote call on, each with its
    deferred [recover]. *)
Definition sendPreVote_done (a : nat) (node : string) (term : Z) (res : Z * bool) : M unit :=
  recovering (CandidateRole__sendPreVote_reply a node term res.1 res.2) (mret tt).

Definition sendRequestVote_done (a : nat) (node : string) (term : Z) (res : Z * bool) : M unit :=
  recovering (CandidateRole__sendRequestVote_reply a node term res.1 res.2) (mret tt).

Definition sendAppendEntries_done (a : nat) (node : string) (term prevLogEntryIndex : Z)
    (logEntries : list LogEntry) (res : AppendReply) : M unit :=
  recovering (LeaderRole__sendAppendEntriesToNode_reply a node term prevLogEntryIndex logEntries res)
    (set_inflight a node false).

Definition sendInstallSnapshot_done (a : nat) (node : string) (snapshot : Snapshot) (t : Z) : M unit :=
  recovering (LeaderRole__sendInstallSnapshotToNode_reply a node snapshot t)
    (set_inflight a node false).
End raft.
