(* ===== verification/Demo.v ===== *)
(** * Concrete nodes

    A state machine that records what it applies and three nodes on it, for the
    concrete runs of the other files. *)
From S2P Require Import Prelude GoMonad FileSystem LogEntry Store Snapshot Session Config GoLog Log Fsm Node Roles Follower Leader Candidate Raft.
Local Open Scope Z_scope.

(** Applying appends to a list; a snapshot is the concatenation. *)
#[export] Instance RecordingFSM : FSM (list bytes) := {|
  fsm_Apply data := modify (λ s, s ++ [data]);; mret (AnyBytes data);
  fsm_Snapshot := s ← gets (λ s, s); mret (inr (concat s));
  fsm_Restore data := modify (λ _, [data]);; mret None
|}.

Definition DemoRaft : Type := Raft MemLog (list bytes).

Definition demo_files : Fs := mkFs ∅ ∅ (λ _, IoOk) 0.
Definition demo_nodes : list string := ["n1"; "n2"; "n3"]%string.

Definition boot (id : string) (nodes : list string) (fs : Fs) (log : MemLog) : DemoRaft :=
  (NewRaft id "d" nodes log (mkStore 0 0 0 "" "d/store.data" "") fs [] DefaultConfig
     (λ _, 0) 0).2.

Definition n1 : DemoRaft := boot "n1" demo_nodes demo_files (mkMemLog 0 [] [] []).
Definition n2 : DemoRaft := boot "n2" demo_nodes demo_files (mkMemLog 0 [] [] []).

Fixpoint iterate {A} (n : nat) (f : A → A) (x : A) : A :=
  match n with O => x | S n => iterate n f (f x) end.

(** Twelve ticks are the shortest election timeout. *)
Definition n1_prevote : DemoRaft := iterate 12 (λ r, (Raft__Tick r).2) n1.
Definition n1_candidate : DemoRaft := (sendPreVote_done 1 "n2" 0 (0, true) n1_prevote).2.
Definition n1_leader : DemoRaft := (sendRequestVote_done 1 "n2" 1 (1, true) n1_candidate).2.

(** Every file operation of the node fails from now on. *)
Definition broken_disk (r : DemoRaft) : DemoRaft :=
  set_r_fs (mkFs (fs_cur (r_fs r)) (fs_dur (r_fs r)) (λ _, IoFail ErrIO 0) (fs_clock (r_fs r))) r.

(** The leader object at an address. *)
Definition leader_at (a : nat) (r : DemoRaft) : LeaderRole :=
  match r_roles r !! a with
  | Some (RLeader l) => l
  | _ => mkLeaderRole false false 0 0 ∅ ∅ 0 ∅ ∅ ∅
  end.
