(* ===== verification/Frame.v ===== *)
(** * What the node's code leaves alone

    Most of the code of a node touches neither the persisted term and vote, nor
    the votes counted on a candidate object, nor which role is current; most of
    that code leaves the log and the snapshot's index alone too and sends no
    entries.  A [Calm] relation on nodes allows the changes the second kind of
    code makes short of starting a goroutine, a [Quiet] one those that carry no
    entries too, a [Frame] the changes of the first kind as well; the lemmas show once,
    function by function, that the code moves along every such relation ([moves],
    GoMonad.v).  A property of the whole node is then proved by showing that its
    relation is of one of the classes and by looking at the few functions left. *)
From S2P Require Import Prelude GoMonad FileSystem LogEntry Store Snapshot Session Config GoLog Log Fsm Node Roles Follower Leader Candidate Raft.
Local Open Scope Z_scope.

Section frames.
Context {L F : Type} `{GoLog L} `{FSM F}.
Abbreviation M := (RaftM L F).
Abbreviation node := (Raft L F).

(** Equal but for the fields no frame looks at. *)
Record same_core (s s' : node) : Prop := {
  core_config : r_config s' = r_config s;
  core_dataDir : r_dataDir s' = r_dataDir s;
  core_id : r_id s' = r_id s;
  core_nodes : r_nodes s' = r_nodes s;
  core_role : r_role s' = r_role s;
  core_store : r_store s' = r_store s;
  core_fs : r_fs s' = r_fs s;
  core_roles : r_roles s' = r_roles s;
  core_tasks : r_tasks s' = r_tasks s;
  core_next : r_next s' = r_next s
}.

Definition other_files_kept (path : string) (fs fs' : Fs) : Prop :=
  ∀ n, n ≠ path → n ≠ tmp_of path → fs_cur fs' !! n = fs_cur fs !! n.

Definition is_request_vote (t : Task) : bool :=
  match t with GoSendRequestVote _ _ _ _ _ _ => true | _ => false end.

(** The goroutines that carry no entries and ask for no vote. *)
Definition is_quiet_task (t : Task) : bool :=
  match t with GoSendPreVote _ _ _ _ _ _ | GoApplier _ => true | _ => false end.

(** Equal but for the fields neither class looks at. *)
Record same_view (s s' : node) : Prop := {
  same_view_core : same_core s s';
  same_view_log : r_log s' = r_log s;
  same_view_index : r_snapshotIndex s' = r_snapshotIndex s;
  same_view_term : r_snapshotTerm s' = r_snapshotTerm s
}.

Class Calm (R : relation node) := {
  quiet_preorder :: PreOrder R;
  quiet_inert s s' : same_view s s' → R s s';
  quiet_leaderId s l : R s (set_r_store (set_leaderId l (r_store s)) s);
  quiet_applied s i : R s (set_r_store (set_lastApplied i (r_store s)) s);
  quiet_commit s i : commitIndex (r_store s) <= i →
    R s (set_r_store (set_commitIndex i (r_store s)) s);
  quiet_files s fs' : other_files_kept (snapshotPath s) (r_fs s) fs' → R s (set_r_fs fs' s);
  quiet_follower s a f f' : r_roles s !! a = Some (RFollower f) →
    R s (set_r_roles (<[a := RFollower f']> (r_roles s)) s);
  quiet_leader s a l l' : r_roles s !! a = Some (RLeader l) →
    R s (set_r_roles (<[a := RLeader l']> (r_roles s)) s);
  quiet_alloc s : R s (set_r_next (S (r_next s)) s)
}.

Class Quiet (R : relation node) := {
  quiet_is_calm :: Calm R;
  quiet_spawn s t : is_quiet_task t = true →
    R s (set_r_next (S (r_next s)) (set_r_tasks (<[r_next s := t]> (r_tasks s)) s))
}.

Class Frame (R : relation node) := {
  frame_preorder :: PreOrder R;
  frame_inert s s' : same_core s s' → R s s';
  frame_leaderId s l : R s (set_r_store (set_leaderId l (r_store s)) s);
  frame_applied s i : R s (set_r_store (set_lastApplied i (r_store s)) s);
  frame_commit s i : commitIndex (r_store s) <= i →
    R s (set_r_store (set_commitIndex i (r_store s)) s);
  frame_files s fs' : other_files_kept (snapshotPath s) (r_fs s) fs' → R s (set_r_fs fs' s);
  frame_follower s a f f' : r_roles s !! a = Some (RFollower f) →
    R s (set_r_roles (<[a := RFollower f']> (r_roles s)) s);
  frame_leader s a l l' : r_roles s !! a = Some (RLeader l) →
    R s (set_r_roles (<[a := RLeader l']> (r_roles s)) s);
  frame_alloc s : R s (set_r_next (S (r_next s)) s);
  frame_spawn s t : is_request_vote t = false →
    R s (set_r_next (S (r_next s)) (set_r_tasks (<[r_next s := t]> (r_tasks s)) s))
}.

#[global] Instance frame_is_quiet R : Frame R → Quiet R.
Proof.
  intros HR. split.
  { split; [apply _|intros; apply frame_inert; by apply same_view_core|apply frame_leaderId
    |apply frame_applied|apply frame_commit|apply frame_files|apply frame_follower|apply frame_leader
    |apply frame_alloc]. }
  intros s t Ht. apply frame_spawn. by destruct t.
Qed.

Section quiet.
Context (R : relation node) `{!Calm R}.

Lemma quiet_modify_inert f : (∀ s, same_view s (f s)) → moves R (modify f).
Proof. intros Hf. apply moves_modify. intros s. by apply quiet_inert. Qed.

Lemma frame_on_fsm {A} (m : GoM F A) : moves R (on_fsm m).
Proof. intros s. unfold on_fsm, zoom. destruct (m (r_fsm s)). by apply quiet_inert. Qed.

Lemma frame_get_store {A} (f : Store → A) : moves R (on_store (gets (λ p, f p.1))).
Proof. intros s. by apply quiet_inert. Qed.

Lemma frame_GetCurrentTerm : moves R GetCurrentTerm.
Proof. apply frame_get_store. Qed.

Lemma frame_GetLeaderId : moves R Raft__GetLeaderId.
Proof. apply frame_get_store. Qed.

Lemma frame_GetVotedFor : moves R (on_store Store__GetVotedFor).
Proof. apply frame_get_store. Qed.

Lemma frame_SetLeaderId l : moves R (SetLeaderId l).
Proof.
  intros s. etrans; [apply (quiet_leaderId s l)|]. by apply quiet_inert.
Qed.

Lemma frame_set_applied i : moves R (set_applied i).
Proof. apply moves_modify. intros s. apply quiet_applied. Qed.

Lemma frame_setCommitIndex i : moves R (setCommitIndex i).
Proof.
  intros s. unfold setCommitIndex. rewrite bind_run. cbn [gets].
  destruct (log_GetLastIndex (r_log s)) as [last err]. destruct (_ || _); [reflexivity|].
  set (j := if last <? i then last else i). rewrite bind_run. cbn [gets].
  destruct (Z.leb_spec j (commitIndex (r_store s))); [reflexivity|].
  apply quiet_commit. lia.
Qed.

Lemma frame_raise_to i : moves R (raise_to i).
Proof.
  intros s. unfold raise_to. rewrite bind_run. cbn [gets].
  destruct (Z.ltb_spec (commitIndex (r_store s)) i).
  - cbn [when]. etrans; [apply (quiet_commit s i); lia|].
    set (s1 := set_r_store _ s). change (R s1 ((a ← gets (λ r, lastApplied (r_store r));
      when (a <? i) (set_applied i)) s1).2).
    apply moves_bind; [apply _|apply moves_gets; apply _|intros a].
    apply moves_when; [apply _|apply frame_set_applied].
  - cbn [when]. change (R s ((a ← gets (λ r, lastApplied (r_store r));
      when (a <? i) (set_applied i)) s).2).
    apply moves_bind; [apply _|apply moves_gets; apply _|intros a].
    apply moves_when; [apply _|apply frame_set_applied].
Qed.

#[local] Hint Resolve frame_on_fsm frame_GetCurrentTerm frame_GetLeaderId frame_GetVotedFor
  frame_SetLeaderId frame_set_applied frame_setCommitIndex frame_raise_to : moves.

(** A field neither class looks at is assigned. *)

Ltac inert := apply quiet_modify_inert; intros ?; by split.

#[local] Hint Extern 5 (moves _ (modify _)) => inert : moves.

#[local] Hint Extern 1 (is_quiet_task _ = true) => reflexivity : moves.

(** ** Role objects and channels *)

Lemma frame_read_role a : moves R (read_role a).
Proof. unfold read_role. moves_auto. Qed.

#[local] Hint Resolve frame_read_role : moves.

Lemma frame_read_follower a : moves R (read_follower a).
Proof. unfold read_follower. moves_auto. Qed.

Lemma frame_read_candidate a : moves R (read_candidate a).
Proof. unfold read_candidate. moves_auto. Qed.

Lemma frame_read_leader a : moves R (read_leader a).
Proof. unfold read_leader. moves_auto. Qed.

Lemma frame_role_type : moves R role_type.
Proof. unfold role_type. moves_auto. Qed.

#[local] Hint Resolve frame_read_follower frame_read_candidate frame_read_leader frame_role_type : moves.

Lemma frame_random_deadline : moves R random_deadline.
Proof. unfold random_deadline, rng_IntN. moves_auto. Qed.

#[local] Hint Resolve frame_random_deadline : moves.

Lemma frame_update_leader a f : moves R (update_leader a f).
Proof.
  intros s. unfold update_leader, read_leader, read_role. rewrite !bind_run. cbn [gets].
  destruct (r_roles s !! a) as [[]|] eqn:E; try reflexivity. by eapply quiet_leader.
Qed.

Lemma frame_stopApplier a : moves R (LeaderRole__stopApplier a).
Proof.
  intros s. unfold LeaderRole__stopApplier, read_leader, read_role. rewrite !bind_run. cbn [gets].
  destruct (r_roles s !! a) as [[]|] eqn:E; try reflexivity. cbn.
  destruct (l_applierStopCh l); [reflexivity|]. by eapply quiet_leader.
Qed.

Lemma frame_write_follower a f f' s :
  r_roles s !! a = Some (RFollower f) → R s (write_role a (RFollower f') s).2.
Proof. intros Ha. by eapply quiet_follower. Qed.

Lemma frame_make_chan : moves R make_chan.
Proof.
  apply moves_bind; [apply _|apply moves_gets; apply _|intros a].
  apply moves_bind; [apply _| |intros _; apply moves_ret; apply _].
  apply moves_modify. intros s. etrans; [apply (quiet_alloc s)|]. by apply quiet_inert.
Qed.

Lemma frame_close_chan a : moves R (close_chan a).
Proof. unfold close_chan. moves_auto. Qed.

Lemma frame_send_chan a v : moves R (send_chan a v).
Proof. unfold send_chan. moves_auto. Qed.

#[local] Hint Resolve frame_update_leader frame_stopApplier frame_make_chan
  frame_close_chan frame_send_chan : moves.

Lemma frame_OnExit a : moves R (RaftRole__OnExit a).
Proof. unfold RaftRole__OnExit, LeaderRole__OnExit. moves_auto. Qed.

#[local] Hint Resolve frame_OnExit : moves.

Lemma frame_exit_current_role : moves R exit_current_role.
Proof. unfold exit_current_role. moves_auto. Qed.

#[local] Hint Resolve frame_exit_current_role : moves.

Lemma frame_markUnhealthy : moves R markUnhealthy.
Proof. unfold markUnhealthy. moves_auto. Qed.

#[local] Hint Resolve frame_markUnhealthy : moves.

(** ** Files *)

Lemma frame_on_files {A} (m : GoM Fs A) s :
  other_files_kept (snapshotPath s) (r_fs s) (m (r_fs s)).2 → R s (on_files m s).2.
Proof.
  unfold on_files, zoom. destruct (m (r_fs s)) as [x fs]. apply quiet_files.
Qed.

Lemma SaveSnapshot_keeps path sn fs : other_files_kept path fs (SaveSnapshot path sn fs).2.
Proof.
  pose proof (wp_SaveSnapshot path sn fs) as Hw. unfold go_wp, save_post in Hw.
  destruct (SaveSnapshot path sn fs) as [[[e|]| |] fs']; simpl in *; intros n Hn Ht.
  - apply Hw, Ht.
  - destruct Hw as (_ & Hw & _). by apply Hw.
  - by destruct Hw.
  - by destruct Hw.
Qed.

Lemma LoadSnapshot_keeps path fs : other_files_kept path fs (LoadSnapshot path fs).2.
Proof.
  set (Q := λ fs fs' : Fs, fs_cur fs' = fs_cur fs).
  assert (PreOrder Q) as HQ by (split; [by intros ?|intros x y z; unfold Q; congruence]).
  assert (moves Q syscall) as Hsys by (by intros ?).
  assert (∀ n l, moves Q (io_ReadFull n l)) as Hread.
  { intros n l. unfold io_ReadFull. moves_auto. }
  assert (moves Q (sys_unit Datatypes.id)) as Hunit.
  { unfold sys_unit. moves_auto. }
  assert (moves Q (LoadSnapshot path)) as Hm.
  { unfold LoadSnapshot, loadSnapshotV1, loadSnapshotV2, os_Open. moves_auto. }
  intros n _ _. by rewrite (Hm fs).
Qed.

(** ** The follower's code up to the changes of term *)

Lemma frame_apply_loop n i j : moves R (apply_loop n i j).
Proof.
  revert i. induction n as [|n IH]; intros i; cbn [apply_loop]; unfold apply_entry; moves_auto.
Qed.

#[local] Hint Resolve frame_apply_loop : moves.

Lemma frame_applyToFSM : moves R FollowerRole__applyToFiniteStateMachine.
Proof. unfold FollowerRole__applyToFiniteStateMachine. moves_auto. Qed.

Lemma frame_resetElectionTimer a : moves R (resetElectionTimer a).
Proof.
  apply moves_bind; [apply _|auto with moves|]. intros d s.
  unfold read_follower, read_role. rewrite !bind_run. cbn [gets].
  destruct (r_roles s !! a) as [[]|] eqn:E; try reflexivity. by eapply frame_write_follower.
Qed.

Lemma frame_isLogEqualOrMoreRecent i t : moves R (isLogEqualOrMoreRecent i t).
Proof. unfold isLogEqualOrMoreRecent, getLastLogEntryIndexAndTerm. moves_auto. Qed.

Lemma frame_getLast : moves R getLastLogEntryIndexAndTerm.
Proof. unfold getLastLogEntryIndexAndTerm. moves_auto. Qed.

#[local] Hint Resolve frame_applyToFSM frame_resetElectionTimer frame_isLogEqualOrMoreRecent frame_getLast : moves.

Lemma frame_HandlePreVote t c i j : moves R (Raft__HandlePreVote t c i j).
Proof.
  unfold Raft__HandlePreVote, if_enabled, current_role, FollowerRole__HandlePreVote,
    CandidateRole__HandlePreVote, LeaderRole__HandlePreVote. moves_auto.
Qed.

(** ** The leader's code up to the changes of term *)

Lemma frame_set_inflight a n b : moves R (set_inflight a n b).
Proof. apply frame_update_leader. Qed.

#[local] Hint Resolve frame_set_inflight : moves.

Lemma frame_tryToAdvance a : moves R (LeaderRole__tryToAdvanceCommitIndex a).
Proof. unfold LeaderRole__tryToAdvanceCommitIndex, triggerApplier. moves_auto. Qed.

#[local] Hint Resolve frame_tryToAdvance : moves.

Lemma frame_HandlePropose_cancel a i c : moves R (LeaderRole__HandlePropose_cancel a i c).
Proof. unfold LeaderRole__HandlePropose_cancel. moves_auto. Qed.

Lemma frame_leader_apply_loop a n i j : moves R (LeaderRole__apply_loop a n i j).
Proof.
  revert i. induction n as [|n IH]; intros i; cbn [LeaderRole__apply_loop];
    unfold apply_for_result, take_waiters, deliver_result; moves_auto.
Qed.

#[local] Hint Resolve frame_leader_apply_loop : moves.

Lemma frame_applier_round n b a : moves R (LeaderRole__applier_round n b a).
Proof.
  unfold LeaderRole__applier_round. assert (moves R (applier_drain n a)) as Hd.
  { induction n as [|n IH]; cbn [applier_drain];
      unfold LeaderRole__applyToFiniteStateMachine; moves_auto. }
  moves_auto.
Qed.

Lemma frame_applier n b a : moves R (LeaderRole__applier n b a).
Proof.
  intros s. unfold LeaderRole__applier. pose proof (frame_applier_round n b a s) as Hr.
  destruct (LeaderRole__applier_round n b a s) as [[x|msg|] s']; simpl in *; [done| |done].
  etrans; [exact Hr|]. assert (moves R (markUnhealthy;; mret true)) as Hm by moves_auto. apply Hm.
Qed.

Lemma frame_acknowledged a n i l : moves R (append_acknowledged a n i l).
Proof. unfold append_acknowledged, record_ack, raise_match, raise_next. moves_auto. Qed.

Lemma frame_rejected a n i t : moves R (append_rejected a n i t).
Proof. unfold append_rejected. moves_auto. Qed.

Lemma frame_sendInstall a n : moves R (LeaderRole__sendInstallSnapshotToNode a n).
Proof.
  intros s. unfold LeaderRole__sendInstallSnapshotToNode.
  apply (moves_at_gets R), (moves_at_bind R); [|intros ?; moves_auto].
  apply frame_on_files, LoadSnapshot_keeps.
Qed.

(** ** The node *)

Lemma frame_lookup : moves R Raft__ProposeWithSession_lookup.
Proof. unfold Raft__ProposeWithSession_lookup, current_role. moves_auto. Qed.

Lemma frame_Disable : moves R Raft__Disable.
Proof. unfold Raft__Disable, current_role. moves_auto. Qed.

Lemma frame_Shutdown : moves R Raft__Shutdown.
Proof. unfold Raft__Shutdown. moves_auto. Qed.

Lemma frame_TakeSnapshot_capture : moves R TakeSnapshot_capture.
Proof. unfold TakeSnapshot_capture. moves_auto. Qed.

Lemma frame_TakeSnapshot_save sn : moves R (TakeSnapshot_save sn).
Proof.
  intros s. apply (moves_at_gets R), frame_on_files, SaveSnapshot_keeps.
Qed.

#[local] Hint Resolve frame_TakeSnapshot_capture frame_TakeSnapshot_save : moves.

Lemma frame_replay : moves R NewRaft_replay.
Proof. unfold NewRaft_replay. moves_auto. Qed.
End quiet.

Lemma quiet_spawn_task (R : relation node) `{!Quiet R} t : is_quiet_task t = true → moves R (spawn t).
Proof. intros Ht. apply moves_modify. intros s. by apply quiet_spawn. Qed.

#[local] Hint Resolve frame_on_fsm frame_GetCurrentTerm frame_GetLeaderId
  frame_GetVotedFor frame_SetLeaderId frame_set_applied frame_setCommitIndex frame_raise_to
  frame_read_role frame_read_follower frame_read_candidate frame_read_leader frame_role_type
  frame_random_deadline frame_update_leader frame_stopApplier   quiet_spawn_task frame_make_chan frame_close_chan frame_send_chan frame_OnExit
  frame_exit_current_role frame_markUnhealthy frame_apply_loop frame_applyToFSM
  frame_resetElectionTimer frame_isLogEqualOrMoreRecent frame_getLast frame_HandlePreVote
  frame_set_inflight frame_tryToAdvance frame_HandlePropose_cancel frame_leader_apply_loop
  frame_applier_round frame_applier frame_acknowledged frame_rejected frame_sendInstall
  frame_lookup frame_Disable frame_Shutdown frame_TakeSnapshot_capture frame_TakeSnapshot_save
  frame_replay : moves.
#[local] Hint Extern 0 (Calm _) => typeclasses eauto : moves.
#[local] Hint Extern 0 (Quiet _) => typeclasses eauto : moves.
#[local] Hint Extern 1 (is_quiet_task _ = true) => reflexivity : moves.
#[local] Hint Extern 4 (moves _ (modify _)) =>
  apply quiet_modify_inert; [typeclasses eauto|intros ?; by split] : moves.

Section frame.
Context (R : relation node) `{!Frame R}.

Lemma frame_modify_inert f : (∀ s, same_core s (f s)) → moves R (modify f).
Proof. intros Hf. apply moves_modify. intros s. by apply frame_inert. Qed.
#[local] Hint Extern 6 (moves _ (modify _)) => apply frame_modify_inert; intros ?; by split : moves.
#[local] Hint Extern 1 (is_request_vote _ = false) => reflexivity : moves.

Lemma frame_on_log {A} (f : L → A * L) : moves R (on_log f).
Proof. intros s. unfold on_log. destruct (f (r_log s)). by apply frame_inert. Qed.
#[local] Hint Resolve frame_on_log : moves.

Lemma frame_spawn_task t : is_request_vote t = false → moves R (spawn t).
Proof. intros Ht. apply moves_modify. intros s. by apply frame_spawn. Qed.
#[local] Hint Resolve frame_spawn_task : moves.

Lemma frame_resetLog i : moves R (resetLog i).
Proof. unfold resetLog. moves_auto. Qed.
#[local] Hint Resolve frame_resetLog : moves.

Lemma frame_installSnapshot i t d : moves R (installSnapshot i t d).
Proof.
  intros s. unfold installSnapshot. apply (moves_at_gets R), (moves_at_bind R); [|intros ?].
  - apply (frame_on_files R), SaveSnapshot_keeps.
  - moves_auto.
Qed.
#[local] Hint Resolve frame_installSnapshot : moves.

Lemma frame_writeEntries l : moves R (writeEntries l).
Proof. induction l as [|e l IH]; cbn [writeEntries]; moves_auto. Qed.
#[local] Hint Resolve frame_writeEntries : moves.

Lemma frame_appendEntries i l : moves R (FollowerRole__appendEntries i l).
Proof.
  unfold FollowerRole__appendEntries. generalize (u64 (i + 1)) as j.
  induction l as [|e l IH]; intros j; cbn [appendEntries_from]; unfold write_and_commit; moves_auto.
Qed.
#[local] Hint Resolve frame_appendEntries : moves.

Lemma frame_sendToAll a : moves R (LeaderRole__sendAppendEntriesToAllNodes a).
Proof. unfold LeaderRole__sendAppendEntriesToAllNodes, replication_task. moves_auto. Qed.
#[local] Hint Resolve frame_sendToAll : moves.

Lemma frame_retry a n t : moves R (LeaderRole__retrySendAppendEntriesToNode a n t).
Proof. unfold LeaderRole__retrySendAppendEntriesToNode, replication_task. moves_auto. Qed.
#[local] Hint Resolve frame_retry : moves.

Lemma frame_HandlePropose a d c n e : moves R (RaftRole__HandlePropose a d c n e).
Proof.
  unfold RaftRole__HandlePropose, FollowerRole__HandlePropose, CandidateRole__HandlePropose,
    LeaderRole__HandlePropose. moves_auto.
Qed.
#[local] Hint Resolve frame_HandlePropose : moves.

Lemma frame_TakeSnapshot_finish sn : moves R (TakeSnapshot_finish sn).
Proof. unfold TakeSnapshot_finish. moves_auto. Qed.
#[local] Hint Resolve frame_TakeSnapshot_finish : moves.

Lemma frame_TakeSnapshot : moves R Raft__TakeSnapshot.
Proof. unfold Raft__TakeSnapshot. moves_auto. Qed.
#[local] Hint Resolve frame_TakeSnapshot : moves.

Lemma frame_restore : moves R NewRaft_restore.
Proof.
  intros s. unfold NewRaft_restore. apply (moves_at_gets R), (moves_at_bind R); [|intros ?; moves_auto].
  apply (frame_on_files R), LoadSnapshot_keeps.
Qed.
#[local] Hint Resolve frame_restore : moves.

End frame.
End frames.

(** A coarser preorder than a calm relation is calm. *)
Lemma calm_coarser {L F : Type} (R Q : relation (Raft L F)) :
  Calm R → PreOrder Q → (∀ s s', R s s' → Q s s') → Calm Q.
Proof.
  intros HR HQ Hsub. split; [done|..]; intros; apply Hsub.
  - by apply quiet_inert.
  - apply quiet_leaderId.
  - apply quiet_applied.
  - by apply quiet_commit.
  - by apply quiet_files.
  - by eapply quiet_follower.
  - by eapply quiet_leader.
  - apply quiet_alloc.
Qed.

(** A coarser preorder than a quiet relation is quiet. *)
Lemma quiet_coarser {L F : Type} (R Q : relation (Raft L F)) :
  Quiet R → PreOrder Q → (∀ s s', R s s' → Q s s') → Quiet Q.
Proof.
  intros HR HQ Hsub. split; [by eapply calm_coarser; [apply HR|..]|].
  intros s t Ht. by apply Hsub, quiet_spawn.
Qed.

(** A coarser preorder than a frame is a frame. *)
Lemma frame_coarser {L F : Type} (R Q : relation (Raft L F)) :
  Frame R → PreOrder Q → (∀ s s', R s s' → Q s s') → Frame Q.
Proof.
  intros HR HQ Hsub. split; [done|..]; intros; apply Hsub.
  - by apply frame_inert.
  - apply frame_leaderId.
  - apply frame_applied.
  - by apply frame_commit.
  - by apply frame_files.
  - by eapply frame_follower.
  - by eapply frame_leader.
  - apply frame_alloc.
  - by apply frame_spawn.
Qed.

#[export] Hint Resolve frame_on_fsm frame_GetCurrentTerm frame_GetLeaderId
  frame_GetVotedFor frame_SetLeaderId frame_set_applied frame_setCommitIndex frame_raise_to
  frame_read_role frame_read_follower frame_read_candidate frame_read_leader frame_role_type
  frame_random_deadline frame_update_leader frame_stopApplier   quiet_spawn_task frame_make_chan frame_close_chan frame_send_chan frame_OnExit
  frame_exit_current_role frame_markUnhealthy frame_apply_loop frame_applyToFSM
  frame_resetElectionTimer frame_isLogEqualOrMoreRecent frame_getLast frame_HandlePreVote
  frame_set_inflight frame_tryToAdvance frame_HandlePropose_cancel frame_leader_apply_loop
  frame_applier_round frame_applier frame_acknowledged frame_rejected frame_sendInstall
  frame_lookup frame_Disable frame_Shutdown frame_TakeSnapshot_capture frame_TakeSnapshot_save
  frame_replay : moves.
#[export] Hint Extern 0 (Calm _) => typeclasses eauto : moves.
#[export] Hint Extern 0 (Quiet _) => typeclasses eauto : moves.
#[export] Hint Extern 1 (is_quiet_task _ = true) => reflexivity : moves.
#[export] Hint Extern 4 (moves _ (modify _)) =>
  apply quiet_modify_inert; [typeclasses eauto|intros ?; by split] : moves.
#[export] Hint Extern 0 (Frame _) => typeclasses eauto : moves.
#[export] Hint Extern 1 (is_request_vote _ = false) => reflexivity : moves.
#[export] Hint Extern 5 (moves _ (modify _)) =>
  apply frame_modify_inert; [typeclasses eauto|intros ?; by split] : moves.
#[export] Hint Resolve frame_on_log frame_spawn_task frame_resetLog frame_installSnapshot
  frame_writeEntries frame_appendEntries frame_sendToAll frame_retry frame_HandlePropose
  frame_TakeSnapshot_finish frame_TakeSnapshot frame_restore : moves.
