(* ===== verification/Election.v ===== *)
(** * Elections on one node

    The invariant that ties what a node persisted and what it counted to the
    votes cast in the cluster, and the proof that every piece of the node's code
    keeps it.  [V] is the record of all votes: [V !! (T, v) = Some c] when node
    [v] voted for [c] in term [T].  [E] describes the node's own campaigns: for a
    candidate object, the term of its election and the voters it has counted. *)
From S2P Require Import Prelude GoMonad FileSystem LogEntry Store Snapshot Session Config GoLog Log Fsm Node Roles Follower Leader Candidate Raft Frame.
Local Open Scope Z_scope.

Abbreviation votes := (gmap (Z * string) string).
Abbreviation campaigns := (gmap nat (Z * gset string)).

(** A majority of the nodes voted for [c] in term [T]. *)
Definition elected (V : votes) (nodes : list string) (T : Z) (c : string) : Prop :=
  ∃ C : gset string, C ⊆ list_to_set nodes
    ∧ Z.of_nat (length nodes) < 2 * Z.of_nat (size C)
    ∧ ∀ v, v ∈ C → V !! (T, v) = Some c.

(** A name that can be voted for: not the empty string, which means no vote, and
    short enough for the store to read it back. *)
Definition short (v : string) : Prop := Z.of_nat (length (string_bytes v)) <= 10485760.
Definition name_ok (v : string) : Prop := v ≠ ""%string ∧ short v.

(** What the static configuration must be. *)
Definition nodes_ok (id : string) (nodes : list string) : Prop :=
  name_ok id ∧ id ∈ nodes ∧ NoDup nodes ∧ Z.of_nat (length nodes) < 4611686018427387904.

(** Votes are only added, and only this node's own. *)
Definition own_votes_grow (id : string) (V V' : votes) : Prop :=
  V ⊆ V' ∧ ∀ T v, v ≠ id → V' !! (T, v) = V !! (T, v).

Abbreviation anything := (λ _ : votes, True).

Section election.
Context {L F : Type}.
Abbreviation node := (Raft L F).

Definition term_of (s : node) : Z := currentTerm (r_store s).
Definition vote_of (s : node) : string := votedFor (r_store s).
Definition store_path (s : node) : string := r_dataDir s +:+ "/store.data".

Definition store_on_disk (s : node) : option bytes :=
  f_data <$> fs_cur (r_fs s) !! store_path s.

Definition disk_agrees (s : node) : Prop :=
  match store_on_disk s with
  | Some b => b = store_encode (term_of s) (vote_of s)
  | None => term_of s = 0 ∧ vote_of s = ""%string
  end.

(** The node's role is the leader's. *)
Definition leads (s : node) : Prop :=
  ∃ a l, r_role s = Some a ∧ r_roles s !! a = Some (RLeader l).

(** One candidate object: its electorate, and its count. *)
Definition campaign_ok (E : campaigns) (s : node) (a : nat) (c : CandidateRole) : Prop :=
  c_majority c = majority_of (r_nodes s) ∧ c_nodes c = r_nodes s
  ∧ match E !! a with
    | Some (_, C) => c_preVote c = false ∧ 0 <= c_votes c <= Z.of_nat (size C)
    | None => c_votes c = 0
    end.

(** A pending vote request: of a known campaign, from a node not counted. *)
Definition request_ok (E : campaigns) (s : node) (a : nat) (v : string) (T : Z) (id : string) : Prop :=
  id = r_id s ∧ v ∈ r_nodes s ∧ v ≠ r_id s ∧ ∃ C, E !! a = Some (T, C) ∧ v ∉ C.

Record elect_inv (V : votes) (E : campaigns) (s : node) : Prop := {
  ei_static : nodes_ok (r_id s) (r_nodes s);
  ei_name : st_name (r_store s) = store_path s;
  ei_disk : disk_agrees s;
  ei_term : is_u64 (term_of s);
  ei_vote : short (vote_of s);
  ei_own T c : V !! (T, r_id s) = Some c →
    c ≠ ""%string ∧ (T < term_of s ∨ (T = term_of s ∧ vote_of s = c));
  ei_campaign a T C : E !! a = Some (T, C) →
    (a < r_next s)%nat ∧ r_id s ∈ C ∧ C ⊆ list_to_set (r_nodes s)
    ∧ ∀ v, v ∈ C → V !! (T, v) = Some (r_id s);
  ei_candidate a c : r_roles s !! a = Some (RCandidate c) → campaign_ok E s a c;
  ei_role a : r_role s = Some a → is_Some (r_roles s !! a);
  ei_heap a : is_Some (r_roles s !! a) → (a < r_next s)%nat;
  ei_tasks k : is_Some (r_tasks s !! k) → (k < r_next s)%nat;
  ei_request k a v T id i t :
    r_tasks s !! k = Some (GoSendRequestVote a v T id i t) → request_ok E s a v T id;
  ei_request_once k k' a v T T' id id' i i' t t' :
    r_tasks s !! k = Some (GoSendRequestVote a v T id i t) →
    r_tasks s !! k' = Some (GoSendRequestVote a v T' id' i' t') → k = k';
  ei_leader : leads s → elected V (r_nodes s) (term_of s) (r_id s)
}.

(** The changes that cannot matter to the invariant. *)
Record view_kept (s s' : node) : Prop := {
  vk_id : r_id s' = r_id s;
  vk_nodes : r_nodes s' = r_nodes s;
  vk_dataDir : r_dataDir s' = r_dataDir s;
  vk_name : st_name (r_store s') = st_name (r_store s);
  vk_disk : store_on_disk s' = store_on_disk s;
  vk_term : term_of s' = term_of s;
  vk_vote : vote_of s' = vote_of s;
  vk_next : (r_next s <= r_next s')%nat;
  vk_candidate a c : r_roles s' !! a = Some (RCandidate c) → r_roles s !! a = Some (RCandidate c);
  vk_role : r_role s' = r_role s;
  vk_objects a : is_Some (r_roles s !! a) → is_Some (r_roles s' !! a);
  vk_heap a : is_Some (r_roles s' !! a) → is_Some (r_roles s !! a) ∨ (a < r_next s')%nat;
  vk_tasks k t : r_tasks s' !! k = Some t →
    r_tasks s !! k = Some t ∨ ((k < r_next s')%nat ∧ is_request_vote t = false);
  vk_leads : leads s' → leads s
}.

#[export] Instance view_kept_preorder : PreOrder view_kept.
Proof.
  split.
  - intros s. split; try done; auto.
  - intros s1 s2 s3 Ha Hb.
    split; try (by etrans; [apply Hb|apply Ha]); intros.
    + pose proof (vk_next _ _ Ha). pose proof (vk_next _ _ Hb). lia.
    + by apply Ha, Hb.
    + by apply Hb, Ha.
    + apply Hb in H as [H|H]; [|auto]. apply Ha in H as [H|H]; [auto|].
      pose proof (vk_next _ _ Hb). right. lia.
    + apply Hb in H as [H|H]; [|auto]. apply Ha in H as [H|[? ?]]; [auto|].
      pose proof (vk_next _ _ Hb). right. split; [lia|done].
    + by apply Ha, Hb.
Qed.

Lemma elect_inv_view V E s s' : view_kept s s' → elect_inv V E s → elect_inv V E s'.
Proof.
  intros K I. destruct I as [I1 I2 I3 I4 Iv I5 I6 I7 Ir I8 I9 I10 I11 I12].
  pose proof (vk_next _ _ K) as Hn.
  assert (∀ k a v T id i t, r_tasks s' !! k = Some (GoSendRequestVote a v T id i t) →
            r_tasks s !! k = Some (GoSendRequestVote a v T id i t)) as Hreq.
  { intros k a v T id i t Hk. by apply K in Hk as [Hk|[_ Hk]]. }
  split; rewrite ?(vk_id _ _ K), ?(vk_nodes _ _ K), ?(vk_term _ _ K), ?(vk_vote _ _ K); auto.
  - rewrite (vk_name _ _ K), I2. unfold store_path. by rewrite (vk_dataDir _ _ K).
  - unfold disk_agrees. by rewrite (vk_disk _ _ K), (vk_term _ _ K), (vk_vote _ _ K).
  - intros a T C HE. destruct (I6 a T C HE) as (? & ?). split; [lia|done].
  - intros a c Hc%K. unfold campaign_ok. rewrite (vk_nodes _ _ K). by apply I7.
  - intros a. rewrite (vk_role _ _ K). intros Ha. by apply K, Ir.
  - intros a Ha. apply K in Ha as [Ha|Ha]; [|done]. apply I8 in Ha. lia.
  - intros k [t Hk]. apply K in Hk as [Hk|[Hk _]]; [|done].
    assert (k < r_next s)%nat by (apply I9; eauto). lia.
  - intros k a v T id i t Hk%Hreq. unfold request_ok. rewrite (vk_nodes _ _ K), (vk_id _ _ K).
    by eapply I10.
  - intros k k' a v T T' id id' i i' t t' Hk%Hreq Hk'%Hreq. eauto.
  - intros Hl%K. auto.
Qed.

(** ** Frames *)
Lemma leads_set_role_object (s : node) a x y :
  r_roles s !! a = Some x → (∀ l, y = RLeader l → ∃ l', x = RLeader l') →
  leads (set_r_roles (<[a := y]> (r_roles s)) s) → leads s.
Proof.
  intros Ha Hxy (b & l & Hb & Hl). simpl in *. destruct (decide (a = b)) as [<-|Hne].
  - rewrite lookup_insert_eq in Hl. injection Hl as Hy. destruct (Hxy l Hy) as [l' ->].
    by exists a, l'.
  - rewrite lookup_insert_ne in Hl by done. by exists b, l.
Qed.

(** Overwriting an object that is not a candidate. *)
Lemma view_kept_object (s : node) a x y :
  r_roles s !! a = Some x → (∀ c, y ≠ RCandidate c) →
  (∀ l, y = RLeader l → ∃ l', x = RLeader l') →
  view_kept s (set_r_roles (<[a := y]> (r_roles s)) s).
Proof.
  intros Ha Hy Hl. split; try done; simpl; auto.
  - intros b c. destruct (decide (a = b)) as [<-|Hne].
    + rewrite lookup_insert_eq. intros [= ->]. by destruct (Hy c).
    + by rewrite lookup_insert_ne.
  - intros b Hb. rewrite lookup_insert_is_Some. destruct (decide (a = b)); auto.
  - intros b. destruct (decide (a = b)) as [<-|Hne].
    + rewrite Ha. eauto.
    + rewrite lookup_insert_ne by done. auto.
  - by eapply leads_set_role_object.
Qed.

Lemma store_path_ne_snapshot (s : node) :
  store_path s ≠ snapshotPath s ∧ store_path s ≠ tmp_of (snapshotPath s).
Proof.
  unfold store_path, snapshotPath, tmp_of. split.
  - by intros ?%(inj (String.append _)).
  - rewrite <- (assoc_L String.append). by intros ?%(inj (String.append _)).
Qed.

#[export] Instance view_kept_frame : Frame view_kept.
Proof.
  split; [apply _|..]; intros; try (split; try done; simpl; auto; fail).
  - destruct H as [Hc Hd Hi Hn Hr Hs Hf Ho Ht Hx]. split; unfold store_on_disk, store_path, term_of, vote_of, leads;
      rewrite ?Hd, ?Hi, ?Hn, ?Hs, ?Hf, ?Hr, ?Ho, ?Ht, ?Hx; auto.
  - split; try done; simpl; auto. unfold store_on_disk, store_path. simpl.
    destruct (store_path_ne_snapshot s). by rewrite H.
  - eapply view_kept_object; [done|done|]. by intros ?.
  - eapply view_kept_object; [done|done|]. intros ? [= ->]. eauto.
  - split; try done; simpl; auto. intros k u. destruct (decide (r_next s = k)) as [<-|Hne].
    + rewrite lookup_insert_eq. intros [= <-]. right. split; [lia|done].
    + rewrite lookup_insert_ne by done. auto.
Qed.

(** ** How the code moves

    The pair (term, vote) only goes up: a higher term, or the same term with
    the vote kept or cast for the first time. *)
Definition vote_le (s s' : node) : Prop :=
  term_of s < term_of s'
  ∨ (term_of s = term_of s' ∧ (vote_of s = ""%string ∨ vote_of s' = vote_of s)).

#[export] Instance vote_le_preorder : PreOrder vote_le.
Proof.
  split; [intros s; right; auto|]. unfold vote_le.
  intros s1 s2 s3 [?|[? Hv]] [?|[? Hw]]; try (left; lia). right. split; [lia|].
  destruct Hv as [Hv|Hv], Hw as [Hw|Hw]; auto; [left|right]; congruence.
Qed.

(** Ending in a good state, from given votes: [P] is what is known of the votes
    then. *)
Definition elect_to (V : votes) (s s' : node) (P : votes → Prop) : Prop :=
  r_id s' = r_id s ∧ r_nodes s' = r_nodes s ∧ r_dataDir s' = r_dataDir s ∧ vote_le s s'
  ∧ ∃ V' E', elect_inv V' E' s' ∧ own_votes_grow (r_id s) V V' ∧ P V'.

Definition elect_moves (s s' : node) : Prop :=
  ∀ V E, elect_inv V E s → elect_to V s s' anything.

Lemma own_votes_grow_refl id V : own_votes_grow id V V.
Proof. by split. Qed.

(** Compose: a step with known votes, then the rest. *)
Lemma elect_to_step V V1 (s s1 s2 : node) P :
  r_id s1 = r_id s → r_nodes s1 = r_nodes s → r_dataDir s1 = r_dataDir s → vote_le s s1 →
  own_votes_grow (r_id s) V V1 → elect_to V1 s1 s2 P → elect_to V s s2 P.
Proof.
  intros H1 H2 H3 Hv [G1 G2] (A1 & A2 & A3 & A4 & V' & E' & A5 & [A6 A7] & A8).
  split_and!; try congruence; [by etrans|]. exists V', E'. split_and!; try done. split; [by etrans|].
  intros T v Hne. rewrite A7 by congruence. by apply G2.
Qed.

Lemma view_vote_le s s' : view_kept s s' → vote_le s s'.
Proof. intros K. right. rewrite (vk_term _ _ K), (vk_vote _ _ K). auto. Qed.

Lemma elect_to_view V (s s1 s2 : node) P : view_kept s s1 → elect_to V s1 s2 P → elect_to V s s2 P.
Proof.
  intros K. apply elect_to_step; try apply K; [by apply view_vote_le|apply own_votes_grow_refl].
Qed.

Lemma elect_to_refl (V : votes) (E : campaigns) (s : node) (P : votes → Prop) : elect_inv V E s → P V → elect_to V s s P.
Proof.
  intros I HP. split_and!; try done. exists V, E. split_and!; try done.
Qed.

Lemma elect_to_moves V s s1 s2 : elect_to V s s1 anything → elect_moves s1 s2 → elect_to V s s2 anything.
Proof.
  intros (A1 & A2 & A3 & A4 & V' & E' & A5 & A6 & _) Hm. by eapply elect_to_step; eauto.
Qed.

#[export] Instance elect_moves_preorder : PreOrder elect_moves.
Proof.
  split.
  - intros s V E I. by eapply elect_to_refl.
  - intros s1 s2 s3 Ha Hb V E I. eapply elect_to_moves; [by eapply Ha|done].
Qed.

Lemma view_kept_moves s s' : view_kept s s' → elect_moves s s'.
Proof.
  intros K V E I. eapply elect_to_view; [done|]. eapply elect_to_refl; [|done].
  by eapply elect_inv_view.
Qed.

#[export] Instance elect_moves_frame : Frame elect_moves.
Proof. eapply frame_coarser; [apply view_kept_frame|apply _|apply view_kept_moves]. Qed.

(** ** Writing the store *)
Definition stored (s : node) (st : Store) (fs : Fs) : node := set_r_fs fs (set_r_store st s).

Lemma on_store_run {A} (m : StoreM A) s r st fs :
  m (r_store s, r_fs s) = (r, (st, fs)) → on_store m s = (r, stored s st fs).
Proof. intros Hm. unfold on_store, zoom. by rewrite Hm. Qed.

(** A failed write changes nothing that counts. *)
Lemma store_failed_view s t v e st fs :
  st_name (r_store s) = store_path s →
  store_updated (r_store s) (r_fs s) t v (Some e) st fs → view_kept s (stored s st fs).
Proof.
  intros Hn [-> [_ Hf]]. rewrite Hn in Hf. split; try done; simpl; auto.
  unfold store_on_disk, store_path in *. simpl. rewrite Hf; [done|]. apply not_eq_sym, tmp_ne.
Qed.

Section written.
Context (V : votes) (E : campaigns) (s : node) (t : Z) (v : string) (st : Store) (fs : Fs).
Context (I : elect_inv V E s).
Context (Hup : store_updated (r_store s) (r_fs s) t v None st fs).
Let s' := stored s st fs.

Lemma written_term : term_of s' = t ∧ vote_of s' = v ∧ st_name (r_store s') = store_path s'.
Proof. destruct Hup as [Hst _]. unfold s', stored, term_of, vote_of. simpl. rewrite Hst.
  split_and!; try done. simpl. by rewrite (ei_name _ _ _ I). Qed.

Lemma written_disk : disk_agrees s'.
Proof.
  destruct written_term as (Ht & Hv & _). destruct Hup as [_ [Hf _]].
  rewrite (ei_name _ _ _ I) in Hf. unfold disk_agrees, store_on_disk.
  change (store_path s') with (store_path s). cbn [s' stored r_fs set_r_fs]. rewrite Hf.
  simpl. by rewrite Ht, Hv.
Qed.

(** A higher term, with any vote, for a node that does not lead. *)
Lemma raised_inv : term_of s < t → is_u64 t → short v → ¬ leads s → elect_inv V E s'.
Proof.
  intros Hlt Hu Hsh Hl. destruct written_term as (Ht & Hv & Hn).
  destruct I as [I1 I2 I3 I4 Iv I5 I6 I7 Ir I8 I9 I10 I11 I12].
  split; rewrite ?Ht, ?Hv; auto using written_disk.
  - intros T c Hc. destruct (I5 T c Hc) as [? [?|[? _]]]; split; try done; left; lia.
  - intros Hl'. by destruct (Hl Hl').
Qed.

(** A vote in the current term. *)
Lemma voted_inv :
  t = term_of s → name_ok v →
  (∀ c, V !! (term_of s, r_id s) = Some c → c = v) →
  elect_inv (<[(t, r_id s) := v]> V) E s' ∧ own_votes_grow (r_id s) V (<[(t, r_id s) := v]> V).
Proof.
  intros Heq [Hne Hsh] Hc. destruct written_term as (Ht & Hv & Hn). rewrite <- Heq in Hc.
  assert (V ⊆ <[(t, r_id s) := v]> V) as Hsub.
  { apply map_subseteq_spec. intros k c Hk. destruct (decide (k = (t, r_id s))) as [-> |Hk'].
    - rewrite lookup_insert_eq. by rewrite (Hc c Hk).
    - by rewrite lookup_insert_ne. }
  split; [|split; [done|]].
  2:{ intros T w Hw. rewrite lookup_insert_ne; [done|]. congruence. }
  destruct I as [I1 I2 I3 I4 Iv I5 I6 I7 Ir I8 I9 I10 I11 I12].
  split; rewrite ?Ht, ?Hv; auto using written_disk.
  - by rewrite Heq.
  - intros T c HT. change (r_id s') with (r_id s) in HT.
    destruct (decide (T = t)) as [-> |HneT].
    + rewrite lookup_insert_eq in HT. injection HT as <-. auto.
    + rewrite lookup_insert_ne in HT by congruence.
      destruct (I5 T c HT) as [? [?|[? _]]]; (split; [done|left; lia]).
  - intros a T C HE. destruct (I6 a T C HE) as (? & ? & ? & HC). split_and!; try done.
    intros w Hw. eapply lookup_weaken; [by apply HC|done].
  - intros Hl. destruct (I12 Hl) as (C & ? & ? & HC). exists C. split_and!; try done.
    intros w Hw. rewrite Heq. eapply lookup_weaken; [by apply HC|]. by rewrite <- Heq.
Qed.
End written.

(** ** Allocating a role object and entering it *)
Definition with_object (s : node) (x : RaftRole) : node :=
  set_r_next (S (r_next s)) (set_r_roles (<[r_next s := x]> (r_roles s)) s).

Definition fresh_object (s : node) (x : RaftRole) : Prop :=
  match x with
  | RCandidate c => c_majority c = majority_of (r_nodes s) ∧ c_nodes c = r_nodes s ∧ c_votes c = 0
  | _ => True
  end.

Lemma alloc_inv V E s x :
  elect_inv V E s → fresh_object s x → elect_inv V E (with_object s x).
Proof.
  intros I Hx. pose proof I as [I1 I2 I3 I4 Iv I5 I6 I7 Ir I8 I9 I10 I11 I12].
  split; simpl; auto.
  - intros a T C HE. destruct (I6 a T C HE). split; [lia|done].
  - intros a c. destruct (decide (r_next s = a)) as [<-|Hne].
    + rewrite lookup_insert_eq. intros [= ->]. simpl in Hx. unfold campaign_ok. simpl.
      destruct (E !! r_next s) as [[T C]|] eqn:HE; [|tauto].
      destruct (I6 _ _ _ HE). lia.
    + rewrite lookup_insert_ne by done. apply I7.
  - intros a Ha. rewrite lookup_insert_is_Some. destruct (decide (r_next s = a)); auto.
  - intros a. destruct (decide (r_next s = a)) as [<-|Hne]; [lia|].
    rewrite lookup_insert_ne by done. intros Ha%I8. lia.
  - intros k Hk%I9. lia.
  - intros (a & l & Ha & Hl). simpl in *. assert (a < r_next s)%nat by (apply I8; auto).
    rewrite lookup_insert_ne in Hl by lia. apply I12. by exists a, l.
Qed.

Lemma set_role_inv V E s a x :
  elect_inv V E s → r_roles s !! a = Some x →
  (∀ l, x = RLeader l → elected V (r_nodes s) (term_of s) (r_id s)) →
  elect_inv V E (set_r_role (Some a) s).
Proof.
  intros I Ha Hl. destruct I as [I1 I2 I3 I4 Iv I5 I6 I7 Ir I8 I9 I10 I11 I12].
  split; simpl; auto.
  - intros b [= <-]. eauto.
  - intros (b & l & [= <-] & Hb). simpl in *. apply (Hl l). congruence.
Qed.

(** The state [enter_role] leaves when [s] is where the object is made. *)
Definition entered (s : node) (x : RaftRole) : node :=
  set_r_role (Some (r_next s)) (with_object s x).

Lemma entered_inv V E s x :
  elect_inv V E s → fresh_object s x →
  (∀ l, x = RLeader l → elected V (r_nodes s) (term_of s) (r_id s)) →
  elect_inv V E (entered s x).
Proof.
  intros I Hx Hl. eapply set_role_inv; [by apply alloc_inv|simpl; apply lookup_insert_eq|done].
Qed.

Lemma entered_not_leads s x : (∀ l, x ≠ RLeader l) → ¬ leads (entered s x).
Proof.
  intros Hx (a & l & [= <-] & Hl). simpl in Hl. rewrite lookup_insert_eq in Hl.
  injection Hl as ->. by apply (Hx l).
Qed.
End election.
