(* ===== verification/Campaign.v ===== *)
(** * The code keeps the election invariant

    Function by function: what a node does when it becomes a follower, starts a
    campaign, counts a vote, takes office, casts a vote or starts from disk, and
    that each ends in a state of the invariant of Election.v. *)
From S2P Require Import Prelude GoMonad FileSystem LogEntry Store Snapshot Session Config GoLog Log Fsm Node Roles Follower Leader Candidate Raft Frame Election.
Local Open Scope Z_scope.

(** ** Running the code *)
Section run.
Context {L F : Type} `{GoLog L} `{FSM F}.
Abbreviation node := (Raft L F).

(** The constructors differ in the object only. *)
Lemma enter_role_run (new : RaftM L F nat) (ok : node → RaftRole → Prop) s :
  (∀ s, ∃ s1, view_kept s s1 ∧
     (new s = (Panic "invalid argument to IntN", s1)
      ∨ ∃ x, ok s1 x ∧ new s = (Ret (r_next s1), with_object s1 x))) →
  ∃ s1, view_kept s s1 ∧
    (enter_role new s = (Panic "invalid argument to IntN", s1)
     ∨ ∃ x, ok s1 x ∧ enter_role new s = (Ret (r_next s1), entered s1 x)).
Proof.
  intros Hnew. unfold enter_role. rewrite bind_run. cbn [modify].
  set (s0 := set_r_roleEpoch _ s). assert (view_kept s s0) as K0 by (by apply frame_inert).
  destruct (Hnew s0) as (s1 & K & [Hn|(x & Hx & Hn)]); exists s1; (split; [by etrans|]).
  - left. by rewrite bind_run, Hn.
  - right. exists x. split; [done|]. by rewrite bind_run, Hn.
Qed.

Lemma random_deadline_run (s : node) : ∃ s1, view_kept s s1 ∧ same_core s s1 ∧
  (random_deadline s = (Panic "invalid argument to IntN", s1)
   ∨ ∃ d, random_deadline s = (Ret d, s1)).
Proof.
  unfold random_deadline, rng_IntN. rewrite bind_run. cbn [gets].
  destruct (_ <=? 0).
  - exists s. split; [reflexivity|]. split; [by split|]. by left.
  - set (s1 := set_r_rng (λ k, r_rng s (S k)) s). exists s1.
    assert (same_core s s1) as Hs by (by split). split; [by apply frame_inert|].
    split; [done|]. right. eexists. reflexivity.
Qed.

Lemma NewFollowerRole_run (s : node) : ∃ s1, view_kept s s1 ∧
  (NewFollowerRole s = (Panic "invalid argument to IntN", s1)
   ∨ ∃ x, (∃ f, x = RFollower f) ∧ NewFollowerRole s = (Ret (r_next s1), with_object s1 x)).
Proof.
  destruct (random_deadline_run s) as (s1 & K & _ & [Hd|[d Hd]]); exists s1; (split; [done|]).
  - left. unfold NewFollowerRole. by rewrite bind_run, Hd.
  - right. eexists. split; [eauto|]. unfold NewFollowerRole. by rewrite bind_run, Hd.
Qed.

Lemma NewCandidateRole_run (s : node) : ∃ s1, view_kept s s1 ∧
  (NewCandidateRole s = (Panic "invalid argument to IntN", s1)
   ∨ ∃ x, (∃ c, x = RCandidate c ∧ fresh_object s1 x ∧ c_preVote c = true)
          ∧ NewCandidateRole s = (Ret (r_next s1), with_object s1 x)).
Proof.
  destruct (random_deadline_run s) as (s1 & K & _ & [Hd|[d Hd]]); exists s1; (split; [done|]).
  - left. unfold NewCandidateRole. by rewrite bind_run, Hd.
  - right. eexists. split; cycle 1.
    + unfold NewCandidateRole. rewrite bind_run, Hd. reflexivity.
    + eexists. split; [reflexivity|]. by split_and!.
Qed.

Lemma NewLeaderRole_run (s : node) : ∃ s1, view_kept s s1 ∧
  (NewLeaderRole s = (Panic "invalid argument to IntN", s1)
   ∨ ∃ x, (∃ l, x = RLeader l) ∧ NewLeaderRole s = (Ret (r_next s1), with_object s1 x)).
Proof.
  exists s. split; [reflexivity|]. right. eexists. split; [eauto|]. reflexivity.
Qed.

Lemma GetCurrentTerm_run (s : node) :
  GetCurrentTerm s = (Ret (term_of s), s).
Proof. by destruct s. Qed.

(** The two store calls that raise the term, as one step of the node. *)
Lemma raise_term_step (m : StoreM (option error)) t v (s : node) :
  (∃ err st fs, m (r_store s, r_fs s) = (Ret err, (st, fs))
                ∧ store_updated (r_store s) (r_fs s) t v err st fs) →
  term_of s < t → is_u64 t → short v → ¬ leads s →
  ∃ err s', on_store m s = (Ret err, s') ∧ elect_moves s s'
    ∧ (r_roles s' = r_roles s ∧ r_role s' = r_role s)
    ∧ (err = None → term_of s' = t ∧ ∀ V E, elect_inv V E s → elect_inv V E s').
Proof.
  intros (err & st & fs & Hrun & Hup) Hlt Hu Hsh Hl. exists err, (stored s st fs).
  split; [by apply on_store_run|]. destruct err as [e|].
  - split; [|by split]. intros V E I. eapply view_kept_moves; [|done].
    by eapply store_failed_view; [apply I|].
  - assert (∀ V E, elect_inv V E s → elect_inv V E (stored s st fs)) as Hinv.
    { intros V E I. by eapply raised_inv. }
    destruct Hup as [Hst Hf]. assert (term_of (stored s st fs) = t) as Ht.
    { unfold term_of. simpl. by rewrite Hst. }
    split; [|by split_and!]. intros V E I.
    split_and!; try done; [left; by rewrite Ht|]. exists V, E. auto using own_votes_grow_refl.
Qed.

Lemma follower_OnEnter_moves t (s : node) :
  is_u64 t → ¬ leads s → elect_moves s (FollowerRole__OnEnter t s).2.
Proof.
  intros Hu Hl. unfold FollowerRole__OnEnter. rewrite bind_run, GetCurrentTerm_run.
  destruct (Z.ltb_spec (term_of s) t) as [Hlt|Hge].
  - destruct (raise_term_step (Store__SetCurrentTermAndVotedFor t "") t "" s)
      as (err & s1 & Hrun & Hm & _); [apply SetCurrentTermAndVotedFor_run|done..|].
    rewrite bind_run, Hrun. etrans; [exact Hm|].
    destruct err; [apply frame_markUnhealthy|apply frame_SetLeaderId]; apply _.
  - apply frame_SetLeaderId. apply _.
Qed.

Lemma becomeFollower_moves t : is_u64 t → moves elect_moves (becomeFollower t : RaftM L F nat).
Proof.
  intros Hu s. unfold becomeFollower. apply (rwp_bind_moves elect_moves _ _ _ (λ _ _, True)).
  { auto with moves. }
  intros _ s0. destruct (enter_role_run NewFollowerRole (λ _ x, ∃ f, x = RFollower f) s0)
    as (s1 & K & [He|(x & [f ->] & He)]); [apply NewFollowerRole_run|..].
  - split; rewrite bind_run, He; [by apply view_kept_moves|done].
  - assert (elect_moves s0 (entered s1 (RFollower f))) as Hm.
    { intros V E I. eapply elect_to_view; [exact K|]. split_and!; try done; [right; auto|].
      exists V, E. split_and!; auto using own_votes_grow_refl.
      apply entered_inv; [by eapply elect_inv_view|done|done]. }
    split; rewrite bind_run, He.
    + etrans; [exact Hm|]. eapply (moves_at_bind elect_moves); [|intros; apply moves_ret; apply _].
      apply follower_OnEnter_moves; [done|]. by apply entered_not_leads.
    + done.
Qed.
#[local] Hint Resolve becomeFollower_moves : moves.

Lemma follower_HandleAppendEntries_moves n a t l i j es c : is_u64 t →
  moves elect_moves (FollowerRole__HandleAppendEntries n a t l i j es c : RaftM L F _).
Proof.
  intros Hu. revert a. induction n as [|n IH]; intros a; cbn [FollowerRole__HandleAppendEntries];
    moves_auto.
Qed.
#[local] Hint Resolve follower_HandleAppendEntries_moves : moves.

Lemma HandleAppendEntries_moves n t l i j es c : is_u64 t →
  moves elect_moves (Raft__HandleAppendEntries n t l i j es c : RaftM L F _).
Proof.
  intros Hu. unfold Raft__HandleAppendEntries, if_enabled, current_role,
    CandidateRole__HandleAppendEntries, LeaderRole__HandleAppendEntries. moves_auto.
Qed.

(** [HandleInstallSnapshot] raises the term of a follower without a change of
    role. *)
Lemma follower_HandleInstallSnapshot_moves a t l i j d (s : node) : is_u64 t → ¬ leads s →
  elect_moves s (FollowerRole__HandleInstallSnapshot a t l i j d s).2.
Proof.
  intros Hu Hl. unfold FollowerRole__HandleInstallSnapshot. rewrite bind_run, GetCurrentTerm_run.
  destruct (t <? term_of s); [reflexivity|].
  assert (∀ err : option error, moves elect_moves (match err with
    | Some _ => markUnhealthy;; mret (term_of s)
    | None => resetElectionTimer a;; SetLeaderId l;; snapIndex ← gets r_snapshotIndex;
        if i <=? snapIndex then mret (term_of s)
        else _ ← installSnapshot i j d; mret (term_of s)
    end : RaftM L F Z)) as Hrest by (intros []; moves_auto).
  destruct (Z.ltb_spec (term_of s) t) as [Hlt|Hge].
  - destruct (raise_term_step (Store__SetCurrentTermAndVotedFor t "") t "" s)
      as (err & s1 & Hrun & Hm & _); [apply SetCurrentTermAndVotedFor_run|done..|].
    rewrite bind_run, Hrun. etrans; [exact Hm|]. apply Hrest.
  - rewrite bind_run. apply (Hrest None).
Qed.

Lemma becomeFollower_not_leads t (s : node) : is_u64 t →
  rwp elect_moves (becomeFollower t) s (λ _ s', ¬ leads s').
Proof.
  intros Hu. split; [by apply becomeFollower_moves|]. intros a Ha.
  unfold becomeFollower in *. rewrite bind_run in *.
  destruct (exit_current_role s) as [[[]| |] s0]; [|done|done].
  destruct (enter_role_run NewFollowerRole (λ _ x, ∃ f, x = RFollower f) s0)
    as (s1 & K & [He|(x & [f ->] & He)]); [apply NewFollowerRole_run|..];
    rewrite bind_run, He in *; [done|].
  set (s2 := entered s1 (RFollower f)) in *.
  assert (¬ leads s2) as Hl by (by apply entered_not_leads).
  intros Hl'. apply Hl. clear -Hl'. rewrite bind_run in Hl'.
  assert (leads (FollowerRole__OnEnter t s2).2) as Hl''.
  { by destruct (FollowerRole__OnEnter t s2) as [[| |] ?]. }
  clear Hl'. revert Hl''. unfold FollowerRole__OnEnter. rewrite bind_run, GetCurrentTerm_run.
  destruct (term_of s2 <? t); [|apply (vk_leads _ _ (frame_SetLeaderId view_kept "" s2))].
  destruct (SetCurrentTermAndVotedFor_run t "" (r_store s2) (r_fs s2)) as (err & st & fs & Hr & _).
  rewrite bind_run, (on_store_run _ _ _ _ _ Hr). set (s3 := stored s2 st fs).
  change (leads s2) with (leads s3). destruct err.
  - apply (vk_leads _ _ (frame_markUnhealthy view_kept s3)).
  - apply (vk_leads _ _ (frame_SetLeaderId view_kept "" s3)).
Qed.

Lemma not_leads_follower (s : node) a f :
  r_role s = Some a → r_roles s !! a = Some (RFollower f) → ¬ leads s.
Proof. intros Hr Ha (b & l & Hb & Hl). congruence. Qed.

Lemma HandleInstallSnapshot_moves t l i j d : is_u64 t →
  moves elect_moves (Raft__HandleInstallSnapshot t l i j d : RaftM L F _).
Proof.
  intros Hu s. unfold Raft__HandleInstallSnapshot, if_enabled. rewrite bind_run. cbn [gets].
  destruct (r_enabled s); cbn [negb].
  2:{ rewrite bind_run, GetCurrentTerm_run. reflexivity. }
  unfold current_role, read_role. rewrite !bind_run. cbn [gets].
  destruct (r_role s) as [a|] eqn:Ha; [|reflexivity]. rewrite !bind_run. cbn [gets].
  assert (elect_moves s ((followerRole ← becomeFollower t;
      FollowerRole__HandleInstallSnapshot followerRole t l i j d) s).2) as Hbf.
  { apply (rwp_bind elect_moves _ _ _ _ (λ _ _, True) (becomeFollower_not_leads t s Hu)).
    intros b s' Hl. split; [by apply follower_HandleInstallSnapshot_moves|done]. }
  destruct (r_roles s !! a) as [[f|c|k]|] eqn:Ho; [| | |reflexivity]; cbn.
  - apply follower_HandleInstallSnapshot_moves; [done|]. by eapply not_leads_follower.
  - unfold CandidateRole__HandleInstallSnapshot. rewrite bind_run, GetCurrentTerm_run.
    destruct (_ <? _); [reflexivity|exact Hbf].
  - unfold LeaderRole__HandleInstallSnapshot. rewrite bind_run, GetCurrentTerm_run.
    destruct (_ <=? _); [reflexivity|exact Hbf].
Qed.

(** ** The leader *)
Lemma leader_OnEnter_moves a t : is_u64 t →
  moves elect_moves (LeaderRole__OnEnter a t : RaftM L F _).
Proof. intros Hu. unfold LeaderRole__OnEnter. moves_auto. Qed.

Lemma becomeLeader_to V E t (s : node) :
  elect_inv V E s → term_of s = t → elected V (r_nodes s) t (r_id s) →
  elect_to V s (becomeLeader t s).2 anything.
Proof.
  intros I Ht Hel. unfold becomeLeader. rewrite bind_run.
  pose proof (frame_exit_current_role view_kept s) as K0.
  destruct (exit_current_role s) as [[[]| |] s0]; simpl in K0;
    [|by eapply view_kept_moves..].
  destruct (enter_role_run NewLeaderRole (λ _ x, ∃ l, x = RLeader l) s0)
    as (s1 & K & [He|(x & [l ->] & He)]); [apply NewLeaderRole_run|..];
    rewrite bind_run, He; (assert (view_kept s s1) as K1 by (by etrans)).
  { by eapply view_kept_moves. }
  assert (elect_inv V E (entered s1 (RLeader l))) as I1.
  { apply entered_inv; [by eapply elect_inv_view|done|]. intros _ _.
    by rewrite (vk_nodes _ _ K1), (vk_term _ _ K1), (vk_id _ _ K1), Ht. }
  eapply elect_to_view; [exact K1|]. eapply elect_to_step; try reflexivity;
    [apply own_votes_grow_refl|].
  apply (moves_at_bind elect_moves _ _ _ (leader_OnEnter_moves (r_next s1) t
    ltac:(rewrite <- Ht; apply I) (entered s1 (RLeader l)))) with (E := E); [|done].
  intros. apply moves_ret. apply _.
Qed.

Lemma leader_Tick_moves a : moves elect_moves (LeaderRole__Tick a : RaftM L F _).
Proof.
  unfold LeaderRole__Tick. assert (moves elect_moves (step_down : RaftM L F unit)) as Hs;
    [|moves_auto].
  intros s. unfold step_down. rewrite bind_run, GetCurrentTerm_run. intros V E I.
  apply (moves_at_bind elect_moves _ _ _ (becomeFollower_moves (term_of s) (ei_term _ _ _ I) s))
    with (E := E); [|done]. intros. apply moves_ret. apply _.
Qed.

Lemma sendAppendEntries_done_moves a n t i es r : is_u64 (ar_term r) →
  moves elect_moves (sendAppendEntries_done a n t i es r : RaftM L F _).
Proof.
  intros Hu. unfold sendAppendEntries_done, LeaderRole__sendAppendEntriesToNode_reply. moves_auto.
Qed.

Lemma sendInstallSnapshot_done_moves a n sn t : is_u64 t →
  moves elect_moves (sendInstallSnapshot_done a n sn t : RaftM L F _).
Proof.
  intros Hu. unfold sendInstallSnapshot_done, LeaderRole__sendInstallSnapshotToNode_reply,
    record_ack, raise_match, raise_next. moves_auto.
Qed.

Lemma Enable_moves : moves elect_moves (Raft__Enable : RaftM L F _).
Proof.
  intros s. unfold Raft__Enable. rewrite bind_run. cbn [gets].
  destruct (r_enabled s); [reflexivity|]. rewrite bind_run, GetCurrentTerm_run. intros V E I.
  apply (moves_at_bind elect_moves _ _ _ (becomeFollower_moves (term_of s) (ei_term _ _ _ I) s))
    with (E := E); [|done]. intros. auto with moves.
Qed.
End run.

(** ** Campaigns *)
Section campaign.
Context {L F : Type}.
Abbreviation node := (Raft L F).

Definition with_candidate (s : node) (a : nat) (c : CandidateRole) : node :=
  set_r_roles (<[a := RCandidate c]> (r_roles s)) s.

Lemma update_candidate_run (s : node) a c f :
  r_roles s !! a = Some (RCandidate c) →
  update_candidate a f s = (Ret tt, with_candidate s a (f c)).
Proof.
  intros Ha. unfold update_candidate, read_candidate, read_role. rewrite !bind_run. cbn [gets].
  by rewrite Ha.
Qed.

Lemma read_candidate_run (s : node) a c :
  r_roles s !! a = Some (RCandidate c) → read_candidate a s = (Ret c, s).
Proof.
  intros Ha. unfold read_candidate, read_role. rewrite !bind_run. cbn [gets]. by rewrite Ha.
Qed.

Lemma with_candidate_inv V E (s : node) a c c' :
  elect_inv V E s → r_roles s !! a = Some (RCandidate c) → campaign_ok E s a c' →
  elect_inv V E (with_candidate s a c').
Proof.
  intros I Ha Hc. destruct I as [I1 I2 I3 I4 Iv I5 I6 I7 Ir I8 I9 I10 I11 I12].
  split; simpl; auto.
  - intros b d. destruct (decide (a = b)) as [<-|Hne].
    + rewrite lookup_insert_eq. by intros [= <-].
    + rewrite lookup_insert_ne by done. apply I7.
  - intros b Hb. rewrite lookup_insert_is_Some. destruct (decide (a = b)); auto.
  - intros b Hb. apply lookup_insert_is_Some' in Hb as [<-|Hb]; eauto.
  - intros (b & l & Hb & Hl). simpl in *. destruct (decide (a = b)) as [<-|Hne].
    + by rewrite lookup_insert_eq in Hl.
    + rewrite lookup_insert_ne in Hl by done. apply I12. by exists b, l.
Qed.

(** Fields of the object that the invariant does not read. *)
Lemma with_candidate_same V E (s : node) a c c' :
  elect_inv V E s → r_roles s !! a = Some (RCandidate c) →
  c_majority c' = c_majority c → c_nodes c' = c_nodes c → c_votes c' = c_votes c →
  c_preVote c' = c_preVote c ∨ c_preVote c' = false →
  elect_inv V E (with_candidate s a c').
Proof.
  intros I Ha H1 H2 H3 H4. eapply with_candidate_inv; [done..|].
  destruct (ei_candidate _ _ _ I a c Ha) as (A1 & A2 & A3).
  split_and!; [congruence..|]. rewrite H3. destruct (E !! a) as [[T C]|]; [|done].
  destruct A3 as [A3 ?]. split; [|done]. destruct H4; congruence.
Qed.

Lemma campaign_start V E (s : node) a c T :
  elect_inv V E s → r_roles s !! a = Some (RCandidate c) → E !! a = None →
  c_preVote c = false → V !! (T, r_id s) = Some (r_id s) →
  elect_inv V (<[a := (T, {[r_id s]})]> E) s.
Proof.
  intros I Ha HE Hp HV. pose proof (ei_candidate _ _ _ I a c Ha) as (Q1 & Q2 & Q3).
  rewrite HE in Q3. destruct I as [I1 I2 I3 I4 Iv I5 I6 I7 Ir I8 I9 I10 I11 I12].
  split; auto.
  - intros b T' C. destruct (decide (a = b)) as [<-|Hne].
    + rewrite lookup_insert_eq. intros [= <- <-]. split_and!;
        [eauto|by apply elem_of_singleton| |by intros v ->%elem_of_singleton].
      destruct I1 as (_ & ? & _). intros v ->%elem_of_singleton. by apply elem_of_list_to_set.
    + rewrite lookup_insert_ne by done. apply I6.
  - intros b d Hb. unfold campaign_ok. destruct (decide (a = b)) as [<-|Hne].
    + rewrite lookup_insert_eq. assert (d = c) as -> by congruence.
      rewrite size_singleton. split_and!; try done; lia.
    + rewrite lookup_insert_ne by done. by apply I7.
  - intros k b v T' id i t Hk. destruct (I10 _ _ _ _ _ _ _ Hk) as (? & ? & ? & C & HC & ?).
    split_and!; try done. exists C. rewrite lookup_insert_ne; [done|congruence].
Qed.

Lemma size_electorate (C : gset string) (nodes : list string) :
  C ⊆ list_to_set nodes → (size C <= length nodes)%nat.
Proof.
  intros Hs. etrans; [by apply subseteq_size|]. clear. induction nodes as [|n l IH].
  - by rewrite list_to_set_nil, size_empty.
  - rewrite list_to_set_cons, size_union_alt, size_singleton. simpl.
    assert (size (list_to_set l ∖ {[n]} : gset string) <= size (list_to_set l : gset string))%nat
      by (apply subseteq_size, subseteq_difference_l; done). lia.
Qed.

Lemma size_add (C : gset string) v : v ∉ C → size ({[v]} ∪ C) = S (size C).
Proof. intros Hv. rewrite size_union, size_singleton; [done|]. by apply disjoint_singleton_l. Qed.

(** One more voter is counted. *)
Lemma campaign_count V E (s : node) a c T C v :
  elect_inv V E s → r_roles s !! a = Some (RCandidate c) → E !! a = Some (T, C) →
  v ∈ r_nodes s → v ∉ C → V !! (T, v) = Some (r_id s) →
  (∀ k T' id i t, r_tasks s !! k ≠ Some (GoSendRequestVote a v T' id i t)) →
  elect_inv V (<[a := (T, {[v]} ∪ C)]> E)
    (with_candidate s a (set_c_votes (i64 (c_votes c + 1)) c)).
Proof.
  intros I Ha HE Hv HvC HV Hno. pose proof (ei_candidate _ _ _ I a c Ha) as (Q1 & Q2 & Q3).
  pose proof (ei_campaign _ _ _ I a T C HE) as (C1 & C2 & C3 & C4).
  assert (elect_inv V (<[a := (T, {[v]} ∪ C)]> E) s) as I'.
  { destruct I as [I1 I2 I3 I4 Iv I5 I6 I7 Ir I8 I9 I10 I11 I12]. split; auto.
    - intros b T' C'. destruct (decide (a = b)) as [<-|Hne].
      + rewrite lookup_insert_eq. intros [= <- <-]. split_and!;
          [done|by apply elem_of_union_r| |]; cycle 1.
        { intros w [->%elem_of_singleton|Hw]%elem_of_union; auto. }
        intros w [->%elem_of_singleton|Hw]%elem_of_union; [by apply elem_of_list_to_set|by apply C3].
      + rewrite lookup_insert_ne by done. apply I6.
    - intros b d Hb. unfold campaign_ok. destruct (decide (a = b)) as [<-|Hne].
      + rewrite lookup_insert_eq. assert (d = c) as -> by congruence. rewrite HE in Q3.
        rewrite size_add by done. split_and!; try done; [tauto|lia..].
      + rewrite lookup_insert_ne by done. by apply I7.
    - intros k b w T' id i t Hk. destruct (I10 _ _ _ _ _ _ _ Hk) as (? & ? & ? & C' & HC & ?).
      split_and!; try done. destruct (decide (a = b)) as [<-|Hne].
      + rewrite HE in HC. injection HC as <- <-. rewrite lookup_insert_eq. eexists. split; [done|].
        assert (w ≠ v) by (intros ->; by eapply Hno).
        by rewrite not_elem_of_union, not_elem_of_singleton.
      + rewrite lookup_insert_ne by done. eauto. }
  eapply with_candidate_inv; [done..|]. rewrite HE in Q3. unfold campaign_ok.
  rewrite lookup_insert_eq, size_add by done.
  pose proof (size_electorate C (r_nodes s) C3). destruct (ei_static _ _ _ I) as (_ & _ & _ & Hlen).
  simpl. rewrite i64_small by lia. split_and!; try done; [tauto|lia..].
Qed.

Lemma majority_elected V E (s : node) a c T C :
  elect_inv V E s → r_roles s !! a = Some (RCandidate c) → E !! a = Some (T, C) →
  c_majority c <= c_votes c → elected V (r_nodes s) T (r_id s).
Proof.
  intros I Ha HE Hm. destruct (ei_candidate _ _ _ I a c Ha) as (Q1 & Q2 & Q3).
  destruct (ei_campaign _ _ _ I a T C HE) as (C1 & C2 & C3 & C4). rewrite HE in Q3.
  destruct (ei_static _ _ _ I) as (_ & _ & _ & Hlen).
  exists C. split_and!; [done| |done]. rewrite Q1 in Hm. unfold majority_of in Hm.
  rewrite Z.quot_div_nonneg in Hm by lia.
  pose proof (Z.div_mod (Z.of_nat (length (r_nodes s))) 2). pose proof (Z.mod_pos_bound (Z.of_nat (length (r_nodes s))) 2).
  rewrite i64_small in Hm by lia. lia.
Qed.
End campaign.

(** ** Elections *)
Section elections.
Context {L F : Type} `{GoLog L} `{FSM F}.
Abbreviation node := (Raft L F).

Definition request_pending (s : node) (a : nat) (v : string) : Prop :=
  ∃ k T id i t, r_tasks s !! k = Some (GoSendRequestVote a v T id i t).

Lemma spawn_request_inv V E (s : node) a T C v i t :
  elect_inv V E s → E !! a = Some (T, C) → v ∈ r_nodes s → v ≠ r_id s → v ∉ C →
  ¬ request_pending s a v →
  ∃ s', spawn (GoSendRequestVote a v T (r_id s) i t) s = (Ret tt, s')
    ∧ elect_inv V E s' ∧ r_id s' = r_id s ∧ r_nodes s' = r_nodes s
    ∧ r_dataDir s' = r_dataDir s ∧ vote_le s s'
    ∧ ∀ w, request_pending s' a w → w = v ∨ request_pending s a w.
Proof.
  intros I HE Hv Hne HvC Hno. eexists. split; [reflexivity|].
  assert (r_tasks s !! r_next s = None) as Hfree.
  { apply eq_None_not_Some. intros Hs%(ei_tasks _ _ _ I). lia. }
  split; [|split_and!; try done].
  2:{ right. auto. }
  2:{ intros w (k & T' & id & i' & t' & Hk). simpl in Hk. destruct (decide (r_next s = k)) as [<-|Hk'].
      - rewrite lookup_insert_eq in Hk. injection Hk as <-. auto.
      - rewrite lookup_insert_ne in Hk by done. right. repeat eexists. exact Hk. }
  destruct I as [I1 I2 I3 I4 Iv I5 I6 I7 Ir I8 I9 I10 I11 I12]. split; simpl; auto.
  - intros b T' C' HE'. destruct (I6 b T' C' HE'). split; [lia|done].
  - intros b Hb%I8. lia.
  - intros k Hk. apply lookup_insert_is_Some' in Hk as [<-|Hk%I9]; lia.
  - intros k b w T' id i' t'. destruct (decide (r_next s = k)) as [<-|Hk'].
    + rewrite lookup_insert_eq. intros [= <- <- <- <- _ _]. split_and!; try done. eauto.
    + rewrite lookup_insert_ne by done. apply I10.
  - intros k k' b w T' T'' id id' i' i'' t' t''.
    destruct (decide (r_next s = k)) as [<-|Hk], (decide (r_next s = k')) as [<-|Hk'];
      rewrite ?lookup_insert_eq, ?lookup_insert_ne by done; [done| | |apply I11].
    + intros [= <- <- <- <- _ _] Hk2. destruct Hno. repeat eexists. exact Hk2.
    + intros Hk2 [= <- <- <- <- _ _]. destruct Hno. repeat eexists. exact Hk2.
Qed.

Lemma spawn_requests_to V E a T C i t l : ∀ s : node,
  elect_inv V E s → E !! a = Some (T, C) → NoDup l → (∀ v, v ∈ l → v ∈ r_nodes s) →
  C = {[r_id s]} → (∀ v, v ∈ l → ¬ request_pending s a v) →
  elect_to V s (go_each (λ node, if bool_decide (node = r_id s) then mret tt
    else spawn (GoSendRequestVote a node T (r_id s) i t)) l s).2 anything.
Proof.
  induction l as [|v l IH]; intros s I HE Hnd Hl HC Hno; cbn [go_each].
  { by eapply elect_to_refl. }
  apply list.NoDup_cons in Hnd as [Hv Hnd]. rewrite bind_run. case_bool_decide as Hself.
  - apply IH; auto; intros w Hw; [apply Hl|apply Hno]; by right.
  - destruct (spawn_request_inv V E s a T C v i t) as (s' & Hs & I' & H1 & H2 & H3 & H4 & H5);
      [done..|apply Hl; by left|done|rewrite HC; by apply not_elem_of_singleton|apply Hno; by left|].
    rewrite Hs. eapply elect_to_step; [exact H1|exact H2|exact H3|exact H4|apply own_votes_grow_refl|].
    rewrite <- H1. apply IH; [done|done|done| |by rewrite H1|].
    + intros w Hw. rewrite H2. apply Hl. by right.
    + intros w Hw [-> |Hp]%H5; [done|]. apply (Hno w); [by right|done].
Qed.

(** The campaign is under way: count the own vote, then win or ask. *)
Lemma campaign_to V E (s : node) a c T C :
  elect_inv V E s → r_roles s !! a = Some (RCandidate c) → E !! a = Some (T, C) →
  term_of s = T → C = {[r_id s]} → c_votes c = 0 → (∀ v, ¬ request_pending s a v) →
  elect_to V s ((update_candidate a (λ c, set_c_votes (i64 (c_votes c + 1)) c);;
    c ← read_candidate a;
    if c_majority c <=? c_votes c then _ ← becomeLeader T; mret tt
    else
      last ← getLastLogEntryIndexAndTerm;
      go_each (λ node, if bool_decide (node = r_id s) then mret tt
        else spawn (GoSendRequestVote a node T (r_id s) last.1 last.2)) (c_nodes c)) s).2 anything.
Proof.
  intros I Ha HE HT HC Hv Hno. rewrite bind_run, (update_candidate_run s a c) by done.
  set (c' := set_c_votes _ c). set (s' := with_candidate s a c').
  assert (elect_inv V E s') as I'.
  { eapply with_candidate_inv; [done..|]. destruct (ei_candidate _ _ _ I a c Ha) as (Q1 & Q2 & Q3).
    rewrite HE in Q3. unfold campaign_ok. rewrite HE. simpl. rewrite Hv, i64_small by lia.
    rewrite HC, size_singleton. split_and!; [done|done|tauto|lia|lia]. }
  assert (r_roles s' !! a = Some (RCandidate c')) as Ha' by (simpl; apply lookup_insert_eq).
  eapply (elect_to_step V V s s'); [done|done|done|right; auto|apply own_votes_grow_refl|].
  rewrite bind_run, (read_candidate_run s' a c') by done.
  destruct (Z.leb_spec (c_majority c') (c_votes c')) as [Hm|_].
  - pose proof (majority_elected _ _ _ _ _ _ _ I' Ha' HE Hm) as Hel.
    pose proof (becomeLeader_to V E T s' I' HT Hel) as Ht. rewrite bind_run.
    by destruct (becomeLeader T s') as [[| |] s2].
  - rewrite bind_run. unfold getLastLogEntryIndexAndTerm. rewrite bind_run. cbn [gets].
    assert (c_nodes c' = r_nodes s') as Hn by apply (ei_candidate _ _ _ I' a c' Ha').
    destruct (ei_static _ _ _ I') as (_ & _ & Hnd & _).
    rewrite Hn. destruct (0 <? _); cbn [mret GoM_ret gets];
      (apply (spawn_requests_to V E a T C _ _ (r_nodes s') s'); auto; by intros v _ ?%Hno).
Qed.

(** A failed write: the node is marked unhealthy. *)
Lemma failed_to V E (s : node) t v e st fs :
  elect_inv V E s → store_updated (r_store s) (r_fs s) t v (Some e) st fs →
  elect_to V s (markUnhealthy (stored s st fs)).2 anything.
Proof.
  intros I Hup. assert (view_kept s (stored s st fs)) as K.
  { by eapply store_failed_view; [apply I|]. }
  eapply elect_to_view; [exact K|]. eapply (frame_markUnhealthy elect_moves).
  by eapply elect_inv_view.
Qed.

Lemma startElection_to V E (s : node) a c :
  elect_inv V E s → ¬ leads s → r_roles s !! a = Some (RCandidate c) →
  E !! a = None → c_preVote c = false → term_of s < u64_max →
  elect_to V s (CandidateRole__startElection a s).2 anything.
Proof.
  intros I Hl Ha HE Hp Hmax. unfold CandidateRole__startElection.
  pose proof (ei_term _ _ _ I) as Hu. unfold is_u64, u64_max in *.
  destruct (IncrementCurrentTerm_run (r_store s) (r_fs s)) as (err & st & fs & Hr & Hup); [done|].
  change (currentTerm (r_store s)) with (term_of s) in Hup.
  rewrite u64_small in Hup by (unfold is_u64; lia).
  rewrite bind_run, (on_store_run _ _ _ _ _ Hr). destruct err as [e|]; [by eapply failed_to|].
  set (s1 := stored s st fs) in *.
  assert (elect_inv V E s1) as I1.
  { eapply raised_inv; [exact I|exact Hup|lia|unfold is_u64; lia|apply I|done]. }
  destruct Hup as [Hst _]. assert (currentTerm st = term_of s + 1) as Ht by (by rewrite Hst).
  rewrite bind_run. cbn [gets]. change (r_id s1) with (r_id s).
  destruct (SetVotedFor_run (r_id s) (r_store s1) (r_fs s1)) as (err & st2 & fs2 & Hr2 & Hup2).
  rewrite bind_run, (on_store_run _ _ _ _ _ Hr2). destruct err as [e|].
  { eapply (elect_to_step V V s s1); [done..|left|apply own_votes_grow_refl|by eapply failed_to].
    unfold term_of at 2, s1. simpl. lia. }
  set (s2 := stored s1 st2 fs2) in *. set (T := term_of s1).
  assert (T = term_of s + 1) as HT by done.
  destruct (voted_inv V E s1 T (r_id s) st2 fs2) as [I2 G2]; [done|done|done|apply I| |].
  { intros d Hd. destruct (ei_own _ _ _ I _ _ Hd) as [_ [Hd2|[Hd2 _]]]; lia. }
  set (V2 := <[_ := _]> V) in *. change (r_id s1) with (r_id s) in G2.
  destruct Hup2 as [Hst2 _]. assert (term_of s2 = T) as Ht2.
  { unfold term_of at 1, s2. simpl. by rewrite Hst2. }
  assert (V2 !! (T, r_id s2) = Some (r_id s2)) as HV2 by apply lookup_insert_eq.
  pose proof (campaign_start V2 E s2 a c T I2 Ha HE Hp HV2) as I3.
  destruct (ei_candidate _ _ _ I a c Ha) as (_ & _ & Hv). rewrite HE in Hv.
  eapply (elect_to_step V V2 s s2); [done..|left; lia|exact G2|].
  change (currentTerm st) with T. change (r_id s) with (r_id s2).
  eapply campaign_to; [exact I3|exact Ha|apply lookup_insert_eq|done..|].
  intros v (k & T' & id & i & t & Hk).
  destruct (ei_request _ _ _ I k a v T' id i t Hk) as (_ & _ & _ & C & HC & _). congruence.
Qed.

Lemma leads_with_candidate (s : node) a c : leads (with_candidate s a c) → leads s.
Proof.
  intros (b & l & Hb & Hl). simpl in *. destruct (decide (a = b)) as [<-|Hne].
  - by rewrite lookup_insert_eq in Hl.
  - rewrite lookup_insert_ne in Hl by done. by exists b, l.
Qed.

(** Clearing the pre-vote flag and starting the election. *)
Lemma begin_election_to V E (s : node) a c :
  elect_inv V E s → ¬ leads s → r_roles s !! a = Some (RCandidate c) →
  E !! a = None → term_of s < u64_max →
  elect_to V s ((update_candidate a (set_c_preVote false);; CandidateRole__startElection a) s).2
    anything.
Proof.
  intros I Hl Ha HE Hmax. rewrite bind_run, (update_candidate_run s a c) by done.
  set (s' := with_candidate s a (set_c_preVote false c)).
  eapply (elect_to_step V V s s'); [done..|right; auto|apply own_votes_grow_refl|].
  eapply (startElection_to V E s' a (set_c_preVote false c)); [| |simpl; apply lookup_insert_eq|done..].
  - eapply with_candidate_same; [done..|by right].
  - by intros ?%leads_with_candidate.
Qed.

Lemma startPreElection_to V E (s : node) a c :
  elect_inv V E s → ¬ leads s → r_roles s !! a = Some (RCandidate c) →
  E !! a = None → term_of s < u64_max →
  elect_to V s (CandidateRole__startPreElection a s).2 anything.
Proof.
  intros I Hl Ha HE Hmax. unfold CandidateRole__startPreElection.
  rewrite bind_run, GetCurrentTerm_run, bind_run, (update_candidate_run s a c) by done.
  set (c' := set_c_preVotes _ c). set (s' := with_candidate s a c').
  assert (elect_inv V E s') as I' by (eapply with_candidate_same; [done..|by left]).
  assert (r_roles s' !! a = Some (RCandidate c')) as Ha' by (simpl; apply lookup_insert_eq).
  eapply (elect_to_step V V s s'); [done..|right; auto|apply own_votes_grow_refl|].
  rewrite bind_run, (read_candidate_run s' a c') by done. destruct (_ <=? _).
  - eapply begin_election_to; [done| |done..]. by intros ?%leads_with_candidate.
  - assert (moves elect_moves (last ← getLastLogEntryIndexAndTerm; self ← gets r_id;
      go_each (λ node, if bool_decide (node = self) then mret tt
        else spawn (GoSendPreVote a node (term_of s) self last.1 last.2)) (c_nodes c')
      : RaftM L F unit)) as Hm by moves_auto.
    by apply Hm with (E := E).
Qed.

Lemma becomeCandidate_to V E (s : node) :
  elect_inv V E s → term_of s < u64_max → elect_to V s (becomeCandidate s).2 anything.
Proof.
  intros I Hmax. unfold becomeCandidate. rewrite bind_run.
  pose proof (frame_exit_current_role view_kept s) as K0.
  destruct (exit_current_role s) as [[[]| |] s0]; simpl in K0; [|by eapply view_kept_moves..].
  destruct (enter_role_run NewCandidateRole (λ s1 x, ∃ c, x = RCandidate c
    ∧ fresh_object s1 x ∧ c_preVote c = true) s0)
    as (s1 & K & [He|(x & (c & -> & Hf & Hp) & He)]); [apply NewCandidateRole_run|..];
    rewrite bind_run, He; (assert (view_kept s s1) as K1 by (by etrans)).
  { by eapply view_kept_moves. }
  assert (elect_inv V E s1) as I1 by (by eapply elect_inv_view).
  set (s2 := entered s1 (RCandidate c)). assert (elect_inv V E s2) as I2 by (by apply entered_inv).
  eapply elect_to_view; [exact K1|].
  eapply (elect_to_step V V s1 s2); [done..|right; auto|apply own_votes_grow_refl|].
  assert (r_roles s2 !! r_next s1 = Some (RCandidate c)) as Hc by (simpl; apply lookup_insert_eq).
  rewrite bind_run. unfold CandidateRole__OnEnter. rewrite bind_run, (read_candidate_run s2 _ c), Hp by done.
  assert (elect_to V s2 (CandidateRole__startPreElection (r_next s1) s2).2 anything) as Ht.
  { eapply startPreElection_to; [done|by apply entered_not_leads|done| |].
    - destruct (E !! r_next s1) as [[T C]|] eqn:HE; [|done].
      destruct (ei_campaign _ _ _ I1 _ _ _ HE). lia.
    - change (term_of s2) with (term_of s1). by rewrite (vk_term _ _ K1). }
  by destruct (CandidateRole__startPreElection (r_next s1) s2) as [[| |] ?].
Qed.

(** A unit-valued tail does not change the state. *)
Lemma elect_to_then {A} V (s s' : node) (m : RaftM L F A) :
  elect_to V s (m s').2 anything → elect_to V s ((_ ← m; mret tt) s').2 anything.
Proof. rewrite bind_run. by destruct (m s') as [[| |] ?]. Qed.

Lemma Tick_to V E (s : node) :
  elect_inv V E s → term_of s < u64_max → elect_to V s (Raft__Tick s).2 anything.
Proof.
  intros I Hmax. unfold Raft__Tick. rewrite bind_run. cbn [gets].
  destruct (_ || _); [by eapply elect_to_refl|].
  unfold current_role, read_role. rewrite !bind_run. cbn [gets].
  destruct (r_role s) as [a|] eqn:Hr; [|by eapply elect_to_refl]. rewrite !bind_run. cbn [gets].
  destruct (r_roles s !! a) as [[f|c|l]|] eqn:Ha; cbn [mret GoM_ret]; [| | |by eapply elect_to_refl].
  - unfold FollowerRole__Tick, read_follower, read_role. rewrite !bind_run. cbn [gets]. rewrite Ha.
    cbn [mret GoM_ret write_role modify]. set (f' := mkFollowerRole _ _).
    pose proof (frame_follower s a f f' Ha : view_kept _ _) as K. cbv zeta. rewrite bind_run. cbn [write_role modify].
    eapply elect_to_view; [exact K|]. pose proof (elect_inv_view _ _ _ _ K I) as I'.
    destruct (_ <=? _); [|by eapply elect_to_refl]. apply elect_to_then. by eapply becomeCandidate_to.
  - unfold CandidateRole__Tick. rewrite bind_run, (update_candidate_run s a c) by done.
    set (c' := set_c_electionTicks _ c). set (s' := with_candidate s a c').
    assert (elect_inv V E s') as I' by (eapply with_candidate_same; [done..|by left]).
    eapply (elect_to_step V V s s'); [done..|right; auto|apply own_votes_grow_refl|].
    rewrite bind_run, (read_candidate_run s' a c') by (simpl; apply lookup_insert_eq).
    destruct (_ <=? _); [|by eapply elect_to_refl]. apply elect_to_then. by eapply becomeCandidate_to.
  - by eapply leader_Tick_moves.
Qed.

(** ** Replies to vote requests *)
Lemma role_type_run (s : node) :
  ∃ r, role_type s = (r, s) ∧ (∀ ty, r = Ret ty → ty ≠ "leader"%string → ¬ leads s).
Proof.
  unfold role_type, read_role. rewrite bind_run. cbn [gets].
  destruct (r_role s) as [a|] eqn:Hr; [|by eexists]. rewrite !bind_run. cbn [gets].
  destruct (r_roles s !! a) as [x|] eqn:Ha; [|by eexists]. eexists. split; [reflexivity|].
  intros ty [= <-] Hty (b & l & Hb & Hl). assert (x = RLeader l) as -> by congruence. by apply Hty.
Qed.

Lemma recovering_state (m : RaftM L F unit) s : (recovering m (mret tt) s).2 = (m s).2.
Proof. unfold recovering. by destruct (m s) as [[| |] ?]. Qed.

Lemma read_candidate_cases (s : node) a :
  (∃ c, r_roles s !! a = Some (RCandidate c)) ∨ ∃ msg, read_candidate a s = (Panic msg, s).
Proof.
  unfold read_candidate, read_role. rewrite !bind_run. cbn [gets].
  destruct (r_roles s !! a) as [[]|]; eauto; right; eexists; reflexivity.
Qed.

Lemma sendPreVote_to V E (s : node) a v T t g :
  elect_inv V E s → is_u64 t → term_of s < u64_max →
  elect_to V s (sendPreVote_done a v T (t, g) s).2 anything.
Proof.
  intros I Hu Hmax. unfold sendPreVote_done. rewrite recovering_state. cbn [fst snd].
  unfold CandidateRole__sendPreVote_reply. rewrite bind_run, GetCurrentTerm_run.
  destruct (_ <? _). { apply elect_to_then. by apply becomeFollower_moves with (E := E). }
  destruct g; cbn [negb]; [|by eapply elect_to_refl].
  destruct (role_type_run s) as (r & Hr & Hl). rewrite bind_run, Hr.
  destruct r as [ty| |]; [|by eapply elect_to_refl..].
  destruct (read_candidate_cases s a) as [[c Ha]|[msg Hm]];
    [|rewrite bind_run, Hm; by eapply elect_to_refl].
  rewrite bind_run, (read_candidate_run s a c) by done.
  case_bool_decide as Hty; [|by eapply elect_to_refl]. subst ty.
  destruct (c_preVote c) eqn:Hp; [|by eapply elect_to_refl].
  destruct (_ =? _); cbn [negb orb]; [|by eapply elect_to_refl].
  rewrite bind_run, (update_candidate_run s a c) by done.
  set (c' := set_c_preVotes _ c). set (s' := with_candidate s a c').
  assert (elect_inv V E s') as I' by (eapply with_candidate_same; [done..|by left]).
  eapply (elect_to_step V V s s'); [done..|right; auto|apply own_votes_grow_refl|].
  assert (r_roles s' !! a = Some (RCandidate c')) as Ha' by (simpl; apply lookup_insert_eq).
  rewrite bind_run, (read_candidate_run s' a c') by done.
  destruct (_ <=? _); [|by eapply elect_to_refl].
  eapply begin_election_to; [done| |done| |done].
  - intros ?%leads_with_candidate. by eapply Hl.
  - destruct (ei_candidate _ _ _ I a c Ha) as (_ & _ & Hc).
    destruct (E !! a) as [[? ?]|]; [|done]. destruct Hc. congruence.
Qed.

(** The goroutine of a request has been taken off the list; the reply is about
    a voter not yet counted. *)
Lemma sendRequestVote_to V E (s : node) a v T t g C :
  elect_inv V E s → E !! a = Some (T, C) → v ∈ r_nodes s → v ∉ C → ¬ request_pending s a v →
  is_u64 t → (g = true → V !! (t, v) = Some (r_id s)) →
  elect_to V s (sendRequestVote_done a v T (t, g) s).2 anything.
Proof.
  intros I HE Hv HvC Hno Hu Hg. unfold sendRequestVote_done. rewrite recovering_state. cbn [fst snd].
  unfold CandidateRole__sendRequestVote_reply. rewrite bind_run, GetCurrentTerm_run.
  destruct (_ <? _). { apply elect_to_then. by apply becomeFollower_moves with (E := E). }
  destruct g; cbn [negb orb]; [|by eapply elect_to_refl].
  destruct (Z.eqb_spec t T) as [-> |]; cbn [negb]; [|by eapply elect_to_refl].
  destruct (role_type_run s) as (r & Hr & _). rewrite bind_run, Hr.
  destruct r as [ty| |]; [|by eapply elect_to_refl..].
  case_bool_decide; cbn [negb orb]; [|by eapply elect_to_refl].
  destruct (Z.eqb_spec (term_of s) T) as [HT|]; cbn [negb]; [|by eapply elect_to_refl].
  destruct (read_candidate_cases s a) as [[c Ha]|[msg Hm]].
  2:{ unfold update_candidate. rewrite !bind_run, Hm. by eapply elect_to_refl. }
  rewrite bind_run, (update_candidate_run s a c) by done.
  set (c' := set_c_votes _ c). set (s' := with_candidate s a c').
  assert (elect_inv V (<[a := (T, {[v]} ∪ C)]> E) s') as I'.
  { eapply campaign_count; [done..|by apply Hg|]. intros k T' id i t' Hk. apply Hno. repeat eexists. exact Hk. }
  eapply (elect_to_step V V s s'); [done..|right; auto|apply own_votes_grow_refl|].
  assert (r_roles s' !! a = Some (RCandidate c')) as Ha' by (simpl; apply lookup_insert_eq).
  rewrite bind_run, (read_candidate_run s' a c') by done.
  destruct (Z.leb_spec (c_majority c') (c_votes c')) as [Hm|_]; [|by eapply elect_to_refl].
  apply elect_to_then. eapply becomeLeader_to; [done|done|].
  eapply majority_elected; [done|done|apply lookup_insert_eq|done].
Qed.

(** ** Casting a vote *)
Definition granted (res : outcome (Z * bool)) (t : Z) : Prop := res = Ret (t, true).

(** The vote is free or the candidate's already, and its log is good enough. *)
Lemma cast_vote_to V E a c (s1 : node) :
  elect_inv V E s1 → name_ok c → vote_of s1 = ""%string ∨ vote_of s1 = c →
  let res := (err ← on_store (Store__SetVotedFor c);
    match err with
    | Some _ => markUnhealthy;; mret (term_of s1, false)
    | None => resetElectionTimer a;; mret (term_of s1, true)
    end) s1 in
  elect_to V s1 res.2 (λ V', ∀ t', granted res.1 t' → t' = term_of s1 ∧ V' !! (t', r_id s1) = Some c).
Proof.
  intros I1 Hc Hfree.
  destruct (SetVotedFor_run c (r_store s1) (r_fs s1)) as (err & st & fs & Hr & Hup).
  rewrite bind_run, (on_store_run _ _ _ _ _ Hr). destruct err as [e|].
  { rewrite bind_run. pose proof (failed_to V E s1 _ _ _ _ _ I1 Hup) as Hf.
    destruct (markUnhealthy (stored s1 st fs)) as [[| |] s2]; simpl in *;
      destruct Hf as (F1 & F2 & F3 & F4 & V2 & E2 & F5 & F6 & _); split_and!; try done; by exists V2, E2. }
  destruct (voted_inv V E s1 (term_of s1) c st fs) as [I2 G2]; [done|done|done|done| |].
  { intros d Hd. destruct (ei_own _ _ _ I1 _ _ Hd) as [Hd1 [Hd2|[_ Hd2]]]; [lia|].
    destruct Hfree; congruence. }
  destruct Hup as [Hst _].
  set (s2 := stored s1 st fs) in *. set (V2 := <[_ := _]> V) in *.
  eapply (elect_to_step V V2 s1 s2); [done..| |exact G2|].
  { right. unfold term_of, vote_of, s2. simpl. rewrite Hst. simpl. split; [done|].
    destruct Hfree as [?|Hv]; [by left|right]. by unfold vote_of in Hv. }
  rewrite bind_run. pose proof (frame_resetElectionTimer view_kept a s2) as K2.
  assert (V2 !! (term_of s1, r_id s1) = Some c) as HV2 by apply lookup_insert_eq.
  destruct (resetElectionTimer a s2) as [[| |] s3]; simpl in *;
    (split_and!; try apply K2; [by apply view_vote_le|]; exists V2, E; split_and!;
     [by eapply elect_inv_view|apply own_votes_grow_refl|]); [|done|done].
  by intros t' [= <-].
Qed.

Lemma follower_HandleRequestVote_to V E n t c i j : is_u64 t → name_ok c → ∀ a (s : node),
  elect_inv V E s →
  let res := FollowerRole__HandleRequestVote n a t c i j s in
  elect_to V s res.2 (λ V', ∀ t', granted res.1 t' → t' = t ∧ V' !! (t', r_id s) = Some c).
Proof.
  intros Hu Hc. revert V E. induction n as [|n IH]; intros V E a s I; cbn [FollowerRole__HandleRequestVote].
  { by eapply elect_to_refl. }
  rewrite bind_run, GetCurrentTerm_run. destruct (Z.ltb_spec t (term_of s)).
  { by eapply elect_to_refl. }
  destruct (Z.ltb_spec (term_of s) t).
  { pose proof (becomeFollower_moves t Hu s V E I) as Hb. rewrite bind_run.
    destruct (becomeFollower t s) as [[b| |] s1]; simpl in Hb;
      destruct Hb as (B1 & B2 & B3 & B4 & V1 & E1 & I1 & G1 & _); cbn [fst snd].
    - eapply elect_to_step; [done..|]. rewrite <- B1. by apply (IH V1 E1).
    - split_and!; try done. by exists V1, E1.
    - split_and!; try done. by exists V1, E1. }
  assert (t = term_of s) as -> by lia.
  rewrite bind_run. change (on_store Store__GetVotedFor s) with (on_store (gets (λ p, votedFor p.1)) s).
  assert (on_store (gets (λ p, votedFor p.1)) s = (Ret (vote_of s), s)) as -> by (by destruct s).
  destruct (negb _ && negb _) eqn:Hvote; [by eapply elect_to_refl|].
  assert (vote_of s = ""%string ∨ vote_of s = c) as Hfree.
  { apply andb_false_iff in Hvote as [Hv|Hv]; apply negb_false_iff, bool_decide_eq_true in Hv; auto. }
  rewrite bind_run. pose proof (frame_isLogEqualOrMoreRecent view_kept i j s) as K.
  destruct (isLogEqualOrMoreRecent i j s) as [[ok| |] s1]; simpl in K.
  2,3: (split_and!; try apply K; [by apply view_vote_le|]; exists V, E; split_and!;
    [by eapply elect_inv_view|apply own_votes_grow_refl|done]).
  eapply elect_to_view; [exact K|]. pose proof (elect_inv_view _ _ _ _ K I) as I1.
  destruct ok; cbn [negb]; [|by eapply elect_to_refl].
  rewrite <- (vk_term _ _ K), <- (vk_vote _ _ K), <- (vk_id _ _ K) in *.
  by apply (cast_vote_to V E a c s1).
Qed.

Lemma HandleRequestVote_to V E n t c i j (s : node) :
  elect_inv V E s → is_u64 t → name_ok c →
  let res := Raft__HandleRequestVote n t c i j s in
  elect_to V s res.2 (λ V', ∀ t', granted res.1 t' → t' = t ∧ V' !! (t', r_id s) = Some c).
Proof.
  intros I Hu Hc. unfold Raft__HandleRequestVote, if_enabled. rewrite bind_run. cbn [gets].
  destruct (r_enabled s); cbn [negb].
  2:{ rewrite bind_run, GetCurrentTerm_run. by eapply elect_to_refl. }
  unfold current_role, read_role. rewrite !bind_run. cbn [gets].
  destruct (r_role s) as [a|] eqn:Hr; [|by eapply elect_to_refl]. rewrite !bind_run. cbn [gets].
  assert (let res := (followerRole ← becomeFollower t;
      FollowerRole__HandleRequestVote n followerRole t c i j) s in
    elect_to V s res.2 (λ V', ∀ t', granted res.1 t' → t' = t ∧ V' !! (t', r_id s) = Some c)) as Hb.
  { pose proof (becomeFollower_moves t Hu s V E I) as Hb. rewrite bind_run.
    destruct (becomeFollower t s) as [[b| |] s1]; simpl in Hb;
      destruct Hb as (B1 & B2 & B3 & B4 & V1 & E1 & I1 & G1 & _); cbn [fst snd].
    - eapply elect_to_step; [done..|]. rewrite <- B1. by apply (follower_HandleRequestVote_to V1 E1).
    - split_and!; try done. by exists V1, E1.
    - split_and!; try done. by exists V1, E1. }
  destruct (r_roles s !! a) as [[f|d|l]|]; cbn [mret GoM_ret]; [| | |by eapply elect_to_refl].
  - by eapply follower_HandleRequestVote_to.
  - unfold CandidateRole__HandleRequestVote. rewrite bind_run, GetCurrentTerm_run.
    destruct (_ <=? _); [by eapply elect_to_refl|exact Hb].
  - unfold LeaderRole__HandleRequestVote. rewrite bind_run, GetCurrentTerm_run.
    destruct (_ <=? _); [by eapply elect_to_refl|exact Hb].
Qed.

(** ** Starting a node *)
Definition blank_node (id dir : string) (nodes : list string) (log : L) (st : Store) (fs : Fs)
    (fsm : F) (cfg : Config) (rng : nat → Z) (n : nat) : node :=
  mkRaft cfg dir true fsm true id log nodes rng None 0 0 0 NewSessionTable st false fs ∅ ∅ ∅ n.

Lemma NewRaft_to V id dir nodes log st fs fsm cfg rng n :
  elect_inv V ∅ (blank_node id dir nodes log st fs fsm cfg rng n) →
  elect_to V (blank_node id dir nodes log st fs fsm cfg rng n)
    (NewRaft id dir nodes log st fs fsm cfg rng n).2 anything.
Proof.
  intros I. unfold NewRaft.
  assert (moves elect_moves (NewRaft_restore;; NewRaft_replay;; _ ← becomeFollower 0; mret tt
    : RaftM L F unit)) as Hm.
  { assert (is_u64 0) as H0u by (unfold is_u64; lia).
    pose proof (becomeFollower_moves 0 H0u : moves _ (_ : RaftM L F nat)). moves_auto. }
  by apply (Hm (blank_node id dir nodes log st fs fsm cfg rng n) V ∅).
Qed.
End elections.
