(* ===== verification/Json.v ===== *)
(** JSON as [encoding/json] of Go writes and reads it: trees, [json.Marshal]'s
    compact text with its escapes, and the stream decoder's grammar (white
    space, escapes and surrogates, number literals, nesting limit).  Main lemma:
    [parse_print], what was written is read back with its strings made valid
    UTF-8 ([clean]), whatever follows it. *)

From S2P Require Import Prelude.

Set Warnings "-register-all".

Local Open Scope Z_scope.

Definition byte_in (lo hi : Z) (b : byte) : bool := (lo <=? Z_of_byte b) && (Z_of_byte b <=? hi).

(** ** UTF-8 ([unicode/utf8])

    [rune_len s]: the length of the encoding at the head of [s] as
    [utf8.DecodeRune] reports it; 0 stands for its [(RuneError, 1)]. *)
Definition continuation : byte → bool := byte_in 128 191.

Definition second_of_3 (b0 b1 : byte) : bool :=
  (Byte.eqb b0 xe0 && byte_in 160 191 b1) || (byte_in 225 236 b0 && continuation b1) ||
  (Byte.eqb b0 xed && byte_in 128 159 b1) || (byte_in 238 239 b0 && continuation b1).

Definition second_of_4 (b0 b1 : byte) : bool :=
  (Byte.eqb b0 xf0 && byte_in 144 191 b1) || (byte_in 241 243 b0 && continuation b1) ||
  (Byte.eqb b0 xf4 && byte_in 128 143 b1).

Definition rune_len (s : bytes) : nat :=
  match s with
  | [] => 0
  | b0 :: t =>
      if byte_in 0 127 b0 then 1
      else
        match t with
        | b1 :: t =>
            if byte_in 194 223 b0 && continuation b1 then 2
            else
              match t with
              | b2 :: t =>
                  if second_of_3 b0 b1 && continuation b2 then 3
                  else
                    match t with
                    | b3 :: _ =>
                        if second_of_4 b0 b1 && continuation b2 && continuation b3 then 4 else 0
                    | [] => 0
                    end
              | [] => 0
              end
        | [] => 0
        end
  end%nat.

(** A string as the decoder of runes sees it: valid encodings, and single bytes
    that belong to none ([None]). *)
Fixpoint runes (fuel : nat) (s : bytes) : list (option bytes) :=
  match fuel, s with
  | S fuel, _ :: t =>
      match rune_len s with
      | O => None :: runes fuel t
      | n => Some (take n s) :: runes fuel (drop n s)
      end
  | _, _ => []
  end.

Definition utf8_runes (s : bytes) : list (option bytes) := runes (length s) s.

(** [utf8.RuneError] *)
Definition replacement : bytes := [xef; xbf; xbd].

(** [strings.ToValidUTF8] with the replacement character byte by byte: what a
    string is after it has been written and read back. *)
Definition to_valid (s : bytes) : bytes := mjoin (default replacement <$> utf8_runes s).

(** A string of the program after it has been written and read back. *)
Definition wire_string (s : string) : string := bytes_string (to_valid (string_bytes s)).

Definition utf8_valid (s : bytes) : bool := forallb (λ o : option bytes, bool_decide (is_Some o)) (utf8_runes s).

Definition encode_rune (r : Z) : bytes :=
  if r <? 128 then [byte_of_Z r]
  else if r <? 2048 then [byte_of_Z (192 + r / 64); byte_of_Z (128 + r mod 64)]
  else if r <? 65536 then
    [byte_of_Z (224 + r / 4096); byte_of_Z (128 + r / 64 mod 64); byte_of_Z (128 + r mod 64)]
  else
    [byte_of_Z (240 + r / 262144); byte_of_Z (128 + r / 4096 mod 64);
     byte_of_Z (128 + r / 64 mod 64); byte_of_Z (128 + r mod 64)].

(** ** String literals *)
Definition hex (z : Z) : byte := byte_of_Z (if z <? 10 then 48 + z else 87 + z).

Definition unhex (b : byte) : option Z :=
  if byte_in 48 57 b then Some (Z_of_byte b - 48)
  else if byte_in 97 102 b then Some (Z_of_byte b - 87)
  else if byte_in 65 70 b then Some (Z_of_byte b - 55)
  else None.

Definition escape_ascii (b : byte) : bytes :=
  match b with
  | x22 => [x5c; x22]
  | x5c => [x5c; x5c]
  | x08 => [x5c; x62]
  | x0c => [x5c; x66]
  | x0a => [x5c; x6e]
  | x0d => [x5c; x72]
  | x09 => [x5c; x74]
  | x3c | x3e | x26 => [x5c; x75; x30; x30; hex (Z_of_byte b / 16); hex (Z_of_byte b mod 16)]
  | _ => if Z_of_byte b <? 32
         then [x5c; x75; x30; x30; hex (Z_of_byte b / 16); hex (Z_of_byte b mod 16)]
         else [b]
  end.

Definition escape_rune (o : option bytes) : bytes :=
  match o with
  | None => [x5c; x75; x66; x66; x66; x64]  (* \ufffd *)
  | Some [b] => escape_ascii b
  | Some c =>
      if bool_decide (c = [xe2; x80; xa8]) then [x5c; x75; x32; x30; x32; x38]
      else if bool_decide (c = [xe2; x80; xa9]) then [x5c; x75; x32; x30; x32; x39]
      else c
  end.

Definition quote (s : bytes) : bytes := x22 :: mjoin (escape_rune <$> utf8_runes s) ++ [x22].

Definition hex4 (s : bytes) : option (Z * bytes) :=
  match s with
  | a :: b :: c :: d :: t =>
      a ← unhex a; b ← unhex b; c ← unhex c; d ← unhex d;
      Some (((a * 16 + b) * 16 + c) * 16 + d, t)
  | _ => None
  end.

Definition unescape (e : byte) : option byte :=
  match e with
  | x22 | x5c | x2f => Some e
  | x62 => Some x08
  | x66 => Some x0c
  | x6e => Some x0a
  | x72 => Some x0d
  | x74 => Some x09
  | _ => None
  end.

(** The rune of a [\u] escape whose first code unit is [r]: a surrogate takes
    the escape of its partner with it, and is replaced when there is none. *)
Definition unicode_escape (r : Z) (t : bytes) : bytes * bytes :=
  if (55296 <=? r) && (r <? 57344) then
    match t with
    | x5c :: x75 :: t' =>
        match hex4 t' with
        | Some (r2, t') =>
            if (r <? 56320) && (56320 <=? r2) && (r2 <? 57344)
            then (encode_rune ((r - 55296) * 1024 + (r2 - 56320) + 65536), t')
            else (replacement, t)
        | None => (replacement, t)
        end
    | _ => (replacement, t)
    end
  else (encode_rune r, t).

(** One character of a string literal: what it stands for, and what follows. *)
Definition string_char (s : bytes) : option (bytes * bytes) :=
  match s with
  | [] => None
  | b :: t =>
      if Byte.eqb b x5c then
        match t with
        | [] => None
        | e :: t =>
            if Byte.eqb e x75 then '(r, t) ← hex4 t; Some (unicode_escape r t)
            else c ← unescape e; Some ([c], t)
        end
      else if Z_of_byte b <? 32 then None
      else
        match rune_len s with
        | O => Some (replacement, t)
        | n => Some (take n s, drop n s)
        end
  end.

(** The rest of a string literal after its opening quote. *)
Fixpoint parse_string (fuel : nat) (s : bytes) : option (bytes * bytes) :=
  match fuel, s with
  | S fuel, b :: t =>
      if Byte.eqb b x22 then Some ([], t)
      else '(c, s) ← string_char s; '(v, s) ← parse_string fuel s; Some (c ++ v, s)
  | _, _ => None
  end.

(** ** Numbers *)
Fixpoint digits (fuel : nat) (z : Z) : bytes :=
  match fuel with
  | O => []
  | S fuel => (if z <? 10 then [] else digits fuel (z / 10)) ++ [byte_of_Z (48 + z mod 10)]
  end.

(** [strconv.AppendUint] in base 10; a [uint64] has at most 20 digits. *)
Definition print_uint (z : Z) : bytes := digits 20 z.

Definition is_digit : byte → bool := byte_in 48 57.

Fixpoint span_digits (s : bytes) : bytes * bytes :=
  match s with
  | b :: t => if is_digit b then let '(d, r) := span_digits t in (b :: d, r) else ([], s)
  | [] => ([], [])
  end.

Definition digits_value (s : bytes) : Z := foldl (λ n b, n * 10 + (Z_of_byte b - 48)) 0 s.

(** [strconv.ParseUint(s, 10, 64)] of a number literal. *)
Definition ParseUint (s : bytes) : option Z :=
  if bool_decide (s ≠ []) && forallb is_digit s && (digits_value s <=? u64_max)
  then Some (digits_value s) else None.

Definition integer_part (s : bytes) : option (bytes * bytes) :=
  match s with
  | b :: t =>
      if Byte.eqb b x30 then Some ([b], t)
      else if is_digit b then Some (span_digits s) else None
  | [] => None
  end.

(** At least one digit. *)
Definition some_digits (s : bytes) : option (bytes * bytes) :=
  match span_digits s with
  | ([], _) => None
  | p => Some p
  end.

Definition fraction (s : bytes) : option (bytes * bytes) :=
  match s with
  | x2e :: t => '(d, r) ← some_digits t; Some (x2e :: d, r)
  | _ => Some ([], s)
  end.

Definition exponent (s : bytes) : option (bytes * bytes) :=
  match s with
  | (x65 | x45) as e :: t =>
      let '(sign, t) := match t with (x2b | x2d) as g :: t' => ([g], t') | _ => ([], t) end in
      '(d, r) ← some_digits t; Some (e :: sign ++ d, r)
  | _ => Some ([], s)
  end.

Definition parse_number (s : bytes) : option (bytes * bytes) :=
  let '(sign, s) := match s with x2d :: t => ([x2d], t) | _ => ([], s) end in
  '(i, s) ← integer_part s;
  '(f, s) ← fraction s;
  '(e, s) ← exponent s;
  Some (sign ++ i ++ f ++ e, s).

(** ** Trees *)
Inductive json :=
| JNull
| JBool (b : bool)
| JNumber (literal : bytes)
| JString (s : bytes)
| JArray (l : list json)
| JObject (m : list (bytes * json)).

Definition separated (l : list bytes) : bytes :=
  match l with
  | [] => []
  | x :: l => x ++ mjoin ((λ y, x2c :: y) <$> l)
  end.

(** [json.Marshal]: no white space. *)
Fixpoint print (j : json) : bytes :=
  match j with
  | JNull => string_bytes "null"
  | JBool true => string_bytes "true"
  | JBool false => string_bytes "false"
  | JNumber n => n
  | JString s => quote s
  | JArray l => x5b :: separated (map print l) ++ [x5d]
  | JObject m => x7b :: separated (map (λ p, quote p.1 ++ x3a :: print p.2) m) ++ [x7d]
  end.

Fixpoint skip_space (s : bytes) : bytes :=
  match s with
  | (x20 | x09 | x0d | x0a) :: t => skip_space t
  | _ => s
  end.

(** [s] without the text [p] at its head. *)
Fixpoint expect (p s : bytes) : option bytes :=
  match p, s with
  | [], _ => Some s
  | a :: p, b :: s => if Byte.eqb a b then expect p s else None
  | _ :: _, [] => None
  end.

Section containers.
Context (value : bytes → option (json * bytes)).

(** The elements of an array, one at least, and its closing bracket. *)
Fixpoint parse_elements (fuel : nat) (s : bytes) : option (list json * bytes) :=
  match fuel with
  | O => None
  | S fuel =>
      '(v, s) ← value s;
      match skip_space s with
      | x2c :: t => '(l, s) ← parse_elements fuel t; Some (v :: l, s)
      | x5d :: t => Some ([v], t)
      | _ => None
      end
  end.

Definition parse_member (s : bytes) : option ((bytes * json) * bytes) :=
  t ← expect [x22] (skip_space s);
  '(k, t) ← parse_string (length t) t;
  t ← expect [x3a] (skip_space t);
  '(v, t) ← value t;
  Some ((k, v), t).

Fixpoint parse_members (fuel : nat) (s : bytes) : option (list (bytes * json) * bytes) :=
  match fuel with
  | O => None
  | S fuel =>
      '(p, s) ← parse_member s;
      match skip_space s with
      | x2c :: t => '(m, s) ← parse_members fuel t; Some (p :: m, s)
      | x7d :: t => Some ([p], t)
      | _ => None
      end
  end.
End containers.

(** The value at the head of [s] and what follows it; at most [depth] arrays and
    objects are open at a time. *)
Fixpoint parse_value (depth : nat) (s : bytes) {struct depth} : option (json * bytes) :=
  match skip_space s with
  | x7b :: t =>
      match depth with
      | O => None
      | S depth =>
          match skip_space t with
          | x7d :: t' => Some (JObject [], t')
          | _ => '(m, t) ← parse_members (parse_value depth) (length t) t; Some (JObject m, t)
          end
      end
  | x5b :: t =>
      match depth with
      | O => None
      | S depth =>
          match skip_space t with
          | x5d :: t' => Some (JArray [], t')
          | _ => '(l, t) ← parse_elements (parse_value depth) (length t) t; Some (JArray l, t)
          end
      end
  | x22 :: t => '(v, t) ← parse_string (length t) t; Some (JString v, t)
  | x6e :: t => t ← expect (string_bytes "ull") t; Some (JNull, t)
  | x74 :: t => t ← expect (string_bytes "rue") t; Some (JBool true, t)
  | x66 :: t => t ← expect (string_bytes "alse") t; Some (JBool false, t)
  | t => '(n, t) ← parse_number t; Some (JNumber n, t)
  end.

(** [maxNestingDepth] *)
Definition max_depth : nat := Z.to_nat 10000.
Definition parse : bytes → option (json * bytes) := parse_value max_depth.

Lemma join_cons {A} (x : list A) (l : list (list A)) : mjoin (x :: l) = x ++ mjoin l.
Proof. reflexivity. Qed.

(** ** Strings: what [quote] wrote, [parse_string] reads *)
Lemma byte_in_excl lo hi lo' hi' b : hi < lo' → byte_in lo hi b = true → byte_in lo' hi' b = false.
Proof. unfold byte_in. intros Hlt Hb. zbool. apply andb_false_iff. left. apply Z.leb_gt. lia. Qed.

Lemma rune_len_le s : (rune_len s ≤ length s)%nat.
Proof. unfold rune_len. repeat split_match; subst; cbn [length]; lia. Qed.

Lemma rune_len_prefix n s x : rune_len s = S n → rune_len (take (S n) s ++ x) = S n.
Proof.
  destruct s as [|b0 s]; [done|]. cbn [rune_len].
  destruct (byte_in 0 127 b0) eqn:E0; [intros [= <-]; cbn; by rewrite E0|].
  destruct s as [|b1 s]; [done|].
  destruct (byte_in 194 223 b0 && continuation b1) eqn:E1; [intros [= <-]; cbn; by rewrite E0, E1|].
  destruct s as [|b2 s]; [done|].
  destruct (second_of_3 b0 b1 && continuation b2) eqn:E2; [intros [= <-]; cbn; by rewrite E0, E1, E2|].
  destruct s as [|b3 s]; [done|].
  destruct (second_of_4 b0 b1 && continuation b2 && continuation b3) eqn:E3; [|done].
  intros [= <-]. cbn. by rewrite E0, E1, E2, E3.
Qed.

(** A valid encoding, whatever follows it. *)
Definition is_rune (c : bytes) : Prop := c ≠ [] ∧ ∀ x, rune_len (c ++ x) = length c.
Definition rune_ok (o : option bytes) : Prop := default True (is_rune <$> o).

Lemma runes_ok fuel s : Forall rune_ok (runes fuel s).
Proof.
  revert s. induction fuel as [|fuel IH]; intros [|b t]; [by constructor..|].
  cbn [runes]. destruct (rune_len (b :: t)) as [|n] eqn:En; constructor; [done|apply IH| |apply IH].
  pose proof (rune_len_le (b :: t)) as Hle. rewrite En in Hle.
  split; [done|]. intros x. rewrite (rune_len_prefix n _ x En), length_take. lia.
Qed.

Lemma escape_ascii_read b t : byte_in 0 127 b = true →
  string_char (escape_ascii b ++ t) = Some ([b], t).
Proof. intros Hb. destruct b; first [discriminate Hb | reflexivity]. Qed.

Lemma rune_head b0 b1 c : is_rune (b0 :: b1 :: c) → byte_in 0 127 b0 = false.
Proof.
  intros [_ Hc]. specialize (Hc []). rewrite app_nil_r in Hc.
  destruct (byte_in 0 127 b0) eqn:E; [|done]. cbn [rune_len] in Hc. by rewrite E in Hc.
Qed.

Lemma escape_rune_read o t : rune_ok o →
  string_char (escape_rune o ++ t) = Some (default replacement o, t).
Proof.
  destruct o as [[|b0 [|b1 c]]|]; [by intros [? _]| | |reflexivity].
  - intros [_ Hc]. apply escape_ascii_read. specialize (Hc []). cbn in Hc.
    destruct (byte_in 0 127 b0); done.
  - intros Hr. cbn [escape_rune default].
    case_bool_decide as E; [rewrite E; reflexivity|].
    case_bool_decide as E'; [rewrite E'; reflexivity|].
    pose proof (rune_head _ _ _ Hr) as Hb. destruct Hr as [_ Hlen].
    unfold string_char. cbn [app].
    destruct (Byte.eqb b0 x5c) eqn:E1; [apply Byte.byte_dec_bl in E1; by subst|].
    destruct (Z.ltb_spec (Z_of_byte b0) 32) as [Hlt|_].
    { unfold byte_in in Hb. pose proof (Z_of_byte_range b0). zbool. lia. }
    change (b0 :: b1 :: c ++ t) with ((b0 :: b1 :: c) ++ t). rewrite Hlen. cbn [length].
    by rewrite take_app_exact, drop_app_exact.
Qed.

Lemma escape_rune_head o : rune_ok o → ∃ b s, escape_rune o = b :: s ∧ Byte.eqb b x22 = false.
Proof.
  intros Hr. destruct o as [[|b0 [|b1 c]]|]; [by destruct Hr| | |by do 2 eexists].
  - destruct b0; by do 2 eexists.
  - pose proof (rune_head _ _ _ Hr) as Hb. cbn [escape_rune].
    case_bool_decide; [by do 2 eexists|]. case_bool_decide; [by do 2 eexists|].
    do 2 eexists. split; [done|]. destruct (Byte.eqb b0 x22) eqn:E; [|done].
    apply Byte.byte_dec_bl in E. by subst.
Qed.

Lemma parse_string_runes l fuel rest : Forall rune_ok l → (length l < fuel)%nat →
  parse_string fuel (mjoin (escape_rune <$> l) ++ x22 :: rest) = Some (mjoin (default replacement <$> l), rest).
Proof.
  intros Hl. revert fuel. induction Hl as [|o l Ho Hl IH]; intros [|fuel] Hf; cbn in Hf; try lia; [done|].
  rewrite !fmap_cons, !join_cons, <- app_assoc.
  destruct (escape_rune_head o Ho) as (b & s & Hb & Hq).
  pose proof (escape_rune_read o (mjoin (escape_rune <$> l) ++ x22 :: rest) Ho) as Hread.
  rewrite Hb in *. cbn [app] in *. cbn [parse_string]. rewrite Hq, Hread. cbn.
  rewrite IH by lia. done.
Qed.

Lemma length_escaped l : Forall rune_ok l → (length l ≤ length (mjoin (escape_rune <$> l)))%nat.
Proof.
  induction 1 as [|o l Ho Hl IH]; [done|].
  rewrite fmap_cons, join_cons. cbn [length].
  destruct (escape_rune_head o Ho) as (b & s & -> & _). cbn [app length]. rewrite length_app. lia.
Qed.

(** Any string is read back as its valid form; [to_valid] is the identity on
    valid strings. *)
Lemma quote_read s : ∃ body, quote s = x22 :: body ∧
  ∀ fuel rest, (length (body ++ rest) ≤ fuel)%nat → parse_string fuel (body ++ rest) = Some (to_valid s, rest).
Proof.
  eexists. split; [done|]. intros fuel rest. rewrite !length_app. cbn [length]. intros Hf.
  pose proof (length_escaped _ (runes_ok (length s) s)). unfold utf8_runes in *.
  rewrite <- app_assoc. apply parse_string_runes; [apply runes_ok|lia].
Qed.

Lemma join_runes fuel s : (length s ≤ fuel)%nat → Forall is_Some (runes fuel s) →
  mjoin (default replacement <$> runes fuel s) = s.
Proof.
  revert s. induction fuel as [|fuel IH]; intros [|b t] Hf Hv; cbn [length] in Hf; try lia; [done..|].
  cbn [runes] in *. destruct (rune_len (b :: t)) as [|n] eqn:En.
  - apply Forall_inv in Hv as [? [=]].
  - apply Forall_inv_tail in Hv.
    rewrite fmap_cons, join_cons. cbn [default].
    rewrite IH; [apply take_drop| |done]. rewrite length_drop. cbn [length]. lia.
Qed.

Lemma to_valid_id s : utf8_valid s = true → to_valid s = s.
Proof.
  unfold utf8_valid, to_valid, utf8_runes. rewrite forallb_forall. intros Hv.
  apply join_runes; [done|]. apply list.Forall_forall. intros o Ho.
  apply list_elem_of_In, Hv, bool_decide_eq_true in Ho. done.
Qed.

(** Every byte that is replaced makes the string longer. *)
Lemma runes_longer fuel s : (length s ≤ fuel)%nat →
  (length s ≤ length (mjoin (default replacement <$> runes fuel s)))%nat ∧
  (forallb (λ o : option bytes, bool_decide (is_Some o)) (runes fuel s) = false →
   length s < length (mjoin (default replacement <$> runes fuel s)))%nat.
Proof.
  revert s. induction fuel as [|fuel IH]; intros [|b t] Hf; cbn [length] in Hf; try lia; [done..|].
  cbn [runes]. destruct (rune_len (b :: t)) as [|n] eqn:En; rewrite fmap_cons, join_cons, length_app.
  - destruct (IH t) as [Hle _]; [lia|]. cbn [default replacement length]. split; [lia|intros _; lia].
  - pose proof (rune_len_le (b :: t)) as Hn. rewrite En in Hn.
    destruct (IH (drop (S n) (b :: t))) as [Hle Hlt]; [rewrite length_drop; cbn [length]; lia|].
    rewrite length_drop in Hle, Hlt. cbn [default from_option id]. rewrite length_take_le by done. split; [lia|].
    cbn [forallb]. rewrite bool_decide_true by by eexists. intros Hv. specialize (Hlt Hv). lia.
Qed.

Lemma to_valid_longer s : utf8_valid s = false → (length s < length (to_valid s))%nat.
Proof. by apply runes_longer. Qed.

Lemma wire_string_id s : utf8_valid (string_bytes s) = true → wire_string s = s.
Proof. intros Hs. unfold wire_string. by rewrite to_valid_id, bytes_string_bytes by done. Qed.

(** ** Numbers *)
Lemma digit_range z : 0 <= z < 10 → is_digit (byte_of_Z (48 + z)) = true ∧ Z_of_byte (byte_of_Z (48 + z)) = 48 + z.
Proof.
  intros Hz. unfold is_digit, byte_in. rewrite Z_of_byte_of_Z, Z.mod_small by lia. split; [|done].
  apply andb_true_iff. split; apply Z.leb_le; lia.
Qed.

Lemma digits_value_snoc s b : digits_value (s ++ [b]) = digits_value s * 10 + (Z_of_byte b - 48).
Proof. unfold digits_value. by rewrite foldl_app. Qed.

Lemma digits_spec fuel z : 0 <= z < 10 ^ Z.of_nat (S fuel) →
  forallb is_digit (digits (S fuel) z) = true ∧ digits_value (digits (S fuel) z) = z ∧
  ∃ b s, digits (S fuel) z = b :: s ∧ (length s ≤ fuel)%nat ∧ (Byte.eqb b x30 = true → z = 0 ∧ s = []).
Proof.
  revert z. induction fuel as [|fuel IH]; intros z Hz;
    pose proof (Z.mod_pos_bound z 10 ltac:(lia)) as Hm; pose proof (Z.div_mod z 10 ltac:(lia)) as Hdm;
    destruct (digit_range (z mod 10) Hm) as [Hd Hv]; cbn [digits] in *.
  - rewrite Z.pow_1_r in Hz. destruct (Z.ltb_spec z 10); [|lia]. cbn [app forallb]. rewrite Hd.
    unfold digits_value. cbn [foldl]. rewrite Hv.
    rewrite Z.mod_small in Hv |- * by lia. split; [done|]. split; [lia|]. do 2 eexists. split; [done|]. split; [cbn; lia|].
    intros E. apply Byte.byte_dec_bl in E. apply (f_equal Z_of_byte) in E.
    rewrite Hv in E. change (Z_of_byte x30) with 48 in E. split; [lia|done].
  - destruct (Z.ltb_spec z 10) as [Hlt|Hge].
    + cbn [app forallb]. rewrite Hd. unfold digits_value. cbn [foldl]. rewrite Hv.
      rewrite Z.mod_small in Hv |- * by lia. split; [done|]. split; [lia|]. do 2 eexists. split; [done|]. split; [cbn; lia|].
      intros E. apply Byte.byte_dec_bl in E. apply (f_equal Z_of_byte) in E.
      rewrite Hv in E. change (Z_of_byte x30) with 48 in E. split; [lia|done].
    + rewrite Nat2Z.inj_succ, Z.pow_succ_r in Hz by lia.
      destruct (IH (z / 10)) as (Hall & Hval & b & s & Hs & Hl & Hb).
      { split; [apply Z.div_pos; lia|]. apply Z.div_lt_upper_bound; lia. }
      cbn [digits] in Hs, Hall, Hval. rewrite forallb_app, digits_value_snoc, Hall, Hval, Hv. cbn [forallb]. rewrite Hd.
      split; [done|]. split; [lia|]. rewrite Hs. exists b, (s ++ [byte_of_Z (48 + z mod 10)]).
      split; [done|]. rewrite length_app. cbn [length]. split; [lia|].
      intros E. destruct (Hb E) as [E0 _]. lia.
Qed.

Lemma print_uint_spec z : is_u64 z →
  forallb is_digit (print_uint z) = true ∧ digits_value (print_uint z) = z ∧
  ∃ b s, print_uint z = b :: s ∧ (length s ≤ 19)%nat ∧ (Byte.eqb b x30 = true → z = 0 ∧ s = []).
Proof. unfold is_u64. intros Hz. apply (digits_spec 19). cbn. lia. Qed.

Lemma length_print_uint z : (length (print_uint z) ≤ 20)%nat.
Proof.
  unfold print_uint. generalize 20%nat. intros n. revert z.
  induction n as [|n IH]; intros z; cbn [digits length]; [lia|].
  rewrite length_app. cbn [length]. destruct (z <? 10); cbn [length]; [lia|]. specialize (IH (z / 10)). lia.
Qed.

Lemma ParseUint_print z : is_u64 z → ParseUint (print_uint z) = Some z.
Proof.
  intros Hz. destruct (print_uint_spec z Hz) as (Hd & Hv & b & s & Hs & _). unfold ParseUint.
  rewrite Hd, Hv, bool_decide_true by (by rewrite Hs). unfold is_u64 in Hz. cbn [andb].
  destruct (Z.leb_spec z u64_max) as [|Hgt]; [done|]. unfold u64_max in Hgt. lia.
Qed.

(** A number literal ends before [rest]. *)
Definition ends_number (rest : bytes) : bool :=
  match rest with
  | b :: _ => negb (is_digit b || Byte.eqb b x2e || Byte.eqb b x65 || Byte.eqb b x45)
  | [] => true
  end.

Lemma span_digits_app d rest : forallb is_digit d = true → ends_number rest = true →
  span_digits (d ++ rest) = (d, rest).
Proof.
  intros Hd Hr. induction d as [|b d IH]; cbn [app span_digits].
  - destruct rest as [|b rest]; [done|]. cbn in *. destruct (is_digit b); done.
  - cbn [forallb] in Hd. apply andb_true_iff in Hd as [Hb Hd]. cbn. by rewrite Hb, (IH Hd).
Qed.

Lemma no_fraction rest : ends_number rest = true → fraction rest = Some ([], rest) ∧ exponent rest = Some ([], rest).
Proof. destruct rest as [|b rest]; [done|]. intros Hb. destruct b; try discriminate Hb; done. Qed.

Lemma parse_number_uint z rest : is_u64 z → ends_number rest = true →
  parse_number (print_uint z ++ rest) = Some (print_uint z, rest).
Proof.
  intros Hz Hr. destruct (print_uint_spec z Hz) as (Hd & Hv & b & s & Hs & _ & H0).
  assert (integer_part (print_uint z ++ rest) = Some (print_uint z, rest)) as Hi.
  { rewrite Hs in *. cbn [app integer_part]. destruct (Byte.eqb b x30) eqn:E.
    - by destruct (H0 eq_refl) as [_ ->].
    - cbn [forallb] in Hd. apply andb_true_iff in Hd as [Hb Hd]. rewrite Hb.
      change (b :: s ++ rest) with ((b :: s) ++ rest). f_equal.
      apply span_digits_app; [|done]. cbn. by rewrite Hb. }
  destruct (no_fraction rest Hr) as [Hf He].
  unfold parse_number. rewrite Hs in *. cbn [app] in *. cbn [forallb] in Hd.
  apply andb_true_iff in Hd as [Hb _].
  assert (∀ X (f g : bytes → X), match b :: s ++ rest with x2d :: t => f t | _ => g (b :: s ++ rest) end
    = g (b :: s ++ rest)) as Hm by (intros; destruct b; try discriminate Hb; done).
  rewrite (Hm _ (λ t, ([x2d], t)) (λ t, ([], t))). rewrite Hi. cbn. rewrite Hf. cbn. rewrite He. cbn.
  by rewrite app_nil_r.
Qed.

(** ** Trees *)
Section json_nested_ind.
Context (P : json → Prop) (Hnull : P JNull) (Hbool : ∀ b, P (JBool b)) (Hnum : ∀ n, P (JNumber n))
  (Hstr : ∀ s, P (JString s)) (Harr : ∀ l, Forall P l → P (JArray l))
  (Hobj : ∀ m, Forall (λ p, P p.2) m → P (JObject m)).

Fixpoint json_nested_ind (j : json) : P j :=
  match j with
  | JNull => Hnull
  | JBool b => Hbool b
  | JNumber n => Hnum n
  | JString s => Hstr s
  | JArray l =>
      Harr l ((fix go l : Forall P l :=
        match l with [] => Forall_nil _ | x :: l => Forall_cons _ x l (json_nested_ind x) (go l) end) l)
  | JObject m =>
      Hobj m ((fix go m : Forall (λ p, P p.2) m :=
        match m with [] => Forall_nil _ | p :: m => Forall_cons _ p m (json_nested_ind p.2) (go m) end) m)
  end.
End json_nested_ind.

Definition list_max (l : list nat) : nat := foldr Nat.max O l.

Fixpoint depth (j : json) : nat :=
  match j with
  | JArray l => S (list_max (map depth l))
  | JObject m => S (list_max (map (λ p, depth p.2) m))
  | _ => O
  end.

(** What the program writes: its numbers are [uint64]s. *)
Definition is_uint (n : bytes) : Prop := ∃ z, is_u64 z ∧ n = print_uint z.

Fixpoint writable (j : json) : Prop :=
  match j with
  | JNumber n => is_uint n
  | JArray l => foldr (λ x P, writable x ∧ P) True l
  | JObject m => foldr (λ p P, writable p.2 ∧ P) True m
  | _ => True
  end.

(** What is read back: the same tree, its strings made valid. *)
Fixpoint clean (j : json) : json :=
  match j with
  | JString s => JString (to_valid s)
  | JArray l => JArray (map clean l)
  | JObject m => JObject (map (λ p, (to_valid p.1, clean p.2)) m)
  | j => j
  end.

Lemma writable_array l : writable (JArray l) ↔ Forall writable l.
Proof. cbn. induction l as [|x l IH]; cbn; [by split|]. rewrite list.Forall_cons. by rewrite IH. Qed.

Lemma writable_object m : writable (JObject m) ↔ Forall (λ p, writable p.2) m.
Proof. cbn. induction m as [|x l IH]; cbn; [by split|]. rewrite list.Forall_cons. by rewrite IH. Qed.

(** The first byte of a value. *)
Definition starts_value (b : byte) : bool :=
  match b with
  | x7b | x5b | x22 | x6e | x74 | x66 => true
  | _ => is_digit b
  end.

Lemma print_head j : writable j → ∃ b s, print j = b :: s ∧ starts_value b = true.
Proof.
  intros Hw. destruct j as [|[]|n|s|l|m]; try by do 2 eexists.
  destruct Hw as (z & Hz & ->). destruct (print_uint_spec z Hz) as (Hd & _ & b & s & Hs & _).
  cbn [print]. rewrite Hs in *. exists b, s. split; [done|]. cbn [forallb] in Hd.
  apply andb_true_iff in Hd as [Hd _]. destruct b; try discriminate Hd; done.
Qed.

Lemma skip_space_value b s : starts_value b = true → skip_space (b :: s) = b :: s.
Proof. intros Hb. destruct b; try discriminate Hb; done. Qed.

(** After an opening bracket: no immediate closing one. *)
Lemma not_closing {X} b s (f : bytes → X) (g : X) : starts_value b = true →
  match skip_space (b :: s) with x5d :: t => f t | _ => g end = g.
Proof. intros Hb. rewrite skip_space_value by done. destruct b; try discriminate Hb; done. Qed.

Section print_containers.
Context (value : bytes → option (json * bytes)).

(** [value] reads back [j] in front of anything that ends a number. *)
Definition reads (j : json) : Prop :=
  ∀ rest, ends_number rest = true → value (print j ++ rest) = Some (clean j, rest).

Lemma separated_cons x y l : separated (x :: y :: l) = x ++ x2c :: separated (y :: l).
Proof. unfold separated. by rewrite fmap_cons, join_cons. Qed.

Lemma parse_elements_print l fuel rest : l ≠ [] → Forall reads l → (length l ≤ fuel)%nat →
  parse_elements value fuel (separated (map print l) ++ x5d :: rest) = Some (map clean l, rest).
Proof.
  intros Hne Hl. revert fuel Hne. induction Hl as [|x l Hx Hl IH]; intros [|fuel] Hne Hf; cbn [length] in Hf;
    try lia; [done..|]. cbn [parse_elements]. destruct l as [|y l].
  - cbn [map separated mjoin list_join fmap list_fmap]. by rewrite app_nil_r, (Hx (x5d :: rest) eq_refl).
  - cbn [map]. rewrite separated_cons, <- app_assoc. cbn [app]. rewrite (Hx (x2c :: _) eq_refl). cbn.
    change (print y :: map print l) with (map print (y :: l)). rewrite IH by (done || (cbn [length] in *; lia)).
    done.
Qed.

Definition print_member (p : bytes * json) : bytes := quote p.1 ++ x3a :: print p.2.

Definition clean_member (p : bytes * json) : bytes * json := (to_valid p.1, clean p.2).

Lemma parse_member_print p rest : reads p.2 → ends_number rest = true →
  parse_member value (print_member p ++ rest) = Some (clean_member p, rest).
Proof.
  intros Hv Hr. unfold parse_member, print_member. rewrite <- app_assoc. cbn [app].
  destruct (quote_read p.1) as (body & -> & Hread). cbn. rewrite Hread by done.
  cbn. by rewrite (Hv _ Hr).
Qed.

Lemma parse_members_print m fuel rest : m ≠ [] →
  Forall (λ p, reads p.2) m → (length m ≤ fuel)%nat →
  parse_members value fuel (separated (map print_member m) ++ x7d :: rest) = Some (map clean_member m, rest).
Proof.
  intros Hne Hl. revert fuel Hne. induction Hl as [|p l Hx Hl IH]; intros [|fuel] Hne Hf;
    cbn [length] in Hf; try lia; [done..|]. cbn [parse_members]. destruct l as [|y l].
  - cbn [map separated mjoin list_join fmap list_fmap].
    rewrite app_nil_r, parse_member_print by done. done.
  - cbn [map]. rewrite separated_cons, <- app_assoc. cbn [app]. rewrite parse_member_print by done. cbn.
    change (print_member y :: map print_member l) with (map print_member (y :: l)).
    rewrite IH by (done || (cbn [length] in *; lia)). done.
Qed.
End print_containers.

Lemma length_separated l : Forall (λ x : bytes, x ≠ []) l → (length l ≤ length (separated l))%nat.
Proof.
  induction 1 as [|x l Hx Hl IH]; [done|]. destruct l as [|y l].
  - destruct x; [done|]. cbn. lia.
  - rewrite separated_cons, length_app. cbn [length] in *. lia.
Qed.

Lemma print_not_nil j : writable j → print j ≠ [].
Proof. intros Hw. destruct (print_head j Hw) as (b & s & -> & _). done. Qed.

Lemma list_max_le {A} (f : A → nat) l d : (list_max (map f l) ≤ d)%nat ↔ Forall (λ x, f x ≤ d)%nat l.
Proof.
  induction l as [|x l IH]; cbn; [split; [by constructor|lia]|].
  rewrite list.Forall_cons, <- IH. unfold list_max. lia.
Qed.

Lemma parse_array_print d l rest : Forall writable l → Forall (reads (parse_value d)) l →
  parse_value (S d) (print (JArray l) ++ rest) = Some (clean (JArray l), rest).
Proof.
  intros Hw Hr. cbn [print app]. rewrite <- app_assoc. cbn [app parse_value skip_space].
  destruct l as [|x l]; [done|].
  assert (∃ b s, separated (map print (x :: l)) ++ x5d :: rest = b :: s ∧ starts_value b = true) as (b & s & Hb & Hs).
  { apply Forall_inv in Hw. destruct (print_head x Hw) as (b & s & Hb & Hs).
    cbn [map]. unfold separated. rewrite Hb. do 2 eexists. by split. }
  pose proof (parse_elements_print (parse_value d) (x :: l) (length (b :: s)) rest ltac:(done) Hr) as Hp.
  rewrite Hb in *. rewrite not_closing by done. rewrite Hp; [done|].
  rewrite <- Hb, length_app. etrans; [|apply Nat.le_add_r]. rewrite <- (length_map print).
  apply length_separated, List.Forall_map. eapply list.Forall_impl; [exact Hw|]. apply print_not_nil.
Qed.

Lemma parse_object_print d m rest : Forall (λ p, reads (parse_value d) p.2) m →
  parse_value (S d) (print (JObject m) ++ rest) = Some (clean (JObject m), rest).
Proof.
  intros Hr. cbn [print app]. rewrite <- app_assoc. cbn [app parse_value skip_space].
  change (λ p : bytes * json, quote p.1 ++ x3a :: print p.2) with print_member.
  destruct m as [|p m]; [done|].
  assert (∃ s, separated (map print_member (p :: m)) ++ x7d :: rest = x22 :: s) as (s & Hb) by (by eexists).
  pose proof (parse_members_print (parse_value d) (p :: m) (length (x22 :: s)) rest ltac:(done)) as Hp.
  rewrite Hb in *. cbn [skip_space]. rewrite Hp; [done..|].
  rewrite <- Hb, length_app. etrans; [|apply Nat.le_add_r]. rewrite <- (length_map print_member).
  apply length_separated, List.Forall_map, list.Forall_true. done.
Qed.

(** What [json.Marshal] wrote, the decoder reads, whatever follows it. *)
Lemma parse_value_print j : writable j → ∀ d, (depth j ≤ d)%nat → reads (parse_value d) j.
Proof.
  induction j as [|b|n|s|l IH|m IH] using json_nested_ind; intros Hw d Hd rest Hr.
  - by destruct d.
  - by destruct b, d.
  - destruct Hw as (z & Hz & ->). pose proof (parse_number_uint z rest Hz Hr) as Hn.
    destruct (print_uint_spec z Hz) as (Hdig & _ & b & s & Hs & _). cbn [print].
    rewrite Hs in *. cbn [forallb] in Hdig. apply andb_true_iff in Hdig as [Hb _].
    destruct b; try discriminate Hb; destruct d; cbn [parse_value app skip_space] in *; by rewrite Hn.
  - cbn [print]. destruct (quote_read s) as (body & -> & Hq).
    destruct d; cbn [parse_value app skip_space]; rewrite Hq by done; done.
  - cbn [depth] in Hd. destruct d as [|d]; [lia|].
    apply le_S_n in Hd. apply list_max_le in Hd. apply writable_array in Hw.
    apply parse_array_print; [done|]. rewrite list.Forall_forall in *. intros x Hx. by apply IH; [..|apply Hd]; auto.
  - cbn [depth] in Hd. destruct d as [|d]; [lia|].
    apply le_S_n in Hd. apply list_max_le in Hd. apply writable_object in Hw.
    apply parse_object_print. rewrite list.Forall_forall in *. intros x Hx.
    by apply IH; [..|apply (Hd x)]; auto.
Qed.

Lemma parse_print j rest : writable j → (depth j ≤ max_depth)%nat → ends_number rest = true →
  parse (print j ++ rest) = Some (clean j, rest).
Proof. intros. by apply parse_value_print. Qed.
