(* ===== verification/Cluster.v ===== *)
(** * The cluster

    Several nodes and a network that delays, reorders, duplicates and loses
    messages; nodes stop at any point between two critical sections and start
    again from their files.  A step runs one critical section of one node, with
    the definitions that model the code.

    The network is the list of all messages ever sent: a delivery leaves the
    message there.  A reply is handled at most once, by the goroutine that waits
    for it, because handling it ends the goroutine.  The 64-bit numbers of a
    message pass through [u64], as decoding into a [uint64] does, and its strings
    through [wire_string], as JSON does: bytes that are not UTF-8 are replaced. *)
From S2P Require Import Prelude GoMonad FileSystem LogEntry Store Snapshot Session Config GoLog Log Fsm Node Roles Follower Leader Candidate Raft Frame Election Campaign Json.
Local Open Scope Z_scope.

(** The answers of the handlers ([internal/transport.go]). *)
Inductive Reply :=
| PreVoteResponse (t : Z) (voteGranted : bool)
| RequestVoteResponse (t : Z) (voteGranted : bool)
| AppendEntriesResponse (r : AppendReply)
| InstallSnapshotResponse (t : Z).

(** Messages: the request of goroutine [k] of node [n], and the answer to it.  An
    InstallSnapshot request carries the snapshot read from disk. *)
Inductive Packet :=
| Request (n : string) (k : nat) (t : Task) (sn : option Snapshot)
| Response (n : string) (k : nat) (t : Task) (sn : option Snapshot) (reply : Reply).

(** An entry as it comes out of JSON: its command is in base64, its client's
    identifier a string. *)
Definition wired (e : LogEntry) : LogEntry :=
  mkLogEntry (Data e) (Term e) (wire_string (ClientId e)) (SequenceNumber e).

Definition entry_intact (e : LogEntry) : Prop := utf8_valid (string_bytes (ClientId e)) = true.

#[global] Instance entry_intact_dec e : Decision (entry_intact e).
Proof. unfold entry_intact. apply _. Defined.

Lemma wired_id e : entry_intact e → wired e = e.
Proof. intros He. unfold wired. rewrite wire_string_id by done. by destruct e. Qed.

Lemma wired_intact es : Forall entry_intact es → wired <$> es = es.
Proof. induction 1 as [|e es He _ IH]; [done|]. rewrite fmap_cons. by rewrite wired_id, IH. Qed.

(** The node a goroutine talks to. *)
Definition task_node (t : Task) : option string :=
  match t with
  | GoSendPreVote _ node _ _ _ _ => Some node
  | GoSendRequestVote _ node _ _ _ _ => Some node
  | GoSendAppendEntries _ node _ _ _ _ _ _ => Some node
  | GoSendInstallSnapshot _ node _ _ => Some node
  | GoApplier _ => None
  end.

Section cluster.
Context {L F : Type} `{GoLog L} `{FSM F}.
Abbreviation node := (Raft L F).
Abbreviation M := (RaftM L F).

(** A reply of a handler, in the type of all replies. *)
Definition as_reply {A} (f : A → Reply) (m : M A) : M Reply := a ← m; mret (f a).

(** The routes [/rpc/...] of [main.go]: run the handler for a request, as it
    comes out of JSON. *)
Definition serve (fuel : nat) (t : Task) (sn : option Snapshot) : option (M Reply) :=
  match t with
  | GoSendPreVote _ _ term candidateId i j =>
      Some (as_reply (λ p, PreVoteResponse p.1 p.2)
        (Raft__HandlePreVote (u64 (term + 1)) (wire_string candidateId) (u64 i) (u64 j)))
  | GoSendRequestVote _ _ term candidateId i j =>
      Some (as_reply (λ p, RequestVoteResponse p.1 p.2)
        (Raft__HandleRequestVote fuel (u64 term) (wire_string candidateId) (u64 i) (u64 j)))
  | GoSendAppendEntries _ _ term leaderId i j es c =>
      Some (as_reply AppendEntriesResponse
        (Raft__HandleAppendEntries fuel (u64 term) (wire_string leaderId) (u64 i) (u64 j)
           (wired <$> es) (u64 c)))
  | GoSendInstallSnapshot _ _ term leaderId =>
      sn ← sn;
      Some (as_reply InstallSnapshotResponse
        (Raft__HandleInstallSnapshot (u64 term) (wire_string leaderId)
           (LastIncludedIndex sn) (LastIncludedTerm sn) (sn_Data sn)))
  | GoApplier _ => None
  end.

Definition decode_append (r : AppendReply) : AppendReply :=
  mkAppendReply (u64 (ar_term r)) (ar_success r) (u64 (ar_conflictIndex r)) (u64 (ar_conflictTerm r)).

(** The rest of a goroutine once its call has returned. *)
Definition conclude (t : Task) (sn : option Snapshot) (reply : Reply) : M unit :=
  match t, reply with
  | GoSendPreVote a node term _ _ _, PreVoteResponse r g =>
      sendPreVote_done a node term (u64 r, g)
  | GoSendRequestVote a node term _ _ _, RequestVoteResponse r g =>
      sendRequestVote_done a node term (u64 r, g)
  | GoSendAppendEntries a node term _ i _ es _, AppendEntriesResponse r =>
      sendAppendEntries_done a node term i es (decode_append r)
  | GoSendInstallSnapshot a node _ _, InstallSnapshotResponse r =>
      match sn with
      | Some sn => sendInstallSnapshot_done a node sn (u64 r)
      | None => mret tt
      end
  | _, _ => mret tt
  end.

(** What the transport returns for a call that failed. *)
Definition failed_reply (t : Task) : Reply :=
  match t with
  | GoSendPreVote _ _ term _ _ _ =>
      let '(t, g) := PreVote_failed (u64 (term + 1)) in PreVoteResponse t g
  | GoSendRequestVote _ _ term _ _ _ =>
      let '(t, g) := RequestVote_failed term in RequestVoteResponse t g
  | GoSendAppendEntries _ _ term _ _ _ _ _ => AppendEntriesResponse (AppendEntries_failed term)
  | GoSendInstallSnapshot _ _ term _ => InstallSnapshotResponse (InstallSnapshot_failed term)
  | GoApplier _ => InstallSnapshotResponse 0
  end.

(** The other critical sections of a node.  The halves of an operation that
    releases the mutex are separate, with any arguments. *)
Inductive LocalOp :=
| OpTick
| OpDisable
| OpEnable
| OpShutdown
| OpSnapshotCapture
| OpSnapshotSave (sn : Snapshot)
| OpSnapshotFinish (sn : Snapshot)
| OpProposeLookup
| OpPropose (a : nat) (data : bytes) (clientId : string) (sequenceNumber epoch : Z)
| OpProposeCancel (a : nat) (index : Z) (ch : nat)
| OpApplier (fuel : nat) (stop_first : bool) (a : nat).

Definition run_local (op : LocalOp) (r : node) : node :=
  match op with
  | OpTick => (Raft__Tick r).2
  | OpDisable => (Raft__Disable r).2
  | OpEnable => (Raft__Enable r).2
  | OpShutdown => (Raft__Shutdown r).2
  | OpSnapshotCapture => (TakeSnapshot_capture r).2
  | OpSnapshotSave sn => (TakeSnapshot_save sn r).2
  | OpSnapshotFinish sn => (TakeSnapshot_finish sn r).2
  | OpProposeLookup => (Raft__ProposeWithSession_lookup r).2
  | OpPropose a data c n e => (RaftRole__HandlePropose a data c n e r).2
  | OpProposeCancel a i ch => (LeaderRole__HandlePropose_cancel a i ch r).2
  | OpApplier fuel b a => (LeaderRole__applier fuel b a r).2
  end.

(** A node runs, or has stopped and left its files and its log; [next] keeps
    addresses apart across restarts. *)
Inductive Slot :=
| Up (r : node)
| Down (fs : Fs) (log : L) (next : nat).

Definition stop (r : node) : Slot := Down (r_fs r) (r_log r) (r_next r).

Definition slot_log (x : Slot) : L :=
  match x with Up r => r_log r | Down _ log _ => log end.

(** A handler that exhausts the stack takes the process down; a panic is caught
    by the HTTP server. *)
Definition settle {A} (res : outcome A * node) : Slot :=
  match res.1 with OutOfFuel => stop res.2 | _ => Up res.2 end.

Record Cluster := mkCluster {
  cl_slots : gmap string Slot;
  cl_net : list Packet
}.

Definition set_slot (n : string) (x : Slot) (c : Cluster) : Cluster :=
  mkCluster (<[n := x]> (cl_slots c)) (cl_net c).
Definition send (p : list Packet) (c : Cluster) : Cluster :=
  mkCluster (cl_slots c) (cl_net c ++ p).

Definition drop_task (k : nat) (r : node) : node := set_r_tasks (delete k (r_tasks r)) r.

(** The membership and the data directories are fixed. *)
Context (nodes : list string) (dataDir : string → string).

Definition store_file (n : string) : string := dataDir n +:+ "/store.data".

Inductive step : Cluster → Cluster → Prop :=
| step_start c n fs old next fs0 fs1 st log fsm cfg rng res :
    (* [main]: the store file survived, everything else may differ *)
    cl_slots c !! n = Some (Down fs old next) → n ∈ nodes →
    fs_cur fs0 !! store_file n = fs_cur fs !! store_file n → io_honest fs0 →
    NewStore (store_file n) fs0 = (Ret (inr st), fs1) →
    NewRaft n (dataDir n) nodes log st fs1 fsm cfg rng next = res →
    step c (set_slot n (match res.1 with Ret _ => Up res.2 | _ => stop res.2 end) c)
| step_stop c n r :
    cl_slots c !! n = Some (Up r) → step c (set_slot n (stop r) c)
| step_local c n r op :
    cl_slots c !! n = Some (Up r) → term_of r < u64_max →
    step c (set_slot n (Up (run_local op r)) c)
| step_send c n r k t :
    cl_slots c !! n = Some (Up r) → r_tasks r !! k = Some t →
    (∀ a node term id, t ≠ GoSendInstallSnapshot a node term id) →
    step c (send [Request n k t None] c)
| step_send_snapshot c n r k a node term id sn r' :
    cl_slots c !! n = Some (Up r) → r_tasks r !! k = Some (GoSendInstallSnapshot a node term id) →
    LeaderRole__sendInstallSnapshotToNode a node r = (Ret (Some sn), r') →
    step c (send [Request n k (GoSendInstallSnapshot a node term id) (Some sn)]
              (set_slot n (Up r') c))
| step_no_snapshot c n r k a node term id r' :
    cl_slots c !! n = Some (Up r) → r_tasks r !! k = Some (GoSendInstallSnapshot a node term id) →
    LeaderRole__sendInstallSnapshotToNode a node r = (Ret None, r') →
    step c (set_slot n (Up (drop_task k r')) c)
| step_serve c n k t sn m r fuel handler res :
    Request n k t sn ∈ cl_net c → task_node t = Some m → cl_slots c !! m = Some (Up r) →
    serve fuel t sn = Some handler → handler r = res →
    step c (send (match res.1 with Ret reply => [Response n k t sn reply] | _ => [] end)
              (set_slot m (settle res) c))
| step_reply c n r k t sn reply :
    Response n k t sn reply ∈ cl_net c →
    cl_slots c !! n = Some (Up r) → r_tasks r !! k = Some t → term_of r < u64_max →
    step c (set_slot n (Up (conclude t sn reply (drop_task k r)).2) c)
| step_fail c n r k t sn :
    cl_slots c !! n = Some (Up r) → r_tasks r !! k = Some t → term_of r < u64_max →
    step c (set_slot n (Up (conclude t sn (failed_reply t) (drop_task k r)).2) c).

(** A new cluster: nothing on disk, nothing sent. *)
Definition initial (c : Cluster) : Prop :=
  cl_net c = [] ∧ ∀ n x, cl_slots c !! n = Some x →
    n ∈ nodes ∧ ∃ fs log next, x = Down fs log next ∧ fs_cur fs !! store_file n = None.

(** Node [n] is a leader of term [T]. *)
Definition is_leader (c : Cluster) (n : string) (T : Z) : Prop :=
  ∃ r, cl_slots c !! n = Some (Up r) ∧ leads r ∧ term_of r = T.

(** ** Running a schedule

    An executable fragment of the step relation: no failing file operations, and
    fixed parameters of the nodes that start, each with the log it left. *)
Inductive Command :=
| CStart (n : string)
| CStop (n : string)
| CLocal (n : string) (op : LocalOp)
| CSend (n : string) (k : nat)
| CServe (i : nat)
| CReply (i : nat)
| CFail (n : string) (k : nat).

Context (fsm0 : F) (cfg0 : Config).

Definition run_command (c : Cluster) (cmd : Command) : option Cluster :=
  match cmd with
  | CStart n =>
      if decide (n ∈ nodes) then
        match cl_slots c !! n with
        | Some (Down fs log next) =>
            match NewStore (store_file n) (mkFs (fs_cur fs) (fs_dur fs) (λ _, IoOk) 0) with
            | (Ret (inr st), fs1) =>
                let res := NewRaft n (dataDir n) nodes log st fs1 fsm0 cfg0 (λ _, 0) next in
                Some (set_slot n (match res.1 with Ret _ => Up res.2 | _ => stop res.2 end) c)
            | _ => None
            end
        | _ => None
        end
      else None
  | CStop n =>
      match cl_slots c !! n with Some (Up r) => Some (set_slot n (stop r) c) | _ => None end
  | CLocal n op =>
      match cl_slots c !! n with
      | Some (Up r) => if term_of r <? u64_max then Some (set_slot n (Up (run_local op r)) c) else None
      | _ => None
      end
  | CSend n k =>
      match cl_slots c !! n with
      | Some (Up r) =>
          match r_tasks r !! k with
          | Some (GoSendInstallSnapshot _ _ _ _) | None => None
          | Some t => Some (send [Request n k t None] c)
          end
      | _ => None
      end
  | CServe i =>
      match cl_net c !! i with
      | Some (Request n k t sn) =>
          m ← task_node t;
          match cl_slots c !! m with
          | Some (Up r) =>
              handler ← serve 8 t sn;
              let res := handler r in
              Some (send (match res.1 with Ret reply => [Response n k t sn reply] | _ => [] end)
                      (set_slot m (settle res) c))
          | _ => None
          end
      | _ => None
      end
  | CReply i =>
      match cl_net c !! i with
      | Some (Response n k t sn reply) =>
          match cl_slots c !! n with
          | Some (Up r) =>
              if term_of r <? u64_max then
                if decide (r_tasks r !! k = Some t)
                then Some (set_slot n (Up (conclude t sn reply (drop_task k r)).2) c)
                else None
              else None
          | _ => None
          end
      | _ => None
      end
  | CFail n k =>
      match cl_slots c !! n with
      | Some (Up r) =>
          if term_of r <? u64_max then
            t ← r_tasks r !! k;
            Some (set_slot n (Up (conclude t None (failed_reply t) (drop_task k r)).2) c)
          else None
      | _ => None
      end
  end.

Fixpoint run_schedule (c : Cluster) (cmds : list Command) : option Cluster :=
  match cmds with
  | [] => Some c
  | cmd :: cmds => c' ← run_command c cmd; run_schedule c' cmds
  end.

Lemma run_command_sound c cmd c' : run_command c cmd = Some c' → step c c'.
Proof.
  intros Hrun. destruct cmd as [n|n|n op|n k|i|i|n k]; simpl in Hrun.
  - destruct (decide (n ∈ nodes)); [|done].
    destruct (cl_slots c !! n) as [[r|fs old next]|] eqn:Hn; [done| |done].
    destruct (NewStore _ _) as [[[?|st]| |] fs1] eqn:Hst; try done. injection Hrun as <-.
    eapply step_start; [done|done| | |exact Hst|reflexivity]; done.
  - destruct (cl_slots c !! n) as [[r|]|] eqn:Hn; try done. injection Hrun as <-. by apply step_stop.
  - destruct (cl_slots c !! n) as [[r|]|] eqn:Hn; try done.
    destruct (Z.ltb_spec (term_of r) u64_max); [|done]. injection Hrun as <-. by apply step_local.
  - destruct (cl_slots c !! n) as [[r|]|] eqn:Hn; try done.
    destruct (r_tasks r !! k) as [t|] eqn:Hk; [|done].
    destruct t; try done; injection Hrun as <-; by eapply step_send.
  - destruct (cl_net c !! i) as [[n k t sn|]|] eqn:Hi; try done.
    destruct (task_node t) as [m|] eqn:Ht; [|done]. simpl in Hrun.
    destruct (cl_slots c !! m) as [[r|]|] eqn:Hm; try done.
    destruct (serve 8 t sn) as [h|] eqn:Hs; [|done]. simpl in Hrun. injection Hrun as <-.
    eapply step_serve; [by eapply list_elem_of_lookup_2|done|done|exact Hs|done].
  - destruct (cl_net c !! i) as [[|n k t sn reply]|] eqn:Hi; try done.
    destruct (cl_slots c !! n) as [[r|]|] eqn:Hn; try done.
    destruct (Z.ltb_spec (term_of r) u64_max); [|done].
    destruct (decide _); [|done]. injection Hrun as <-.
    eapply step_reply; [by eapply list_elem_of_lookup_2|done..].
  - destruct (cl_slots c !! n) as [[r|]|] eqn:Hn; try done.
    destruct (Z.ltb_spec (term_of r) u64_max); [|done].
    destruct (r_tasks r !! k) as [t|] eqn:Hk; [|done]. injection Hrun as <-. by eapply step_fail.
Qed.

Lemma run_schedule_sound cmds c c' : run_schedule c cmds = Some c' → rtc step c c'.
Proof.
  revert c. induction cmds as [|cmd cmds IH]; intros c Hrun; simpl in Hrun.
  - injection Hrun as <-. apply rtc_refl.
  - destruct (run_command c cmd) as [c1|] eqn:Hc; [|done].
    eapply rtc_l; [by eapply run_command_sound|by apply IH].
Qed.

(** ** What a step does to one running node

    Every relation that the critical sections move along relates the states of a
    node that runs before and after a step; a node that runs only after it has
    just been started. *)
Section step_moves.
Context (R : relation node) `{!PreOrder R}.
Context (Hlocal : ∀ op r, R r (run_local op r)).
Context (Hserve : ∀ fuel t sn handler, serve fuel t sn = Some handler → moves R handler).
Context (Hconclude : ∀ t sn reply, moves R (conclude t sn reply)).
Context (Hdrop : ∀ k r, R r (drop_task k r)).
Context (Hsend : ∀ a m, moves R (LeaderRole__sendInstallSnapshotToNode a m)).

Definition started (c : Cluster) (n : string) (r : node) : Prop :=
  ∃ fs old next log st fs1 fsm cfg rng a, cl_slots c !! n = Some (Down fs old next) ∧
    NewRaft n (dataDir n) nodes log st fs1 fsm cfg rng next = (Ret a, r).

Lemma step_up c c' n r' : step c c' → cl_slots c' !! n = Some (Up r') →
  (∃ r, cl_slots c !! n = Some (Up r) ∧ R r r') ∨ started c n r'.
Proof.
  intros Hstep Hr'.
  assert (∀ ps m q y, cl_slots c !! m = Some (Up q) → (∀ q', y = Up q' → R q q') →
    cl_slots (send ps (set_slot m y c)) !! n = Some (Up r') → ∃ r, cl_slots c !! n = Some (Up r) ∧ R r r') as Hset.
  { intros ps m q y Hm Hle. cbn. destruct (decide (m = n)) as [->|Hne].
    - rewrite lookup_insert_eq. intros [= ->]. exists q. auto.
    - rewrite lookup_insert_ne by done. intros Hx. by exists r'. }
  destruct Hstep as [c m fs old next fs0 fs1 st log fsm cfg rng res Hm Hin Hf Hh Hst Hres
    |c m q Hq|c m q op Hq Hmax|c m q k t Hq Hk Ht|c m q k a node term id sn q' Hq Hk Hrun
    |c m q k a node term id q' Hq Hk Hrun|c k0 k t sn m q fuel handler res Hreq Hto Hq Hs Hres
    |c m q k t sn reply Hrep Hq Hk Hmax|c m q k t sn Hq Hk Hmax].
  - cbn in Hr'. destruct (decide (m = n)) as [->|Hne].
    + rewrite lookup_insert_eq in Hr'. right. destruct res as [[a| |] r]; try discriminate Hr'; injection Hr' as Er; subst r.
      by exists fs, old, next, log, st, fs1, fsm, cfg, rng, a.
    + rewrite lookup_insert_ne in Hr' by done. left. by exists r'.
  - left. by apply (Hset [] m q _ Hq) in Hr'.
  - left. apply (Hset [] m q _ Hq) in Hr'; [done|]. intros ? [= <-]. apply Hlocal.
  - left. by exists r'.
  - left. apply (Hset _ m q _ Hq) in Hr'; [done|]. intros ? [= <-]. by eapply moves_run, Hrun.
  - left. apply (Hset [] m q _ Hq) in Hr'; [done|]. intros ? [= <-].
    etrans; [by eapply moves_run, Hrun|apply Hdrop].
  - left. apply (Hset _ m q _ Hq) in Hr'; [done|]. subst res.
    pose proof (Hserve _ _ _ _ Hs q) as Hle. unfold settle.
    destruct (handler q) as [[| |] q2]; cbn [fst snd] in *; by intros ? [= <-].
  - left. apply (Hset [] m q _ Hq) in Hr'; [done|]. intros ? [= <-].
    etrans; [apply (Hdrop k)|apply Hconclude].
  - left. apply (Hset [] m q _ Hq) in Hr'; [done|]. intros ? [= <-].
    etrans; [apply (Hdrop k)|apply Hconclude].
Qed.
End step_moves.
End cluster.
