(* ===== verification/ElectionSafety.v ===== *)
(** * Election safety

    Every step of the cluster keeps the election invariant of its nodes, votes
    are never taken back, and two majorities share a voter: so no term ever has
    two leaders, whatever is lost, delayed, duplicated or restarted. *)
From S2P Require Import Prelude GoMonad FileSystem LogEntry Store Snapshot Session Config GoLog Log Fsm Node Roles Follower Leader Candidate Raft Demo Frame Election Campaign Json Cluster.
Local Open Scope Z_scope.

(** ** Two majorities intersect *)
Lemma majorities_intersect (nodes : list string) (C D : gset string) :
  C ⊆ list_to_set nodes → D ⊆ list_to_set nodes →
  Z.of_nat (length nodes) < 2 * Z.of_nat (size C) →
  Z.of_nat (length nodes) < 2 * Z.of_nat (size D) → ∃ v, v ∈ C ∧ v ∈ D.
Proof.
  intros HC HD Hc Hd. destruct (decide (C ∩ D = ∅)) as [Hempty|Hne].
  - exfalso. assert (size (C ∪ D) <= length nodes)%nat as Hle.
    { apply size_electorate. by apply union_subseteq. }
    rewrite size_union in Hle by (by apply disjoint_intersection_L). lia.
  - apply set_choose_L in Hne as [v Hv]. exists v. by apply elem_of_intersection in Hv.
Qed.

Lemma elected_unique V nodes T c d : elected V nodes T c → elected V nodes T d → c = d.
Proof.
  intros (C & HC & Hc & HVc) (D & HD & Hd & HVd).
  destruct (majorities_intersect nodes C D) as (v & HvC & HvD); [done..|].
  apply HVc in HvC. apply HVd in HvD. congruence.
Qed.

Lemma elected_grow V V' nodes T c : V ⊆ V' → elected V nodes T c → elected V' nodes T c.
Proof.
  intros Hs (C & ? & ? & HC). exists C. split_and!; try done.
  intros v Hv. eapply lookup_weaken; [by apply HC|done].
Qed.

Section safety.
Context {L F : Type} `{GoLog L} `{FSM F}.
Abbreviation node := (Raft L F).
Context (nodes : list string) (dataDir : string → string).

(** The membership list: no repetition, names that can be voted for and that JSON
    carries unchanged (a member's name is its network address). *)
Record membership_ok : Prop := {
  mo_nodup : NoDup nodes;
  mo_names n : n ∈ nodes → name_ok n;
  mo_wire n : n ∈ nodes → utf8_valid (string_bytes n) = true;
  mo_length : Z.of_nat (length nodes) < 4611686018427387904
}.

(** Less is needed for what a node does by itself: names that can be voted for in
    the form in which they arrive. *)
Record members_ok : Prop := {
  mb_nodup : NoDup nodes;
  mb_names n : n ∈ nodes → name_ok n;
  mb_arrive n : n ∈ nodes → name_ok (wire_string n);
  mb_length : Z.of_nat (length nodes) < 4611686018427387904
}.

Lemma membership_members : membership_ok → members_ok.
Proof. intros [Hd Hn Hw Hl]. split; auto. intros n Hin. rewrite wire_string_id; auto. Qed.

Definition disk_inv (V : votes) (n : string) (fs : Fs) : Prop :=
  ∃ t v, file_holds (fs_cur fs !! store_file dataDir n) t v ∧ is_u64 t ∧ short v
    ∧ ∀ T c, V !! (T, n) = Some c → c ≠ ""%string ∧ (T < t ∨ (T = t ∧ v = c)).

Definition slot_inv (V : votes) (n : string) (x : Slot) : Prop :=
  match x with
  | Up r => r_id r = n ∧ r_nodes r = nodes ∧ r_dataDir r = dataDir n ∧ ∃ E, elect_inv V E (r : node)
  | Down fs _ _ => disk_inv V n fs
  end.

Definition packet_inv (V : votes) (p : Packet) : Prop :=
  match p with
  | Request n _ (GoSendRequestVote _ _ _ id _ _) _ => id = n ∧ n ∈ nodes
  | Response n _ (GoSendRequestVote _ v _ _ _ _) _ (RequestVoteResponse t true) =>
      V !! (t, v) = Some n ∧ is_u64 t
  | _ => True
  end.

Definition cluster_inv (V : votes) (c : Cluster) : Prop :=
  (∀ n x, cl_slots c !! n = Some x → n ∈ nodes ∧ slot_inv V n x)
  ∧ ∀ p, p ∈ cl_net c → packet_inv V p.

(** ** Other nodes and messages when a node votes *)
Lemma elect_inv_grow V V' E n (r : node) :
  own_votes_grow n V V' → r_id r ≠ n → elect_inv V E r → elect_inv V' E r.
Proof.
  intros [Hs Ho] Hne [I1 I2 I3 I4 Iv I5 I6 I7 Ir I8 I9 I10 I11 I12]. split; auto.
  - intros T c. rewrite Ho by done. apply I5.
  - intros a T C HE. destruct (I6 a T C HE) as (? & ? & ? & HC). split_and!; try done.
    intros v Hv. eapply lookup_weaken; [by apply HC|done].
  - intros Hl. eapply elected_grow; [done|auto].
Qed.

Lemma slot_inv_grow V V' n m x :
  own_votes_grow n V V' → m ≠ n → slot_inv V m x → slot_inv V' m x.
Proof.
  intros Hg Hne. destruct x as [r|fs old next]; simpl.
  - intros (Hi & ? & ? & E & I). split_and!; try done. exists E.
    eapply elect_inv_grow; [done|congruence|done].
  - intros (t & v & ? & ? & ? & Hv). exists t, v. split_and!; try done.
    intros T c. destruct Hg as [_ Ho]. rewrite Ho by done. apply Hv.
Qed.

Lemma packet_inv_grow V V' p : V ⊆ V' → packet_inv V p → packet_inv V' p.
Proof.
  intros Hs. destruct p as [n k t sn|n k t sn r]; [done|]. destruct t; try done.
  destruct r as [|t g| |]; try done. destruct g; [|done]. simpl. intros [HV ?]. split; [|done].
  by eapply lookup_weaken.
Qed.

(** One node moves; its messages go out. *)
Lemma cluster_inv_update V V' c n x ps :
  cluster_inv V c → n ∈ nodes → own_votes_grow n V V' → slot_inv V' n x →
  (∀ p, p ∈ ps → packet_inv V' p) → cluster_inv V' (send ps (set_slot n x c)).
Proof.
  intros [Hs Hp] Hn Hg Hx Hps. split; simpl.
  - intros m y. destruct (decide (n = m)) as [<-|Hne].
    + rewrite lookup_insert_eq. by intros [= <-].
    + rewrite lookup_insert_ne by done. intros Hy. destruct (Hs m y Hy). split; [done|].
      eapply slot_inv_grow; [done|congruence|done].
  - intros p [Hin|Hin]%elem_of_app; [|auto]. eapply packet_inv_grow; [apply Hg|auto].
Qed.

Lemma cluster_inv_set V V' c n x :
  cluster_inv V c → n ∈ nodes → own_votes_grow n V V' → slot_inv V' n x →
  cluster_inv V' (set_slot n x c).
Proof.
  intros Hc Hn Hg Hx. pose proof (cluster_inv_update V V' c n x [] Hc Hn Hg Hx) as Hu.
  destruct c. unfold send, set_slot in *. simpl in *. rewrite app_nil_r in Hu. apply Hu.
  intros p Hin. by apply elem_of_nil in Hin.
Qed.

Lemma slot_inv_stop V n (r : node) : slot_inv V n (Up r) → slot_inv V n (stop r).
Proof.
  intros (Hi & Hn & Hd & E & I). exists (term_of r), (vote_of r).
  assert (store_file dataDir n = store_path r) as -> by (unfold store_file, store_path; congruence).
  split_and!; [apply (ei_disk _ _ _ I)|apply I|apply I|]. rewrite <- Hi. apply I.
Qed.

Lemma elect_to_slot V n (r r' : node) P :
  slot_inv V n (Up r) → elect_to V r r' P →
  ∃ V', own_votes_grow n V V' ∧ slot_inv V' n (Up r') ∧ P V'.
Proof.
  intros (Hi & Hn & Hd & _) (H1 & H2 & H3 & _ & V' & E' & I' & Hg & HP).
  exists V'. rewrite <- Hi. split_and!; try done; simpl; split_and!; try congruence. eauto.
Qed.

(** ** The kinds of steps *)
Lemma run_local_to V E op (r : node) :
  elect_inv V E r → term_of r < u64_max → elect_to V r (run_local op r) anything.
Proof.
  intros I Hmax. destruct op; simpl; [by eapply Tick_to|..].
  all: match goal with |- elect_to _ _ (?m ?s).2 _ =>
         let Hm := fresh in assert (moves elect_moves m) as Hm by auto using Enable_moves with moves;
         by eapply Hm end.
Qed.

Lemma drop_task_view k (r : node) : view_kept r (drop_task k r).
Proof.
  split; try done; simpl; auto.
  intros j t. destruct (decide (k = j)) as [<-|Hne].
  - by rewrite lookup_delete_eq.
  - rewrite lookup_delete_ne by done. auto.
Qed.

(** A reply that says a vote was granted tells the truth. *)
Definition reply_true (V : votes) (id : string) (t : Task) (reply : Reply) : Prop :=
  match t, reply with
  | GoSendRequestVote _ v _ _ _ _, RequestVoteResponse r true => V !! (r, v) = Some id ∧ is_u64 r
  | _, _ => True
  end.

Lemma conclude_to V E k t sn reply (r : node) :
  elect_inv V E r → r_tasks r !! k = Some t → term_of r < u64_max →
  reply_true V (r_id r) t reply →
  elect_to V r (conclude t sn reply (drop_task k r)).2 anything.
Proof.
  intros I Hk Hmax Hreply. pose proof (drop_task_view k r) as K.
  eapply elect_to_view; [exact K|]. pose proof (elect_inv_view _ _ _ _ K I) as I'.
  destruct t as [a v T id i j|a v T id i j|a v T id i j es ci|a v T id|a];
    destruct reply as [t g|t g|ar|t]; simpl; try (by eapply elect_to_refl).
  - eapply sendPreVote_to; [done|apply u64_range|done].
  - destruct (ei_request _ _ _ I k a v T id i j Hk) as (_ & Hv & _ & C & HE & HvC).
    eapply sendRequestVote_to; [exact I'|exact HE|exact Hv|exact HvC| |apply u64_range|].
    + intros (k' & T' & id' & i' & j' & Hk'). simpl in Hk'.
      destruct (decide (k = k')) as [<-|Hne]; [by rewrite lookup_delete_eq in Hk'|].
      rewrite lookup_delete_ne in Hk' by done. apply Hne.
      by eapply (ei_request_once _ _ _ I).
    + intros ->. destruct Hreply as [HV Ht]. by rewrite u64_small.
  - by eapply sendAppendEntries_done_moves; [apply u64_range|].
  - destruct sn as [sn|]; [|by eapply elect_to_refl].
    by eapply sendInstallSnapshot_done_moves; [apply u64_range|].
Qed.

Lemma failed_reply_true V id t : reply_true V id t (failed_reply t).
Proof. by destruct t. Qed.

Lemma as_reply_state {A} (f : A → Reply) (m : RaftM L F A) r : (as_reply f m r).2 = (m r).2.
Proof. unfold as_reply. rewrite bind_run. by destruct (m r) as [[| |] ?]. Qed.

Lemma as_reply_moves {A} V E (f : A → Reply) (m : RaftM L F A) (r : node) :
  moves elect_moves m → elect_inv V E r → elect_to V r (as_reply f m r).2 anything.
Proof. intros Hm I. rewrite as_reply_state. by eapply Hm. Qed.

Lemma elect_to_weaken (V : votes) (r r' : node) (P : votes → Prop) :
  elect_to V r r' anything → (∀ V', P V') → elect_to V r r' P.
Proof.
  intros (A1 & A2 & A3 & A4 & V' & E' & A5 & A6 & _) HP. split_and!; try done. by exists V', E'.
Qed.

(** What a served request promises about its reply: a granted vote is a vote for
    the name that arrived. *)
Definition grant_holds (V : votes) (t : Task) (reply : Reply) : Prop :=
  match t, reply with
  | GoSendRequestVote _ v _ id _ _, RequestVoteResponse u true =>
      V !! (u, v) = Some (wire_string id) ∧ is_u64 u
  | _, _ => True
  end.

Definition asks_for_member (t : Task) : Prop :=
  match t with GoSendRequestVote _ _ _ id _ _ => id ∈ nodes | _ => True end.

Lemma serve_to V E fuel t sn handler (r : node) :
  members_ok → elect_inv V E r → task_node t = Some (r_id r) →
  asks_for_member t → serve fuel t sn = Some handler →
  elect_to V r (handler r).2 (λ V', ∀ reply, (handler r).1 = Ret reply → grant_holds V' t reply).
Proof.
  intros Hmo I Hto Hp Hs.
  destruct t as [a v T id i j|a v T id i j|a v T id i j es ci|a v T id|a]; simpl in Hs; try done.
  - injection Hs as <-. apply elect_to_weaken; [|done].
    eapply as_reply_moves; [apply (frame_HandlePreVote elect_moves)|done].
  - injection Hs as <-. injection Hto as ->.
    pose proof (HandleRequestVote_to V E fuel (u64 T) (wire_string id) (u64 i) (u64 j) r I (u64_range T)
      (mb_arrive Hmo id Hp)) as (A1 & A2 & A3 & A4 & V' & E' & A5 & A6 & A7).
    unfold as_reply. rewrite bind_run.
    destruct (Raft__HandleRequestVote fuel (u64 T) (wire_string id) (u64 i) (u64 j) r) as [res r'].
    destruct res as [[t g]| |]; cbn [fst snd mret GoM_ret] in *;
      (split_and!; try done; exists V', E'; split_and!; try done).
    intros reply [= <-]. cbn. destruct g; [|done].
    destruct (A7 t eq_refl) as [-> HV]. split; [done|apply u64_range].
  - injection Hs as <-. apply elect_to_weaken; [|done].
    eapply as_reply_moves; [apply HandleAppendEntries_moves, u64_range|done].
  - destruct sn as [sn|]; [|done]. injection Hs as <-. apply elect_to_weaken; [|done].
    eapply as_reply_moves; [apply HandleInstallSnapshot_moves, u64_range|done].
Qed.

Lemma request_asks V n k t sn : packet_inv V (Request n k t sn) → asks_for_member t.
Proof. destruct t; simpl; try done. by intros [-> ?]. Qed.

Lemma grant_packet V V0 n k t sn reply :
  membership_ok → packet_inv V0 (Request n k t sn) → grant_holds V t reply →
  packet_inv V (Response n k t sn reply).
Proof.
  intros Hmo Hp. destruct t; try done. destruct Hp as [-> Hn]. destruct reply as [|u g| |]; try done.
  destruct g; [|done]. simpl. by rewrite wire_string_id by by apply (mo_wire Hmo).
Qed.

Lemma nodes_ok_member n : members_ok → n ∈ nodes → nodes_ok n nodes.
Proof. intros Hmo Hn. destruct Hmo as [? Hnm _ ?]. split_and!; auto; by apply Hnm. Qed.

(** A node starts from its store file. *)
Lemma blank_inv V n log fs fsm cfg rng next t v :
  members_ok → n ∈ nodes → file_holds (fs_cur fs !! store_file dataDir n) t v →
  is_u64 t → short v →
  (∀ T c, V !! (T, n) = Some c → c ≠ ""%string ∧ (T < t ∨ (T = t ∧ v = c))) →
  elect_inv V ∅ (blank_node n (dataDir n) nodes log (mkStore 0 t 0 "" (store_file dataDir n) v)
    fs fsm cfg rng next : node).
Proof.
  intros Hmo Hn Hf Hu Hsh Hv. split; simpl; try done.
  - by apply nodes_ok_member.
  - intros a [x Hx]. by rewrite lookup_empty in Hx.
  - intros k [x Hx]. by rewrite lookup_empty in Hx.
  - by intros (a & l & Ha & _).
Qed.

Lemma start_inv V n fs0 fs1 st log fsm cfg rng next :
  members_ok → n ∈ nodes → disk_inv V n fs0 → io_honest fs0 →
  NewStore (store_file dataDir n) fs0 = (Ret (inr st), fs1) →
  ∃ V', own_votes_grow n V V'
    ∧ slot_inv V' n (Up ((NewRaft n (dataDir n) nodes log st fs1 fsm cfg rng next).2 : node)).
Proof.
  intros Hmo Hn (t & v & Hf & Hu & Hsh & Hv) Hh Hst.
  destruct (NewStore_reads _ _ _ _ _ _ Hh Hf Hu Hsh Hst) as [-> Hcur]. rewrite <- Hcur in Hf.
  pose proof (blank_inv V n log fs1 fsm cfg rng next t v Hmo Hn Hf Hu Hsh Hv) as I.
  pose proof (NewRaft_to _ _ _ _ _ _ _ _ _ _ _ I) as Ht.
  eapply (elect_to_slot V n) in Ht as (V' & ? & ? & _); [eauto|]. split_and!; try done. eauto.
Qed.

Lemma slot_up V c n (r : node) : cluster_inv V c → cl_slots c !! n = Some (Up r) →
  n ∈ nodes ∧ slot_inv V n (Up r) ∧ r_id r = n ∧ ∃ E, elect_inv V E r.
Proof. intros [Hs _] Hr. destruct (Hs n _ Hr) as [Hn Hx]. split_and!; try done; apply Hx. Qed.

(** A node's own step, and what it sends. *)
Lemma node_step V c n (r r' : node) x ps P :
  cluster_inv V c → cl_slots c !! n = Some (Up r) → elect_to V r r' P →
  (∀ V', slot_inv V' n (Up r') → slot_inv V' n x) →
  (∀ V' p, P V' → p ∈ ps → packet_inv V' p) →
  ∃ V', V ⊆ V' ∧ cluster_inv V' (send ps (set_slot n x c)).
Proof.
  intros Hc Hr Ht Hx Hps. destruct (slot_up V c n r Hc Hr) as (Hn & Hs & _).
  destruct (elect_to_slot V n r r' P Hs Ht) as (V' & Hg & Hs' & HP).
  exists V'. split; [apply Hg|]. eapply cluster_inv_update; eauto.
Qed.

Lemma node_step_quiet V c n (r r' : node) :
  cluster_inv V c → cl_slots c !! n = Some (Up r) → elect_to V r r' anything →
  ∃ V', V ⊆ V' ∧ cluster_inv V' (set_slot n (Up r') c).
Proof.
  intros Hc Hr Ht. destruct (node_step V c n r r' (Up r') [] anything) as (V' & ? & Hc'); [done..| |].
  { intros V' p _ Hp. by apply elem_of_nil in Hp. }
  exists V'. split; [done|]. unfold send in Hc'. rewrite app_nil_r in Hc'. by destruct c.
Qed.

Lemma step_inv V c c' :
  membership_ok → cluster_inv V c → step nodes dataDir c c' →
  ∃ V', V ⊆ V' ∧ cluster_inv V' c'.
Proof.
  intros Hmo Hc Hstep. destruct Hstep as [c n fs old next fs0 fs1 st log fsm cfg rng res Hn Hin Hf Hh Hst Hres
    |c n r Hr|c n r op Hr Hmax|c n r k t Hr Hk Ht|c n r k a node term id sn r' Hr Hk Hrun
    |c n r k a node term id r' Hr Hk Hrun|c n k t sn m r fuel handler res Hreq Hto Hr Hs Hres
    |c n r k t sn reply Hrep Hr Hk Hmax|c n r k t sn Hr Hk Hmax].
  - destruct Hc as [Hs Hp]. destruct (Hs n _ Hn) as [_ Hd]. simpl in Hd.
    assert (disk_inv V n fs0) as Hd0 by (unfold disk_inv in *; by rewrite Hf).
    destruct (start_inv V n fs0 fs1 st log fsm cfg rng next (membership_members Hmo) Hin Hd0 Hh Hst) as (V' & Hg & Hx).
    rewrite Hres in Hx. exists V'. split; [apply Hg|]. eapply cluster_inv_set; [by split|done..|].
    destruct res as [[| |] r']; [done|by apply slot_inv_stop..].
  - destruct (slot_up V c n r Hc Hr) as (Hn & Hs & _). exists V. split; [done|].
    eapply cluster_inv_set; [done..|by split|by apply slot_inv_stop].
  - destruct (slot_up V c n r Hc Hr) as (_ & _ & _ & E & I).
    eapply node_step_quiet; [done..|by eapply run_local_to].
  - exists V. split; [done|]. destruct (slot_up V c n r Hc Hr) as (Hn & _ & Hid & E & I).
    destruct Hc as [Hs Hp]. split; [done|]. simpl. intros p [Hp'|Hp']%elem_of_app; [auto|].
    apply list_elem_of_singleton in Hp' as ->. destruct t; try done.
    destruct (ei_request _ _ _ I _ _ _ _ _ _ _ Hk) as (-> & _). done.
  - destruct (slot_up V c n r Hc Hr) as (_ & _ & _ & E & I).
    eapply (node_step V c n r r'); [done..| |done|].
    + pose proof (frame_sendInstall elect_moves a node r) as Hm. rewrite Hrun in Hm. by eapply Hm.
    + by intros V' p _ ->%list_elem_of_singleton.
  - destruct (slot_up V c n r Hc Hr) as (_ & _ & _ & E & I).
    eapply node_step_quiet; [done..|]. eapply elect_to_moves; [|apply view_kept_moves, drop_task_view].
    pose proof (frame_sendInstall elect_moves a node r) as Hm. rewrite Hrun in Hm. by eapply Hm.
  - destruct (slot_up V c m r Hc Hr) as (Hn & _ & Hid & E & I). subst m res.
    eapply node_step; [done..| | |].
    + eapply (serve_to V E fuel t sn handler r); [by apply membership_members|done..| |done].
      eapply request_asks. by apply Hc.
    + intros V' Hx. unfold settle. destruct (handler r) as [[| |] ?]; [done|done|by apply slot_inv_stop].
    + intros V' p HP Hp. simpl in HP. destruct (handler r) as [[reply| |] ?]; simpl in *;
        [|by apply elem_of_nil in Hp..]. apply list_elem_of_singleton in Hp as ->.
        eapply grant_packet; [done|by apply Hc|by apply HP].
  - destruct (slot_up V c n r Hc Hr) as (_ & _ & Hid & E & I).
    eapply node_step_quiet; [done..|]. eapply conclude_to; [done..|].
    destruct Hc as [_ Hp]. apply Hp in Hrep. unfold reply_true. rewrite Hid. by destruct t.
  - destruct (slot_up V c n r Hc Hr) as (_ & _ & _ & E & I).
    eapply node_step_quiet; [done..|]. eapply conclude_to; [done..|apply failed_reply_true].
Qed.

Lemma steps_inv V c c' :
  membership_ok → cluster_inv V c → rtc (step nodes dataDir) c c' →
  ∃ V', V ⊆ V' ∧ cluster_inv V' c'.
Proof.
  intros Hmo Hc Hsteps. revert V Hc. induction Hsteps as [|c c1 c2 Hs _ IH]; intros V Hc; [eauto|].
  destruct (step_inv V c c1 Hmo Hc Hs) as (V1 & Hsub1 & Hc1).
  destruct (IH V1 Hc1) as (V2 & Hsub2 & Hc2). exists V2. split; [by etrans|done].
Qed.

Lemma initial_inv c : initial nodes dataDir (c : Cluster (L:=L) (F:=F)) → cluster_inv ∅ c.
Proof.
  intros [Hnet Hs]. split.
  - intros n x Hx. destruct (Hs n x Hx) as (Hn & fs & old & next & -> & Hf). split; [done|].
    exists 0, ""%string. unfold file_holds. rewrite Hf. split_and!; try done; unfold is_u64; try lia.
  - intros p. rewrite Hnet. intros Hp. by apply elem_of_nil in Hp.
Qed.

Lemma leader_elected V c n T : cluster_inv V c → is_leader c n T → elected V nodes T n.
Proof.
  intros [Hs _] (r & Hr & Hl & <-). destruct (Hs n _ Hr) as [_ (<- & Hn & _ & E & I)].
  rewrite <- Hn. by apply (ei_leader _ _ _ I).
Qed.
End safety.

(** C1: election safety. In every run of the cluster from a fresh start, with
    messages lost, delayed, reordered and duplicated, with nodes stopping and
    starting again from their store file, and with arbitrary failures of the file
    operations, at most one node is ever leader of a term: if [n1] leads term [T]
    at some moment and [n2] leads [T] then or at any later moment, they are the
    same node. Runs are bounded only in that no term reaches 2^64 - 1; members
    have names that are not empty, of at most 10 MiB and valid UTF-8: JSON would
    change any other name on its way to a voter. *)
Theorem election_safety {L F : Type} `{GoLog L} `{FSM F} (nodes : list string)
    (dataDir : string → string) (c0 c1 c2 : Cluster (L:=L) (F:=F)) (n1 n2 : string) (T : Z)
    (Hmembers : membership_ok nodes) (Hinit : initial nodes dataDir c0)
    (Hrun1 : rtc (step nodes dataDir) c0 c1) (Hrun2 : rtc (step nodes dataDir) c1 c2)
    (Hlead1 : is_leader c1 n1 T) (Hlead2 : is_leader c2 n2 T) :
  n1 = n2.
Proof.
  destruct (steps_inv nodes dataDir ∅ c0 c1 Hmembers) as (V1 & _ & Hc1); [by apply initial_inv|done|].
  destruct (steps_inv nodes dataDir V1 c1 c2 Hmembers Hc1 Hrun2) as (V2 & Hsub & Hc2).
  eapply elected_unique; [eapply elected_grow; [exact Hsub|]|]; eapply leader_elected; done.
Qed.

(** ** A concrete run

    Three nodes start on empty disks, [n1] times out, is granted a pre-vote and
    then a vote by [n2], and takes office in term 1. *)
Definition demo_dirs (n : string) : string := n.

Definition demo_cluster : Cluster (L := MemLog) (F := list bytes) :=
  mkCluster (list_to_map ((λ n, (n, Down demo_files (mkMemLog 0 [] [] []) 0)) <$> demo_nodes)) [].

Definition demo_schedule : list Command :=
  [CStart "n1"; CStart "n2"; CStart "n3"]%string
  ++ replicate 12 (CLocal "n1" OpTick)
  ++ [CSend "n1" 2; CServe 0; CReply 1; CSend "n1" 4; CServe 2; CReply 3]%string.

Definition run_demo (c : Cluster) (cmds : list Command) : Cluster (L := MemLog) (F := list bytes) :=
  default c (run_schedule demo_nodes demo_dirs [] DefaultConfig c cmds).

Definition demo_elected : Cluster := run_demo demo_cluster demo_schedule.

Definition leads_at {L F} (c : Cluster (L := L) (F := F)) (n : string) (T : Z) : bool :=
  match cl_slots c !! n with
  | Some (Up r) =>
      (term_of r =? T) &&
      match r_role r with
      | Some a => match r_roles r !! a with Some (RLeader _) => true | _ => false end
      | None => false
      end
  | _ => false
  end.

Lemma leads_at_sound {L F} (c : Cluster (L := L) (F := F)) n T : leads_at c n T = true → is_leader c n T.
Proof.
  unfold leads_at. destruct (cl_slots c !! n) as [[r|]|] eqn:Hn; try done.
  intros [Ht Hl]%andb_true_iff. exists r. split; [done|]. zbool. split; [|done].
  destruct (r_role r) as [a|] eqn:Ha; [|done].
  destruct (r_roles r !! a) as [[]|] eqn:Hr; try done. by exists a, l.
Qed.

Lemma demo_membership : membership_ok demo_nodes.
Proof.
  split.
  - apply (bool_decide_unpack _). by vm_compute.
  - intros n Hn. repeat (apply elem_of_cons in Hn as [-> |Hn];
      [split; [done|unfold short; vm_compute; congruence]|]). by apply elem_of_nil in Hn.
  - intros n Hn. by repeat (apply elem_of_cons in Hn as [-> |Hn]; [reflexivity|]); apply elem_of_nil in Hn.
  - by vm_compute.
Qed.

Lemma demo_initial : initial demo_nodes demo_dirs demo_cluster.
Proof.
  split; [done|]. intros n x Hx. apply elem_of_list_to_map_2, list_elem_of_fmap in Hx as (m & [= -> ->] & Hm).
  split; [done|]. exists demo_files, (mkMemLog 0 [] [] []), 0%nat. split; [done|]. apply lookup_empty.
Qed.

Lemma run_demo_sound c cmds :
  run_schedule demo_nodes demo_dirs [] DefaultConfig c cmds ≠ None →
  rtc (step demo_nodes demo_dirs) c (run_demo c cmds).
Proof.
  intros Hr. unfold run_demo. destruct (run_schedule _ _ _ _ c cmds) eqn:E; [|done].
  by eapply run_schedule_sound.
Qed.

Lemma election_safety_witness :
  is_leader demo_elected "n1" 1 ∧ "n1"%string = "n1"%string.
Proof.
  assert (is_leader demo_elected "n1" 1) as Hl by (apply leads_at_sound; vm_compute; reflexivity).
  split; [exact Hl|].
  apply (election_safety demo_nodes demo_dirs demo_cluster demo_elected demo_elected "n1" "n1" 1).
  - apply demo_membership.
  - apply demo_initial.
  - apply run_demo_sound. by vm_compute.
  - apply rtc_refl.
  - exact Hl.
  - exact Hl.
Defined.
