(* ===== verification/Persistence.v ===== *)
(** * Terms and votes never go back

    The pair (term, vote) of every node, in memory while it runs and in its store
    file while it is down, only moves up along the runs of the cluster: a later
    term, or the same one with the vote kept or cast for the first time. *)
From S2P Require Import Prelude GoMonad FileSystem LogEntry Store Snapshot Session Config GoLog Log Fsm Node Roles Follower Leader Candidate Raft Demo Frame Election Campaign Json Cluster ElectionSafety.
Local Open Scope Z_scope.

(** The order on the pairs. *)
Definition pair_le (t : Z) (v : string) (t' : Z) (v' : string) : Prop :=
  t < t' ∨ (t = t' ∧ (v = ""%string ∨ v' = v)).

Lemma pair_le_refl t v : pair_le t v t v.
Proof. right. auto. Qed.

Lemma pair_le_trans t1 v1 t2 v2 t3 v3 :
  pair_le t1 v1 t2 v2 → pair_le t2 v2 t3 v3 → pair_le t1 v1 t3 v3.
Proof.
  unfold pair_le. intros [?|[? Hv]] [?|[? Hw]]; try (left; lia). right. split; [lia|].
  destruct Hv as [Hv|Hv], Hw as [Hw|Hw]; auto; [left|right]; congruence.
Qed.

Section persistence.
Context {L F : Type} `{GoLog L} `{FSM F}.
Abbreviation node := (Raft L F).
Context (nodes : list string) (dataDir : string → string).

(** The pair of a node, up or down. *)
Definition slot_holds (n : string) (x : Slot (L := L) (F := F)) (t : Z) (v : string) : Prop :=
  is_u64 t ∧ short v ∧
  match x with
  | Up r => currentTerm (r_store r) = t ∧ votedFor (r_store r) = v
  | Down fs _ _ => file_holds (fs_cur fs !! store_file dataDir n) t v
  end.

(** From one slot to the next the pair goes up. *)
Definition slot_le (n : string) (x y : Slot) : Prop :=
  ∀ t v, slot_holds n x t v → ∃ t' v', slot_holds n y t' v' ∧ pair_le t v t' v'.

Lemma slot_le_refl n x : slot_le n x x.
Proof. intros t v Hx. exists t, v. split; [done|apply pair_le_refl]. Qed.

Lemma slot_le_trans n x y z : slot_le n x y → slot_le n y z → slot_le n x z.
Proof.
  intros Hxy Hyz t v Hx. destruct (Hxy t v Hx) as (t1 & v1 & Hy & Hl).
  destruct (Hyz t1 v1 Hy) as (t2 & v2 & Hz & Hl'). exists t2, v2. split; [done|by eapply pair_le_trans].
Qed.

Lemma slot_le_stop V n (r : node) : slot_inv nodes dataDir V n (Up r) → slot_le n (Up r) (stop r).
Proof.
  intros (Hi & Hn & Hd & E & I) t v (Hu & Hs & Ht & Hv). exists t, v. split; [|apply pair_le_refl].
  split_and!; [done..|]. pose proof (ei_disk _ _ _ I) as Hdisk. unfold disk_agrees, store_on_disk in Hdisk.
  simpl. unfold file_holds. assert (store_file dataDir n = store_path r) as -> by (unfold store_file, store_path; congruence).
  unfold term_of, vote_of in Hdisk. by rewrite Ht, Hv in Hdisk.
Qed.

(** A running node moves, and perhaps stops. *)
Lemma slot_le_moved V n (r r' : node) P y :
  slot_inv nodes dataDir V n (Up r) → elect_to V r r' P → y = Up r' ∨ y = stop r' → slot_le n (Up r) y.
Proof.
  intros Hs Ht Hy. destruct (elect_to_slot nodes dataDir V n r r' P Hs Ht) as (V' & _ & Hs' & _).
  assert (slot_le n (Up r) (Up r')) as Hle.
  { intros t v (Hu & Hsh & <- & <-). destruct Ht as (_ & _ & _ & Hle & V1 & E1 & I1 & _).
    exists (term_of r'), (vote_of r'). split; [|exact Hle]. split_and!; [apply I1|apply I1|done..]. }
  destruct Hy as [-> | ->]; [done|]. eapply slot_le_trans; [done|by eapply slot_le_stop].
Qed.

(** What one node knows, with an account of the votes of its own: of the other
    nodes, only that some voted for it. *)
Definition own_account (n : string) (V : votes) : Prop :=
  ∀ T v c, v ≠ n → V !! (T, v) = Some c → c = n.

Definition slot_own (n : string) (x : Slot (L := L) (F := F)) : Prop :=
  ∃ V, own_account n V ∧ slot_inv nodes dataDir V n x.

Definition packet_plain (p : Packet) : Prop :=
  match p with
  | Request n _ (GoSendRequestVote _ _ _ id _ _) _ => id = n ∧ n ∈ nodes
  | Response _ _ (GoSendRequestVote _ _ _ _ _ _) _ (RequestVoteResponse t true) => is_u64 t
  | _ => True
  end.

Definition own_inv (c : Cluster (L := L) (F := F)) : Prop :=
  (∀ n x, cl_slots c !! n = Some x → n ∈ nodes ∧ slot_own n x) ∧ ∀ p, p ∈ cl_net c → packet_plain p.

(** The vote of another node can be entered into a node's account. *)
Lemma own_account_vote V E (r : node) T v :
  own_account (r_id r) V → elect_inv V E r → v ≠ r_id r →
  own_account (r_id r) (<[(T, v) := r_id r]> V) ∧ elect_inv (<[(T, v) := r_id r]> V) E r.
Proof.
  intros Ho I Hv.
  assert (V ⊆ <[(T, v) := r_id r]> V) as Hsub.
  { apply map_subseteq_spec. intros [T' v'] c Hc. destruct (decide ((T, v) = (T', v'))) as [[= <- <-]|Hne].
    - rewrite lookup_insert_eq. f_equal. symmetry. by apply (Ho T v).
    - by rewrite lookup_insert_ne. }
  split.
  - intros T' v' c Hne. destruct (decide ((T, v) = (T', v'))) as [He|Hd].
    + rewrite He, lookup_insert_eq. congruence.
    + rewrite lookup_insert_ne by done. by apply Ho.
  - destruct I as [I1 I2 I3 I4 Iv I5 I6 I7 Ir I8 I9 I10 I11 I12]. split; auto.
    + intros T' c. rewrite lookup_insert_ne by congruence. apply I5.
    + intros a T' C HE. destruct (I6 a T' C HE) as (? & ? & ? & HC). split_and!; try done.
      intros w Hw. eapply lookup_weaken; [by apply HC|done].
    + intros Hl. eapply elected_grow; [done|auto].
Qed.

Lemma slot_moves V E n (r r' : node) P y :
  own_account n V → r_id r = n → r_nodes r = nodes → r_dataDir r = dataDir n → elect_inv V E r →
  elect_to V r r' P → y = Up r' ∨ y = stop r' → slot_own n y ∧ slot_le n (Up r) y.
Proof.
  intros Ho Hi Hn Hd I Ht Hy. assert (slot_inv nodes dataDir V n (Up r)) as Hs by (split_and!; eauto).
  split; [|by eapply slot_le_moved].
  destruct (elect_to_slot nodes dataDir V n r r' P Hs Ht) as (V' & [_ Hg] & Hs' & _).
  exists V'. split; [|destruct Hy as [-> | ->]; [done|by apply slot_inv_stop]].
  intros T v c Hne Hc. rewrite Hg in Hc by done. by eapply Ho.
Qed.

Lemma slot_starts n fs old next fs0 fs1 st log fsm cfg rng y :
  members_ok nodes → n ∈ nodes → slot_own n (Down fs old next) →
  fs_cur fs0 !! store_file dataDir n = fs_cur fs !! store_file dataDir n → io_honest fs0 →
  NewStore (store_file dataDir n) fs0 = (Ret (inr st), fs1) →
  let r := (NewRaft n (dataDir n) nodes log st fs1 fsm cfg rng next).2 : node in
  y = Up r ∨ y = stop r → slot_own n y ∧ slot_le n (Down fs old next) y.
Proof.
  intros Hmo Hn (V & Ho & t & v & Hf & Hu & Hsh & Hv) Hsame Hh Hst r Hy.
  rewrite <- Hsame in Hf. destruct (NewStore_reads _ _ _ _ _ _ Hh Hf Hu Hsh Hst) as [-> Hcur].
  pose proof Hf as Hf0. rewrite <- Hcur in Hf.
  pose proof (blank_inv nodes dataDir V n log fs1 fsm cfg rng next t v Hmo Hn Hf Hu Hsh Hv) as I.
  destruct (slot_moves V ∅ n (blank_node n (dataDir n) nodes log _ fs1 fsm cfg rng next) r _ y
    Ho eq_refl eq_refl eq_refl I (NewRaft_to _ _ _ _ _ _ _ _ _ _ _ I) Hy) as [Hown Hle].
  split; [done|]. intros t1 v1 (Hu1 & Hsh1 & Hf1). simpl in Hf1. rewrite <- Hsame in Hf1.
  destruct (NewStore_reads _ _ _ _ _ _ Hh Hf1 Hu1 Hsh1 Hst) as [[= -> ->] _].
  apply Hle. by split_and!.
Qed.

(** A reply comes in: whatever vote it tells of is entered before it is counted. *)
Lemma conclude_own V E k t sn reply (r : node) n :
  own_account n V → r_id r = n → r_nodes r = nodes → r_dataDir r = dataDir n → elect_inv V E r →
  r_tasks r !! k = Some t → term_of r < u64_max → packet_plain (Response n k t sn reply) →
  let y := Up (conclude t sn reply (drop_task k r)).2 in slot_own n y ∧ slot_le n (Up r) y.
Proof.
  intros Ho Hi Hn Hd I Hk Hmax Hp y.
  assert (∃ V', own_account n V' ∧ elect_inv V' E r ∧ reply_true V' (r_id r) t reply) as (V' & Ho' & I' & Hr).
  { destruct t as [| a v T id i j| | |]; try (by exists V).
    destruct reply as [|u g| |]; try (by exists V). destruct g; [|by exists V].
    destruct (ei_request _ _ _ I k a v T id i j Hk) as (_ & _ & Hv & _). subst n.
    destruct (own_account_vote V E r u v Ho I Hv) as [Ho' I'].
    exists (<[(u, v) := r_id r]> V). split_and!; [done..|]. split; [apply lookup_insert_eq|exact Hp]. }
  eapply slot_moves; [done..|by eapply conclude_to|by left].
Qed.

(** Every step of the cluster. *)
Lemma step_own (c c' : Cluster) :
  members_ok nodes → own_inv c → step nodes dataDir c c' →
  own_inv c' ∧ ∀ n x, cl_slots c !! n = Some x → ∃ y, cl_slots c' !! n = Some y ∧ slot_le n x y.
Proof.
  intros Hmo [Hs Hp] Hstep.
  assert (∀ ps m x y, cl_slots c !! m = Some x → slot_own m y ∧ slot_le m x y →
    (∀ p, p ∈ ps → packet_plain p) → let c1 := send ps (set_slot m y c) in
    own_inv c1 ∧ ∀ n x, cl_slots c !! n = Some x → ∃ z, cl_slots c1 !! n = Some z ∧ slot_le n x z) as Hset.
  { intros ps m x y Hm [Hy Hle] Hps. split; [split; simpl|intros n x'; simpl].
    - intros n z. destruct (decide (m = n)) as [->|Hne].
      + rewrite lookup_insert_eq. intros [= <-]. split; [by eapply Hs|done].
      + rewrite lookup_insert_ne by done. apply Hs.
    - intros p [Hin|Hin]%elem_of_app; auto.
    - destruct (decide (m = n)) as [->|Hne].
      + rewrite lookup_insert_eq. intros Hx. exists y. split; [done|]. by assert (x' = x) as -> by congruence.
      + rewrite lookup_insert_ne by done. exists x'. split; [done|apply slot_le_refl]. }
  assert (∀ m x y, cl_slots c !! m = Some x → slot_own m y ∧ slot_le m x y →
    own_inv (set_slot m y c) ∧
    ∀ n x, cl_slots c !! n = Some x → ∃ z, cl_slots (set_slot m y c) !! n = Some z ∧ slot_le n x z) as Hset'.
  { intros m x y Hm Hy. destruct (Hset [] m x y Hm Hy) as [[H1 H2] H3]; [by intros p Hin%elem_of_nil|].
    split; [split; [exact H1|]|exact H3]. intros p Hin. by apply Hp. }
  assert (∀ m r, cl_slots c !! m = Some (Up r) → ∃ V E, own_account m V ∧ r_id r = m ∧ r_nodes r = nodes
    ∧ r_dataDir r = dataDir m ∧ elect_inv V E r) as Hup.
  { intros m r Hr. destruct (Hs m _ Hr) as (_ & V & Ho & Hi & Hn & Hd & E & I). by exists V, E. }
  destruct Hstep as [c m fs old next fs0 fs1 st log fsm cfg rng res Hm Hin Hf Hh Hst Hres
    |c m r Hr|c m r op Hr Hmax|c m r k t Hr Hk Ht|c m r k a node term id sn r' Hr Hk Hrun
    |c m r k a node term id r' Hr Hk Hrun|c k0 k t sn m r fuel handler res Hreq Hto Hr Hh Hres
    |c m r k t sn reply Hrep Hr Hk Hmax|c m r k t sn Hr Hk Hmax];
    try (destruct (Hup m r Hr) as (V & E & Ho & Hi & Hn & Hd & I)).
  - apply (Hset' m _ _ Hm). eapply slot_starts; [done|done|by apply Hs|done|done|done|]. rewrite Hres. destruct res.1; auto.
  - apply (Hset' m _ _ Hr). eapply (slot_moves V E); [done..| |by right]. by eapply (elect_to_refl V E).
  - apply (Hset' m _ _ Hr). eapply (slot_moves V E); [done..|by eapply run_local_to|by left].
  - split; [split; [exact Hs|]|intros n x Hx; exists x; split; [done|apply slot_le_refl]].
    intros p [?|Hin]%elem_of_app; [auto|]. apply list_elem_of_singleton in Hin as ->. destruct t; try done.
    destruct (ei_request _ _ _ I _ _ _ _ _ _ _ Hk) as (-> & _). split; [done|by eapply Hs].
  - apply (Hset _ m _ _ Hr); [|by intros p ->%list_elem_of_singleton].
    pose proof (frame_sendInstall elect_moves a node r) as Hm. rewrite Hrun in Hm.
    eapply (slot_moves V E); [done..|by eapply Hm|by left].
  - apply (Hset' m _ _ Hr). pose proof (frame_sendInstall elect_moves a node r) as Hm. rewrite Hrun in Hm.
    eapply (slot_moves V E); [done..|eapply elect_to_moves; [by eapply Hm|apply view_kept_moves, drop_task_view]|by left].
  - assert (asks_for_member nodes t) as Ha.
    { apply Hp in Hreq. destruct t; try done. by destruct Hreq as [-> ?]. }
    pose proof (serve_to nodes V E fuel t sn handler r Hmo I) as Hel. rewrite Hi in Hel.
    specialize (Hel Hto Ha Hh). subst res. apply (Hset _ m _ _ Hr).
    + eapply (slot_moves V E); [done..|]. unfold settle. destruct (handler r) as [[| |] ?]; auto.
    + destruct Hel as (_ & _ & _ & _ & V' & _ & _ & _ & HP). intros p Hin.
      destruct (handler r) as [[reply| |] ?]; simpl in *; [|by apply elem_of_nil in Hin..].
      apply list_elem_of_singleton in Hin as ->. specialize (HP reply eq_refl).
      destruct t; try done. destruct reply as [|u g| |]; try done. destruct g; [|done]. apply HP.
  - apply (Hset' m _ _ Hr). by eapply (conclude_own V E), Hp.
  - apply (Hset' m _ _ Hr). eapply (conclude_own V E); [done..|]. by destruct t.
Qed.

Lemma steps_own (c c' : Cluster) :
  members_ok nodes → own_inv c → rtc (step nodes dataDir) c c' →
  own_inv c' ∧ ∀ n x, cl_slots c !! n = Some x → ∃ y, cl_slots c' !! n = Some y ∧ slot_le n x y.
Proof.
  intros Hmo Hc Hsteps. induction Hsteps as [c|c c1 c2 Hs _ IH].
  { split; [done|]. intros n x Hx. exists x. split; [done|apply slot_le_refl]. }
  destruct (step_own c c1 Hmo Hc Hs) as [Hc1 Hle]. destruct (IH Hc1) as [Hc2 Hle'].
  split; [done|]. intros n x Hx. destruct (Hle n x Hx) as (y & Hy & Hxy).
  destruct (Hle' n y Hy) as (z & Hz & Hyz). exists z. split; [done|by eapply slot_le_trans].
Qed.

(** What the election invariant says of a whole cluster says as much of each node. *)
Lemma cluster_own V c : cluster_inv nodes dataDir V c → own_inv c.
Proof.
  intros [Hs Hp]. split.
  - intros n x Hx. destruct (Hs n x Hx) as [Hn Hi]. split; [done|].
    pose (W := filter (λ e, e.1.2 = n ∨ e.2 = n) V).
    assert (∀ T v c', W !! (T, v) = Some c' ↔ V !! (T, v) = Some c' ∧ (v = n ∨ c' = n)) as HW.
    { intros T v c'. subst W. by rewrite map_lookup_filter_Some. }
    exists W. split; [intros T v c' Hne [_ [?|?]]%HW; done|].
    destruct x as [r|fs old next]; simpl in *.
    + destruct Hi as (Hid & ? & ? & E & [I1 I2 I3 I4 Iv I5 I6 I7 Ir I8 I9 I10 I11 I12]).
      split_and!; try done. exists E. split; auto.
      * intros T c' [Hc _]%HW. by apply I5.
      * intros a T C HE. destruct (I6 a T C HE) as (? & ? & ? & HC). split_and!; try done.
        intros v Hv. apply HW. auto.
      * intros Hl. destruct (I12 Hl) as (C & ? & ? & HC). exists C. split_and!; try done.
        intros v Hv. apply HW. auto.
    + destruct Hi as (t & v & ? & ? & ? & Hv). exists t, v. split_and!; try done.
      intros T c' [Hc _]%HW. by apply Hv.
  - intros p Hin. apply Hp in Hin. destruct p as [n k t sn|n k t sn reply]; destruct t; try done.
    destruct reply as [|u g| |]; try done. destruct g; [by destruct Hin|done].
Qed.

Lemma step_pair V (c c' : Cluster) n x :
  membership_ok nodes → cluster_inv nodes dataDir V c → step nodes dataDir c c' →
  cl_slots c !! n = Some x → ∃ y, cl_slots c' !! n = Some y ∧ slot_le n x y.
Proof.
  intros Hmo Hc Hstep. apply (step_own c c'); [by apply membership_members|by eapply cluster_own|done].
Qed.

Lemma initial_own c : initial nodes dataDir (c : Cluster (L:=L) (F:=F)) → own_inv c.
Proof. intros Hinit. by eapply cluster_own, initial_inv. Qed.
End persistence.

(** C8: Terms and votes never go back.  Along every run of the cluster from a
    fresh start, crashes, restarts and failing file operations included, the pair
    (term, vote) of each node, held in memory while it is up and in its store file
    while it is down, moves up only: to a later term, or within a term from no
    vote to a vote that then stays.  Names, as they are and as JSON delivers them,
    have at most 10 MiB, so that the store can read them back. *)
Theorem term_and_vote_monotone {L F : Type} `{GoLog L} `{FSM F} (nodes : list string)
    (dataDir : string → string) (c0 c1 c2 : Cluster (L:=L) (F:=F)) n x t v
    (Hmembers : members_ok nodes) (Hinit : initial nodes dataDir c0)
    (Hrun1 : rtc (step nodes dataDir) c0 c1) (Hrun2 : rtc (step nodes dataDir) c1 c2)
    (Hx : cl_slots c1 !! n = Some x) (Hholds : slot_holds dataDir n x t v) :
  ∃ y t' v', cl_slots c2 !! n = Some y ∧ slot_holds dataDir n y t' v'
  ∧ (t < t' ∨ (t = t' ∧ (v = ""%string ∨ v' = v))).
Proof.
  destruct (steps_own nodes dataDir c0 c1 Hmembers) as [Hc1 _]; [by apply initial_own|done|].
  destruct (steps_own nodes dataDir c1 c2 Hmembers Hc1 Hrun2) as [_ Hle].
  destruct (Hle n x Hx) as (y & Hy & Hxy). destruct (Hxy t v Hholds) as (t' & v' & Hh & Hp). by exists y, t', v'.
Qed.

Definition demo_up : Cluster := run_demo demo_cluster [CStart "n1"; CStart "n2"; CStart "n3"]%string.
Definition demo_voted : Cluster :=
  run_demo demo_up (replicate 12 (CLocal "n1" OpTick)
    ++ [CSend "n1" 2; CServe 0; CReply 1; CSend "n1" 4; CServe 2; CStop "n2"]%string).

Lemma demo_up_holds : ∃ x, cl_slots demo_up !! "n2"%string = Some x ∧ slot_holds demo_dirs "n2" x 0 "".
Proof.
  destruct (cl_slots demo_up !! "n2"%string) as [x|] eqn:E; [|vm_compute in E; done].
  exists x. split; [done|]. vm_compute in E. injection E as <-.
  split_and!; [unfold is_u64; lia|vm_compute; discriminate|reflexivity..].
Qed.

Lemma term_and_vote_monotone_witness :
  ∃ y t' v', cl_slots demo_voted !! "n2"%string = Some y ∧ slot_holds demo_dirs "n2" y t' v'
  ∧ (0 < t' ∨ (0 = t' ∧ (""%string = ""%string ∨ v' = ""%string))).
Proof.
  destruct demo_up_holds as (x & Hx & Hh).
  apply (term_and_vote_monotone demo_nodes demo_dirs demo_cluster demo_up demo_voted "n2" x 0 "").
  - apply membership_members, demo_membership.
  - apply demo_initial.
  - apply run_demo_sound. vm_compute. discriminate.
  - apply run_demo_sound. vm_compute. discriminate.
  - exact Hx.
  - exact Hh.
Defined.
