(* ===== verification/Replication.v ===== *)
(** * Replication on the follower

    What AppendEntries does to a follower's log: entries that are already there
    are skipped, the first one with another term cuts the log, the rest is
    written.  The theorems: the shape of the log afterwards, failures of the log
    included; that a positive reply means the log holds the leader's entries; and
    what a rejection says. *)
From S2P Require Import Prelude GoMonad FileSystem LogEntry Store Snapshot Session Config GoLog Log Fsm Node Roles Follower Leader Candidate Raft Demo Frame Election Campaign.
Local Open Scope Z_scope.

Section log_writes.
Context {L : Type} `{GoLogLaws L}.

(** No write and no truncation of this log fails, now or later. *)
Definition log_reliable (l : L) : Prop :=
  ∃ P : L → Prop, P l ∧ ∀ l, P l →
    (∀ d, (log_Write d l).1.2 = None ∧ P (log_Write d l).2)
    ∧ (∀ i, (log_TruncateFrom i l).1 = None ∧ P (log_TruncateFrom i l).2)
    ∧ P (log_Commit l).

Lemma log_reliable_write l d : log_reliable l →
  (log_Write d l).1.2 = None ∧ log_reliable (log_Write d l).2.
Proof. intros (P & Hl & HP). destruct (HP l Hl) as (Hw & _). split; [apply Hw|]. exists P. split; [apply Hw|done]. Qed.

Lemma log_reliable_truncate l i : log_reliable l →
  (log_TruncateFrom i l).1 = None ∧ log_reliable (log_TruncateFrom i l).2.
Proof. intros (P & Hl & HP). destruct (HP l Hl) as (_ & Ht & _). split; [apply Ht|]. exists P. split; [apply Ht|done]. Qed.

Lemma log_reliable_commit l : log_reliable l → log_reliable (log_Commit l).
Proof. intros (P & Hl & HP). exists P. split; [|done]. by apply HP. Qed.
End log_writes.

Section append.
Context {L F : Type} `{GoLogLaws L} `{FSM F}.
Abbreviation node := (Raft L F).

Lemma writeEntries_run es : ∀ s : node, ∃ b l' j,
  writeEntries es s = (Ret b, set_r_log l' s) ∧ log_base l' = log_base (r_log s)
  ∧ log_items l' = log_items (r_log s) ++ (Serialize <$> take j es)
  ∧ (j <= length es)%nat ∧ (b = true → j = length es) 
  ∧ (log_reliable (r_log s) → b = true ∧ log_reliable l').
Proof.
  induction es as [|e es IH]; intros s; cbn [writeEntries].
  { exists true, (r_log s), 0%nat. rewrite app_nil_r.
    split; [by destruct s|]. by split_and!. }
  rewrite bind_run. unfold on_log.
  destruct (log_Write (Serialize e) (r_log s)) as [[i err] l1] eqn:Hw. cbn [snd].
  pose proof (log_write_spec _ _ _ _ _ Hw) as [Hb Hi]. destruct err as [err|].
  - exists false, l1, 0%nat. rewrite app_nil_r. split_and!; try done; [lia|].
    intros Hr%(log_reliable_write _ (Serialize e)). rewrite Hw in Hr. by destruct Hr.
  - destruct (IH (set_r_log l1 s)) as (b & l' & j & Hrun & Hb' & Hi' & Hle & Hj & Hr). simpl in *.
    exists b, l', (S j). rewrite Hrun. split_and!; try done.
    + congruence.
    + destruct Hi as [_ Hi]. rewrite Hi', Hi, <- app_assoc. done.
    + lia.
    + intros ->. f_equal. by apply Hj.
    + intros [_ Hr1]%(log_reliable_write _ (Serialize e)). rewrite Hw in Hr1. by apply Hr.
Qed.

Lemma write_and_commit_run es (s : node) : ∃ l' j,
  write_and_commit es s = (Ret tt, set_r_log l' s) ∧ log_base l' = log_base (r_log s)
  ∧ log_items l' = log_items (r_log s) ++ (Serialize <$> take j es)
  ∧ (j <= length es)%nat ∧ (log_reliable (r_log s) → j = length es ∧ log_reliable l').
Proof.
  destruct (writeEntries_run es s) as (b & l' & j & Hrun & Hb & Hi & Hle & Hj & Hr).
  unfold write_and_commit. rewrite bind_run, Hrun. destruct b; cbn [when].
  - exists (log_Commit l'), j. destruct (log_commit_spec l') as [Hc1 Hc2].
    split_and!; [done|congruence|congruence|done|]. intros Hl. split; [by apply Hj|].
    apply log_reliable_commit. by apply Hr.
  - exists l', j. split_and!; try done. intros Hl. by destruct (Hr Hl).
Qed.

(** The log after the loop: the first [i] entries were there with the right
    term; then nothing happened, or the next one was missing or had another term,
    the log was cut there and [j] more entries were written. *)
Record appended (l : L) (prev : Z) (es : list LogEntry) (l' : L) (i j : nat) : Prop := {
  ap_le : (i + j <= length es)%nat;
  ap_base : log_base l' = log_base l;
  ap_match k e : (k < i)%nat → es !! k = Some e → term_at l (prev + 1 + Z.of_nat k) = Some (Term e);
  ap_shape : log_items l' = log_items l ∧ j = 0%nat
    ∨ (∃ e, es !! i = Some e ∧ term_at l (prev + 1 + Z.of_nat i) ≠ Some (Term e))
      ∧ log_items l' = take (Z.to_nat (prev + Z.of_nat i - log_base l)) (log_items l)
                       ++ (Serialize <$> take j (drop i es));
  ap_all : log_reliable l → (i + j = length es)%nat ∧ log_reliable l'
}.

Lemma take_all_items (l : L) i : log_last l <= i →
  take (Z.to_nat (i - log_base l)) (log_items l) = log_items l.
Proof. intros Hi. unfold log_last in Hi. apply take_ge. lia. Qed.

Lemma appendEntries_from_run es : ∀ prev (s : node),
  decodable (r_log s) → log_base (r_log s) <= prev <= log_last (r_log s) →
  prev + Z.of_nat (length es) < u64_max →
  ∃ l' i j, appendEntries_from (prev + 1) es s = (Ret tt, set_r_log l' s)
            ∧ appended (r_log s) prev es l' i j.
Proof.
  induction es as [|e es IH]; intros prev s Hdec Hprev Hmax; cbn [appendEntries_from].
  { exists (r_log s), 0%nat, 0%nat. split; [by destruct s|].
    split; [done|done|intros; lia|by left|done]. }
  rewrite bind_run. cbn [gets]. pose proof (log_base_nonneg (r_log s)) as Hb.
  destruct (decide (prev + 1 <= log_last (r_log s))) as [Hin|Hout].
  - destruct (log_item_at (r_log s) (prev + 1)) as (d & Hd & Hr); [lia|]. rewrite Hr.
    destruct (Hdec d) as [e' He']; [by apply list_elem_of_lookup_2 in Hd|]. rewrite He'.
    assert (term_at (r_log s) (prev + 1) = Some (Term e')) as Ht by (unfold term_at; by rewrite Hr, He').
    destruct (Z.eqb_spec (Term e') (Term e)) as [Heq|Hne]; cbn [negb].
    + cbn [length] in Hmax. rewrite u64_small by (unfold is_u64, u64_max in *; lia).
      destruct (IH (prev + 1) s Hdec) as (l' & i & j & Hrun & [A1 A2 A3 A4 A5]); [lia|lia|].
      exists l', (S i), j. split; [done|]. split; [cbn [length]; lia|done| | |].
      * intros k x Hk Hx. destruct k as [|k]; simpl in Hx.
        { injection Hx as <-. by rewrite Z.add_0_r, Ht, Heq. }
        rewrite <- (A3 k x) by (done || lia). f_equal. lia.
      * destruct A4 as [?|[(e1 & He1 & Hc) A4]]; [by left|right]. rewrite A4. cbn [drop].
        replace (prev + 1 + Z.of_nat (S i)) with (prev + 1 + 1 + Z.of_nat i) by lia.
        replace (prev + Z.of_nat (S i)) with (prev + 1 + Z.of_nat i) by lia. by split; [exists e1|].
      * intros Hl. destruct (A5 Hl). split; [cbn [length]; lia|done].
    + rewrite bind_run. unfold on_log.
      destruct (log_TruncateFrom (prev + 1) (r_log s)) as [err l1] eqn:Htr.
      destruct (log_truncate_from_spec _ _ _ _ Htr) as [Hb1 Hi1]; [lia|]. destruct err as [err|].
      * exists l1, 0%nat, 0%nat. split; [done|]. split; [cbn [length]; lia|done|intros; lia|by left|].
        intros Hl%(log_reliable_truncate _ (prev + 1)). rewrite Htr in Hl. by destruct Hl.
      * destruct (write_and_commit_run (e :: es) (set_r_log l1 s)) as (l' & j & Hrun & Hb' & Hi' & Hj & Hl).
        exists l', 0%nat, j. split; [done|]. cbn [r_log set_r_log] in *.
        split; [done|congruence|intros; lia| |].
        { right. rewrite Hi', Hi1, Z.add_0_r. split; [exists e; split; [done|rewrite Ht; congruence]|].
          by replace (prev + 1 - log_base (r_log s) - 1) with (prev + Z.of_nat 0 - log_base (r_log s)) by lia. }
        intros [_ Hr1]%(log_reliable_truncate _ (prev + 1)). rewrite Htr in Hr1. by apply Hl.
  - destruct (log_read_miss (r_log s) (prev + 1)) as [err Herr]; [lia|]. rewrite Herr.
    destruct (write_and_commit_run (e :: es) s) as (l' & j & Hrun & Hb' & Hi' & Hj & Hl).
    exists l', 0%nat, j. split; [done|]. split; [done|done|intros; lia| |by apply Hl].
    right. rewrite Hi', take_all_items by lia. split; [|done]. exists e. split; [done|].
    rewrite Z.add_0_r. unfold term_at. by rewrite Herr.
Qed.
End append.

(** ** The log afterwards *)
Section shape.
Context {L : Type} `{GoLogLaws L}.

(** The indices up to [prev + i] keep their bytes. *)
Lemma appended_prefix (l l' : L) prev es i j k :
  appended l prev es l' i j → log_base l <= prev → prev + Z.of_nat i <= log_last l →
  k <= prev + Z.of_nat i → item_at l' k = item_at l k.
Proof.
  intros [Hle Hb _ Hshape _] Hbase Hlast Hk. unfold log_last in Hlast.
  destruct Hshape as [[Hi _]|[_ Hi]]; [by apply item_at_same|].
  unfold item_at. rewrite Hb. destruct (decide (log_base l < k)); [|done].
  rewrite Hi, lookup_app_l by (rewrite length_take; lia).
  by rewrite lookup_take_lt by lia.
Qed.

(** The indices after them hold what was written. *)
Lemma appended_written (l l' : L) prev es i j k e :
  appended l prev es l' i j → log_base l <= prev → prev + Z.of_nat i <= log_last l →
  (0 < j)%nat → (i <= k < i + j)%nat → es !! k = Some e →
  item_at l' (prev + 1 + Z.of_nat k) = Some (Serialize e).
Proof.
  intros [Hle Hb _ Hshape _] Hbase Hlast Hj Hk He. unfold log_last in Hlast.
  destruct Hshape as [[_ Hi]|[_ Hi]]; [lia|].
  unfold item_at. rewrite Hb. destruct (decide _); [|lia].
  rewrite Hi, lookup_app_r by (rewrite length_take; lia).
  rewrite length_take, list_lookup_fmap, lookup_take_lt, lookup_drop by lia.
  replace (i + _)%nat with k by lia. by rewrite He.
Qed.

(** The matched entries are in the log. *)
Lemma appended_matched_last (l l' : L) prev es i j :
  decodable l → appended l prev es l' i j → prev <= log_last l → prev + Z.of_nat i <= log_last l.
Proof.
  intros Hdec [Hle _ Hm _ _] Hp. destruct i as [|i]; [lia|].
  destruct (lookup_lt_is_Some_2 es i) as [e He]; [lia|].
  specialize (Hm i e ltac:(lia) He).
  assert (is_Some (term_at l (prev + 1 + Z.of_nat i))) as Hs by eauto.
  apply term_at_is_Some in Hs; [|done]. lia.
Qed.

Lemma term_at_view (l l' : L) i : item_at l' i = item_at l i → term_at l' i = term_at l i.
Proof. intros Hi. by rewrite !term_at_entry_at, (entry_at_view l l'). Qed.

Lemma term_at_written (l : L) i e : is_u64 (Term e) → item_at l i = Some (Serialize e) →
  term_at l i = Some (Term e).
Proof.
  intros Ht Hi. rewrite term_at_entry_at, entry_at_item_at, Hi. simpl.
  by destruct (DeserializeLogEntry_Term e Ht) as (e' & -> & <-).
Qed.

Lemma appended_decodable (l l' : L) prev es i j :
  decodable l → appended l prev es l' i j → decodable l'.
Proof.
  intros Hdec [_ _ _ Hshape _] d Hd. destruct Hshape as [[Hi _]|[_ Hi]]; rewrite Hi in Hd; [by apply Hdec|].
  apply elem_of_app in Hd as [Hd|Hd].
  - apply Hdec. apply elem_of_take in Hd as (k & Hd & _). by apply list_elem_of_lookup_2 in Hd.
  - apply list_elem_of_fmap in Hd as (e & -> & _). apply DeserializeLogEntry_long, length_Serialize.
Qed.

(** What a log that took everything holds. *)
Lemma appended_terms (l l' : L) prev es i j k e :
  decodable l → log_base l <= prev <= log_last l → appended l prev es l' i j →
  (i + j = length es)%nat → es !! k = Some e → is_u64 (Term e) →
  term_at l' (prev + 1 + Z.of_nat k) = Some (Term e)
  ∧ (item_at l' (prev + 1 + Z.of_nat k) = Some (Serialize e)
     ∨ item_at l' (prev + 1 + Z.of_nat k) = item_at l (prev + 1 + Z.of_nat k)).
Proof.
  intros Hdec Hprev Hap Hall He Ht. pose proof (lookup_lt_Some _ _ _ He).
  pose proof (appended_matched_last _ _ _ _ _ _ Hdec Hap (proj2 Hprev)) as Hm.
  destruct (decide (k < i)%nat).
  - pose proof (appended_prefix _ _ _ _ _ _ (prev + 1 + Z.of_nat k) Hap) as Hk.
    rewrite (term_at_view l l') by (apply Hk; lia). split; [|right; apply Hk; lia].
    apply Hap; [lia|done].
  - pose proof (appended_written _ _ _ _ _ _ k e Hap) as Hw.
    assert (item_at l' (prev + 1 + Z.of_nat k) = Some (Serialize e)) by (apply Hw; [lia..|done]).
    split; [|by left]. by apply term_at_written.
Qed.

(** Bytes change only from the first entry on that is missing or differs. *)
Lemma appended_changed (l l' : L) prev es i j k :
  decodable l → log_base l <= prev <= log_last l → appended l prev es l' i j →
  item_at l' k ≠ item_at l k →
  ∃ m e, prev + 1 + Z.of_nat m <= k ∧ es !! m = Some e
         ∧ term_at l (prev + 1 + Z.of_nat m) ≠ Some (Term e).
Proof.
  intros Hdec Hprev Hap Hk.
  pose proof (appended_matched_last _ _ _ _ _ _ Hdec Hap (proj2 Hprev)) as Hm.
  destruct (ap_shape _ _ _ _ _ _ Hap) as [[Hi _]|[(e & He & Hne) _]].
  - destruct Hk. apply item_at_same; [by apply Hap|done].
  - exists i, e. split; [|done]. destruct (decide (prev + 1 + Z.of_nat i <= k)); [done|].
    destruct Hk. eapply appended_prefix; [done|lia..].
Qed.
End shape.

(** ** What leaves the log alone *)
Section log_kept.
Context {L F : Type} `{GoLog L} `{FSM F}.
Abbreviation node := (Raft L F).

Record log_kept (s s' : node) : Prop := {
  lk_log : r_log s' = r_log s;
  lk_index : r_snapshotIndex s' = r_snapshotIndex s;
  lk_term : r_snapshotTerm s' = r_snapshotTerm s
}.

#[global] Instance log_kept_preorder : PreOrder log_kept.
Proof. split; [by split|]. intros x y z [] []. split; congruence. Qed.

#[global] Instance log_kept_quiet : Quiet log_kept.
Proof. split; [split; [apply _|..]|..]; intros; try (by split). by split; apply H1. Qed.

Lemma log_kept_on_store {A} (m : StoreM A) : moves log_kept (on_store m).
Proof. intros s. unfold on_store, zoom. by destruct (m _). Qed.
#[local] Hint Resolve log_kept_on_store : moves.
#[local] Hint Extern 5 (moves log_kept (modify _)) => apply moves_modify; intros ?; by split : moves.

Lemma log_kept_becomeFollower t : moves log_kept (becomeFollower t).
Proof.
  unfold becomeFollower, enter_role, NewFollowerRole, new_role, FollowerRole__OnEnter. moves_auto.
Qed.
End log_kept.
#[export] Hint Resolve log_kept_on_store log_kept_becomeFollower : moves.

(** ** The handler *)
Section handler.
Context {L F : Type} `{GoLogLaws L} `{FSM F}.
Abbreviation node := (Raft L F).

(** The follower has the entry before the new ones, or its snapshot ends there. *)
Definition prev_matches (s : node) (prev prevT : Z) : Prop :=
  prev = 0 ∨ (prev = r_snapshotIndex s ∧ prevT = r_snapshotTerm s)
  ∨ term_at (r_log s) prev = Some prevT.

Lemma checkLogConsistency_ok (s : node) prev prevT :
  (checkLogConsistency prev prevT s).1.1 = true ↔
  prev = 0 ∨ (prev = r_snapshotIndex s ∧ prevT = r_snapshotTerm s)
  ∨ (r_snapshotIndex s < prev ∧ term_at (r_log s) prev = Some prevT).
Proof.
  unfold checkLogConsistency. rewrite term_at_entry_at.
  destruct (Z.eqb_spec prev 0); [simpl; tauto|].
  destruct (Z.eqb_spec prev (r_snapshotIndex s)).
  { destruct (Z.eqb_spec prevT (r_snapshotTerm s)); simpl; split; try tauto; try done; lia. }
  destruct (Z.ltb_spec prev (r_snapshotIndex s)); [simpl; split; [done|lia]|].
  destruct (entry_at (r_log s) prev) as [e|]; simpl.
  - destruct (Z.eqb_spec (Term e) prevT) as [->|Hne]; simpl; split; try done.
    + intros _. right. right. split; [lia|done].
    + intros [?|[?|[_ [= ?]]]]; by try lia.
  - split; [done|]. intros [?|[?|[_ ?]]]; done || lia.
Qed.

(** The two ways the handler can leave the log. *)
Definition replied (s s' : node) (prev prevT : Z) (es : list LogEntry) (reply : AppendReply) : Prop :=
  if ar_success reply
  then prev_matches s prev prevT ∧ prev <= log_last (r_log s)
       ∧ ∃ i j, appended (r_log s) prev es (r_log s') i j
  else r_log s' = r_log s.

Lemma replied_kept (s s1 s' : node) prev prevT es reply :
  log_kept s s1 → replied s1 s' prev prevT es reply → replied s s' prev prevT es reply.
Proof. intros [El Ei Et]. unfold replied, prev_matches. by rewrite El, Ei, Et. Qed.

Lemma follower_replied n t ldr prev prevT es c : 0 <= prev → prev + Z.of_nat (length es) < u64_max →
  ∀ a (s s' : node) reply,
  FollowerRole__HandleAppendEntries n a t ldr prev prevT es c s = (Ret reply, s') →
  decodable (r_log s) → log_base (r_log s) <= prev → replied s s' prev prevT es reply.
Proof.
  intros Hpos Hmax.
  induction n as [|n IH]; intros a s s' reply Hrun Hdec Hbase; [done|].
  cbn [FollowerRole__HandleAppendEntries] in Hrun.
  apply bind_inv in Hrun as (cur & s0 & Hget & Hrun).
  rewrite GetCurrentTerm_run in Hget. injection Hget as <- <-.
  destruct (t <? _); [injection Hrun as <- <-; done|].
  destruct (_ <? t).
  { apply bind_inv in Hrun as (f & s1 & Hb & Hrun).
    apply (moves_run log_kept) in Hb; [|apply log_kept_becomeFollower].
    apply (replied_kept s s1); [done|]. apply (IH f); [done|by rewrite (lk_log _ _ Hb)..]. }
  apply bind_inv in Hrun as (u & s1 & Hr & Hrun).
  apply (moves_run log_kept) in Hr; [|apply (frame_resetElectionTimer log_kept)].
  apply (replied_kept s s1); [done|]. rewrite <- (lk_log _ _ Hr) in Hdec, Hbase. clear Hr IH.
  apply bind_inv in Hrun as (last & s2 & Hget & Hrun). injection Hget as <- <-.
  rewrite log_last_spec in Hrun. cbn [fst] in Hrun.
  destruct (Z.ltb_spec (log_last (r_log s1)) prev) as [|Hlast]; [injection Hrun as <- <-; done|].
  apply bind_inv in Hrun as (ck & s2 & Hget & Hrun). injection Hget as <- <-.
  destruct (checkLogConsistency prev prevT s1) as [[ok ci] ct] eqn:Eck.
  destruct ok; [|injection Hrun as <- <-; done]. cbn [negb] in Hrun.
  pose proof (proj1 (checkLogConsistency_ok s1 prev prevT)) as Hck. rewrite Eck in Hck.
  specialize (Hck eq_refl).
  apply bind_inv in Hrun as (u1 & s2 & Hs & Hrun).
  apply (moves_run log_kept) in Hs; [|apply (frame_SetLeaderId log_kept)].
  apply (replied_kept s1 s2); [done|]. destruct Hs as [El Ei Et].
  rewrite <- El in Hdec, Hbase, Hlast, Hck. rewrite <- Ei, <- Et in Hck.
  apply bind_inv in Hrun as (u2 & s3 & Ha & Hrun).
  apply bind_inv in Hrun as (u3 & s4 & Hc & Hrun).
  apply (moves_run log_kept) in Hc as [El4 _ _]; [|apply (frame_setCommitIndex log_kept)].
  apply bind_inv in Hrun as (u5 & s5 & Hap & Hrun). injection Hrun as <- <-.
  apply (moves_run log_kept) in Hap as [El5 _ _]; [|apply (frame_applyToFSM log_kept)].
  unfold FollowerRole__appendEntries in Ha. rewrite u64_small in Ha by (unfold is_u64, u64_max in *; lia).
  destruct (appendEntries_from_run es prev s2) as (l' & i & j & Hrun & Happ); [done|lia|lia|].
  rewrite Hrun in Ha. injection Ha as <- <-. cbn [r_log set_r_log] in *.
  split_and!; [unfold prev_matches; tauto|done|].
  exists i, j. by rewrite El5, El4.
Qed.

Lemma HandleAppendEntries_replied n t ldr prev prevT es c (s s' : node) reply :
  0 <= prev → prev + Z.of_nat (length es) < u64_max →
  Raft__HandleAppendEntries n t ldr prev prevT es c s = (Ret reply, s') →
  decodable (r_log s) → log_base (r_log s) <= prev → replied s s' prev prevT es reply.
Proof.
  intros Hpos Hmax Hrun Hdec Hbase. unfold Raft__HandleAppendEntries, if_enabled in Hrun.
  apply bind_inv in Hrun as (en & s0 & Hget & Hrun). injection Hget as <- <-.
  destruct (r_enabled s); cbn [negb] in Hrun.
  2: { apply bind_inv in Hrun as (t0 & s1 & Hget & Hrun).
       rewrite GetCurrentTerm_run in Hget. injection Hget as <- <-. by injection Hrun as <- <-. }
  apply bind_inv in Hrun as ([a x] & s1 & Hcur & Hrun).
  assert (moves log_kept (current_role : RaftM L F _)) as Hkept by (unfold current_role; moves_auto).
  apply (moves_run log_kept) in Hcur; [|done]. apply (replied_kept s s1); [done|].
  rewrite <- (lk_log _ _ Hcur) in Hdec, Hbase.
  destruct x; [by eapply follower_replied|..].
  all: unfold CandidateRole__HandleAppendEntries, LeaderRole__HandleAppendEntries in Hrun.
  all: apply bind_inv in Hrun as (cur & s2 & Hget & Hrun);
    rewrite GetCurrentTerm_run in Hget; injection Hget as <- <-.
  2: apply bind_inv in Hrun as (me & s2 & Hget & Hrun); injection Hget as <- <-.
  all: destruct (t <? _); [by injection Hrun as <- <-|].
  2: destruct (_ && _); [by injection Hrun as <- <-|].
  all: apply bind_inv in Hrun as (f & s3 & Hb & Hrun);
    apply (moves_run log_kept) in Hb; [|apply log_kept_becomeFollower];
    apply (replied_kept s1 s3); [done|]; rewrite <- (lk_log _ _ Hb) in Hdec, Hbase;
    by eapply follower_replied.
Qed.
End handler.

(** C3: What a success means.  A node whose stored records all parse gets a
    request that starts at or above the compacted part of its log ([log_base], the
    index before the first record kept), with indices below 2^64 - 1, and answers
    with success.  Then it held
    the entry the request builds on (index and term, or the end of its snapshot);
    nothing up to that index changed; stored bytes changed only from the first
    index on where an entry was missing or had another term, so a late duplicate
    never shortens the log; and provided that no write and no truncation of the log
    fails, it afterwards holds every entry of the request at its index (the bytes
    sent, or what was already there with the same term).  Without the two
    conditions the last part is false: [success_without_entries],
    [compacted_log_duplicated]. *)
Theorem append_entries_accepted {L F : Type} `{GoLogLaws L} `{FSM F} (s s' : Raft L F)
    fuel term leader prev prevT es commit reply
    (Hrun : Raft__HandleAppendEntries fuel term leader prev prevT es commit s = (Ret reply, s'))
    (Hok : ar_success reply = true) (Hdec : decodable (r_log s))
    (Hprev : 0 <= prev) (Hbase : log_base (r_log s) <= prev)
    (Hmax : prev + Z.of_nat (length es) < u64_max) :
  (prev = 0 ∨ (prev = r_snapshotIndex s ∧ prevT = r_snapshotTerm s)
   ∨ term_at (r_log s) prev = Some prevT)
  ∧ prev <= log_last (r_log s)
  ∧ (∀ k, k <= prev → item_at (r_log s') k = item_at (r_log s) k)
  ∧ (∀ k, item_at (r_log s') k ≠ item_at (r_log s) k →
       ∃ m e, prev + 1 + Z.of_nat m <= k ∧ es !! m = Some e
              ∧ term_at (r_log s) (prev + 1 + Z.of_nat m) ≠ Some (Term e))
  ∧ (log_reliable (r_log s) → ∀ k e, es !! k = Some e → is_u64 (Term e) →
       term_at (r_log s') (prev + 1 + Z.of_nat k) = Some (Term e)
       ∧ (item_at (r_log s') (prev + 1 + Z.of_nat k) = Some (Serialize e)
          ∨ item_at (r_log s') (prev + 1 + Z.of_nat k) = item_at (r_log s) (prev + 1 + Z.of_nat k))).
Proof.
  pose proof (HandleAppendEntries_replied _ _ _ _ _ _ _ _ _ _ Hprev Hmax Hrun Hdec Hbase) as Hr.
  unfold replied in Hr. rewrite Hok in Hr. destruct Hr as (Hm & Hlast & i & j & Hap).
  pose proof (appended_matched_last _ _ _ _ _ _ Hdec Hap Hlast).
  split_and!; [done|done|..].
  - intros k Hk. eapply appended_prefix; [done|lia..].
  - intros k. by eapply appended_changed.
  - intros Hrel k e He Hu. eapply appended_terms; try done. by apply Hap.
Qed.

(** A node whose log holds terms 1, 1, 2 receives entries of term 3 after index 1. *)
Definition lagging : DemoRaft :=
  boot "n2" demo_nodes demo_files
    (mkMemLog 0 (Serialize <$> [mkLogEntry [] 1 "" 0; mkLogEntry [x61] 1 "" 0; mkLogEntry [] 2 "" 0]) [] []).
Definition new_entries : list LogEntry := [mkLogEntry [x61] 1 "" 0; mkLogEntry [] 3 "" 0; mkLogEntry [x62] 3 "" 0].

Lemma mem_reliable l : ml_fail l = [] → log_reliable l.
Proof.
  intros Hl. exists (λ l, ml_fail l = []). split; [done|]. clear l Hl. intros l Hl. simpl.
  unfold mem_write, mem_truncate_from, mem_fails. by rewrite Hl.
Qed.

Lemma mem_decodable es n f d : decodable (mkMemLog n (Serialize <$> es) f d).
Proof.
  intros b Hb. change (b ∈ Serialize <$> es) in Hb. apply list_elem_of_fmap in Hb as (e & -> & _).
  apply DeserializeLogEntry_long, length_Serialize.
Qed.

Lemma append_entries_accepted_witness :
  let res := Raft__HandleAppendEntries 2 3 "n1" 1 1 new_entries 0 lagging in
  res.1 = Ret (mkAppendReply 3 true 0 0)
  ∧ term_at (r_log res.2) 3 = Some 3 ∧ item_at (r_log res.2) 2 = item_at (r_log lagging) 2.
Proof.
  set (res := Raft__HandleAppendEntries _ _ _ _ _ _ _ _). cbv zeta.
  assert (res.1 = Ret (mkAppendReply 3 true 0 0)) as Hres by (vm_compute; reflexivity).
  split; [done|].
  destruct (append_entries_accepted lagging res.2 2 3 "n1" 1 1 new_entries 0 (mkAppendReply 3 true 0 0))
    as (_ & _ & _ & _ & Hes); [rewrite <- Hres; exact (surjective_pairing res)|reflexivity|apply (mem_decodable _ 0)|lia|
    vm_compute; discriminate|reflexivity|].
  split; [|vm_compute; reflexivity].
  apply (Hes (mem_reliable (r_log lagging) eq_refl) 1%nat (mkLogEntry [] 3 "" 0)); [reflexivity|].
  unfold is_u64. cbn [Term]. lia.
Defined.

(** ** Rejections *)
Section hints.
Context {L F : Type} `{GoLogLaws L} `{FSM F}.
Abbreviation node := (Raft L F).

Lemma conflict_loop_spec (log : L) snap ct fuel ci : 0 <= snap → is_u64 (snap + 1) →
  snap < ci → Z.of_nat fuel >= ci →
  let r := conflict_loop log snap ct fuel ci in
  snap < r <= ci ∧ (∀ k, r <= k < ci → term_at log k = Some ct)
  ∧ (r = snap + 1 ∨ term_at log (r - 1) ≠ Some ct).
Proof.
  intros Hs Hu. revert ci. induction fuel as [|fuel IH]; intros ci Hci Hf; [lia|].
  cbn [conflict_loop]. rewrite u64_small by done.
  destruct (Z.ltb_spec 1 ci), (Z.ltb_spec (snap + 1) ci); cbn [andb];
    try (split_and!; [lia|lia|lia|left; lia]).
  destruct (entry_at log (ci - 1)) as [e|] eqn:He.
  - destruct (Z.eqb_spec (Term e) ct) as [Heq|Hne]; cbn [negb].
    + destruct (IH (ci - 1)) as (Hr & Hall & Hend); [lia|lia|]. split_and!; [lia|lia| |done].
      intros k Hk. destruct (decide (k = ci - 1)) as [->|]; [|apply Hall; lia].
      rewrite term_at_entry_at, He. simpl. congruence.
    + split_and!; [lia|lia|lia|]. right. rewrite term_at_entry_at, He. simpl. congruence.
  - split_and!; [lia|lia|lia|]. right. by rewrite term_at_entry_at, He.
Qed.
End hints.

(** C26: The hint of a rejected consistency check.  The index is positive and not
    beyond the rejected one (or, when the follower's snapshot covers that, just
    after the snapshot); with a non-zero term, all of the follower's entries from
    the hinted index to the rejected one have that term, which is not the
    leader's, and the index is the first of that run above the snapshot. *)
Theorem conflict_hint_exact {L F : Type} `{GoLogLaws L} `{FSM F} (s : Raft L F) prev prevT ci ct
    (Hck : checkLogConsistency prev prevT s = (false, ci, ct))
    (Hprev : 0 <= prev) (Hsnap : 0 <= r_snapshotIndex s) (Hmax : r_snapshotIndex s < u64_max) :
  1 <= ci <= Z.max prev (r_snapshotIndex s + 1)
  ∧ (ct ≠ 0 →
     r_snapshotIndex s < ci <= prev ∧ ct ≠ prevT
     ∧ (∀ k, ci <= k <= prev → term_at (r_log s) k = Some ct)
     ∧ (ci = r_snapshotIndex s + 1 ∨ term_at (r_log s) (ci - 1) ≠ Some ct)).
Proof.
  unfold checkLogConsistency in Hck. unfold u64_max in Hmax.
  rewrite u64_small in Hck by (unfold is_u64; lia).
  destruct (Z.eqb_spec prev 0); [done|]. destruct (Z.eqb_spec prev (r_snapshotIndex s)).
  { destruct (prevT =? _); [done|]. injection Hck as <- <-. split; [lia|done]. }
  destruct (Z.ltb_spec prev (r_snapshotIndex s)).
  { injection Hck as <- <-. split; [lia|done]. }
  destruct (entry_at (r_log s) prev) as [e|] eqn:He.
  2: { injection Hck as <- <-. split; [lia|done]. }
  destruct (Z.eqb_spec (Term e) prevT); [done|]. injection Hck as <- <-.
  destruct (conflict_loop_spec (r_log s) (r_snapshotIndex s) (Term e) (Z.to_nat prev) prev)
    as (Hr & Hall & Hend); [lia|unfold is_u64; lia|lia|lia|].
  split; [lia|]. intros _. split_and!; [lia|lia|done| |done].
  intros k Hk. destruct (decide (k = prev)) as [->|]; [|apply Hall; lia].
  by rewrite term_at_entry_at, He.
Qed.

Lemma conflict_hint_exact_witness :
  checkLogConsistency 2 2 lagging = (false, 1, 1) ∧ 1 <= 1 <= 2.
Proof.
  assert (checkLogConsistency 2 2 lagging = (false, 1, 1)) as H by (vm_compute; reflexivity).
  split; [done|]. apply (conflict_hint_exact lagging 2 2 1 1 H); [lia|..]; vm_compute; congruence.
Defined.

(** ** Where an accepted request does not mean what it should *)

(** A follower that holds an entry of term 1 and one of term 2, neither applied. *)
Definition stale_entry : DemoRaft :=
  (Raft__HandleAppendEntries 2 2 "n1" 0 0 [mkLogEntry [] 1 "" 0; mkLogEntry [x61] 2 "" 0] 0 n2).2.

(** A request of term 3 that only vouches for index 1, but announces that index
    2 is committed, makes it apply its own unconfirmed entry at index 2. *)
Example unconfirmed_entry_applied :
  let res := Raft__HandleAppendEntries 2 3 "n3" 1 1 [] 2 stale_entry in
  res.1 = Ret (mkAppendReply 3 true 0 0)
  ∧ commitIndex (r_store res.2) = 2 ∧ r_fsm res.2 = [[x61]] ∧ r_fsm stale_entry = [].
Proof. vm_compute. auto. Qed.

(** The log cannot be written, and the reply is a success. *)
Example success_without_entries :
  let s := boot "n2" demo_nodes demo_files (mkMemLog 0 [] [true] []) in
  let res := Raft__HandleAppendEntries 2 1 "n1" 0 0 [mkLogEntry [x61] 1 "" 0] 0 s in
  res.1 = Ret (mkAppendReply 1 true 0 0) ∧ log_items (r_log res.2) = [].
Proof. vm_compute. auto. Qed.

(** A follower with a snapshot up to index 2, whose log starts after it, accepts a request that starts at
    index 1 and stores its entries again, two places too late. *)
Example compacted_log_duplicated :
  let s := set_r_snapshotIndex 2 (set_r_snapshotTerm 1
             (boot "n2" demo_nodes demo_files (mkMemLog 2 [Serialize (mkLogEntry [x63] 1 "" 0)] [] []))) in
  let es := [mkLogEntry [x61] 1 "" 0; mkLogEntry [x62] 1 "" 0; mkLogEntry [x63] 1 "" 0] in
  let res := Raft__HandleAppendEntries 2 1 "n1" 0 0 es 0 s in
  res.1 = Ret (mkAppendReply 1 true 0 0)
  ∧ log_items (r_log res.2) = Serialize <$> (mkLogEntry [x63] 1 "" 0 :: es).
Proof. vm_compute. auto. Qed.
