(* ===== verification/Matching.v ===== *)
(** * Replication from the leader to a follower

    What the leader puts into an AppendEntries request ([replication_task]), and
    what its acceptance means for the two logs together: logs that agree up to
    the index the request builds on agree up to its last entry afterwards. *)
From S2P Require Import Prelude GoMonad FileSystem LogEntry Store Snapshot Session Config GoLog Log Fsm Node Roles Follower Leader Candidate Raft Demo Frame Election Campaign Json Cluster Replication.
Local Open Scope Z_scope.

Section payload.
Context {L : Type} `{GoLogLaws L}.

Lemma DeserializeLogEntry_Term_u64 d e : DeserializeLogEntry d = inr e → is_u64 (Term e).
Proof.
  unfold DeserializeLogEntry. destruct (Z.ltb_spec (Z.of_nat (length d)) 8); [done|].
  intros Hd. assert (Term e = le_get (take 8 d)) as -> by (case_match; by injection Hd as <-).
  apply le_get_u64_range. rewrite length_take. lia.
Qed.

Lemma entry_at_Term_u64 (log : L) i e : entry_at log i = Some e → is_u64 (Term e).
Proof.
  unfold entry_at. destruct (log_Read i log); [done|].
  destruct (DeserializeLogEntry _) eqn:E; [done|]. intros [= <-]. by eapply DeserializeLogEntry_Term_u64.
Qed.

Lemma collect_entries_lookup (log : L) fuel : ∀ i to k e,
  0 <= i → i + Z.of_nat fuel <= u64_max → collect_entries log fuel i to !! k = Some e →
  entry_at log (i + Z.of_nat k) = Some e.
Proof.
  induction fuel as [|fuel IH]; intros i to k e Hi Hf Hk; [done|].
  cbn [collect_entries] in Hk. destruct (i <=? to); [|done].
  destruct (entry_at log i) as [e0|] eqn:He; [|done]. destruct k as [|k].
  - injection Hk as <-. by rewrite Z.add_0_r.
  - cbn in Hk. rewrite u64_small in Hk by (unfold is_u64, u64_max in *; lia).
    rewrite <- (IH (i + 1) to k e) by (done || lia). f_equal. lia.
Qed.

Lemma collect_entries_length (log : L) fuel : ∀ i to,
  decodable log → log_base log < i → to <= log_last log → Z.of_nat fuel = to - i + 1 → to < u64_max →
  length (collect_entries log fuel i to) = fuel.
Proof.
  induction fuel as [|fuel IH]; intros i to Hdec Hi Hto Hf Hm; [done|].
  cbn [collect_entries]. pose proof (log_base_nonneg log).
  destruct (Z.leb_spec i to); [|lia].
  destruct (proj2 (entry_at_is_Some log i Hdec)) as [e ->]; [lia|].
  rewrite u64_small by (unfold is_u64, u64_max in *; lia). cbn [length]. f_equal. apply IH; (done || lia).
Qed.
End payload.

Section request.
Context {L F : Type} `{GoLogLaws L} `{FSM F}.
Abbreviation node := (Raft L F).

(** How many entries a request carries. *)
Definition batch_size (r : node) (next : Z) : Z :=
  Z.min (log_last (r_log r) - next + 1) (MaxBatchEntries (r_config r)).

Lemma batch_entries_spec (r : node) next :
  decodable (r_log r) → log_base (r_log r) < next <= log_last (r_log r) →
  log_last (r_log r) < u64_max → 0 < MaxBatchEntries (r_config r) < u64_max →
  let es := batch_entries r next (log_last (r_log r)) in
  Z.of_nat (length es) = batch_size r next
  ∧ ∀ k e, es !! k = Some e → entry_at (r_log r) (next + Z.of_nat k) = Some e.
Proof.
  intros Hdec Hn Hm Hb. pose proof (log_base_nonneg (r_log r)) as Hnn. cbv zeta. unfold batch_entries, batch_size.
  destruct (Z.leb_spec next (log_last (r_log r))); [|lia].
  rewrite (u64_small (_ - next + 1)) by (unfold is_u64, u64_max in *; lia).
  rewrite (u64_small (MaxBatchEntries _)) by (unfold is_u64, u64_max in *; lia).
  set (to := if _ <? _ then _ else _).
  assert (to = next + Z.min (log_last (r_log r) - next + 1) (MaxBatchEntries (r_config r)) - 1) as Hto.
  { subst to. destruct (Z.ltb_spec (MaxBatchEntries (r_config r)) (log_last (r_log r) - next + 1)); [|lia].
    rewrite u64_small by (unfold is_u64, u64_max in *; lia). lia. }
  split.
  - rewrite collect_entries_length by (done || lia). lia.
  - intros k e. apply collect_entries_lookup; lia.
Qed.

Lemma batch_entries_none (r : node) next :
  log_last (r_log r) < next → batch_entries r next (log_last (r_log r)) = [].
Proof. intros Hn. unfold batch_entries. destruct (Z.leb_spec next (log_last (r_log r))); [lia|done]. Qed.

(** A request from anywhere in the log: the next entries in order, as many as
    there are and fit. *)
Lemma batch_entries_at (r : node) next :
  decodable (r_log r) → log_base (r_log r) < next <= log_last (r_log r) + 1 →
  log_last (r_log r) < u64_max → 0 < MaxBatchEntries (r_config r) < u64_max →
  let es := batch_entries r next (log_last (r_log r)) in
  Z.of_nat (length es) = batch_size r next
  ∧ ∀ k, next <= k < next + Z.of_nat (length es) →
      ∃ e, es !! Z.to_nat (k - next) = Some e ∧ entry_at (r_log r) k = Some e.
Proof.
  intros Hdec Hn Hm Hb. cbv zeta.
  destruct (decide (next = log_last (r_log r) + 1)) as [->|].
  { rewrite batch_entries_none by lia. unfold batch_size. cbn [length]. split; lia. }
  destruct (batch_entries_spec r next) as [Hlen Hes]; [done|lia|done|done|]. split; [done|].
  intros k Hk. destruct (lookup_lt_is_Some_2 (batch_entries r next (log_last (r_log r))) (Z.to_nat (k - next)))
    as [e He]; [lia|]. exists e. split; [done|]. apply Hes in He. rewrite <- He. f_equal. lia.
Qed.

(** The bytes of an entry that was read. *)
Lemma entry_at_bytes (log : L) i e : entry_at log i = Some e → item_at log i = Some (Serialize e).
Proof.
  rewrite entry_at_item_at. destruct (item_at log i) as [d|]; [|done]. cbn.
  destruct (DeserializeLogEntry d) as [|e'] eqn:E; [done|]. intros [= ->].
  by rewrite (Serialize_Deserialize d e E).
Qed.

(** ** A request of the leader, carried by JSON, accepted by a peer *)
Section accepted.
Context (leader s s' : node) (fuel a : nat) (peer : string) (term next : Z) (sn : option Snapshot)
  (handler : RaftM L F Reply) (reply : AppendReply).
Context (Hserve : serve fuel (replication_task leader a peer term next (log_last (r_log leader))) sn = Some handler)
  (Hrun : handler s = (Ret (AppendEntriesResponse reply), s')) (Hok : ar_success reply = true).
Context (Hleader : decodable (r_log leader)) (Hdec : decodable (r_log s)) (Hrel : log_reliable (r_log s))
  (Hnext : log_base (r_log leader) < next <= log_last (r_log leader) + 1)
  (Hbase : log_base (r_log s) < next) (Hmax : log_last (r_log leader) < u64_max)
  (Hbatch : 0 < MaxBatchEntries (r_config leader) < u64_max).

Abbreviation sent := (batch_entries leader next (log_last (r_log leader))).

Lemma request_appended : next - 1 <= log_last (r_log s) ∧
  ∃ i j, appended (r_log s) (next - 1) (wired <$> sent) (r_log s') i j ∧ (i + j = length sent)%nat.
Proof.
  pose proof (log_base_nonneg (r_log leader)) as Hnn.
  destruct (batch_entries_at leader next) as [Hlen _]; [done..|]. unfold batch_size in Hlen.
  unfold replication_task in Hserve. destruct (Z.ltb_spec 0 next); [|lia]. cbn [serve] in Hserve.
  injection Hserve as <-. unfold as_reply in Hrun. apply bind_inv in Hrun as (r0 & s1 & Hh & Hret).
  injection Hret as -> ->. rewrite (u64_small (next - 1)) in Hh by (unfold is_u64, u64_max in *; lia).
  apply HandleAppendEntries_replied in Hh; [|lia|rewrite length_fmap; unfold u64_max in *; lia|done|lia].
  unfold replied in Hh. rewrite Hok in Hh. destruct Hh as (_ & Hlast & i & j & Hap). split; [done|].
  exists i, j. split; [done|]. destruct (ap_all _ _ _ _ _ _ Hap Hrel) as [Hall _]. by rewrite length_fmap in Hall.
Qed.

(** What the peer holds afterwards: nothing changed before the request, and each
    of its entries is there as JSON delivers it, or one of the same term was. *)
Lemma request_accepted :
  (∀ k, k < next → item_at (r_log s') k = item_at (r_log s) k)
  ∧ ∀ k e, next <= k < next + Z.of_nat (length sent) → entry_at (r_log leader) k = Some e →
      term_at (r_log s') k = Some (Term e)
      ∧ (item_at (r_log s') k = Some (Serialize (wired e))
         ∨ term_at (r_log s) k = Some (Term e) ∧ item_at (r_log s') k = item_at (r_log s) k).
Proof.
  destruct request_appended as (Hlast & i & j & Hap & Hall).
  pose proof (appended_matched_last _ _ _ _ _ _ Hdec Hap Hlast) as Hi.
  destruct (batch_entries_at leader next) as [_ Hat]; [done..|]. split.
  { intros k Hk. eapply appended_prefix; [done|lia..]. }
  intros k e Hk He. destruct (Hat k Hk) as (e' & Hsent & He'). assert (e' = e) as -> by congruence.
  assert ((wired <$> sent) !! Z.to_nat (k - next) = Some (wired e)) as Hw by by rewrite list_lookup_fmap, Hsent.
  destruct (appended_terms (r_log s) (r_log s') (next - 1) (wired <$> sent) i j (Z.to_nat (k - next)) (wired e))
    as [Ht Hb]; [done|lia|done|by rewrite length_fmap|done|exact (entry_at_Term_u64 _ _ _ He)|].
  replace (next - 1 + 1 + Z.of_nat (Z.to_nat (k - next))) with k in Ht, Hb by lia. split; [done|].
  destruct Hb as [Hb|Hb]; [by left|right]. split; [|done]. by rewrite <- (term_at_view (r_log s) (r_log s')).
Qed.
End accepted.
End request.

(** C6: Replication extends agreement, byte for byte.  A leader sends a peer the
    request it builds for some [nextIndex] above the compacted part of both logs:
    exactly the entries that follow in its log, as many as there are up to the
    batch limit.  If the peer, whose log can be written, accepts it, then the two
    logs hold the same terms up to the last entry sent wherever they did before
    the request; and they hold the same records, commands and client identifiers
    included, if moreover entries of the same term at the same index are the same
    (log matching) and the identifiers sent are valid UTF-8. *)
Theorem replication_extends_agreement {L F : Type} `{GoLogLaws L} `{FSM F} (leader s s' : Raft L F)
    fuel a peer term next sn handler reply low
    (Hserve : serve fuel (replication_task leader a peer term next (log_last (r_log leader))) sn = Some handler)
    (Hrun : handler s = (Ret (AppendEntriesResponse reply), s'))
    (Hok : ar_success reply = true)
    (Hleader : decodable (r_log leader)) (Hdec : decodable (r_log s)) (Hrel : log_reliable (r_log s))
    (Hnext : log_base (r_log leader) < next <= log_last (r_log leader) + 1)
    (Hbase : log_base (r_log s) < next) (Hmax : log_last (r_log leader) < u64_max)
    (Hbatch : 0 < MaxBatchEntries (r_config leader) < u64_max) :
  let es := batch_entries leader next (log_last (r_log leader)) in
  let upto := next + Z.min (log_last (r_log leader) - next + 1) (MaxBatchEntries (r_config leader)) in
  Z.of_nat (length es) = upto - next
  ∧ (∀ k, next <= k < upto → ∃ e, es !! Z.to_nat (k - next) = Some e
       ∧ item_at (r_log leader) k = Some (Serialize e))
  ∧ ((∀ k, low < k < next → term_at (r_log s) k = term_at (r_log leader) k) →
     ∀ k, low < k < upto → term_at (r_log s') k = term_at (r_log leader) k)
  ∧ ((∀ k, low < k < next → item_at (r_log s) k = item_at (r_log leader) k) →
     (∀ k T, next <= k → term_at (r_log s) k = Some T → term_at (r_log leader) k = Some T →
        item_at (r_log s) k = item_at (r_log leader) k) →
     Forall entry_intact es →
     ∀ k, low < k < upto → item_at (r_log s') k = item_at (r_log leader) k).
Proof.
  intros es upto. destruct (batch_entries_at leader next) as [Hlen Hat]; [done..|]. fold es in Hlen, Hat.
  assert (Z.of_nat (length es) = upto - next) as Hes by (unfold batch_size in Hlen; unfold upto; lia).
  destruct (request_accepted leader s s' fuel a peer term next sn handler reply) as [Hbefore Hafter]; [done..|].
  fold es in Hafter. split_and!; [done|..].
  - intros k Hk. destruct (Hat k) as (e & He & Hl); [lia|]. exists e. split; [done|by apply entry_at_bytes].
  - intros Hagree k Hk. destruct (decide (k < next)).
    + rewrite (term_at_view (r_log s)) by by apply Hbefore. by apply Hagree; lia.
    + destruct (Hat k) as (e & _ & Hl); [lia|]. rewrite (term_at_entry_at (r_log leader)), Hl.
      by apply Hafter; [lia|].
  - intros Hagree Hmatch Hint k Hk. destruct (decide (k < next)).
    + rewrite Hbefore by done. by apply Hagree; lia.
    + destruct (Hat k) as (e & He & Hl); [lia|]. rewrite (entry_at_bytes _ _ _ Hl).
      destruct (Hafter k e) as [_ [Hb|[Ht Hb]]]; [lia|done|..].
      * rewrite Hb, wired_id; [done|]. by eapply Forall_lookup_1.
      * rewrite Hb, <- (entry_at_bytes _ _ _ Hl). apply (Hmatch k (Term e)); [lia|done|].
        by rewrite term_at_entry_at, Hl.
Qed.

(** A leader with terms 1, 1, 3, 3 and the lagging follower with 1, 1, 2. *)
Definition ahead : DemoRaft :=
  boot "n1" demo_nodes demo_files
    (mkMemLog 0 (Serialize <$> (mkLogEntry [] 1 "" 0 :: new_entries)) [] []).

Definition catch_up : RaftM MemLog (list bytes) Reply :=
  default (mret (InstallSnapshotResponse 0)) (serve 2 (replication_task ahead 0 "n2" 3 2 4) None).

Definition caught_up : outcome Reply * DemoRaft := catch_up lagging.

Lemma catch_up_served : serve 2 (replication_task ahead 0 "n2" 3 2 4) None = Some catch_up.
Proof. unfold catch_up, replication_task. cbn [serve default from_option id]. reflexivity. Qed.

Lemma caught_up_reply : caught_up.1 = Ret (AppendEntriesResponse (mkAppendReply 3 true 0 0)).
Proof. vm_compute. reflexivity. Qed.

Lemma ahead_matches k T : 2 <= k → term_at (r_log lagging) k = Some T → term_at (r_log ahead) k = Some T →
  item_at (r_log lagging) k = item_at (r_log ahead) k.
Proof.
  intros Hk Hl Ha. assert (k = 2 ∨ k = 3) as [-> | ->].
  { assert (k <= 3); [|lia]. destruct (decide (k <= 3)) as [|Hn]; [done|].
    rewrite term_at_entry_at in Hl. destruct (entry_at (r_log lagging) k) as [e|] eqn:E; [|done].
    assert (log_base (r_log lagging) < k <= log_last (r_log lagging)) as Hr.
    { apply entry_at_is_Some; [apply (mem_decodable [mkLogEntry [] 1 "" 0; mkLogEntry [x61] 1 "" 0; mkLogEntry [] 2 "" 0] 0)|].
      by exists e. }
    assert (log_last (r_log lagging) = 3) as E3 by (vm_compute; reflexivity). lia. }
  - vm_compute. reflexivity.
  - exfalso. assert (term_at (r_log lagging) 3 = Some 2) as E1 by (vm_compute; reflexivity).
    assert (term_at (r_log ahead) 3 = Some 3) as E2 by (vm_compute; reflexivity). congruence.
Qed.

Lemma replication_extends_agreement_witness :
  caught_up.1 = Ret (AppendEntriesResponse (mkAppendReply 3 true 0 0))
  ∧ item_at (r_log caught_up.2) 4 = item_at (r_log ahead) 4.
Proof.
  split; [exact caught_up_reply|].
  refine (proj2 (proj2 (proj2 (replication_extends_agreement ahead lagging caught_up.2 2 0 "n2" 3 2 None catch_up
    (mkAppendReply 3 true 0 0) 0 _ _ _ _ _ _ _ _ _ _))) _ _ _ 4 _).
  - exact catch_up_served.
  - rewrite <- caught_up_reply. exact (surjective_pairing caught_up).
  - reflexivity.
  - apply (mem_decodable (mkLogEntry [] 1 "" 0 :: new_entries) 0).
  - apply (mem_decodable [mkLogEntry [] 1 "" 0; mkLogEntry [x61] 1 "" 0; mkLogEntry [] 2 "" 0] 0).
  - apply mem_reliable. reflexivity.
  - vm_compute. split; congruence.
  - vm_compute. reflexivity.
  - vm_compute. reflexivity.
  - vm_compute. split; congruence.
  - intros j Hj. assert (j = 1) as -> by (clear -Hj; lia). vm_compute. reflexivity.
  - exact ahead_matches.
  - apply (bool_decide_unpack _). vm_compute. exact I.
  - vm_compute. split; congruence.
Defined.
