(* ===== verification/Commit.v ===== *)
(** * The leader's commit rule and its bookkeeping

    [tryToAdvanceCommitIndex] sorts the match indices and takes the median; the
    theorem says what that is: the greatest index a majority has, committed only
    when its entry is of the leader's own term.  Also what an acknowledgement and
    a failed call do to [matchIndex] and [nextIndex]. *)
From Stdlib Require Import Sorting.Permutation.
From stdpp Require Import sorting.
From S2P Require Import Prelude GoMonad FileSystem LogEntry Store Snapshot Session Config GoLog Log Fsm Node Roles Follower Leader Candidate Raft Demo Frame Election Campaign Replication.
Local Open Scope Z_scope.

(** More than half of the nodes have a value of at least [k]. *)
Definition quorum (m : string → Z) (nodes : list string) (k : Z) : Prop :=
  (length nodes / 2 < length (filter (λ n, (k <= m n)%Z) nodes))%nat.

Definition greatest_quorum (m : string → Z) (nodes : list string) (k : Z) : Prop :=
  quorum m nodes k ∧ ∀ k', quorum m nodes k' → k' <= k.

(** ** The median of a sorted list *)
Lemma filter_none {A} (P : A → Prop) `{∀ x, Decision (P x)} (l : list A) : (∀ x, x ∈ l → ¬ P x) → filter P l = [].
Proof.
  induction l as [|x l IH]; intros Hl; [done|].
  rewrite list.filter_cons_False by (apply Hl; left). apply IH. intros y Hy. apply Hl. by right.
Qed.

Lemma quorum_bound (m : string → Z) nodes k b :
  quorum m nodes k → Forall (λ n, m n <= b) nodes → k <= b.
Proof.
  unfold quorum. intros Hq Hb. rewrite list.Forall_forall in Hb.
  destruct (decide (k <= b)) as [|Hk]; [done|exfalso].
  rewrite filter_none in Hq; [simpl in Hq; lia|]. intros n Hn. specialize (Hb n Hn). lia.
Qed.

Lemma sorted_count (ms : list Z) idx (c k : Z) : StronglySorted Z.le ms → ms !! idx = Some c →
  (k <= c → (length ms - idx <= length (filter (λ x, (k <= x)%Z) ms))%nat)
  ∧ (c < k → (length (filter (λ x, (k <= x)%Z) ms) <= length ms - idx - 1)%nat).
Proof.
  intros Hs Hc. pose proof (lookup_lt_Some _ _ _ Hc) as Hlt.
  pose proof (take_drop_middle ms idx c Hc) as Hms. rewrite <- Hms in Hs |- *.
  apply StronglySorted_app in Hs as (Hle & _ & Hr).
  apply StronglySorted_inv in Hr as [_ Hr]. rewrite list.Forall_forall in Hr.
  assert (∀ k, length (filter (λ x, (k <= x)%Z) (take idx ms ++ c :: drop (S idx) ms))
    = length (filter (λ x, (k <= x)%Z) (take idx ms)) + length (filter (λ x, (k <= x)%Z) (c :: drop (S idx) ms)))%nat
    as Hsplit by (intros; by rewrite list.filter_app, length_app).
  rewrite Hsplit, length_app. cbn [length]. rewrite length_take, length_drop. split; intros Hk.
  - rewrite (filter_all _ (c :: drop (S idx) ms)); [cbn [length]; rewrite length_drop; lia|].
    apply list.Forall_forall. intros x [-> |Hx]%elem_of_cons; [done|]. specialize (Hr x Hx). lia.
  - rewrite (filter_none _ (take idx ms)).
    + rewrite list.filter_cons_False by lia. cbn [length].
      pose proof (length_filter (λ x, (k <= x)%Z) (drop (S idx) ms)). rewrite length_drop in *. lia.
    + intros x Hx. specialize (Hle x c Hx ltac:(left)). lia.
Qed.

Lemma quorum_sorted (m : string → Z) (nodes : list string) k :
  let ms := merge_sort Z.le (m <$> nodes) in
  length ms = length nodes
  ∧ length (filter (λ x, (k <= x)%Z) ms) = length (filter (λ n, (k <= m n)%Z) nodes).
Proof.
  cbv zeta. pose proof (merge_sort_Permutation Z.le (m <$> nodes)) as Hp. split.
  - by rewrite (Permutation_length Hp), length_fmap.
  - assert (filter (λ x, (k <= x)%Z) (merge_sort Z.le (m <$> nodes)) ≡ₚ filter (λ x, (k <= x)%Z) (m <$> nodes))
      as Hf by (by rewrite Hp).
    rewrite (Permutation_length Hf). clear. induction nodes as [|n nodes IH]; [done|]. cbn [fmap list_fmap].
    destruct (decide (k <= m n)).
    + rewrite !list.filter_cons_True by done. cbn [length]. by f_equal.
    + by rewrite !list.filter_cons_False by done.
Qed.

(** The element the code picks. *)
Lemma median_quorum (m : string → Z) (nodes : list string) c :
  let ms := merge_sort Z.le (m <$> nodes) in
  ms !! (length ms - Nat.div (length ms) 2 - 1)%nat = Some c → greatest_quorum m nodes c.
Proof.
  cbv zeta. intros Hc.
  destruct (quorum_sorted m nodes c) as [Hlen Hcount].
  pose proof (lookup_lt_Some _ _ _ Hc) as Hlt. rewrite Hlen in Hc, Hlt.
  assert (StronglySorted Z.le (merge_sort Z.le (m <$> nodes))) as Hs
    by (apply StronglySorted_merge_sort; intros ?; lia).
  assert (length nodes / 2 < length nodes)%nat as Hhalf by (apply Nat.div_lt; lia).
  split.
  - destruct (sorted_count _ _ c c Hs Hc) as [Hge _]. specialize (Hge ltac:(lia)).
    unfold quorum. rewrite <- Hcount. lia.
  - intros k Hq. destruct (decide (k <= c)) as [|Hk]; [done|exfalso].
    destruct (sorted_count _ _ c k Hs Hc) as [_ Hle]. specialize (Hle ltac:(lia)).
    destruct (quorum_sorted m nodes k) as [_ Hck]. unfold quorum in Hq. lia.
Qed.

(** ** Leader objects *)
Section leader_object.
Context {L F : Type}.
Abbreviation node := (Raft L F).

Definition with_leader (s : node) (a : nat) (l : LeaderRole) : node :=
  set_r_roles (<[a := RLeader l]> (r_roles s)) s.

Lemma read_leader_run (s : node) a l :
  r_roles s !! a = Some (RLeader l) → read_leader a s = (Ret l, s).
Proof. intros Ha. unfold read_leader, read_role. rewrite !bind_run. cbn [gets]. by rewrite Ha. Qed.

Lemma update_leader_run (s : node) a l f :
  r_roles s !! a = Some (RLeader l) → update_leader a f s = (Ret tt, with_leader s a (f l)).
Proof.
  intros Ha. unfold update_leader. by rewrite (bind_ret_run _ _ _ _ _ (read_leader_run s a l Ha)).
Qed.

Lemma with_leader_same (s : node) a l : r_roles s !! a = Some (RLeader l) → with_leader s a l = s.
Proof. intros Ha. unfold with_leader. rewrite insert_id by done. by destruct s. Qed.

Lemma with_leader_twice (s : node) a l l' : with_leader (with_leader s a l) a l' = with_leader s a l'.
Proof. unfold with_leader. destruct s. cbn. by rewrite insert_insert_eq. Qed.

Lemma with_leader_lookup (s : node) a l : r_roles (with_leader s a l) !! a = Some (RLeader l).
Proof. apply lookup_insert_eq. Qed.
End leader_object.

Section commit.
Context {L F : Type} `{GoLogLaws L} `{FSM F}.
Abbreviation node := (Raft L F).

Definition committed (s : node) : Z := commitIndex (r_store s).

(** Only commit indices in the log are set, and none lower than before. *)
Lemma setCommitIndex_run k (s : node) :
  0 < k <= log_last (r_log s) → committed s < k →
  setCommitIndex k s = (Ret tt, set_r_store (set_commitIndex k (r_store s)) s).
Proof.
  intros Hk Hc. unfold setCommitIndex. rewrite bind_run. cbn [gets]. rewrite log_last_spec.
  case_bool_decide as Hn; [by destruct Hn|]. cbn [orb].
  destruct (Z.eqb_spec (log_last (r_log s)) 0); [lia|].
  destruct (Z.ltb_spec (log_last (r_log s)) k); [lia|]. rewrite bind_run. cbn [gets].
  unfold committed in Hc. by destruct (Z.leb_spec k (commitIndex (r_store s))); [lia|].
Qed.

(** What the rule does, on every branch. *)
Lemma tryToAdvance_run a l (s : node) :
  r_roles s !! a = Some (RLeader l) → decodable (r_log s) → 0 <= committed s →
  let m := map_Z (l_matchIndex l) in
  (∃ k, committed s < k ∧ greatest_quorum m (r_nodes s) k ∧ term_at (r_log s) k = Some (term_of s)
     ∧ LeaderRole__tryToAdvanceCommitIndex a s
       = (Ret tt, with_leader (set_r_store (set_commitIndex k (r_store s)) s) a (set_l_applierCh true l)))
  ∨ (LeaderRole__tryToAdvanceCommitIndex a s = (Ret tt, s)
     ∧ ∀ k, committed s < k → greatest_quorum m (r_nodes s) k → term_at (r_log s) k ≠ Some (term_of s)).
Proof.
  intros Ha Hdec Hc m. unfold LeaderRole__tryToAdvanceCommitIndex.
  rewrite bind_run, GetCurrentTerm_run, (bind_ret_run _ _ _ _ _ (read_leader_run s a l Ha)).
  rewrite bind_run. cbn [gets]. fold m. set (ms := merge_sort Z.le (m <$> r_nodes s)).
  destruct (Nat.eqb_spec (length ms) 0) as [Hz|Hz].
  { right. split; [done|]. intros k _ [Hq _]. exfalso. unfold quorum in Hq.
    destruct (quorum_sorted m (r_nodes s) k) as [Hlen _]. fold ms in Hlen.
    pose proof (length_filter (λ n, (k <= m n)%Z) (r_nodes s)). lia. }
  destruct (lookup_lt_is_Some_2 ms (length ms - Nat.div (length ms) 2 - 1)%nat) as [c Hcand]; [lia|].
  rewrite Hcand. pose proof (median_quorum m (r_nodes s) c Hcand) as Hgq.
  assert (∀ k, greatest_quorum m (r_nodes s) k → k = c) as Huniq.
  { intros k [Hk1 Hk2]. destruct Hgq as [Hc1 Hc2]. specialize (Hk2 c Hc1). specialize (Hc2 k Hk1). lia. }
  destruct (Z.eqb_spec c 0) as [->|Hc0].
  { right. split; [done|]. intros k Hk ->%Huniq. lia. }
  rewrite bind_run. cbn [gets]. destruct (entry_at (r_log s) c) as [e|] eqn:He.
  2: { right. split; [done|]. intros k Hk ->%Huniq. by rewrite term_at_entry_at, He. }
  destruct (Z.eqb_spec (Term e) (term_of s)) as [Ht|Ht]; cbn [negb].
  2: { right. split; [done|]. intros k Hk ->%Huniq. rewrite term_at_entry_at, He. simpl. congruence. }
  rewrite bind_run. cbn [gets]. fold (committed s). destruct (Z.ltb_spec (committed s) c) as [Hlt|Hge]; cbn [when].
  2: { right. split; [done|]. intros k Hk ->%Huniq. lia. }
  left. exists c. assert (is_Some (entry_at (r_log s) c)) as Hs by eauto.
  apply entry_at_is_Some in Hs; [|done].
  split_and!; [done|done|by rewrite term_at_entry_at, He; simpl; rewrite Ht|].
  rewrite (bind_ret_run _ _ _ _ _ (setCommitIndex_run c s ltac:(lia) Hlt)).
  unfold triggerApplier. by rewrite (update_leader_run _ a l).
Qed.
End commit.

(** C4: The commit rule.  A leader moves its commit index to [k] exactly when
    [k] is the greatest index that more than half of the nodes are known to hold,
    the entry there is of the leader's current term, and [k] is ahead of the
    commit index; otherwise nothing changes.  The log is never touched. *)
Theorem commit_rule {L F : Type} `{GoLogLaws L} `{FSM F} (s : Raft L F) a l
    (Ha : r_roles s !! a = Some (RLeader l)) (Hdec : decodable (r_log s))
    (Hc : 0 <= commitIndex (r_store s)) :
  ∃ s', LeaderRole__tryToAdvanceCommitIndex a s = (Ret tt, s')
  ∧ r_log s' = r_log s ∧ commitIndex (r_store s) <= commitIndex (r_store s')
  ∧ ∀ k, commitIndex (r_store s) < k →
      commitIndex (r_store s') = k ↔
      greatest_quorum (map_Z (l_matchIndex l)) (r_nodes s) k
      ∧ term_at (r_log s) k = Some (currentTerm (r_store s)).
Proof.
  destruct (tryToAdvance_run a l s Ha Hdec Hc) as [(c & Hlt & Hgq & Ht & ->)|[-> Hno]];
    unfold committed, term_of in *; eexists; (split; [done|]).
  - cbn. split_and!; [done|lia|]. intros k Hk. split; [by intros <-|].
    intros [[Hk1 Hk2] _]. destruct Hgq as [Hc1 Hc2].
    specialize (Hk2 c Hc1). specialize (Hc2 k Hk1). lia.
  - split_and!; [done|lia|]. intros k Hk. split; [lia|]. intros [Hg Hkt]. by destruct (Hno k Hk Hg).
Qed.

(** The new leader has heard that n2 holds its first entry. *)
Definition acked_leader : DemoRaft := (raise_match 6 "n2" 1 n1_leader).2.
Lemma acked_matches :
  Forall (λ n, map_Z (l_matchIndex (leader_at 6 acked_leader)) n <= 1) (r_nodes acked_leader).
Proof.
  assert (r_nodes acked_leader = demo_nodes) as -> by (vm_compute; reflexivity).
  repeat constructor; vm_compute; congruence.
Qed.

Lemma commit_rule_witness :
  commitIndex (r_store acked_leader) = 0
  ∧ commitIndex (r_store (LeaderRole__tryToAdvanceCommitIndex 6 acked_leader).2) = 1.
Proof.
  assert (r_log acked_leader = mkMemLog 0 (Serialize <$> [mkLogEntry [] 1 "" 0]) [] []) as Hlog
    by (vm_compute; reflexivity).
  destruct (commit_rule acked_leader 6 (leader_at 6 acked_leader)) as (s' & Hs' & _ & _ & Hk);
    [vm_compute; reflexivity|rewrite Hlog; apply mem_decodable|vm_compute; discriminate|].
  split; [vm_compute; reflexivity|]. rewrite Hs'. apply Hk; [vm_compute; reflexivity|].
  split; [|vm_compute; reflexivity]. split.
  - unfold quorum. vm_compute. lia.
  - intros k Hq. exact (quorum_bound _ _ k 1 Hq acked_matches).
Defined.

(** ** A call that failed *)
Section failed_call.
Context {L F : Type} `{GoLogLaws L} `{FSM F}.
Abbreviation node := (Raft L F).

Lemma role_type_leader (s : node) a l : r_role s = Some a → r_roles s !! a = Some (RLeader l) →
  role_type s = (Ret "leader"%string, s).
Proof.
  intros Hr Ha. unfold role_type, read_role. rewrite bind_run. cbn [gets]. rewrite Hr.
  rewrite !bind_run. cbn [gets]. by rewrite Ha.
Qed.

Lemma set_inflight_run (s : node) a l peer b : r_roles s !! a = Some (RLeader l) →
  set_inflight a peer b s = (Ret tt, with_leader s a (set_l_inflight (<[peer := b]> (l_inflight l)) l)).
Proof. intros Ha. unfold set_inflight. by rewrite (update_leader_run s a l). Qed.

(** The request in flight is over. *)
Lemma clear_inflight_run (s : node) a l peer : r_roles s !! a = Some (RLeader l) →
  ∃ l1, when (map_bool (l_inflight l) peer) (set_inflight a peer false) s = (Ret tt, with_leader s a l1)
  ∧ map_bool (l_inflight l1) peer = false ∧ l_nextIndex l1 = l_nextIndex l.
Proof.
  intros Ha. destruct (map_bool (l_inflight l) peer) eqn:E; cbn [when].
  - rewrite (set_inflight_run s a l) by done. eexists _. split; [done|].
    cbn. unfold map_bool. by rewrite lookup_insert_eq.
  - exists l. rewrite with_leader_same by done. split_and!; done.
Qed.

Lemma append_rejected_run (s : node) a l peer ci ct : r_roles s !! a = Some (RLeader l) →
  append_rejected a peer ci ct s =
  if 1 <? map_Z (l_nextIndex l) peer
  then (Ret true, with_leader s a (set_l_nextIndex
          (<[peer := backtrack (r_log s) ci ct]> (l_nextIndex l)) l))
  else (Ret false, s).
Proof.
  intros Ha. unfold append_rejected. rewrite (bind_ret_run _ _ _ _ _ (read_leader_run s a l Ha)).
  destruct (1 <? _); [|done]. rewrite bind_run. cbn [gets].
  by rewrite (bind_ret_run _ _ _ _ _ (update_leader_run s a l _ Ha)).
Qed.

(** The goroutine a retry starts when none is in flight. *)
Definition retry_task (s : node) (a : nat) (peer : string) (term next : Z) : Task :=
  if needs_snapshot s next then GoSendInstallSnapshot a peer term (r_id s)
  else replication_task s a peer term
         (if next =? 0 then u64 (log_last (r_log s) + 1) else next) (log_last (r_log s)).

Lemma retry_run (s : node) a l peer term :
  r_roles s !! a = Some (RLeader l) → map_bool (l_inflight l) peer = false →
  let s1 := with_leader s a (set_l_inflight (<[peer := true]> (l_inflight l)) l) in
  LeaderRole__retrySendAppendEntriesToNode a peer term s =
  (Ret tt, set_r_next (S (r_next s))
     (set_r_tasks (<[r_next s := retry_task s a peer term (map_Z (l_nextIndex l) peer)]> (r_tasks s)) s1)).
Proof.
  intros Ha Hf s1. unfold LeaderRole__retrySendAppendEntriesToNode.
  rewrite (bind_ret_run _ _ _ _ _ (read_leader_run s a l Ha)), Hf.
  rewrite (bind_ret_run _ _ _ _ _ (set_inflight_run s a l peer true Ha)).
  rewrite bind_run. cbn [gets]. unfold retry_task.
  change (needs_snapshot (with_leader _ _ _) ?n) with (needs_snapshot s n).
  destruct (needs_snapshot s _); [done|]. cbn [r_log with_leader set_r_roles]. by rewrite log_last_spec.
Qed.
End failed_call.

(** C32: An AppendEntries call that fails is taken for a rejection by the peer: the
    leader's [nextIndex] for it drops to 1, whatever it was above, and the call is
    repeated at once from the start of the log (or with the snapshot). *)
Theorem failed_append_rewinds {L F : Type} `{GoLogLaws L} `{FSM F} (s : Raft L F) a l peer prev es
    (Hrole : r_role s = Some a) (Ha : r_roles s !! a = Some (RLeader l))
    (Hnext : 1 < map_Z (l_nextIndex l) peer) :
  let term := currentTerm (r_store s) in
  ∃ s' l', sendAppendEntries_done a peer term prev es (AppendEntries_failed term) s = (Ret tt, s')
  ∧ r_roles s' !! a = Some (RLeader l')
  ∧ map_Z (l_nextIndex l') peer = 1 ∧ map_bool (l_inflight l') peer = true
  ∧ r_tasks s' !! r_next s
    = Some (if 0 <? r_snapshotIndex s then GoSendInstallSnapshot a peer term (r_id s)
            else replication_task s a peer term 1 (log_last (r_log s))).
Proof.
  intros term. destruct (clear_inflight_run s a l peer Ha) as (l1 & Hclear & Hf & Hn).
  unfold sendAppendEntries_done, recovering, LeaderRole__sendAppendEntriesToNode_reply, AppendEntries_failed.
  cbn [ar_term ar_success ar_conflictIndex ar_conflictTerm]. cbv zeta.
  rewrite (bind_ret_run _ _ _ _ _ (read_leader_run s a l Ha)), (bind_ret_run _ _ _ _ _ Hclear).
  set (s1 := with_leader s a l1).
  assert (r_roles s1 !! a = Some (RLeader l1)) as Ha1 by apply with_leader_lookup.
  rewrite bind_run, GetCurrentTerm_run.
  change (term_of s1) with term. rewrite Z.ltb_irrefl.
  rewrite (bind_ret_run _ _ _ _ _ (role_type_leader s1 a l1 Hrole Ha1)).
  rewrite bool_decide_true, Z.eqb_refl by done. cbn [negb orb ar_success].
  rewrite bind_run, (append_rejected_run s1 a l1) by done. cbn [ar_conflictIndex ar_conflictTerm].
  rewrite Hn. destruct (Z.ltb_spec 1 (map_Z (l_nextIndex l) peer)); [|lia].
  change (backtrack (r_log s1) 0 0) with 1. cbn [when]. unfold s1.
  rewrite with_leader_twice, retry_run with (l := set_l_nextIndex (<[peer := 1]> (l_nextIndex l)) l1) by (done || apply with_leader_lookup).
  rewrite with_leader_twice. eexists _, _. split; [done|].
  split; [apply with_leader_lookup|]. cbn [l_nextIndex l_inflight set_l_inflight set_l_nextIndex].
  unfold map_Z, map_bool. rewrite !lookup_insert_eq. split_and!; [done|done|].
  cbn. rewrite lookup_insert_eq. unfold retry_task, needs_snapshot, map_Z. cbn.
  f_equal. destruct (Z.ltb_spec 0 (r_snapshotIndex s)); cbn; [|done].
  destruct (Z.leb_spec 1 (r_snapshotIndex s)); [done|lia].
Qed.

(** The leader with n2 at index 5. *)
Definition far_leader : DemoRaft := (raise_next 6 "n2" 5 n1_leader).2.
Lemma failed_append_rewinds_witness :
  map_Z (l_nextIndex (leader_at 6 far_leader)) "n2" = 5 ∧
  ∃ s' l', sendAppendEntries_done 6 "n2" 1 4 [] (AppendEntries_failed 1) far_leader = (Ret tt, s')
  ∧ r_roles s' !! 6%nat = Some (RLeader l') ∧ map_Z (l_nextIndex l') "n2" = 1.
Proof.
  split; [vm_compute; reflexivity|].
  destruct (failed_append_rewinds far_leader 6 (leader_at 6 far_leader) "n2" 4 []) as (s' & l' & Hs & Hr & Hn & _);
    [vm_compute; reflexivity..|].
  assert (currentTerm (r_store far_leader) = 1) as Ht by (vm_compute; reflexivity).
  cbv zeta in Hs. rewrite Ht in Hs. eauto.
Defined.

(** ** An acknowledgement *)
Definition raised (m : gmap string Z) (peer : string) (v : Z) : gmap string Z :=
  if map_Z m peer <? v then <[peer := v]> m else m.

Lemma map_Z_raised m peer v n :
  map_Z (raised m peer v) n = if decide (n = peer) then Z.max (map_Z m peer) v else map_Z m n.
Proof.
  unfold raised. destruct (Z.ltb_spec (map_Z m peer) v), (decide (n = peer)) as [->|Hne]; unfold map_Z in *.
  - rewrite lookup_insert_eq. simpl. lia.
  - by rewrite lookup_insert_ne.
  - lia.
  - done.
Qed.

Section acknowledged.
Context {L F : Type} `{GoLogLaws L} `{FSM F}.
Abbreviation node := (Raft L F).

Lemma raise_match_run (s : node) a l peer v : r_roles s !! a = Some (RLeader l) →
  raise_match a peer v s = (Ret tt, with_leader s a (set_l_matchIndex (raised (l_matchIndex l) peer v) l)).
Proof.
  intros Ha. unfold raise_match. rewrite (update_leader_run s a l) by done. unfold raised.
  destruct (_ <? v); [done|]. by destruct l.
Qed.

Lemma raise_next_run (s : node) a l peer v : r_roles s !! a = Some (RLeader l) →
  raise_next a peer v s = (Ret tt, with_leader s a (set_l_nextIndex (raised (l_nextIndex l) peer v) l)).
Proof.
  intros Ha. unfold raise_next. rewrite (update_leader_run s a l) by done. unfold raised.
  destruct (_ <? v); [done|]. by destruct l.
Qed.
End acknowledged.

(** C14: An acknowledged request raises the peer's [matchIndex] to its last entry
    (never lowers it) and [nextIndex] to the one after, leaves every other peer's
    alone and applies the commit rule to the new values; another request follows
    exactly when the log has more for this peer. *)
Theorem acknowledgement_advances {L F : Type} `{GoLogLaws L} `{FSM F} (s : Raft L F) a l peer prev es
    (Ha : r_roles s !! a = Some (RLeader l)) (Hdec : decodable (r_log s))
    (Hc : 0 <= commitIndex (r_store s)) (Hprev : 0 <= prev)
    (Hmax : prev + Z.of_nat (length es) < u64_max) :
  let lastSent := prev + Z.of_nat (length es) in
  ∃ s' l', append_acknowledged a peer prev es s
           = (Ret (map_Z (l_nextIndex l') peer <=? log_last (r_log s)), s')
  ∧ r_roles s' !! a = Some (RLeader l') ∧ r_log s' = r_log s
  ∧ (∀ n, map_Z (l_matchIndex l') n
          = if decide (n = peer) then Z.max (map_Z (l_matchIndex l) peer) lastSent
            else map_Z (l_matchIndex l) n)
  ∧ (∀ n, map_Z (l_nextIndex l') n
          = if decide (n = peer) then Z.max (map_Z (l_nextIndex l) peer) (lastSent + 1)
            else map_Z (l_nextIndex l) n)
  ∧ ∀ k, commitIndex (r_store s) < k →
      commitIndex (r_store s') = k ↔
      greatest_quorum (map_Z (l_matchIndex l')) (r_nodes s) k
      ∧ term_at (r_log s) k = Some (currentTerm (r_store s)).
Proof.
  intros lastSent. unfold append_acknowledged, record_ack.
  rewrite (bind_ret_run _ _ _ _ _ (update_leader_run s a l _ Ha)). set (l0 := set_l_lastAckTicks _ l).
  assert ((if 0 <? Z.of_nat (length es) then u64 (prev + Z.of_nat (length es)) else prev) = lastSent) as ->.
  { subst lastSent. destruct (Z.ltb_spec 0 (Z.of_nat (length es))); [|lia].
    apply u64_small. unfold is_u64, u64_max in *. lia. }
  cbv zeta. rewrite (u64_small (lastSent + 1)) by (subst lastSent; unfold is_u64, u64_max in *; lia).
  rewrite (bind_ret_run _ _ _ _ _ (raise_match_run _ a l0 _ _ (with_leader_lookup s a l0))), with_leader_twice.
  set (l1 := set_l_matchIndex _ l0).
  rewrite (bind_ret_run _ _ _ _ _ (raise_next_run _ a l1 _ _ (with_leader_lookup s a l1))), with_leader_twice.
  set (l2 := set_l_nextIndex _ l1).
  destruct (tryToAdvance_run a l2 (with_leader s a l2)) as [(c & Hlt & Hgq & Ht & Hrun)|[Hrun Hno]];
    [apply with_leader_lookup|done|done|..]; rewrite (bind_ret_run _ _ _ _ _ Hrun);
    rewrite bind_run; cbn [gets];
    rewrite (bind_ret_run _ _ _ _ _ (read_leader_run _ a _ (with_leader_lookup _ a _)));
    cbn [r_log with_leader set_r_roles set_r_store]; rewrite log_last_spec.
  all: eexists _, _; split; [done|]; split; [apply with_leader_lookup|]; split; [done|].
  all: split; [intros n; apply map_Z_raised|]; split; [intros n; apply map_Z_raised|].
  all: cbn -[quorum greatest_quorum term_at]; intros k Hk; unfold committed, term_of in *.
  - split; [by intros <-|]. intros [[Hk1 Hk2] _]. destruct Hgq as [Hc1 Hc2].
    specialize (Hk2 c Hc1). specialize (Hc2 k Hk1). lia.
  - split; [lia|]. intros [Hg Hkt]. by destruct (Hno k Hk Hg).
Qed.

Lemma acknowledgement_advances_witness :
  commitIndex (r_store n1_leader) = 0 ∧
  ∃ s', append_acknowledged 6 "n2" 0 [mkLogEntry [] 1 "" 0] n1_leader = (Ret false, s')
  ∧ commitIndex (r_store s') = 1.
Proof.
  split; [vm_compute; reflexivity|].
  assert (r_log n1_leader = mkMemLog 0 (Serialize <$> [mkLogEntry [] 1 "" 0]) [] []) as Hlog
    by (vm_compute; reflexivity).
  destruct (acknowledgement_advances n1_leader 6 (leader_at 6 n1_leader) "n2" 0 [mkLogEntry [] 1 "" 0])
    as (s' & l' & Hrun & _); [vm_compute; reflexivity|rewrite Hlog; apply mem_decodable|
      vm_compute; discriminate|lia|vm_compute; reflexivity|].
  assert (append_acknowledged 6 "n2" 0 [mkLogEntry [] 1 "" 0] n1_leader = (Ret false, s')
          ∧ commitIndex (r_store s') = 1) as Hdone; [|by exists s'].
  assert (s' = (append_acknowledged 6 "n2" 0 [mkLogEntry [] 1 "" 0] n1_leader).2) as -> by (by rewrite Hrun).
  vm_compute. split; reflexivity.
Defined.
