(* ===== verification/Apply.v ===== *)
(** * Applying the log

    The reference semantics of a replicated state machine is a fold: every entry
    in order, empty ones skipped, a client's request once ([apply_ref]).  Both
    appliers of the code, the follower's and the leader's, refine it, so two nodes
    whose logs agree bring their state machines to the same state. *)
From S2P Require Import Prelude GoMonad FileSystem LogEntry Store Snapshot Session Config GoLog Log Fsm Node Roles Follower Leader Candidate Raft Demo Frame Election Campaign Replication.
Local Open Scope Z_scope.

Section reference.
Context {F : Type} `{FSM F}.

Definition apply_ref (e : LogEntry) : GoM (F * SessionTable) unit := λ '(f, t),
  if bool_decide (Data e = []) then (Ret tt, (f, t))
  else if bool_decide (ClientId e = ""%string) then
    let '(o, f') := fsm_Apply (Data e) f in
    (match o with Ret _ => Ret tt | Panic m => Panic m | OutOfFuel => OutOfFuel end, (f', t))
  else if (IsDuplicate t (ClientId e) (SequenceNumber e)).1 then (Ret tt, (f, t))
  else
    match fsm_Apply (Data e) f with
    | (Ret r, f') => (Ret tt, (f', RecordResult t (ClientId e) (SequenceNumber e) r))
    | (Panic m, f') => (Panic m, (f', t))
    | (OutOfFuel, f') => (OutOfFuel, (f', t))
    end.
End reference.

(** The log holds these entries from index [i] on. *)
Definition holds {L} `{GoLog L} (log : L) (i : Z) (es : list LogEntry) : Prop :=
  ∀ k e, es !! k = Some e → entry_at log (i + Z.of_nat k) = Some e.

Lemma holds_cons {L} `{GoLog L} (log : L) i e es :
  holds log i (e :: es) → entry_at log i = Some e ∧ holds log (i + 1) es.
Proof.
  intros Hh. split.
  - rewrite <- (Z.add_0_r i). by apply (Hh 0%nat).
  - intros k x Hk. rewrite <- (Hh (S k) x Hk). f_equal. lia.
Qed.

Section follower.
Context {L F : Type} `{GoLog L} `{FSM F}.
Abbreviation node := (Raft L F).

(** The node with another machine and session table. *)
Definition machine (p : F * SessionTable) (s : node) : node := set_r_sessions p.2 (set_r_fsm p.1 s).

Lemma apply_entry_ref e (s : node) :
  apply_entry e s = let '(o, p) := apply_ref e (r_fsm s, r_sessions s) in (o, machine p s).
Proof.
  unfold apply_entry, apply_ref, on_fsm, zoom.
  destruct (Data e) as [|b d] eqn:Ed; [by destruct s|].
  rewrite (bool_decide_false (b :: d = [])) by done.
  destruct (Z.ltb_spec 0 (Z.of_nat (length (b :: d)))) as [_|Hz]; [|cbn [length] in Hz; lia].
  case_bool_decide as Hc; cbn [negb].
  - rewrite bind_run. destruct (fsm_Apply (b :: d) (r_fsm s)) as [[r|m|] f']; by destruct s.
  - rewrite bind_run. cbn [gets]. destruct (IsDuplicate _ _ _) as [[] r0]; cbn [fst negb]; [by destruct s|].
    rewrite bind_run. destruct (fsm_Apply (b :: d) (r_fsm s)) as [[r|m|] f']; by destruct s.
Qed.

(** The node after everything up to [i] has been applied. *)
Definition applied_to (i : Z) (p : F * SessionTable) (s : node) : node :=
  set_r_store (set_lastApplied i (r_store s)) (machine p s).

Lemma apply_loop_ref es : ∀ idx (s : node) p,
  holds (r_log s) idx es → 0 <= idx → idx + Z.of_nat (length es) <= u64_max →
  lastApplied (r_store s) = idx - 1 →
  go_each apply_ref es (r_fsm s, r_sessions s) = (Ret tt, p) →
  apply_loop (S (length es)) idx (idx + Z.of_nat (length es) - 1) s
  = (Ret tt, applied_to (idx + Z.of_nat (length es) - 1) p s).
Proof.
  induction es as [|e es IH]; intros idx s p Hh Hi Hmax Hla Hrun; cbn [apply_loop].
  { cbn [length]. destruct (Z.leb_spec idx (idx + Z.of_nat 0 - 1)); [lia|]. injection Hrun as <-.
    unfold applied_to, machine. 
    replace (idx + Z.of_nat 0 - 1) with (lastApplied (r_store s)) by lia.
    by destruct s as [??????????????[]]. }
  apply holds_cons in Hh as [He Hh]. cbn [length] in Hmax |- *.
  destruct (Z.leb_spec idx (idx + Z.of_nat (S (length es)) - 1)); [|lia].
  rewrite bind_run. cbn [gets]. rewrite He. cbn [go_each] in Hrun. rewrite bind_run in Hrun.
  rewrite bind_run, apply_entry_ref. destruct (apply_ref e _) as [[[]|m|] p1] eqn:E; [|done..].
  rewrite bind_run. cbn [set_applied modify].
  rewrite u64_small by (unfold is_u64, u64_max in *; lia).
  replace (idx + Z.of_nat (S (length es)) - 1) with (idx + 1 + Z.of_nat (length es) - 1) by lia.
  rewrite (IH (idx + 1) _ p); [by destruct s as [??????????????[]]|done|lia|lia|cbn; lia|by destruct p1].
Qed.
End follower.

(** ** The leader's applier *)
Section leader.
Context {L F : Type} `{GoLog L} `{FSM F}.
Abbreviation node := (Raft L F).

(** Handing results to waiting clients touches nothing that is applied. *)
Record machine_kept (s s' : node) : Prop := {
  mk_log : r_log s' = r_log s;
  mk_fsm : r_fsm s' = r_fsm s;
  mk_sessions : r_sessions s' = r_sessions s;
  mk_store : r_store s' = r_store s
}.

#[global] Instance machine_kept_preorder : PreOrder machine_kept.
Proof. split; [by split|]. intros x y z [] []. split; congruence. Qed.

#[local] Hint Extern 5 (moves machine_kept (modify _)) => apply moves_modify; intros ?; by split : moves.

Lemma machine_kept_read_leader a : moves machine_kept (read_leader a).
Proof. unfold read_leader, read_role. moves_auto. Qed.
#[local] Hint Resolve machine_kept_read_leader : moves.

Lemma machine_kept_take_waiters a i : moves machine_kept (take_waiters a i).
Proof. unfold take_waiters, update_leader, write_role. moves_auto. Qed.

Lemma machine_kept_deliver e r ch : moves machine_kept (deliver_result e r ch).
Proof. unfold deliver_result, send_chan, close_chan. moves_auto. Qed.
#[local] Hint Resolve machine_kept_take_waiters machine_kept_deliver : moves.

Lemma apply_for_result_ref e (s s1 : node) r :
  apply_for_result e s = (Ret r, s1) →
  ∃ p, apply_ref e (r_fsm s, r_sessions s) = (Ret tt, p) ∧ s1 = machine p s.
Proof.
  unfold apply_for_result, apply_ref, on_fsm, zoom.
  destruct (Data e) as [|b d] eqn:Ed.
  { intros [= <- <-]. exists (r_fsm s, r_sessions s). by destruct s. }
  rewrite (bool_decide_false (b :: d = [])) by done.
  destruct (Z.ltb_spec 0 (Z.of_nat (length (b :: d)))) as [_|Hz]; [|cbn [length] in Hz; lia].
  case_bool_decide as Hc; cbn [negb].
  - destruct (fsm_Apply (b :: d) (r_fsm s)) as [[x|m|] f']; [|done..].
    intros [= <- <-]. eexists. split; [done|]. by destruct s.
  - rewrite bind_run. cbn [gets]. destruct (IsDuplicate _ _ _) as [[] r0]; cbn [fst].
    { intros [= <- <-]. eexists. split; [done|]. by destruct s. }
    rewrite bind_run. destruct (fsm_Apply (b :: d) (r_fsm s)) as [[x|m|] f']; [|done..].
    intros [= <- <-]. eexists. split; [done|]. by destruct s.
Qed.

Lemma leader_apply_loop_ref a es : ∀ idx (s s' : node),
  holds (r_log s) idx es → 0 <= idx → idx + Z.of_nat (length es) <= u64_max →
  lastApplied (r_store s) = idx - 1 →
  LeaderRole__apply_loop a (S (length es)) idx (idx + Z.of_nat (length es) - 1) s = (Ret tt, s') →
  go_each apply_ref es (r_fsm s, r_sessions s) = (Ret tt, (r_fsm s', r_sessions s'))
  ∧ r_log s' = r_log s
  ∧ r_store s' = set_lastApplied (idx + Z.of_nat (length es) - 1) (r_store s).
Proof.
  induction es as [|e es IH]; intros idx s s' Hh Hi Hmax Hla Hrun; cbn [LeaderRole__apply_loop] in Hrun.
  { cbn [length] in *. destruct (Z.leb_spec idx (idx + Z.of_nat 0 - 1)); [lia|]. injection Hrun as <-.
    replace (idx + Z.of_nat 0 - 1) with (lastApplied (r_store s)) by lia.
    split_and!; [done|done|]. by destruct s as [??????????????[]]. }
  apply holds_cons in Hh as [He Hh]. cbn [length] in *.
  destruct (Z.leb_spec idx (idx + Z.of_nat (S (length es)) - 1)); [|lia].
  rewrite bind_run in Hrun. cbn [gets] in Hrun. rewrite He in Hrun.
  apply bind_inv in Hrun as (r & s1 & Ha & Hrun).
  apply apply_for_result_ref in Ha as (p & Hp & ->).
  apply bind_inv in Hrun as (ws & s2 & Ht & Hrun).
  apply (moves_run machine_kept) in Ht as [Tl Tf Tt Ts]; [|apply machine_kept_take_waiters].
  apply bind_inv in Hrun as (u & s3 & Hd & Hrun).
  apply (moves_run machine_kept) in Hd as [Dl Df Dt Ds]; [|by moves_auto].
  rewrite bind_run in Hrun. cbn [set_applied modify] in Hrun.
  rewrite u64_small in Hrun by (unfold is_u64, u64_max in *; lia).
  replace (idx + Z.of_nat (S (length es)) - 1) with (idx + 1 + Z.of_nat (length es) - 1) in * by lia.
  apply IH in Hrun as (Hg & Hlog & Hst); [|cbn; by rewrite Dl, Tl|lia|lia|cbn; lia].
  cbn in Hg, Hlog, Hst. split_and!.
  - cbn [go_each]. rewrite bind_run, Hp, <- Hg. f_equal. destruct p. cbn in *. congruence.
  - by rewrite Hlog, Dl, Tl.
  - rewrite Hst, Ds, Ts. done.
Qed.
End leader.

(** C10: Applying is a refinement of the reference fold.  With everything between
    [lastApplied] and [commitIndex] in the log, a follower applies exactly those
    entries, in order, each client request once, and then [lastApplied] is the
    commit index; nothing else of the node changes. *)
Theorem follower_applies_committed {L F : Type} `{GoLog L} `{FSM F} (s : Raft L F) es f t
    (Hlog : holds (r_log s) (lastApplied (r_store s) + 1) es)
    (Hlen : lastApplied (r_store s) + Z.of_nat (length es) = commitIndex (r_store s))
    (Hpos : 0 <= lastApplied (r_store s)) (Hmax : commitIndex (r_store s) < u64_max)
    (Hrun : go_each apply_ref es (r_fsm s, r_sessions s) = (Ret tt, (f, t))) :
  FollowerRole__applyToFiniteStateMachine s
  = (Ret tt, set_r_store (set_lastApplied (commitIndex (r_store s)) (r_store s))
               (set_r_sessions t (set_r_fsm f s))).
Proof.
  unfold FollowerRole__applyToFiniteStateMachine. rewrite !bind_run. cbn [gets].
  rewrite bind_run. cbn [gets].
  pose proof (apply_loop_ref es (lastApplied (r_store s) + 1) s (f, t) Hlog) as Hloop.
  specialize (Hloop ltac:(lia) ltac:(lia) ltac:(lia) Hrun).
  replace (lastApplied (r_store s) + 1 + Z.of_nat (length es) - 1) with (commitIndex (r_store s)) in Hloop by lia.
  destruct (Z.leb_spec (commitIndex (r_store s)) (lastApplied (r_store s))) as [Hle|Hgt].
  - assert (commitIndex (r_store s) = lastApplied (r_store s)) as Heq by lia.
    destruct es; [|cbn [length] in Hlen; lia]. injection Hrun as <- <-. rewrite Heq.
    by destruct s as [??????????????[]].
  - replace (S (Z.to_nat (commitIndex (r_store s) - lastApplied (r_store s)))) with (S (length es)) by lia.
    rewrite u64_small by (unfold is_u64, u64_max in *; lia). exact Hloop.
Qed.

(** C12: Leader and follower appliers agree.  Two nodes that start from the same
    machine state, session table and [lastApplied], and whose logs hold the same
    entries up to the same commit index, end with the same machine state and
    session table when the leader's run returns; the follower's then returns too. *)
Theorem appliers_agree {L F : Type} `{GoLog L} `{FSM F} (leader leader' follower : Raft L F) a es
    (Hl : holds (r_log leader) (lastApplied (r_store leader) + 1) es)
    (Hf : holds (r_log follower) (lastApplied (r_store leader) + 1) es)
    (Hlen : lastApplied (r_store leader) + Z.of_nat (length es) = commitIndex (r_store leader))
    (Hpos : 0 <= lastApplied (r_store leader)) (Hmax : commitIndex (r_store leader) < u64_max)
    (Hsame : (r_fsm follower, r_sessions follower, lastApplied (r_store follower),
              commitIndex (r_store follower))
             = (r_fsm leader, r_sessions leader, lastApplied (r_store leader),
                commitIndex (r_store leader)))
    (Hrun : LeaderRole__applyToFiniteStateMachine a leader = (Ret tt, leader')) :
  ∃ follower', FollowerRole__applyToFiniteStateMachine follower = (Ret tt, follower')
  ∧ r_fsm follower' = r_fsm leader' ∧ r_sessions follower' = r_sessions leader'
  ∧ lastApplied (r_store follower') = commitIndex (r_store leader)
  ∧ lastApplied (r_store leader') = commitIndex (r_store leader).
Proof.
  injection Hsame as Ef Es Ea Ec.
  unfold LeaderRole__applyToFiniteStateMachine in Hrun. rewrite !bind_run in Hrun. cbn [gets] in Hrun.
  rewrite bind_run in Hrun. cbn [gets] in Hrun.
  pose proof (leader_apply_loop_ref a es (lastApplied (r_store leader) + 1) leader leader' Hl) as Hloop.
  pose proof (apply_loop_ref es (lastApplied (r_store leader) + 1) follower (r_fsm leader', r_sessions leader') Hf)
    as Hfl.
  replace (lastApplied (r_store leader) + 1 + Z.of_nat (length es) - 1) with (commitIndex (r_store leader)) in *
    by lia.
  unfold FollowerRole__applyToFiniteStateMachine. rewrite !bind_run. cbn [gets].
  rewrite bind_run. cbn [gets]. rewrite Ec, Ea.
  destruct (Z.leb_spec (commitIndex (r_store leader)) (lastApplied (r_store leader))) as [Hle|Hgt].
  { injection Hrun as <-. exists follower. split_and!; try done; lia. }
  replace (S (Z.to_nat (commitIndex (r_store leader) - lastApplied (r_store leader)))) with (S (length es)) in *
    by lia.
  rewrite u64_small in * by (unfold is_u64, u64_max in *; lia).
  destruct (Hloop ltac:(lia) ltac:(lia) ltac:(lia) Hrun) as (Hg & _ & Hst).
  rewrite Ef, Es in Hfl. rewrite (Hfl ltac:(lia) ltac:(lia) ltac:(lia) Hg).
  eexists. split; [done|]. cbn. by rewrite Hst.
Qed.

(** Three committed entries, the second a client's repeated request. *)
Definition requests : list LogEntry :=
  [mkLogEntry [x61] 1 "c" 1; mkLogEntry [x61] 1 "c" 1; mkLogEntry [x62] 1 "" 0].
Definition request_log : MemLog := mkMemLog 0 (Serialize <$> requests) [] [].
Definition busy_follower : DemoRaft := (set_commit 3 (set_r_log request_log n2)).2.
Definition busy_leader : DemoRaft := (set_commit 3 (set_r_log request_log n1_leader)).2.

Lemma requests_held : holds request_log 1 requests.
Proof.
  intros k e Hk. destruct k as [|[|[|k]]]; [injection Hk as <-; vm_compute; reflexivity..|done].
Qed.

Lemma follower_applies_committed_witness :
  r_fsm (FollowerRole__applyToFiniteStateMachine busy_follower).2 = [[x61]; [x62]].
Proof.
  rewrite (follower_applies_committed busy_follower requests [[x61]; [x62]]
    (RecordResult (r_sessions busy_follower) "c" 1 (AnyBytes [x61]))).
  - reflexivity.
  - exact requests_held.
  - vm_compute. reflexivity.
  - vm_compute. discriminate.
  - vm_compute. reflexivity.
  - vm_compute. reflexivity.
Defined.

Lemma appliers_agree_witness :
  ∃ follower', FollowerRole__applyToFiniteStateMachine busy_follower = (Ret tt, follower')
  ∧ r_fsm follower' = r_fsm (LeaderRole__applyToFiniteStateMachine 6 busy_leader).2.
Proof.
  assert (lastApplied (r_store busy_leader) = 0) as Ea by (vm_compute; reflexivity).
  destruct (appliers_agree busy_leader (LeaderRole__applyToFiniteStateMachine 6 busy_leader).2
    busy_follower 6 requests) as (f & Hf & Hfsm & _).
  - rewrite Ea. exact requests_held.
  - rewrite Ea. exact requests_held.
  - vm_compute. reflexivity.
  - vm_compute. discriminate.
  - vm_compute. reflexivity.
  - vm_compute. reflexivity.
  - vm_compute. reflexivity.
  - exact (ex_intro _ f (conj Hf Hfsm)).
Defined.
