(* ===== verification/Votes.v ===== *)
(** * Votes and pre-votes

    What a single granted vote means (it is on disk, it was free, the candidate's
    log is at least as up to date), that pre-votes only read, how deep the
    handlers recurse, and what a failed pre-vote call does to the term. *)
From S2P Require Import Prelude GoMonad FileSystem LogEntry Store Snapshot Session Config GoLog Log Fsm Node Roles Follower Leader Candidate Raft Demo Frame Election Campaign Replication.
Local Open Scope Z_scope.

Section last_entry.
Context {L F : Type} `{GoLog L} `{FSM F}.
Abbreviation node := (Raft L F).

Lemma current_role_run (s : node) a x : r_role s = Some a → r_roles s !! a = Some x →
  current_role s = (Ret (a, x), s).
Proof.
  intros Hr Ha. unfold current_role, read_role. rewrite bind_run. cbn [gets]. rewrite Hr.
  rewrite !bind_run. cbn [gets]. by rewrite Ha.
Qed.

Lemma if_enabled_run {A} otherwise (k : RaftM L F A) (s : node) :
  if_enabled otherwise k s = if r_enabled s then k s else (Ret (otherwise (term_of s)), s).
Proof.
  unfold if_enabled. rewrite bind_run. cbn [gets]. destruct (r_enabled s); [done|].
  cbn [negb]. by rewrite bind_run, GetCurrentTerm_run.
Qed.

(** Index and term of the node's last entry, its snapshot standing in for an
    empty log. *)
Definition last_entry (s : node) : Z * Z :=
  let p := GetLastLogEntryIndexAndTerm (r_log s) in
  if 0 <? p.1 then p else (r_snapshotIndex s, r_snapshotTerm s).

(** A candidate's log, given by its last (index, term), is at least as up to date. *)
Definition up_to_date (s : node) (index term : Z) : Prop :=
  (last_entry s).2 < term ∨ ((last_entry s).2 = term ∧ (last_entry s).1 <= index).

#[global] Instance up_to_date_dec s index term : Decision (up_to_date s index term).
Proof. unfold up_to_date. apply _. Defined.

Lemma getLast_run (s : node) : getLastLogEntryIndexAndTerm s = (Ret (last_entry s), s).
Proof.
  unfold getLastLogEntryIndexAndTerm, last_entry. rewrite bind_run. cbn [gets].
  by destruct (0 <? _).
Qed.

Lemma isLogEqualOrMoreRecent_run (s : node) index term :
  isLogEqualOrMoreRecent index term s = (Ret (bool_decide (up_to_date s index term)), s).
Proof.
  unfold isLogEqualOrMoreRecent. rewrite bind_run, getLast_run.
  case_bool_decide as Hu; unfold up_to_date in Hu;
    destruct (last_entry s) as [i t]; cbn [fst snd] in Hu; destruct (Z.ltb_spec t term), (Z.eqb_spec term t), (Z.leb_spec i index);
    cbn [andb]; try done; lia.
Qed.

Lemma last_entry_kept (s s' : node) : log_kept s s' → last_entry s' = last_entry s.
Proof. intros [El Ei Et]. unfold last_entry. by rewrite El, Ei, Et. Qed.
End last_entry.

(** ** Granting a vote *)
Section grant.
Context {L F : Type} `{GoLog L} `{FSM F}.
Abbreviation node := (Raft L F).

(** Memory and the store file hold term [t] and the vote for [c]. *)
Definition vote_stored (s : node) (t : Z) (c : string) : Prop :=
  currentTerm (r_store s) = t ∧ votedFor (r_store s) = c
  ∧ fs_cur (r_fs s) !! st_name (r_store s) = Some (mkFile (store_encode t c) true).

Lemma resetElectionTimer_stored a (s s' : node) o t c :
  resetElectionTimer a s = (o, s') → vote_stored s t c → vote_stored s' t c.
Proof.
  intros Hr Hv. enough (r_store s' = r_store s ∧ r_fs s' = r_fs s) as [E1 E2].
  { unfold vote_stored. by rewrite E1, E2. }
  pose (Q := λ s s' : node, r_store s' = r_store s ∧ r_fs s' = r_fs s).
  assert (PreOrder Q) by (split; [by split|intros ??? [] []; split; congruence]).
  change (Q s s'). eapply moves_run; [|exact Hr].
  assert (∀ f, (∀ s, Q s (f s)) → moves Q (modify f)) as Hmod by (intros; by apply moves_modify).
  unfold resetElectionTimer, random_deadline, rng_IntN, read_follower, read_role, write_role. moves_auto.
  all: apply Hmod; by split.
Qed.

(** What the handler has checked and done when it grants. *)
Definition vote_cast (s s' : node) (t : Z) (c : string) (i j : Z) : Prop :=
  vote_stored s' t c ∧ up_to_date s i j
  ∧ (currentTerm (r_store s) < t
     ∨ currentTerm (r_store s) = t ∧ (votedFor (r_store s) = ""%string ∨ votedFor (r_store s) = c)).

Lemma follower_vote_cast n t c i j : ∀ a (s s' : node) t',
  FollowerRole__HandleRequestVote n a t c i j s = (Ret (t', true), s') →
  t' = t ∧ vote_cast s s' t c i j.
Proof.
  induction n as [|n IH]; intros a s s' t' Hrun; [done|].
  cbn [FollowerRole__HandleRequestVote] in Hrun. rewrite bind_run, GetCurrentTerm_run in Hrun.
  destruct (Z.ltb_spec t (term_of s)); [done|]. destruct (Z.ltb_spec (term_of s) t) as [Hlt|Hge].
  { apply bind_inv in Hrun as (f & s1 & Hb & Hrun).
    apply (moves_run log_kept) in Hb; [|apply log_kept_becomeFollower].
    apply IH in Hrun as (-> & Hs & Hu & _). split; [done|]. split_and!; [done| |by left].
    unfold up_to_date in *. by rewrite (last_entry_kept _ _ Hb) in Hu. }
  assert (on_store Store__GetVotedFor s = (Ret (vote_of s), s)) as Hv by (by destruct s).
  rewrite bind_run, Hv in Hrun. destruct (negb _ && negb _) eqn:Hvote; [done|].
  assert (vote_of s = ""%string ∨ vote_of s = c) as Hfree.
  { apply andb_false_iff in Hvote as [Hn|Hn]; apply negb_false_iff, bool_decide_eq_true in Hn; auto. }
  rewrite bind_run, isLogEqualOrMoreRecent_run in Hrun.
  case_bool_decide as Hu; cbn [negb] in Hrun; [|done].
  destruct (SetVotedFor_run c (r_store s) (r_fs s)) as (err & st & fs & Hr & Hup).
  rewrite bind_run, (on_store_run _ _ _ _ _ Hr) in Hrun. destruct err as [e|].
  { apply bind_inv in Hrun as (u & s2 & _ & Hrun). done. }
  apply bind_inv in Hrun as (u & s2 & Hreset & Hrun). injection Hrun as <- <-.
  assert (term_of s = t) as Ht by lia. split; [done|]. unfold term_of, vote_of in *.
  split_and!; [|done|by right]. eapply resetElectionTimer_stored; [exact Hreset|].
  destruct Hup as [-> [Hf _]]. unfold vote_stored. cbn. rewrite <- Ht. by rewrite Hf.
Qed.

Lemma HandleRequestVote_cast n t c i j (s s' : node) t' :
  Raft__HandleRequestVote n t c i j s = (Ret (t', true), s') →
  t' = t ∧ vote_cast s s' t c i j.
Proof.
  unfold Raft__HandleRequestVote. rewrite if_enabled_run. destruct (r_enabled s); [|done].
  intros Hrun. unfold current_role, read_role in Hrun. rewrite !bind_run in Hrun. cbn [gets] in Hrun.
  destruct (r_role s) as [a|]; [|done]. rewrite !bind_run in Hrun. cbn [gets] in Hrun.
  assert ((followerRole ← becomeFollower t;
    FollowerRole__HandleRequestVote n followerRole t c i j) s = (Ret (t', true), s') →
    term_of s < t → t' = t ∧ vote_cast s s' t c i j) as Hnew.
  { intros Hr Hlt. apply bind_inv in Hr as (f & s1 & Hb & Hr).
    apply (moves_run log_kept) in Hb; [|apply log_kept_becomeFollower].
    apply follower_vote_cast in Hr as (-> & Hs & Hu & _). split; [done|]. split_and!; [done| |by left].
    unfold up_to_date in *. by rewrite (last_entry_kept _ _ Hb) in Hu. }
  destruct (r_roles s !! a) as [[f|d|l]|]; cbn [mret GoM_ret] in Hrun;
    [exact (follower_vote_cast _ _ _ _ _ _ _ _ _ Hrun)| | |done].
  all: unfold CandidateRole__HandleRequestVote, LeaderRole__HandleRequestVote in Hrun.
  all: rewrite bind_run, GetCurrentTerm_run in Hrun.
  all: destruct (Z.leb_spec t (term_of s)); [done|]; by apply Hnew.
Qed.
End grant.

(** C7: A granted vote.  When a node answers RequestVote with a grant, the reply
    carries the request's term; the term and the vote are in memory and in the
    store file, written and flushed before the reply; the node had not voted for
    anybody else in that term; and the candidate's log is at least as up to date
    as its own. *)
Theorem vote_granted_durable {L F : Type} `{GoLog L} `{FSM F} (s s' : Raft L F)
    fuel t c index term t'
    (Hrun : Raft__HandleRequestVote fuel t c index term s = (Ret (t', true), s')) :
  t' = t
  ∧ currentTerm (r_store s') = t ∧ votedFor (r_store s') = c
  ∧ fs_cur (r_fs s') !! st_name (r_store s') = Some (mkFile (store_encode t c) true)
  ∧ up_to_date s index term
  ∧ (currentTerm (r_store s) < t
     ∨ currentTerm (r_store s) = t ∧ (votedFor (r_store s) = ""%string ∨ votedFor (r_store s) = c)).
Proof. apply HandleRequestVote_cast in Hrun as (-> & (? & ? & ?) & ? & ?). auto 10. Qed.

Lemma vote_granted_durable_witness :
  votedFor (r_store (Raft__HandleRequestVote 2 7 "n3" 0 0 n2).2) = "n3"%string.
Proof.
  apply (vote_granted_durable n2 (Raft__HandleRequestVote 2 7 "n3" 0 0 n2).2 2 7 "n3" 0 0 7).
  vm_compute. reflexivity.
Defined.

(** C28: A pre-vote only reads: the node is unchanged, whatever it answers, and it
    answers its current term, with a grant exactly when it is enabled, is not a
    leader, the proposed term is not behind its own and the candidate's log is at
    least as up to date. *)
Theorem prevote_reads_only {L F : Type} `{GoLog L} `{FSM F} (s : Raft L F) t c index term a x
    (Hrole : r_role s = Some a) (Hx : r_roles s !! a = Some x) :
  ∃ granted, Raft__HandlePreVote t c index term s = (Ret (currentTerm (r_store s), granted), s)
  ∧ (granted = true ↔
     r_enabled s = true ∧ GetType x ≠ "leader"%string ∧ currentTerm (r_store s) <= t
     ∧ up_to_date s index term).
Proof.
  unfold Raft__HandlePreVote. rewrite if_enabled_run. destruct (r_enabled s).
  2: { eexists. split; [done|]. split; [done|]. by intros []. }
  rewrite (bind_ret_run _ _ _ _ _ (current_role_run s a x Hrole Hx)). destruct x as [f|d|l].
  3: { unfold LeaderRole__HandlePreVote. rewrite bind_run, GetCurrentTerm_run. eexists.
       split; [done|]. split; [done|]. by intros (_ & Hl & _). }
  all: unfold FollowerRole__HandlePreVote, CandidateRole__HandlePreVote;
    rewrite bind_run, GetCurrentTerm_run; fold (term_of s);
    destruct (Z.ltb_spec t (term_of s));
    [eexists; split; [done|]; split; [done|]; intros (_ & _ & ? & _); lia|];
    rewrite bind_run, isLogEqualOrMoreRecent_run; case_bool_decide; cbn [negb];
    eexists; (split; [done|]); split; try done; intros (_ & _ & _ & ?); done.
Qed.

Lemma prevote_reads_only_witness :
  ∃ granted, Raft__HandlePreVote 1 "n3" 0 0 n2 = (Ret (0, granted), n2).
Proof.
  destruct (prevote_reads_only n2 1 "n3" 0 0 0 (RFollower (mkFollowerRole 12 0))) as (g & Hg & _);
    [vm_compute; reflexivity..|]. exists g. exact Hg.
Defined.

(** ** How deep the handlers recurse *)
Section depth.
Context {L F : Type} `{GoLog L} `{FSM F}.
Abbreviation node := (Raft L F).

Record disk_kept (s s' : node) : Prop := {
  dk_store : r_store s' = r_store s;
  dk_fs : r_fs s' = r_fs s;
  dk_config : r_config s' = r_config s
}.
#[global] Instance disk_kept_preorder : PreOrder disk_kept.
Proof. split; [by split|]. intros x y z [] []. split; congruence. Qed.
#[local] Hint Extern 5 (moves disk_kept (modify _)) => apply moves_modify; intros ?; by split : moves.

Lemma disk_kept_exit : moves disk_kept exit_current_role.
Proof.
  unfold exit_current_role, RaftRole__OnExit, LeaderRole__OnExit, LeaderRole__stopApplier,
    update_leader, read_leader, read_role, close_chan, write_role. moves_auto.
Qed.

Lemma disk_kept_enter_follower : moves disk_kept (enter_role NewFollowerRole).
Proof. unfold enter_role, NewFollowerRole, random_deadline, rng_IntN, new_role. moves_auto. Qed.

Lemma settles_exit : settles (exit_current_role : RaftM L F unit).
Proof.
  unfold exit_current_role, RaftRole__OnExit, LeaderRole__OnExit, LeaderRole__stopApplier,
    update_leader, read_leader, read_role, close_chan, write_role. settles_auto.
Qed.

Lemma settles_enter_follower : settles (enter_role NewFollowerRole : RaftM L F nat).
Proof. unfold enter_role, NewFollowerRole, random_deadline, rng_IntN, new_role. settles_auto. Qed.

Lemma settles_resetElectionTimer a : settles (resetElectionTimer a : RaftM L F unit).
Proof.
  unfold resetElectionTimer, random_deadline, rng_IntN, read_follower, read_role, write_role. settles_auto.
Qed.

Lemma settles_markUnhealthy : settles (markUnhealthy : RaftM L F unit).
Proof. unfold markUnhealthy. settles_auto. all: apply settles_exit. Qed.

(** With a working disk the first attempt to raise the term succeeds. *)
Lemma becomeFollower_raises t (s : node) : io_reliable (r_fs s) → term_of s < t →
  (becomeFollower t s).1 ≠ OutOfFuel
  ∧ ∀ b s1, becomeFollower t s = (Ret b, s1) → term_of s1 = t.
Proof.
  intros R Hlt. unfold becomeFollower. rewrite bind_run.
  pose proof (disk_kept_exit s) as K. pose proof (settles_exit s) as Hs.
  destruct (exit_current_role s) as [[[]| |] s1]; [|done..]. cbn [snd] in K.
  rewrite bind_run. pose proof (disk_kept_enter_follower s1) as K1. pose proof (settles_enter_follower s1) as Hs1.
  destruct (enter_role NewFollowerRole s1) as [[b| |] s2]; [|done..]. cbn [snd] in K1.
  assert (disk_kept s s2) as [Es Ef _] by (by etrans). rewrite bind_run.
  unfold FollowerRole__OnEnter. rewrite bind_run, GetCurrentTerm_run. unfold term_of in *. rewrite Es.
  destruct (Z.ltb_spec (currentTerm (r_store s)) t); [|lia].
  destruct (SetCurrentTermAndVotedFor_reliable t "" (r_store s2) (r_fs s2)) as (fs' & E & _);
    [by rewrite Ef|].
  rewrite bind_run, (on_store_run _ _ _ _ _ E). cbn. split; [done|]. by intros b' s' [= _ <-].
Qed.

Lemma follower_RequestVote_current n a t c i j (s : node) :
  term_of s = t → (FollowerRole__HandleRequestVote (S n) a t c i j s).1 ≠ OutOfFuel.
Proof.
  intros Ht. cbn [FollowerRole__HandleRequestVote]. rewrite bind_run, GetCurrentTerm_run, Ht.
  rewrite Z.ltb_irrefl.
  assert (on_store Store__GetVotedFor s = (Ret (vote_of s), s)) as Hv by (by destruct s).
  rewrite bind_run, Hv. destruct (negb _ && negb _); [done|].
  rewrite bind_run, isLogEqualOrMoreRecent_run. case_bool_decide; cbn [negb]; [|done].
  destruct (SetVotedFor_run c (r_store s) (r_fs s)) as (err & st & fs & Hr & _).
  rewrite bind_run, (on_store_run _ _ _ _ _ Hr).
  destruct err; apply settles_bind; [apply settles_markUnhealthy|done|apply settles_resetElectionTimer|done].
Qed.

Lemma raised_then_current n t c i j (s : node) : io_reliable (r_fs s) → term_of s < t →
  ((b ← becomeFollower t; FollowerRole__HandleRequestVote (S n) b t c i j) s).1 ≠ OutOfFuel.
Proof.
  intros R Hlt. destruct (becomeFollower_raises t s R Hlt) as [Hs Ht]. rewrite bind_run.
  destruct (becomeFollower t s) as [[b| |] s1] eqn:E; [|done..].
  apply follower_RequestVote_current. by apply (Ht b).
Qed.

(** ** A disk that always fails *)
Definition deadlines_ok (c : Config) : Prop :=
  0 < i64 (i64 (ElectionTimeoutMaxTicks c - ElectionTimeoutMinTicks c) + 1).

(** A follower that cannot persist the term it is asked to enter. *)
Record stuck (t : Z) (s : node) : Prop := {
  stuck_disk : io_broken (r_fs s);
  stuck_term : currentTerm (r_store s) < t;
  stuck_role : ∃ a f, r_role s = Some a ∧ r_roles s !! a = Some (RFollower f);
  stuck_config : deadlines_ok (r_config s)
}.

Lemma follower_exit (s : node) a f : r_role s = Some a → r_roles s !! a = Some (RFollower f) →
  exit_current_role s = (Ret tt, s).
Proof.
  intros Hr Ha. unfold exit_current_role. rewrite bind_run. cbn [gets]. rewrite Hr.
  unfold RaftRole__OnExit, read_role. rewrite !bind_run. cbn [gets]. by rewrite Ha.
Qed.

Lemma enter_follower_run (s : node) : deadlines_ok (r_config s) →
  ∃ s1 f, enter_role NewFollowerRole s = (Ret (r_next s), s1) ∧ disk_kept s s1
  ∧ r_role s1 = Some (r_next s) ∧ r_roles s1 !! r_next s = Some (RFollower f).
Proof.
  intros Hc. pose proof (disk_kept_enter_follower s) as K.
  unfold enter_role, NewFollowerRole, random_deadline, rng_IntN, new_role in *.
  revert K. rewrite !bind_run. cbn [modify]. rewrite !bind_run. cbn [gets r_config set_r_roleEpoch].
  unfold deadlines_ok in Hc. destruct (Z.leb_spec (i64 (i64 (ElectionTimeoutMaxTicks (r_config s)
    - ElectionTimeoutMinTicks (r_config s)) + 1)) 0); [lia|]. cbn. intros K.
  eexists _, _. split; [reflexivity|]. split; [exact K|]. split; [done|]. apply lookup_insert_eq.
Qed.

Lemma becomeFollower_stuck t (s : node) : stuck t s →
  ∃ b s1, becomeFollower t s = (Ret b, s1) ∧ stuck t s1.
Proof.
  intros [B Ht (a & f & Hr & Ha) Hc]. unfold becomeFollower.
  rewrite (bind_ret_run _ _ _ _ _ (follower_exit s a f Hr Ha)).
  destruct (enter_follower_run s Hc) as (s1 & f1 & E1 & [Es Ef Ec] & Hr1 & Ha1).
  rewrite (bind_ret_run _ _ _ _ _ E1), bind_run.
  unfold FollowerRole__OnEnter. rewrite bind_run, GetCurrentTerm_run. unfold term_of. rewrite Es.
  destruct (Z.ltb_spec (currentTerm (r_store s)) t); [|lia].
  destruct (SetCurrentTermAndVotedFor_broken t "" (r_store s1) (r_fs s1)) as (e & fs' & E & B');
    [by rewrite Ef|].
  rewrite bind_run, (on_store_run _ _ _ _ _ E). unfold markUnhealthy. rewrite !bind_run. cbn [modify].
  rewrite bind_run. cbn [modify]. rewrite (follower_exit _ (r_next s) f1) by done.
  eexists _, _. split; [reflexivity|]. split; cbn; [done|by rewrite Es|eauto|by rewrite Ec].
Qed.

Lemma RequestVote_stuck t c i j fuel : ∀ a (s : node), stuck t s →
  (FollowerRole__HandleRequestVote fuel a t c i j s).1 = OutOfFuel.
Proof.
  induction fuel as [|fuel IH]; intros a s S; [done|]. cbn [FollowerRole__HandleRequestVote].
  rewrite bind_run, GetCurrentTerm_run. pose proof (stuck_term _ _ S). unfold term_of.
  destruct (Z.ltb_spec t (currentTerm (r_store s))); [lia|].
  destruct (Z.ltb_spec (currentTerm (r_store s)) t); [|lia].
  destruct (becomeFollower_stuck t s S) as (b & s1 & E & S1).
  rewrite (bind_ret_run _ _ _ _ _ E). by apply IH.
Qed.

Lemma AppendEntries_stuck t ldr prev prevT es commit fuel : ∀ a (s : node), stuck t s →
  (FollowerRole__HandleAppendEntries fuel a t ldr prev prevT es commit s).1 = OutOfFuel.
Proof.
  induction fuel as [|fuel IH]; intros a s S; [done|]. cbn [FollowerRole__HandleAppendEntries].
  rewrite bind_run, GetCurrentTerm_run. pose proof (stuck_term _ _ S). unfold term_of.
  destruct (Z.ltb_spec t (currentTerm (r_store s))); [lia|].
  destruct (Z.ltb_spec (currentTerm (r_store s)) t); [|lia].
  destruct (becomeFollower_stuck t s S) as (b & s1 & E & S1).
  rewrite (bind_ret_run _ _ _ _ _ E). by apply IH.
Qed.
End depth.

(** C27: RequestVote recurses at most twice while the disk works: with that much
    fuel, or more, the handler of any node returns (or panics); it never runs out
    of stack. *)
Theorem request_vote_terminates {L F : Type} `{GoLog L} `{FSM F} (s : Raft L F) fuel t c index term
    (Hdisk : io_reliable (r_fs s)) (Hfuel : (2 <= fuel)%nat) :
  (Raft__HandleRequestVote fuel t c index term s).1 ≠ OutOfFuel.
Proof.
  destruct fuel as [|[|n]]; [lia|lia|]. unfold Raft__HandleRequestVote, if_enabled.
  rewrite bind_run. cbn [gets]. destruct (r_enabled s); cbn [negb]; [|done].
  unfold current_role, read_role. rewrite !bind_run. cbn [gets].
  destruct (r_role s) as [a|]; [|done]. rewrite !bind_run. cbn [gets].
  destruct (r_roles s !! a) as [[f|d|l]|]; cbn [mret GoM_ret]; [..|done].
  - destruct (Z.lt_trichotomy (term_of s) t) as [Hlt|[Heq|Hgt]].
    + cbn [FollowerRole__HandleRequestVote]. rewrite bind_run, GetCurrentTerm_run.
      destruct (Z.ltb_spec t (term_of s)); [lia|]. destruct (Z.ltb_spec (term_of s) t); [|lia].
      by apply raised_then_current.
    + by apply follower_RequestVote_current.
    + cbn [FollowerRole__HandleRequestVote]. rewrite bind_run, GetCurrentTerm_run.
      by destruct (Z.ltb_spec t (term_of s)); [|lia].
  - unfold CandidateRole__HandleRequestVote. rewrite bind_run, GetCurrentTerm_run.
    destruct (Z.leb_spec t (term_of s)); [done|]. apply raised_then_current; [done|lia].
  - unfold LeaderRole__HandleRequestVote. rewrite bind_run, GetCurrentTerm_run.
    destruct (Z.leb_spec t (term_of s)); [done|]. apply raised_then_current; [done|lia].
Qed.

Lemma request_vote_terminates_witness : (Raft__HandleRequestVote 2 7 "n3" 0 0 n2).1 ≠ OutOfFuel.
Proof. apply request_vote_terminates; [|lia]. intros n Hn. reflexivity. Defined.

(** C37: A follower whose disk always fails never answers a RequestVote or an
    AppendEntries of a higher term: the handlers try to persist the term, become a
    follower again and call themselves, for every amount of fuel. *)
Theorem failing_disk_recurses_forever {L F : Type} `{GoLog L} `{FSM F} (s : Raft L F) a f t
    (Hdisk : io_broken (r_fs s)) (Hterm : currentTerm (r_store s) < t)
    (Hrole : r_role s = Some a) (Hf : r_roles s !! a = Some (RFollower f))
    (Hon : r_enabled s = true) (Hcfg : deadlines_ok (r_config s)) fuel :
  (∀ c index term, (Raft__HandleRequestVote fuel t c index term s).1 = OutOfFuel)
  ∧ ∀ ldr prev prevT es commit,
      (Raft__HandleAppendEntries fuel t ldr prev prevT es commit s).1 = OutOfFuel.
Proof.
  assert (stuck t s) as S by (split; eauto).
  split; intros.
  - unfold Raft__HandleRequestVote. rewrite if_enabled_run, Hon.
    rewrite (bind_ret_run _ _ _ _ _ (current_role_run s a _ Hrole Hf)). by apply RequestVote_stuck.
  - unfold Raft__HandleAppendEntries. rewrite if_enabled_run, Hon.
    rewrite (bind_ret_run _ _ _ _ _ (current_role_run s a _ Hrole Hf)). by apply AppendEntries_stuck.
Qed.

Lemma failing_disk_recurses_forever_witness :
  (Raft__HandleRequestVote 100 7 "n3" 0 0 (broken_disk n2)).1 = OutOfFuel.
Proof.
  apply (failing_disk_recurses_forever (broken_disk n2) 0 (mkFollowerRole 12 0) 7);
    [intros n; reflexivity|vm_compute; reflexivity..].
Defined.
