(* ===== verification/Lifecycle.v ===== *)
(** * Switching nodes off and on, failed pre-votes, snapshots and restarts

    What a disabled node answers; that disabling and enabling a leader panics;
    that an unanswered pre-vote raises the term; what taking and installing a
    snapshot do to the log, and that a restart recovers the snapshot. *)
From S2P Require Import Prelude GoMonad FileSystem LogEntry Store Snapshot Session Config GoLog Log Fsm Node Roles Follower Leader Candidate Raft Demo Frame Election Campaign Replication Commit Votes.
Local Open Scope Z_scope.

(** A disabled node takes part in nothing: every request is refused with its
    current term, a tick and a proposal do nothing, and its state does not change. *)
Theorem disabled_refuses {L F : Type} `{GoLog L} `{FSM F} (s : Raft L F) (Hoff : r_enabled s = false) :
  let t := currentTerm (r_store s) in
  (∀ fuel term ldr prev prevT es commit,
     Raft__HandleAppendEntries fuel term ldr prev prevT es commit s = (Ret (mkAppendReply t false 0 0), s))
  ∧ (∀ fuel term c i j, Raft__HandleRequestVote fuel term c i j s = (Ret (t, false), s))
  ∧ (∀ term c i j, Raft__HandlePreVote term c i j s = (Ret (t, false), s))
  ∧ (∀ term ldr i j data, Raft__HandleInstallSnapshot term ldr i j data s = (Ret t, s))
  ∧ Raft__Tick s = (Ret tt, s) ∧ Raft__Disable s = (Ret tt, s)
  ∧ ∀ data c n, Raft__ProposeWithSession data c n s
                = (Ret (ProposalDone AnyNil (Some (ErrNew "node unavailable"))), s).
Proof.
  intros t. split_and!; intros.
  1-4: unfold Raft__HandleAppendEntries, Raft__HandleRequestVote, Raft__HandlePreVote,
    Raft__HandleInstallSnapshot; by rewrite if_enabled_run, Hoff.
  - unfold Raft__Tick. rewrite bind_run. cbn [gets]. by rewrite Hoff.
  - unfold Raft__Disable. rewrite bind_run. cbn [gets]. by rewrite Hoff.
  - unfold Raft__ProposeWithSession, Raft__ProposeWithSession_lookup. rewrite !bind_run. cbn [gets].
    by rewrite Hoff.
Qed.

Lemma disabled_refuses_witness :
  Raft__HandleRequestVote 2 7 "n3" 0 0 (Raft__Disable n2).2 = (Ret (0, false), (Raft__Disable n2).2).
Proof.
  assert (r_enabled (Raft__Disable n2).2 = false) as Hoff by (vm_compute; reflexivity).
  destruct (disabled_refuses (Raft__Disable n2).2 Hoff) as (_ & Hrv & _).
  assert (currentTerm (r_store (Raft__Disable n2).2) = 0) as Ht by (vm_compute; reflexivity).
  cbv zeta in Hrv. rewrite Ht in Hrv. exact (Hrv 2%nat 7 "n3"%string 0 0).
Defined.

(** ** Leaving and entering roles *)
Section roles.
Context {L F : Type} `{GoLog L} `{FSM F}.
Abbreviation node := (Raft L F).


Lemma exit_leader (s : node) a l : r_role s = Some a → r_roles s !! a = Some (RLeader l) →
  l_pending l = ∅ →
  exit_current_role s = if l_applierStopCh l then (Panic "close of closed channel", s)
                        else (Ret tt, with_leader s a (set_l_stop l)).
Proof.
  intros Hr Ha Hp. unfold exit_current_role. rewrite bind_run. cbn [gets]. rewrite Hr.
  unfold RaftRole__OnExit, read_role. rewrite !bind_run. cbn [gets]. rewrite Ha. cbn [mret GoM_ret].
  unfold LeaderRole__OnExit, LeaderRole__stopApplier.
  rewrite !bind_run, (read_leader_run s a l Ha). destruct (l_applierStopCh l); [done|].
  unfold write_role. cbn [modify]. fold (with_leader s a (set_l_stop l)).
  rewrite bind_run, (read_leader_run _ a (set_l_stop l) (with_leader_lookup _ _ _)).
  cbn [set_l_stop l_pending]. by rewrite Hp, map_to_list_empty.
Qed.

End roles.

(** C39: Disabling a leader and enabling it again panics: leaving the role closes
    the applier's stop channel, and becoming a follower leaves the same role
    object once more. *)
Theorem disable_enable_leader_panics {L F : Type} `{GoLog L} `{FSM F} (s : Raft L F) a l
    (Hon : r_enabled s = true) (Hrole : r_role s = Some a) (Ha : r_roles s !! a = Some (RLeader l))
    (Hopen : l_applierStopCh l = false) (Hidle : l_pending l = ∅) :
  ∃ s1, Raft__Disable s = (Ret tt, s1)
  ∧ (Raft__Enable s1).1 = Panic "close of closed channel".
Proof.
  unfold Raft__Disable. rewrite bind_run. cbn [gets]. rewrite Hon. cbn [negb].
  rewrite bind_run. cbn [modify]. set (s0 := set_r_enabled false s).
  rewrite (bind_ret_run _ _ _ _ _ (current_role_run s0 a (RLeader l) Hrole Ha)). cbn [fst].
  pose proof (exit_leader s0 a l Hrole Ha Hidle) as He. unfold exit_current_role in He.
  rewrite bind_run in He. cbn [gets] in He. change (r_role s0) with (r_role s) in He.
  rewrite Hrole, Hopen in He. rewrite (bind_ret_run _ _ _ _ _ He).
  set (s1 := with_leader s0 a (set_l_stop l)).
  unfold SetLeaderId, on_store, zoom. eexists. split; [reflexivity|].
  set (s2 := set_r_fs _ _). assert (r_enabled s2 = false) as Hoff by done.
  unfold Raft__Enable. rewrite bind_run. cbn [gets]. rewrite Hoff, bind_run, GetCurrentTerm_run.
  rewrite bind_run. unfold becomeFollower. rewrite bind_run.
  rewrite (exit_leader s2 a (set_l_stop l)); [done|done|apply lookup_insert_eq|done].
Qed.

Lemma disable_enable_leader_panics_witness :
  (Raft__Enable (Raft__Disable n1_leader).2).1 = Panic "close of closed channel".
Proof.
  destruct (disable_enable_leader_panics n1_leader 6 (leader_at 6 n1_leader)) as (s1 & Hs1 & Hp);
    [vm_compute; reflexivity..|]. rewrite Hs1. exact Hp.
Defined.


