(* ===== verification/Compaction.v ===== *)
(** * Snapshots and the log

    What taking a snapshot does (the file, the fields, the log's suffix), that a
    restart recovers it, and what installing a leader's snapshot does to the log,
    the empty log of a new node included. *)
From S2P Require Import Prelude GoMonad FileSystem Checksum LogEntry Store Snapshot Session Config GoLog Log Fsm Node Roles Follower Leader Candidate Raft Demo Frame Election Campaign Replication.
Local Open Scope Z_scope.

Section truncation.
Context {L : Type} `{GoLogLaws L}.

(** Dropping a prefix leaves every later index alone. *)
Lemma truncate_to_suffix (l l' : L) i err :
  log_TruncateTo i l = (err, l') → i <= log_last l →
  log_last l' = log_last l ∧ ∀ k, i < k → item_at l' k = item_at l k.
Proof.
  intros Ht Hi. destruct (log_truncate_to_spec _ _ _ _ Ht Hi) as (Hle & Hb & Hitems).
  assert (log_base l' <= log_last l) by (unfold log_last in *; lia). split.
  - unfold log_last in *. rewrite Hitems, length_drop. lia.
  - intros k Hk. unfold item_at. destruct (decide (log_base l' < k)), (decide (log_base l < k)); try lia.
    + rewrite Hitems, lookup_drop. f_equal. lia.
    + done.
Qed.
End truncation.

Section take.
Context {L F : Type} `{GoLogLaws L} `{FSM F}.
Abbreviation node := (Raft L F).

Lemma TakeSnapshot_capture_run (s s1 : node) sn :
  TakeSnapshot_capture s = (Ret (inr sn), s1) →
  r_snapshotIndex s < lastApplied (r_store s)
  ∧ ∃ t data f, term_at (r_log s) (lastApplied (r_store s)) = Some t
    ∧ fsm_Snapshot (r_fsm s) = (Ret (inr data), f)
    ∧ sn = mkSnapshot (lastApplied (r_store s)) t data ∧ s1 = set_r_fsm f s.
Proof.
  unfold TakeSnapshot_capture. rewrite bind_run. cbn [gets].
  destruct (Z.leb_spec (lastApplied (r_store s)) (r_snapshotIndex s)); [done|].
  destruct (_ <? SnapshotThreshold _); [done|].
  destruct (Z.eqb_spec (lastApplied (r_store s)) (r_snapshotIndex s)); [lia|].
  rewrite bind_run. cbn [mret GoM_ret]. unfold term_at.
  destruct (log_Read _ (r_log s)) as [|raw]; [done|]. destruct (DeserializeLogEntry raw) as [|e]; [done|].
  rewrite bind_run. unfold on_fsm, zoom.
  destruct (fsm_Snapshot (r_fsm s)) as [[[|data]| |] f]; try done.
  intros [= <- <-]. split; [done|]. by exists (Term e), data, f.
Qed.

Lemma log_kept_capture : moves log_kept (TakeSnapshot_capture : RaftM L F _).
Proof. unfold TakeSnapshot_capture. moves_auto. Qed.

Lemma TakeSnapshot_save_run sn (s s1 : node) : TakeSnapshot_save sn s = (Ret None, s1) →
  ∃ fs, s1 = set_r_fs fs s ∧ replaced (snapshotPath s) (encode_v2 sn) (r_fs s) fs.
Proof.
  unfold TakeSnapshot_save, on_files, zoom. rewrite bind_run. cbn [gets].
  destruct (SaveSnapshot (snapshotPath s) sn (r_fs s)) as [r fs] eqn:E.
  intros [= -> <-]. exists fs. split; [done|].
  exact (wp_run _ _ _ _ _ E (wp_SaveSnapshot (snapshotPath s) sn (r_fs s))).
Qed.

Lemma TakeSnapshot_finish_run sn (s s1 : node) :
  TakeSnapshot_finish sn s = (Ret tt, s1) → r_snapshotIndex s < LastIncludedIndex sn →
  r_snapshotIndex s1 = LastIncludedIndex sn ∧ r_snapshotTerm s1 = LastIncludedTerm sn
  ∧ r_fsm s1 = r_fsm s ∧ r_fs s1 = r_fs s ∧ r_dataDir s1 = r_dataDir s ∧ r_store s1 = r_store s
  ∧ log_last (r_log s1) = log_last (r_log s)
  ∧ ∀ k, LastIncludedIndex sn < k → item_at (r_log s1) k = item_at (r_log s) k.
Proof.
  unfold TakeSnapshot_finish. rewrite bind_run. cbn [gets]. intros Hrun Hlt.
  destruct (Z.ltb_spec (r_snapshotIndex s) (LastIncludedIndex sn)); [|lia]. cbn [when] in Hrun.
  rewrite bind_run in Hrun. cbn [modify] in Hrun. rewrite bind_run in Hrun. cbn [modify] in Hrun.
  rewrite bind_run in Hrun. cbn [gets] in Hrun. revert Hrun.
  cbn [r_log set_r_snapshotIndex set_r_snapshotTerm]. rewrite log_last_spec. cbn [fst].
  destruct (Z.ltb_spec (LastIncludedIndex sn) (log_last (r_log s))); cbn [when].
  - rewrite bind_run. unfold on_log. cbn [r_log set_r_snapshotIndex set_r_snapshotTerm].
    destruct (log_TruncateTo _ _) as [err l] eqn:E. intros [= <-]. cbn.
    destruct (truncate_to_suffix _ _ _ _ E) as [E1 E2]; [lia|]. by split_and!.
  - intros [= <-]. by split_and!.
Qed.
(** The whole operation, when it takes a snapshot. *)
Lemma TakeSnapshot_run (s s' : node) :
  Raft__TakeSnapshot s = (Ret None, s') → r_snapshotIndex s' ≠ r_snapshotIndex s →
  let i := lastApplied (r_store s) in
  r_snapshotIndex s < i ∧ r_snapshotIndex s' = i
  ∧ term_at (r_log s) i = Some (r_snapshotTerm s')
  ∧ (∃ data f, fsm_Snapshot (r_fsm s) = (Ret (inr data), f)
      ∧ fs_cur (r_fs s') !! snapshotPath s
        = Some (mkFile (encode_v2 (mkSnapshot i (r_snapshotTerm s') data)) true))
  ∧ log_last (r_log s') = log_last (r_log s)
  ∧ ∀ k, i < k → item_at (r_log s') k = item_at (r_log s) k.
Proof.
  intros Hrun Htaken i. unfold Raft__TakeSnapshot in Hrun. apply bind_inv in Hrun as (r & s1 & Hcap & Hrun).
  destruct r as [err|sn].
  { injection Hrun as -> <-. exfalso. apply Htaken.
    by apply (moves_run log_kept) in Hcap as [_ Hi _]; [|apply log_kept_capture]. }
  apply TakeSnapshot_capture_run in Hcap as (Hlt & t & data & f & Ht & Hf & -> & ->). fold i in Hlt, Ht.
  apply bind_inv in Hrun as (err & s2 & Hsave & Hrun). destruct err; [done|].
  apply TakeSnapshot_save_run in Hsave as (fs & -> & Hfile).
  apply bind_inv in Hrun as ([] & s3 & Hfin & Hrun). injection Hrun as <-.
  apply TakeSnapshot_finish_run in Hfin as (E1 & E2 & _ & E4 & _ & _ & E7 & E8); [|done].
  cbn [LastIncludedIndex LastIncludedTerm] in *. rewrite E2. split_and!; try done.
  exists data, f. split; [done|]. rewrite E4. cbn. by destruct Hfile as [Hfile _].
Qed.

Lemma raise_to_run i (s : node) : ∃ st, raise_to i s = (Ret tt, set_r_store st s)
  ∧ i <= commitIndex st ∧ i <= lastApplied st
  ∧ currentTerm st = currentTerm (r_store s) ∧ votedFor st = votedFor (r_store s).
Proof.
  unfold raise_to. rewrite bind_run. cbn [gets].
  destruct (Z.ltb_spec (commitIndex (r_store s)) i); cbn [when]; rewrite bind_run;
    cbn [set_commit modify mret GoM_ret]; rewrite bind_run; cbn [gets];
    cbn [r_store set_r_store lastApplied set_commitIndex];
    destruct (Z.ltb_spec (lastApplied (r_store s)) i); cbn [when].
  4: exists (r_store s); split; [by destruct s|by split_and!].
  all: eexists; split; [reflexivity|]; cbn; split_and!; try done; lia.
Qed.

End take.

(** C15: Taking a snapshot.  When it takes one, the file holds the state machine's
    image labelled with the last applied index and the term the log has there,
    flushed before it got its name; the snapshot fields say the same; and the log
    loses nothing above that index: what is cut is covered by the snapshot. *)
Theorem take_snapshot_compacts {L F : Type} `{GoLogLaws L} `{FSM F} (s s' : Raft L F)
    (Hrun : Raft__TakeSnapshot s = (Ret None, s'))
    (Htaken : r_snapshotIndex s' ≠ r_snapshotIndex s) :
  let i := lastApplied (r_store s) in
  r_snapshotIndex s < i ∧ r_snapshotIndex s' = i
  ∧ term_at (r_log s) i = Some (r_snapshotTerm s')
  ∧ (∃ data f, fsm_Snapshot (r_fsm s) = (Ret (inr data), f)
      ∧ fs_cur (r_fs s') !! snapshotPath s
        = Some (mkFile (encode_v2 (mkSnapshot i (r_snapshotTerm s') data)) true))
  ∧ log_last (r_log s') = log_last (r_log s)
  ∧ ∀ k, i < k → item_at (r_log s') k = item_at (r_log s) k.
Proof. exact (TakeSnapshot_run s s' Hrun Htaken). Qed.

(** A node with three entries, the first two applied, that snapshots early. *)
Definition small_config : Config := mkConfig 350000000 4 12 20 2048 2 268435456.
Definition three_entries : list LogEntry :=
  [mkLogEntry [x61] 1 "" 0; mkLogEntry [x62] 2 "" 0; mkLogEntry [x63] 2 "" 0].
Definition two_applied : DemoRaft :=
  (set_applied 2 (NewRaft "n2" "d" demo_nodes (mkMemLog 0 (Serialize <$> three_entries) [] [])
     (mkStore 0 0 0 "" "d/store.data" "") demo_files [] small_config (λ _, 0) 0).2).2.
Definition compacted : DemoRaft := (Raft__TakeSnapshot two_applied).2.

Lemma compacted_run : Raft__TakeSnapshot two_applied = (Ret None, compacted).
Proof. vm_compute. reflexivity. Qed.

Lemma compacted_taken : r_snapshotIndex compacted ≠ r_snapshotIndex two_applied.
Proof. vm_compute. discriminate. Qed.

Lemma take_snapshot_compacts_witness :
  r_snapshotIndex compacted = lastApplied (r_store two_applied)
  ∧ term_at (r_log two_applied) (lastApplied (r_store two_applied)) = Some (r_snapshotTerm compacted).
Proof.
  destruct (take_snapshot_compacts two_applied compacted compacted_run compacted_taken) as (_ & Hi & Ht & _).
  exact (conj Hi Ht).
Defined.




(** ** Installing a leader's snapshot *)
Section install.
Context {L F : Type} `{GoLogLaws L} `{FSM F}.
Abbreviation node := (Raft L F).

(** [resetLog] on the log alone, and whether each of its calls succeeded. *)
Fixpoint remove_segments (names : list string) (l : L) : bool * L :=
  match names with
  | [] => (true, l)
  | n :: names =>
      if is_seg n then
        let '(err, l) := log_Remove n l in
        let '(ok, l) := remove_segments names l in
        (bool_decide (err = None) && ok, l)
      else remove_segments names l
  end.

Definition reset_files (start : Z) (l : L) : bool * L :=
  let l := (log_TruncateFrom 1 l).2 in
  let '(removed, l) := match log_ReadDir l with
                       | inl _ => (false, l)
                       | inr names => remove_segments names l
                       end in
  let '(created, l) := log_Create (seg_name start) l in
  let '(loaded, l) := log_Load l in
  (removed && bool_decide (created = None) && bool_decide (loaded = None), l).

Lemma remove_segments_run names (s : node) :
  go_each (λ e, when (is_seg e) (_ ← on_log (log_Remove e); mret tt)) names s
  = (Ret tt, set_r_log (remove_segments names (r_log s)).2 s).
Proof.
  revert s. induction names as [|n names IH]; intros s; cbn [go_each remove_segments]; [by destruct s|].
  destruct (is_seg n); cbn [when].
  - destruct (log_Remove n (r_log s)) as [err l] eqn:E.
    assert ((_ ← on_log (log_Remove n); mret tt : RaftM L F unit) s = (Ret tt, set_r_log l s)) as Hn
      by (rewrite bind_run; unfold on_log; by rewrite E).
    rewrite (bind_ret_run _ _ _ _ _ Hn), IH. cbn [r_log set_r_log].
    by destruct (remove_segments names l).
  - assert ((mret tt : RaftM L F unit) s = (Ret tt, s)) as Hn by done.
    by rewrite (bind_ret_run _ _ _ _ _ Hn), IH.
Qed.

Lemma resetLog_run start (s : node) :
  resetLog start s = (Ret tt, set_r_log (reset_files start (r_log s)).2 s).
Proof.
  unfold resetLog, reset_files. rewrite bind_run. unfold on_log at 1.
  destruct (log_TruncateFrom 1 (r_log s)) as [err l1]. cbn [snd]. set (s1 := set_r_log l1 s).
  rewrite bind_run. cbn [gets]. change (r_log s1) with l1.
  set (p := match log_ReadDir l1 with inl _ => (false, l1) | inr names => remove_segments names l1 end).
  assert (match log_ReadDir l1 with
          | inl _ => mret tt
          | inr names => go_each (λ e, when (is_seg e) (_ ← on_log (log_Remove e); mret tt)) names
          end s1 = (Ret tt, set_r_log p.2 s)) as Hp.
  { unfold p. destruct (log_ReadDir l1) as [e|names]; [done|]. etrans; [apply (remove_segments_run names s1)|done]. }
  rewrite (bind_ret_run _ _ _ _ _ Hp). destruct p as [ok l2]. rewrite bind_run. unfold on_log.
  cbn [snd r_log set_r_log]. destruct (log_Create _ l2) as [created l3].
  rewrite bind_run. cbn [r_log set_r_log]. by destruct (log_Load l3).
Qed.

(** What is left after the removals. *)
Lemma remove_segments_spec names : ∀ l l' : L, remove_segments names l = (true, l') → ∀ m,
  log_file l' m = if decide (m ∈ names ∧ is_seg m = true) then None else log_file l m.
Proof.
  induction names as [|n names IH]; intros l l' Hr m; cbn [remove_segments] in Hr.
  { injection Hr as <-. rewrite decide_False; [done|]. by intros [Hm%elem_of_nil _]. }
  destruct (is_seg n) eqn:En.
  - destruct (log_Remove n l) as [err l1] eqn:E1. destruct (remove_segments names l1) as [ok l2] eqn:E2.
    injection Hr as Hok <-. apply andb_true_iff in Hok as [->%bool_decide_eq_true ->].
    rewrite (IH _ _ E2), (log_remove_spec _ _ _ m E1). destruct (decide (m = n)) as [->|Hne].
    + rewrite (decide_True (P := n ∈ n :: names ∧ _)) by (split; [by left|done]). by destruct (decide _).
    + apply decide_ext. rewrite elem_of_cons. tauto.
  - rewrite (IH _ _ Hr). apply decide_ext. rewrite elem_of_cons.
    split; [tauto|]. intros [[->|?] Hs]; [congruence|tauto].
Qed.

(** When no call failed, the log is empty and starts at the given index. *)
Lemma reset_files_spec start (l l' : L) : 0 < start → is_u64 start →
  reset_files start l = (true, l') → log_base l' = start - 1 ∧ log_items l' = [].
Proof.
  intros Hs Hu. unfold reset_files. set (l1 := (log_TruncateFrom 1 l).2).
  destruct (log_ReadDir l1) as [e|names] eqn:Hdir.
  { destruct (log_Create _ l1) as [c l3]. by destruct (log_Load l3). }
  destruct (remove_segments names l1) as [removed l2] eqn:Hrem.
  destruct (log_Create _ l2) as [created l3] eqn:Hc. destruct (log_Load l3) as [loaded l4] eqn:Hl.
  intros [= Hok <-]. apply andb_true_iff in Hok as [[-> ->%bool_decide_eq_true]%andb_true_iff ->%bool_decide_eq_true].
  apply (log_load_spec l3 l4 start Hl Hs Hu).
  - rewrite (log_create_spec _ _ _ (seg_name start) Hc). by rewrite decide_True.
  - intros n Hn Hseg. rewrite (log_create_spec _ _ _ n Hc) in Hn. destruct (decide (n = seg_name start)); [done|].
    rewrite (remove_segments_spec _ _ _ Hrem n) in Hn.
    destruct (decide (n ∈ names ∧ is_seg n = true)) as [|Hno]; [by destruct Hn|].
    destruct Hno. split; [|done]. by apply (log_readdir_spec l1 names n Hdir).
Qed.

(** The log after a snapshot up to [i] was installed over [l]. *)
Definition log_after_install (l : L) (i : Z) (l' : L) : Prop :=
  if decide (log_last l = 0) then l' = l
  else if decide (log_last l <= i) then
    l' = (reset_files (i + 1) l).2
    ∧ ((reset_files (i + 1) l).1 = true → log_base l' = i ∧ log_items l' = [])
  else log_last l' = log_last l ∧ ∀ k, i < k → item_at l' k = item_at l k.

Lemma installSnapshot_run i t d (s s' : node) :
  installSnapshot i t d s = (Ret None, s') → 0 < i < u64_max →
  r_snapshotIndex s' = i ∧ r_snapshotTerm s' = t
  ∧ i <= commitIndex (r_store s') ∧ i <= lastApplied (r_store s')
  ∧ (Ret None, r_fsm s') = fsm_Restore d (r_fsm s)
  ∧ fs_cur (r_fs s') !! snapshotPath s = Some (mkFile (encode_v2 (mkSnapshot i t d)) true)
  ∧ log_after_install (r_log s) i (r_log s').
Proof.
  intros Hrun Hi. unfold installSnapshot in Hrun. rewrite bind_run in Hrun. cbn [gets] in Hrun.
  apply bind_inv in Hrun as (err & s1 & Hsave & Hrun). destruct err; [done|].
  destruct (TakeSnapshot_save_run (mkSnapshot i t d) s s1) as (fs & -> & Hfile & _).
  { unfold TakeSnapshot_save. rewrite bind_run. exact Hsave. }
  apply bind_inv in Hrun as (err & s2 & Hr & Hrun). destruct err; [done|].
  unfold on_fsm, zoom in Hr. cbn [r_fsm set_r_fs] in Hr.
  destruct (fsm_Restore d (r_fsm s)) as [o f] eqn:Ef. injection Hr as -> <-.
  rewrite bind_run in Hrun. cbn [modify] in Hrun. rewrite bind_run in Hrun. cbn [modify] in Hrun.
  set (s3 := set_r_snapshotTerm _ _) in Hrun.
  destruct (raise_to_run i s3) as (st & Hraise & Hc & Ha & _).
  rewrite (bind_ret_run _ _ _ _ _ Hraise) in Hrun. rewrite bind_run in Hrun. cbn [gets] in Hrun.
  change (r_log (set_r_store st s3)) with (r_log s) in Hrun. rewrite log_last_spec in Hrun. cbn [fst] in Hrun.
  unfold log_after_install. pose proof (log_base_nonneg (r_log s)). assert (0 <= log_last (r_log s)) by (unfold log_last; lia).
  destruct (decide (log_last (r_log s) = 0)) as [Hz|Hz];
    [|destruct (decide (log_last (r_log s) <= i)) as [Hle|Hgt]].
  - rewrite Hz in Hrun. cbn in Hrun. destruct (Z.ltb_spec i 0); [lia|]. injection Hrun as <-.
    by split_and!.
  - destruct (Z.ltb_spec 0 (log_last (r_log s))), (Z.leb_spec (log_last (r_log s)) i); [|lia..].
    cbn [andb] in Hrun. rewrite u64_small in Hrun by (unfold is_u64, u64_max in *; lia).
    rewrite (bind_ret_run _ _ _ _ _ (resetLog_run (i + 1) (set_r_store st s3))) in Hrun.
    injection Hrun as <-. cbn -[reset_files]. split_and!; try done.
    intros Hok. destruct (reset_files (i + 1) (r_log s)) as [ok l] eqn:E. cbn [fst snd] in *. subst ok.
    apply reset_files_spec in E as [Hb Hit]; [|lia|unfold is_u64, u64_max in *; lia]. split; [lia|done].
  - destruct (Z.leb_spec (log_last (r_log s)) i); [lia|]. rewrite andb_false_r in Hrun.
    destruct (Z.ltb_spec i (log_last (r_log s))); [|lia]. cbn [when] in Hrun.
    rewrite bind_run, bind_run in Hrun. unfold on_log in Hrun.
    change (r_log (set_r_store st s3)) with (r_log s) in Hrun.
    destruct (log_TruncateTo i (r_log s)) as [err l] eqn:E. injection Hrun as <-. cbn.
    destruct (truncate_to_suffix _ _ _ _ E) as [E1 E2]; [lia|]. by split_and!.
Qed.
End install.




(** The new segment cannot be created: the installation succeeds, and the log is
    as empty as that of a new node, although the snapshot ends at 7. *)
Example reset_error_ignored :
  let s := set_r_log (mkMemLog 0 (log_items (r_log lagging)) [false; true] []) lagging in
  let res := installSnapshot 7 3 [x61] s in
  res.1 = Ret None ∧ r_snapshotIndex res.2 = 7 ∧ log_last (r_log res.2) = 0.
Proof. vm_compute. auto. Qed.

(** C38: A node whose log is empty from the start cannot follow after it installed
    a snapshot: its log still ends at 0, so every request that builds on an entry
    is rejected, and its log stays empty. *)
Theorem empty_log_stays_behind {L F : Type} `{GoLogLaws L} `{FSM F} (s s1 s2 : Raft L F)
    i t data fuel term leader prev prevT es commit reply
    (Hempty : log_last (r_log s) = 0) (Hi : 0 < i < u64_max)
    (Hinstall : installSnapshot i t data s = (Ret None, s1))
    (Hprev : 0 < prev) (Hmax : prev + Z.of_nat (length es) < u64_max)
    (Hrun : Raft__HandleAppendEntries fuel term leader prev prevT es commit s1 = (Ret reply, s2)) :
  ar_success reply = false ∧ r_log s2 = r_log s.
Proof.
  apply installSnapshot_run in Hinstall as (_ & _ & _ & _ & _ & _ & Hlog); [|done].
  unfold log_after_install in Hlog. rewrite decide_True in Hlog by done.
  pose proof (log_base_nonneg (r_log s)).
  assert (log_items (r_log s) = []) as Hnil.
  { apply length_zero_iff_nil. unfold log_last in Hempty. lia. }
  pose proof (HandleAppendEntries_replied fuel term leader prev prevT es commit s1 s2 reply) as Hr.
  unfold replied in Hr. rewrite Hlog in Hr. specialize (Hr ltac:(lia) Hmax Hrun).
  destruct (ar_success reply).
  - destruct Hr as (_ & Hp & _); [|unfold log_last in *; lia|lia].
    intros d Hd. rewrite Hnil in Hd. by apply elem_of_nil in Hd.
  - split; [done|]. apply Hr; [|unfold log_last in *; lia].
    intros d Hd. rewrite Hnil in Hd. by apply elem_of_nil in Hd.
Qed.

Definition installed_empty : DemoRaft := (installSnapshot 7 3 [x61] n2).2.

Lemma empty_log_stays_behind_witness :
  ∃ reply s2, Raft__HandleAppendEntries 2 3 "n1" 7 3 [] 7 installed_empty = (Ret reply, s2)
  ∧ ar_success reply = false.
Proof.
  exists (mkAppendReply 3 false 1 0), (Raft__HandleAppendEntries 2 3 "n1" 7 3 [] 7 installed_empty).2.
  assert (Raft__HandleAppendEntries 2 3 "n1" 7 3 [] 7 installed_empty
    = (Ret (mkAppendReply 3 false 1 0), (Raft__HandleAppendEntries 2 3 "n1" 7 3 [] 7 installed_empty).2))
    as Hrun by (vm_compute; reflexivity).
  refine (conj Hrun (proj1 (empty_log_stays_behind n2 installed_empty _ 7 3 [x61] 2 3 "n1" 7 3 [] 7 _
    _ _ _ _ _ Hrun))).
  - vm_compute. reflexivity.
  - vm_compute. split; reflexivity.
  - vm_compute. reflexivity.
  - vm_compute. reflexivity.
  - vm_compute. reflexivity.
Defined.
