(* ===== verification/Progress.v ===== *)
(** * The commit index never goes back

    While a node runs, no operation lowers its commit index: the relation is a
    [Frame], and the functions a frame does not cover leave the index alone. *)
From S2P Require Import Prelude GoMonad FileSystem LogEntry Store Snapshot Session Config GoLog Log Fsm Node Roles Follower Leader Candidate Raft Demo Frame Election Campaign Cluster ElectionSafety.
Local Open Scope Z_scope.

Section progress.
Context {L F : Type} `{GoLog L} `{FSM F}.
Abbreviation node := (Raft L F).

Definition commit_le (s s' : node) : Prop := commitIndex (r_store s) <= commitIndex (r_store s').

#[global] Instance commit_le_preorder : PreOrder commit_le.
Proof. split; [intros s; unfold commit_le; lia|]. intros a b c. unfold commit_le. lia. Qed.

#[global] Instance commit_le_frame : Frame commit_le.
Proof.
  split; unfold commit_le; try done; intros; try (cbn; lia).
  - apply _.
  - match goal with Hc : same_core _ _ |- _ => rewrite (core_store _ _ Hc) end. lia.
Qed.

(** The setters of the store keep it. *)
Lemma commit_on_store {A} (m : StoreM A) :
  (∀ st fs, commitIndex (m (st, fs)).2.1 = commitIndex st) → moves commit_le (on_store m : RaftM L F A).
Proof.
  intros Hm s. unfold on_store, zoom, commit_le. specialize (Hm (r_store s) (r_fs s)).
  destruct (m _) as [r [st fs]]. cbn in *. lia.
Qed.

Lemma store_updated_commit s fs t v e s' fs' :
  store_updated s fs t v e s' fs' → commitIndex s' = commitIndex s.
Proof. destruct e; intros [-> _]; done. Qed.

Lemma commit_SetCurrentTermAndVotedFor t v :
  moves commit_le (on_store (Store__SetCurrentTermAndVotedFor t v) : RaftM L F _).
Proof.
  apply commit_on_store. intros st fs.
  destruct (SetCurrentTermAndVotedFor_run t v st fs) as (e & s' & fs' & -> & Hu). by eapply store_updated_commit.
Qed.

Lemma commit_SetVotedFor v : moves commit_le (on_store (Store__SetVotedFor v) : RaftM L F _).
Proof.
  apply commit_on_store. intros st fs.
  destruct (SetVotedFor_run v st fs) as (e & s' & fs' & -> & Hu). by eapply store_updated_commit.
Qed.

Lemma commit_IncrementCurrentTerm : moves commit_le (on_store Store__IncrementCurrentTerm : RaftM L F _).
Proof.
  apply commit_on_store. intros st fs. unfold Store__IncrementCurrentTerm.
  destruct (Store__write_run (set_currentTerm (u64 (currentTerm st + 1)) st) fs) as (r & fs' & E & _).
  repeat (rewrite bind_run; simpl). rewrite E. by destruct r.
Qed.
#[local] Hint Resolve commit_SetCurrentTermAndVotedFor commit_SetVotedFor commit_IncrementCurrentTerm : moves.
#[local] Hint Extern 5 (moves commit_le (modify _)) => apply moves_modify; intros ?; unfold commit_le; cbn; lia : moves.

Lemma commit_new_role x : moves commit_le (new_role x : RaftM L F nat).
Proof. unfold new_role. moves_auto. Qed.
Lemma commit_update_candidate a f : moves commit_le (update_candidate a f : RaftM L F unit).
Proof. unfold update_candidate, write_role. moves_auto. Qed.
Lemma commit_spawn t : moves commit_le (spawn t : RaftM L F unit).
Proof. unfold spawn. moves_auto. Qed.
#[local] Hint Resolve commit_new_role commit_update_candidate commit_spawn : moves.

Lemma commit_becomeFollower t : moves commit_le (becomeFollower t : RaftM L F nat).
Proof. unfold becomeFollower, enter_role, NewFollowerRole, FollowerRole__OnEnter. moves_auto. Qed.
#[local] Hint Resolve commit_becomeFollower : moves.

Lemma commit_becomeLeader t : moves commit_le (becomeLeader t : RaftM L F nat).
Proof. unfold becomeLeader, enter_role, NewLeaderRole, LeaderRole__OnEnter. moves_auto. Qed.
#[local] Hint Resolve commit_becomeLeader : moves.

Lemma commit_startElection a : moves commit_le (CandidateRole__startElection a : RaftM L F unit).
Proof. unfold CandidateRole__startElection. moves_auto. Qed.
#[local] Hint Resolve commit_startElection : moves.

Lemma commit_becomeCandidate : moves commit_le (becomeCandidate : RaftM L F nat).
Proof.
  unfold becomeCandidate, enter_role, NewCandidateRole, CandidateRole__OnEnter, CandidateRole__startPreElection.
  moves_auto.
Qed.
#[local] Hint Resolve commit_becomeCandidate : moves.

Lemma commit_Tick : moves commit_le (Raft__Tick : RaftM L F unit).
Proof.
  unfold Raft__Tick, current_role, FollowerRole__Tick, CandidateRole__Tick, LeaderRole__Tick, step_down, write_role.
  moves_auto.
Qed.

Lemma commit_Enable : moves commit_le (Raft__Enable : RaftM L F unit).
Proof. unfold Raft__Enable. moves_auto. Qed.
#[local] Hint Resolve commit_Tick commit_Enable : moves.

(** ** Handlers *)
Lemma commit_follower_AppendEntries n : ∀ a t l i j es c,
  moves commit_le (FollowerRole__HandleAppendEntries n a t l i j es c : RaftM L F _).
Proof. induction n as [|n IH]; intros; cbn [FollowerRole__HandleAppendEntries]; moves_auto. Qed.

Lemma commit_follower_RequestVote n : ∀ a t c i j,
  moves commit_le (FollowerRole__HandleRequestVote n a t c i j : RaftM L F _).
Proof. induction n as [|n IH]; intros; cbn [FollowerRole__HandleRequestVote]; moves_auto. Qed.

Lemma commit_follower_InstallSnapshot a t l i j d :
  moves commit_le (FollowerRole__HandleInstallSnapshot a t l i j d : RaftM L F _).
Proof. unfold FollowerRole__HandleInstallSnapshot. moves_auto. Qed.
#[local] Hint Resolve commit_follower_AppendEntries commit_follower_RequestVote
  commit_follower_InstallSnapshot : moves.

Lemma commit_HandleAppendEntries n t l i j es c :
  moves commit_le (Raft__HandleAppendEntries n t l i j es c : RaftM L F _).
Proof.
  unfold Raft__HandleAppendEntries, if_enabled, current_role, CandidateRole__HandleAppendEntries,
    LeaderRole__HandleAppendEntries. moves_auto.
Qed.

Lemma commit_HandleRequestVote n t c i j : moves commit_le (Raft__HandleRequestVote n t c i j : RaftM L F _).
Proof.
  unfold Raft__HandleRequestVote, if_enabled, current_role, CandidateRole__HandleRequestVote,
    LeaderRole__HandleRequestVote. moves_auto.
Qed.

Lemma commit_HandleInstallSnapshot t l i j d : moves commit_le (Raft__HandleInstallSnapshot t l i j d : RaftM L F _).
Proof.
  unfold Raft__HandleInstallSnapshot, if_enabled, current_role, CandidateRole__HandleInstallSnapshot,
    LeaderRole__HandleInstallSnapshot. moves_auto.
Qed.
#[local] Hint Resolve commit_HandleAppendEntries commit_HandleRequestVote commit_HandleInstallSnapshot : moves.

(** ** Replies and steps *)
Lemma commit_conclude t sn reply : moves commit_le (conclude t sn reply : RaftM L F unit).
Proof.
  unfold conclude, sendPreVote_done, sendRequestVote_done, sendAppendEntries_done, sendInstallSnapshot_done,
    CandidateRole__sendPreVote_reply, CandidateRole__sendRequestVote_reply,
    LeaderRole__sendAppendEntriesToNode_reply, LeaderRole__sendInstallSnapshotToNode_reply,
    record_ack, raise_match, raise_next.
  moves_auto.
Qed.

Lemma commit_serve fuel t sn handler : serve fuel t sn = Some handler → moves commit_le (handler : RaftM L F _).
Proof.
  destruct t as [a v T id i j|a v T id i j|a v T id i j es ci|a v T id|a]; simpl; [..|done].
  4: destruct sn as [sn|]; [|done].
  all: intros [= <-]; unfold as_reply; moves_auto.
Qed.

Lemma commit_run_local op (r : node) : commit_le r (run_local op r).
Proof.
  destruct op; simpl.
  all: match goal with |- commit_le ?s (?m ?s).2 =>
         let Hm := fresh in assert (moves commit_le m) as Hm by auto with moves; apply Hm end.
Qed.

Lemma commit_drop_task k (r : node) : commit_le r (drop_task k r).
Proof. unfold commit_le. cbn. lia. Qed.

Context (nodes : list string) (dataDir : string → string).

(** A node that is up before and after a step. *)
Lemma step_commit (c c' : Cluster) n (r r' : node) : step nodes dataDir c c' →
  cl_slots c !! n = Some (Up r) → cl_slots c' !! n = Some (Up r') → commit_le r r'.
Proof.
  intros Hstep Hr Hr'.
  destruct (step_up nodes dataDir commit_le commit_run_local commit_serve commit_conclude commit_drop_task
    (frame_sendInstall commit_le) c c' n r' Hstep Hr') as [(q & Hq & Hle)|(fs & old & next & Hd)].
  - by assert (q = r) as <- by congruence.
  - destruct Hd as (? & ? & ? & ? & ? & ? & ? & Hd & _). congruence.
Qed.
End progress.

(** C9: The commit index never goes back.  Whatever a node does in a step of the
    cluster (ticks, requests of any content, replies and failed calls, proposals,
    snapshots, being switched off and on), its commit index does not decrease as
    long as it keeps running. *)
Theorem commit_index_monotone {L F : Type} `{GoLog L} `{FSM F} (nodes : list string)
    (dataDir : string → string) (c c' : Cluster (L:=L) (F:=F)) n r r'
    (Hstep : step nodes dataDir c c')
    (Hr : cl_slots c !! n = Some (Up r)) (Hr' : cl_slots c' !! n = Some (Up r')) :
  commitIndex (r_store r) <= commitIndex (r_store r').
Proof. exact (step_commit nodes dataDir c c' n r r' Hstep Hr Hr'). Qed.

(** One tick of a leader with an acknowledged entry. *)
Definition one_node (r : DemoRaft) : Cluster := mkCluster {["n1"%string := Up r]} [].

Lemma commit_index_monotone_witness :
  commitIndex (r_store n1_leader) <= commitIndex (r_store (Raft__Tick n1_leader).2).
Proof.
  apply (commit_index_monotone demo_nodes demo_dirs (one_node n1_leader)
    (set_slot "n1" (Up (run_local OpTick n1_leader)) (one_node n1_leader)) "n1").
  - apply (step_local demo_nodes demo_dirs (one_node n1_leader) "n1" n1_leader OpTick).
    + reflexivity.
    + vm_compute. reflexivity.
  - reflexivity.
  - reflexivity.
Defined.
