(* ===== verification/Propose.v ===== *)
(** * Proposals on a leader

    What [HandlePropose] does before it waits: the entry it appends and the waiter
    it registers, or the reason it does not. *)
From S2P Require Import Prelude GoMonad FileSystem LogEntry Store Snapshot Session Config GoLog Log Fsm Node Roles Follower Leader Candidate Raft Demo Frame Election Campaign Replication Commit.
Local Open Scope Z_scope.

Section propose.
Context {L F : Type} `{GoLogLaws L} `{FSM F}.
Abbreviation node := (Raft L F).

(** The leader object [a] keeps its waiters, and the log stays. *)
Definition waiters_kept (a : nat) (s s' : node) : Prop :=
  r_log s' = r_log s ∧ r_id s' = r_id s ∧
  ∀ l, r_roles s !! a = Some (RLeader l) →
    ∃ l', r_roles s' !! a = Some (RLeader l') ∧ l_pending l' = l_pending l.

#[global] Instance waiters_kept_preorder a : PreOrder (waiters_kept a).
Proof.
  split; [intros s; split_and!; eauto|]. intros x y z (A1 & A2 & A3) (B1 & B2 & B3).
  split_and!; [congruence..|]. intros l Hl. destruct (A3 l Hl) as (l1 & Hl1 & <-). by apply B3.
Qed.

Lemma waiters_kept_modify a f :
  (∀ s, r_log (f s) = r_log s ∧ r_id (f s) = r_id s ∧ r_roles (f s) = r_roles s) →
  moves (waiters_kept a) (modify f : RaftM L F unit).
Proof.
  intros Hf. apply moves_modify. intros s. destruct (Hf s) as (E1 & E2 & E3). split_and!; try done.
  intros l Hl. rewrite E3. eauto.
Qed.
#[local] Hint Extern 5 (moves (waiters_kept _) (modify _)) =>
  apply waiters_kept_modify; intros ?; by split_and! : moves.

Lemma waiters_kept_read a b : moves (waiters_kept a) (read_leader b : RaftM L F _).
Proof. unfold read_leader, read_role. moves_auto. Qed.
#[local] Hint Resolve waiters_kept_read : moves.

Lemma waiters_kept_update a f : (∀ l, l_pending (f l) = l_pending l) →
  moves (waiters_kept a) (update_leader a f : RaftM L F unit).
Proof.
  intros Hf s. unfold update_leader, read_leader, read_role. rewrite !bind_run. cbn [gets].
  destruct (r_roles s !! a) as [[| |l]|] eqn:Ha; try reflexivity.
  split_and!; [done..|]. intros l' Hl'. assert (l' = l) as -> by congruence.
  exists (f l). split; [apply lookup_insert_eq|done].
Qed.

Lemma waiters_kept_store {A} a (m : StoreM A) : moves (waiters_kept a) (on_store m : RaftM L F A).
Proof. intros s. unfold on_store, zoom. destruct (m _) as [r [st fs]]. split_and!; eauto. Qed.

Lemma waiters_kept_inflight a peer b : moves (waiters_kept a) (set_inflight a peer b : RaftM L F _).
Proof. by apply waiters_kept_update. Qed.
#[local] Hint Resolve waiters_kept_store waiters_kept_inflight : moves.



End propose.



