(* ===== verification/History.v ===== *)
(** * What the code writes and what it sends

    For every piece of the node's code: whether it leaves the log alone and sends
    no entries ([hush]), or appends at most one entry and sends parts of its log,
    all under a term it leads ([led]), or takes over entries it was sent
    ([took]).  The statements hold of every outcome, panics and exhausted stacks
    included. *)
From S2P Require Import Prelude GoMonad FileSystem LogEntry Store Snapshot Session Config GoLog Log Fsm Node Roles Follower Leader Candidate Raft Frame Election Campaign Cluster Replication Matching.
Local Open Scope Z_scope.

(** The entry in the [i]-th record. *)
Definition entry_in (items : list bytes) (i : nat) : option LogEntry :=
  d ← items !! i; match DeserializeLogEntry d with inl _ => None | inr e => Some e end.

(** What a request may carry: nothing, or the entries from [prev] on, with the
    term of the one before. *)
Definition payload (items : list bytes) (prev prevT : Z) (es : list LogEntry) : Prop :=
  es = [] ∨
  (0 <= prev
   ∧ (prev = 0 ∨ ∃ e, entry_in items (Z.to_nat prev - 1) = Some e ∧ Term e = prevT)
   ∧ ∀ k e, es !! k = Some e → entry_in items (Z.to_nat prev + k) = Some e).

(** Goroutines that carry entries or a snapshot. *)
Definition carries (t : Task) : bool :=
  match t with
  | GoSendAppendEntries _ _ _ _ _ _ _ _ => true
  | GoSendInstallSnapshot _ _ _ _ => true
  | _ => false
  end.

Section log_entries.
Context {L : Type} `{GoLogLaws L}.

Lemma entry_at_range (log : L) i e : entry_at log i = Some e → log_base log < i <= log_last log.
Proof.
  intros He. destruct (decide (log_base log < i <= log_last log)) as [|Hn]; [done|].
  unfold entry_at in He. by destruct (log_read_miss log i Hn) as [err Herr]; rewrite Herr in He.
Qed.

(** In a log that was never cut at the front. *)
Lemma entry_at_in (log : L) i : log_base log = 0 → 0 < i →
  entry_at log i = entry_in (log_items log) (Z.to_nat i - 1).
Proof.
  intros Hb Hi. rewrite entry_at_item_at. unfold item_at, entry_in. rewrite Hb.
  destruct (decide (0 < i)); [|lia]. by replace (Z.to_nat (i - 0 - 1)) with (Z.to_nat i - 1)%nat by lia.
Qed.

Lemma collect_entries_at (log : L) fuel : ∀ i to k e, log_last log < u64_max →
  collect_entries log fuel i to !! k = Some e → entry_at log (i + Z.of_nat k) = Some e.
Proof.
  induction fuel as [|fuel IH]; intros i to k e Hm Hk; [done|].
  cbn [collect_entries] in Hk. destruct (i <=? to); [|done].
  destruct (entry_at log i) as [e0|] eqn:He; [|done]. destruct k as [|k].
  - injection Hk as <-. by rewrite Z.add_0_r.
  - cbn in Hk. pose proof (entry_at_range log i e0 He). pose proof (log_base_nonneg log).
    rewrite u64_small in Hk by (unfold is_u64, u64_max in *; lia).
    rewrite <- (IH (i + 1) to k e) by done. f_equal. lia.
Qed.
End log_entries.

Create HintDb office.

Section history.
Context {L F : Type} `{GoLogLaws L} `{FSM F}.
Abbreviation node := (Raft L F).
Abbreviation M := (RaftM L F).

(** ** Code that neither writes nor sends *)
Record hush (s s' : node) : Prop := {
  hu_base : log_base (r_log s') = log_base (r_log s);
  hu_items : log_items (r_log s') = log_items (r_log s);
  hu_index : r_snapshotIndex s' = r_snapshotIndex s;
  hu_id : r_id s' = r_id s;
  hu_tasks k t : r_tasks s' !! k = Some t → carries t = true → r_tasks s !! k = Some t
}.

#[global] Instance hush_preorder : PreOrder hush.
Proof.
  split; [by split|]. intros x y z [A1 A2 A3 A4 A5] [B1 B2 B3 B4 B5]. split; try congruence. auto.
Qed.

Lemma hush_spawn_node (s : node) t : carries t = false →
  hush s (set_r_next (S (r_next s)) (set_r_tasks (<[r_next s := t]> (r_tasks s)) s)).
Proof.
  intros Ht. split; try done. cbn. intros k u. destruct (decide (r_next s = k)) as [<-|Hne].
  - rewrite lookup_insert_eq. intros [= <-]. congruence.
  - by rewrite lookup_insert_ne.
Qed.

#[global] Instance hush_quiet : Quiet hush.
Proof.
  split; [split; [apply _|..]|..]; intros; try (by split).
  - match goal with Hv : same_view _ _ |- _ => destruct Hv as [Hc El Ei _] end.
    split; [by rewrite El|by rewrite El|done|by apply core_id|]. intros k t.
    by rewrite (core_tasks _ _ Hc).
  - apply hush_spawn_node. by destruct t.
Qed.

Lemma hush_on_store {A} (m : StoreM A) : moves hush (on_store m : M A).
Proof. intros s. unfold on_store, zoom. destruct (m _) as [r [st fs]]. by split. Qed.
#[local] Hint Resolve hush_on_store : moves.
#[local] Hint Extern 5 (moves hush (modify _)) => apply moves_modify; intros ?; by split : moves.

Lemma hush_spawn t : carries t = false → moves hush (spawn t : M unit).
Proof. intros Ht. apply moves_modify. intros s. by apply hush_spawn_node. Qed.
#[local] Hint Resolve hush_spawn : moves.
#[local] Hint Extern 1 (carries _ = false) => reflexivity : moves.

Lemma hush_becomeFollower t : moves hush (becomeFollower t : M nat).
Proof. unfold becomeFollower, enter_role, NewFollowerRole, new_role, FollowerRole__OnEnter. moves_auto. Qed.

Lemma hush_update_candidate a f : moves hush (update_candidate a f : M unit).
Proof. unfold update_candidate, write_role. moves_auto. Qed.
#[local] Hint Resolve hush_becomeFollower hush_update_candidate : moves.

Lemma hush_Enable : moves hush (Raft__Enable : M unit).
Proof. unfold Raft__Enable. moves_auto. Qed.

Lemma hush_follower_RequestVote n : ∀ a t c i j,
  moves hush (FollowerRole__HandleRequestVote n a t c i j : M _).
Proof. induction n as [|n IH]; intros; cbn [FollowerRole__HandleRequestVote]; moves_auto. Qed.
#[local] Hint Resolve hush_follower_RequestVote : moves.

Lemma hush_HandleRequestVote n t c i j : moves hush (Raft__HandleRequestVote n t c i j : M _).
Proof.
  unfold Raft__HandleRequestVote, if_enabled, current_role, CandidateRole__HandleRequestVote,
    LeaderRole__HandleRequestVote. moves_auto.
Qed.

(** ** Code of a leader *)

(** A log that was never cut at the front, as the statements below need it. *)
Definition whole (l : L) : Prop := log_base l = 0 ∧ decodable l ∧ log_last l < u64_max.

(** A goroutine started with what the node holds at the end. *)
Definition fresh (P : Z → Prop) (s : node) (t : Task) : Prop :=
  match t with
  | GoSendAppendEntries _ m T _ prev prevT es _ =>
      P T ∧ m ≠ r_id s
      ∧ (r_snapshotIndex s = 0 → whole (r_log s) → payload (log_items (r_log s)) prev prevT es)
  | GoSendInstallSnapshot _ _ _ _ => 0 < r_snapshotIndex s
  | _ => True
  end.

(** At most one entry is written, of a term of [W], and what is sent has a term
    of [P]. *)
Record led (W P : Z → Prop) (s s' : node) : Prop := {
  led_base : log_base (r_log s') = log_base (r_log s);
  led_items : log_items (r_log s') = log_items (r_log s)
    ∨ ∃ e, W (Term e) ∧ log_items (r_log s') = log_items (r_log s) ++ [Serialize e];
  led_index : r_snapshotIndex s' = r_snapshotIndex s;
  led_id : r_id s' = r_id s;
  led_tasks k t : r_tasks s' !! k = Some t → carries t = true →
    r_tasks s !! k = Some t ∨ fresh P s' t
}.

Abbreviation nothing := (λ _ : Z, False).

Lemma hush_led W P s s' : hush s s' → led W P s s'.
Proof. intros [A1 A2 A3 A4 A5]. split; auto. Qed.

Lemma fresh_same P P' (s s' : node) t :
  log_base (r_log s') = log_base (r_log s) → log_items (r_log s') = log_items (r_log s) →
  r_snapshotIndex s' = r_snapshotIndex s → r_id s' = r_id s → (∀ T, P T → P' T) →
  fresh P s t → fresh P' s' t.
Proof.
  intros E1 E2 E3 E4 HP. destruct t; try done; simpl; unfold whole, decodable, log_last; rewrite ?E1, ?E2, ?E3, ?E4; [|done].
  intros (? & ? & ?). auto.
Qed.

Lemma hush_led_trans W P s s1 s2 : hush s s1 → led W P s1 s2 → led W P s s2.
Proof.
  intros [A1 A2 A3 A4 A5] [B1 B2 B3 B4 B5]. split; try congruence.
  - by rewrite <- A2.
  - intros k t Hk Ht. destruct (B5 k t Hk Ht); auto.
Qed.

Lemma led_sends_trans W (P : Z → Prop) s s1 s2 : led W P s s1 → led nothing P s1 s2 → led W P s s2.
Proof.
  intros [A1 A2 A3 A4 A5] [B1 B2 B3 B4 B5]. destruct B2 as [B2|(e & [] & _)]. split; try congruence.
  - by rewrite B2.
  - intros k t Hk Ht. destruct (B5 k t Hk Ht) as [Hk1|Hf]; [|by right].
    destruct (A5 k t Hk1 Ht) as [?|Hf]; [by left|right]. by eapply fresh_same; [..|exact Hf].
Qed.

Lemma led_hush_trans W P s s1 s2 : led W P s s1 → hush s1 s2 → led W P s s2.
Proof. intros A B. eapply led_sends_trans; [done|by apply hush_led]. Qed.

Lemma led_weaken (W W' P P' : Z → Prop) s s' :
  (∀ T, W T → W' T) → (∀ T, P T → P' T) → led W P s s' → led W' P' s s'.
Proof.
  intros HW HP [A1 A2 A3 A4 A5]. split; try done.
  - destruct A2 as [?|(e & ? & ?)]; [by left|right]. exists e. auto.
  - intros k t Hk Ht. destruct (A5 k t Hk Ht) as [?|Hf]; [by left|right]. by eapply fresh_same; [..|exact Hf].
Qed.

(** Sending parts of the log, as the node named [self]. *)
Definition sends (self : string) (P : Z → Prop) (s s' : node) : Prop := r_id s = self → led nothing P s s'.

#[global] Instance sends_preorder self P : PreOrder (sends self P).
Proof.
  split; [intros s _; by apply hush_led|]. intros x y z A B Hx. specialize (A Hx).
  eapply led_sends_trans; [done|]. apply B. by rewrite (led_id _ _ _ _ A).
Qed.

#[global] Instance sends_quiet self P : Quiet (sends self P).
Proof. eapply quiet_coarser; [apply hush_quiet|apply _|]. intros s s' A _. by apply hush_led. Qed.

Lemma replication_payload (r : node) next last :
  r_snapshotIndex r = 0 → whole (r_log r) →
  let prev := if 0 <? next then next - 1 else 0 in
  payload (log_items (r_log r)) prev (prev_term r prev) (batch_entries r next last).
Proof.
  intros Hi (Hb & Hdec & Hm) prev. destruct (batch_entries r next last) as [|e0 es] eqn:Hes; [by left|right].
  assert (∀ k e, (e0 :: es) !! k = Some e → entry_at (r_log r) (next + Z.of_nat k) = Some e) as Hall.
  { intros k e. rewrite <- Hes. unfold batch_entries. destruct (_ <=? _); [|done]. by apply collect_entries_at. }
  pose proof (entry_at_range _ _ _ (Hall 0%nat e0 eq_refl)) as Hn. rewrite Hb in Hn.
  assert (prev = next - 1) as Hp by (unfold prev; destruct (Z.ltb_spec 0 next); lia).
  clearbody prev. subst prev. split; [lia|]. split.
  - destruct (decide (next - 1 = 0)); [by left|right]. unfold prev_term.
    destruct (Z.ltb_spec 0 (next - 1)); [|lia]. destruct (Z.eqb_spec (next - 1) (r_snapshotIndex r)); [lia|].
    destruct (proj2 (entry_at_is_Some (r_log r) (next - 1) Hdec)) as [e He]; [lia|]. rewrite He.
    exists e. split; [|done]. rewrite <- He. by rewrite entry_at_in by lia.
  - intros k e Hk. pose proof (Hall k e Hk) as He. rewrite (entry_at_in (r_log r)) in He by lia.
    rewrite <- He. f_equal. lia.
Qed.

Lemma spawn_replication (P : Z → Prop) self a m T next last : P T → m ≠ self →
  ∀ r : node, sends self P r (spawn (replication_task r a m T next last) r).2.
Proof.
  intros HP Hm r Hid. split; try done; [by left|]. cbn. intros k t.
  destruct (decide (r_next r = k)) as [<-|Hne].
  - rewrite lookup_insert_eq. intros [= <-] _. right. unfold replication_task. cbn.
    split_and!; [done|congruence|]. by apply replication_payload.
  - rewrite lookup_insert_ne by done. auto.
Qed.

Lemma spawn_snapshot (P : Z → Prop) self a m T id : ∀ r : node, 0 < r_snapshotIndex r →
  sends self P r (spawn (GoSendInstallSnapshot a m T id) r).2.
Proof.
  intros r Hs Hid. split; try done; [by left|]. cbn. intros k t.
  destruct (decide (r_next r = k)) as [<-|Hne].
  - rewrite lookup_insert_eq. intros [= <-] _. by right.
  - rewrite lookup_insert_ne by done. auto.
Qed.

(** Start the goroutine for a peer, with the state at hand. *)
Lemma send_to_peer self (P : Z → Prop) a m T next last (g h : node → Z) : P T → m ≠ self →
  moves (sends self P) (r ← gets (λ r : node, r);
    if needs_snapshot r (g r) then spawn (GoSendInstallSnapshot a m T (next r))
    else spawn (replication_task r a m T (h r) (last r)) : M unit).
Proof.
  intros HP Hm s. apply (moves_at_gets (sends self P)). unfold needs_snapshot.
  destruct (Z.ltb_spec 0 (r_snapshotIndex s)); cbn [andb]; [|by apply spawn_replication].
  destruct (_ <=? _); [by apply spawn_snapshot|by apply spawn_replication].
Qed.

Lemma sends_retry self (P : Z → Prop) a m T : P T → m ≠ self →
  moves (sends self P) (LeaderRole__retrySendAppendEntriesToNode a m T : M unit).
Proof.
  intros HP Hm. unfold LeaderRole__retrySendAppendEntriesToNode.
  apply moves_bind; [apply _|eauto with moves|intros l]. destruct (map_bool _ _); [apply moves_ret, _|].
  apply moves_bind; [apply _|eauto with moves|intros _]. cbv zeta.
  by apply (send_to_peer self P a m T r_id (λ r, (log_GetLastIndex (r_log r)).1)
    (λ _, map_Z (l_nextIndex l) m) (λ r, if map_Z (l_nextIndex l) m =? 0
      then u64 ((log_GetLastIndex (r_log r)).1 + 1) else map_Z (l_nextIndex l) m)).
Qed.

Lemma sends_each self (P : Z → Prop) a T last nodes : P T →
  moves (sends self P) (go_each (λ node,
    if bool_decide (node = self) then mret tt
    else
      l ← read_leader a;
      if map_bool (l_inflight l) node then mret tt
      else
        set_inflight a node true;;
        let next := if map_Z (l_nextIndex l) node =? 0 then u64 (last + 1)
                    else map_Z (l_nextIndex l) node in
        r ← gets (λ r, r);
        if needs_snapshot r next then spawn (GoSendInstallSnapshot a node T self)
        else spawn (replication_task r a node T next last)) nodes : M unit).
Proof.
  intros HP. apply moves_each; [apply _|intros m]. case_bool_decide as Hm; [apply moves_ret, _|].
  apply moves_bind; [apply _|eauto with moves|intros l]. destruct (map_bool _ _); [apply moves_ret, _|].
  apply moves_bind; [apply _|eauto with moves|intros _]. cbv zeta.
  set (n := if _ =? 0 then _ else _).
  by apply (send_to_peer self P a m T (λ _, self) (λ _, last) (λ _, n) (λ _, n)).
Qed.

(** Within the current term. *)
Lemma led_sendToAll a (s : node) :
  led nothing (λ T, T = term_of s) s (LeaderRole__sendAppendEntriesToAllNodes a s).2.
Proof.
  unfold LeaderRole__sendAppendEntriesToAllNodes. rewrite bind_run.
  pose proof (frame_update_leader hush a (set_l_heartbeatTicks 0) s) as Hh.
  pose proof (vk_term _ _ (frame_update_leader view_kept a (set_l_heartbeatTicks 0) s)) as Ht.
  destruct (update_leader a (set_l_heartbeatTicks 0) s) as [[[]| |] s1]; cbn [fst snd] in *;
    [|by apply hush_led..].
  eapply hush_led_trans; [exact Hh|]. rewrite bind_run, GetCurrentTerm_run, !bind_run. cbn [gets].
  rewrite !bind_run. cbn [gets]. by apply sends_each.
Qed.

(** ** Staying in office *)
Record office_kept (s s' : node) : Prop := {
  ok_term : term_of s' = term_of s;
  ok_role : r_role s' = r_role s;
  ok_leader a l : r_roles s !! a = Some (RLeader l) → ∃ l', r_roles s' !! a = Some (RLeader l')
}.

#[global] Instance office_kept_preorder : PreOrder office_kept.
Proof.
  split; [split; eauto|]. intros x y z [A1 A2 A3] [B1 B2 B3]. split; try congruence.
  intros a l Hl. destruct (A3 a l Hl) as [l' Hl']. eauto.
Qed.

#[global] Instance office_kept_frame : Frame office_kept.
Proof.
  split; [apply _|..]; intros; try (split; [done..|eauto]; fail).
  - match goal with Hc : same_core _ _ |- _ => destruct Hc as [_ _ _ _ Hr Hs _ Ho _ _] end.
    split; [unfold term_of; by rewrite Hs|done|]. rewrite Ho. eauto.
  - split; [done..|]. cbn. intros b l Hl. rewrite lookup_insert_ne; [eauto|]. congruence.
  - split; [done..|]. cbn. intros b k Hl. destruct (decide (a = b)) as [<-|Hne].
    + rewrite lookup_insert_eq. eauto.
    + rewrite lookup_insert_ne by done. eauto.
Qed.

Lemma office_kept_leads s s' : office_kept s s' → leads s → leads s'.
Proof.
  intros [_ Hr Hl] (a & l & Ha & Hal). destruct (Hl a l Hal) as [l' Hl']. exists a, l'. by rewrite Hr.
Qed.

(** The node leads term [T]. *)
Definition in_office (s : node) (T : Z) : Prop := leads s ∧ T = term_of s.

Lemma office_kept_in_office s s' T : office_kept s s' → in_office s T → in_office s' T.
Proof. intros A [Hl ->]. split; [by eapply office_kept_leads|symmetry; by apply A]. Qed.

(** ** Taking office *)

(** Whatever is written or sent is of a term the node leads at the end. *)
Definition takes_office {A} (m : M A) : Prop :=
  ∀ s, let s' := (m s).2 in led (in_office s') (in_office s') s s'.

Lemma takes_office_hush {A} (m : M A) : moves hush m → takes_office m.
Proof. intros Hm s. apply hush_led, Hm. Qed.

Lemma takes_office_bind {A B} (m : M A) (f : A → M B) :
  moves hush m → (∀ x, takes_office (f x)) → takes_office (m ≫= f).
Proof.
  intros Hm Hf s. specialize (Hm s). cbv zeta. rewrite bind_run.
  destruct (m s) as [[x| |] s1]; cbn [fst snd] in *; [|by apply hush_led..].
  eapply hush_led_trans; [exact Hm|]. apply Hf.
Qed.

Lemma takes_office_then {A B} (m : M A) (g : A → B) : takes_office m → takes_office (x ← m; mret (g x)).
Proof. intros Hm s. specialize (Hm s). cbv zeta in *. rewrite bind_run. by destruct (m s) as [[| |] ?]. Qed.

Lemma takes_office_when b (m : M unit) : takes_office m → takes_office (when b m).
Proof. destruct b; [done|]. intros _. by apply takes_office_hush, moves_ret, _. Qed.

Lemma on_log_run {A} (f : L → A * L) (s : node) x l :
  f (r_log s) = (x, l) → on_log f s = (Ret x, set_r_log l s).
Proof. intros Hf. unfold on_log. by rewrite Hf. Qed.

(** The end of [OnEnter], once the entry is in the log. *)
Lemma enter_rest a T self (s : node) last : leads s → T = term_of s →
  let m := update_leader a (set_self self last);; LeaderRole__sendAppendEntriesToAllNodes a;;
           LeaderRole__tryToAdvanceCommitIndex a;; spawn (GoApplier a) in
  office_kept s (m s).2 ∧ led nothing (λ U, U = T) s (m s).2.
Proof.
  intros Hl HT m. split.
  { assert (moves office_kept m) as Hm by (subst m; moves_auto). apply Hm. }
  subst m. rewrite bind_run. pose proof (frame_update_leader hush a (set_self self last) s) as H1h.
  pose proof (frame_update_leader office_kept a (set_self self last) s) as H1o.
  destruct (update_leader _ _ s) as [[[]| |] s1]; cbn [fst snd] in *; [|by apply hush_led..].
  eapply hush_led_trans; [exact H1h|]. rewrite bind_run. pose proof (led_sendToAll a s1) as H2.
  destruct (LeaderRole__sendAppendEntriesToAllNodes a s1) as [[[]| |] s2]; cbn [fst snd] in *;
    rewrite (ok_term _ _ H1o), <- HT in H2; [|done..].
  eapply led_hush_trans; [exact H2|].
  assert (moves hush (LeaderRole__tryToAdvanceCommitIndex a;; spawn (GoApplier a) : M unit)) as Hm by moves_auto.
  apply Hm.
Qed.

Lemma leader_OnEnter_led a T (s : node) : leads s →
  let s' := (LeaderRole__OnEnter a T s).2 in led (in_office s') (in_office s') s s'.
Proof.
  intros Hl. unfold LeaderRole__OnEnter. cbv zeta. rewrite bind_run, GetCurrentTerm_run.
  assert (∀ s : node, hush s ((_ ← becomeFollower T; mret tt) s).2) as Hback.
  { assert (moves hush (_ ← becomeFollower T; mret tt : M unit)) as Hm by moves_auto. apply Hm. }
  destruct (Z.eqb_spec (term_of s) T) as [Ht|]; cbn [negb]; [|apply hush_led, Hback].
  rewrite bind_run. cbn [gets]. rewrite bind_run.
  pose proof (frame_SetLeaderId hush (r_id s) s) as A1. pose proof (frame_SetLeaderId office_kept (r_id s) s) as B1.
  destruct (SetLeaderId (r_id s) s) as [[[]| |] s1]; cbn [fst snd] in *; [|by apply hush_led..].
  rewrite !bind_run. cbn [gets]. rewrite !bind_run. cbn [gets]. rewrite bind_run. set (f := λ l, _ : LeaderRole).
  pose proof (frame_update_leader hush a f s1) as A2. pose proof (frame_update_leader office_kept a f s1) as B2.
  destruct (update_leader a f s1) as [[[]| |] s2]; cbn [fst snd] in *; [|apply hush_led; by etrans..].
  assert (hush s s2) as A by (by etrans). assert (office_kept s s2) as B by (by etrans). clear s1 A1 A2 B1 B2 f.
  eapply hush_led_trans; [exact A|]. rewrite bind_run.
  destruct (log_Write (Serialize (mkLogEntry [] T "" 0)) (r_log s2)) as [[i err] l1] eqn:Hw.
  rewrite (on_log_run _ _ _ _ Hw).
  destruct (log_write_spec _ _ _ _ _ Hw) as [Hb Hi]. cbn [fst snd]. destruct err as [err|].
  { apply hush_led. etrans; [|apply Hback]. by split. }
  rewrite bind_run, (on_log_run _ _ tt (log_Commit l1)) by done.
  set (s3 := set_r_log (log_Commit l1) (set_r_log l1 s2)). rewrite bind_run. cbn [gets]. rewrite log_last_spec. cbn [fst snd]. 
  assert (office_kept s s3) as B3 by (etrans; [exact B|by split; eauto]).
  destruct (enter_rest a T (r_id s) s3 (log_last (r_log s3))) as [B4 C4];
    [by eapply office_kept_leads|by rewrite (ok_term _ _ B3)|].
  destruct (log_commit_spec l1) as [Hcb Hci]. destruct Hi as [_ Hi].
  set (s' := (_ s3).2) in *. assert (in_office s' T) as Hoff.
  { eapply office_kept_in_office; [exact B4|]. eapply office_kept_in_office; [exact B3|by split]. }
  apply (led_sends_trans _ _ s2 s3).
  2:{ eapply led_weaken; [| |exact C4]; [intros ? []|by intros U ->]. }
  split; cbn; [congruence| |done..|by left]. right. exists (mkLogEntry [] T "" 0).
  split; [done|congruence].
Qed.

Lemma becomeLeader_led T : takes_office (becomeLeader T : M nat).
Proof.
  unfold becomeLeader. apply takes_office_bind; [auto with moves|intros _ s].
  set (l := mkLeaderRole false false (HeartbeatTicks (r_config s)) 0 ∅ ∅ 0 ∅ ∅ ∅).
  set (s1 := entered (set_r_roleEpoch (u64 (r_roleEpoch s + 1)) s) (RLeader l)).
  assert (enter_role NewLeaderRole s = (Ret (r_next s), s1)) as Hrun by done.
  assert (leads s1) as Hl by (exists (r_next s), l; split; [done|]; cbn; apply lookup_insert_eq).
  assert (hush s s1) as Hh by (by split). cbv zeta. rewrite bind_run, Hrun.
  pose proof (leader_OnEnter_led (r_next s) T s1 Hl) as Hled. cbv zeta in Hled. rewrite bind_run.
  destruct (LeaderRole__OnEnter (r_next s) T s1) as [[[]| |] s2]; by eapply hush_led_trans.
Qed.

(** Decompose along the code. *)
#[local] Hint Resolve becomeLeader_led : office.
Ltac office :=
  repeat first
    [ solve [auto 1 with office nocore]
    | apply (takes_office_then _ (λ _, tt))
    | solve [apply takes_office_hush; moves_auto]
    | apply takes_office_when
    | apply takes_office_bind; [solve [moves_auto]|intros ?]
    | match goal with |- takes_office (match ?x with _ => _ end) => destruct x end ].

Lemma startElection_led a : takes_office (CandidateRole__startElection a : M unit).
Proof. unfold CandidateRole__startElection. office. Qed.

#[local] Hint Resolve startElection_led : office.

Lemma startPreElection_led a : takes_office (CandidateRole__startPreElection a : M unit).
Proof. unfold CandidateRole__startPreElection. office. Qed.

#[local] Hint Resolve startPreElection_led : office.

Lemma becomeCandidate_led : takes_office (becomeCandidate : M nat).
Proof.
  unfold becomeCandidate, enter_role, NewCandidateRole, new_role, CandidateRole__OnEnter.
  apply takes_office_bind; [moves_auto|intros _]. apply takes_office_bind; [moves_auto|intros a].
  apply (takes_office_then _ (λ _, a)). office.
Qed.

#[local] Hint Resolve becomeCandidate_led : office.

Lemma sendPreVote_led a v T p : takes_office (sendPreVote_done a v T p : M unit).
Proof.
  intros s. unfold sendPreVote_done. cbv zeta. rewrite !recovering_state.
  assert (takes_office (CandidateRole__sendPreVote_reply a v T p.1 p.2 : M unit)) as Ho; [|apply Ho].
  unfold CandidateRole__sendPreVote_reply. office.
Qed.

Lemma sendRequestVote_led a v T p : takes_office (sendRequestVote_done a v T p : M unit).
Proof.
  intros s. unfold sendRequestVote_done. cbv zeta. rewrite !recovering_state.
  assert (takes_office (CandidateRole__sendRequestVote_reply a v T p.1 p.2 : M unit)) as Ho; [|apply Ho].
  unfold CandidateRole__sendRequestVote_reply. office.
Qed.

(** ** Ticks and proposals *)
Lemma hush_step_down : moves hush (step_down : M unit).
Proof. unfold step_down. moves_auto. Qed.
#[local] Hint Resolve hush_step_down : moves.

(** A tick of the node: of a leader it sends in its term, of another it may end
    in office. *)
Lemma Tick_led (s : node) :
  let s' := (Raft__Tick s).2 in
  led (in_office s') (in_office s') s s' ∨ led nothing (in_office s) s s'.
Proof.
  unfold Raft__Tick. cbv zeta. rewrite bind_run. cbn [gets].
  destruct (_ || _); [left; by apply hush_led|].
  unfold current_role, read_role. rewrite !bind_run. cbn [gets].
  destruct (r_role s) as [a|] eqn:Hr; [|left; by apply hush_led]. rewrite !bind_run. cbn [gets].
  destruct (r_roles s !! a) as [[f|c|l]|] eqn:Ha; cbn [mret GoM_ret]; [| | |left; by apply hush_led].
  - left. assert (takes_office (FollowerRole__Tick a : M unit)) as Ho; [|apply Ho].
    unfold FollowerRole__Tick, write_role. office.
  - left. assert (takes_office (CandidateRole__Tick a : M unit)) as Ho; [|apply Ho].
    unfold CandidateRole__Tick. office.
  - right. assert (leads s) as Hl by (by exists a, l).
    unfold LeaderRole__Tick. rewrite bind_run. set (f := λ l, _ : LeaderRole).
    pose proof (frame_update_leader hush a f s) as A1. pose proof (frame_update_leader view_kept a f s) as B1.
    destruct (update_leader a f s) as [[[]| |] s1]; cbn [fst snd] in *; [|by apply hush_led..].
    eapply hush_led_trans; [exact A1|]. rewrite bind_run.
    pose proof (frame_read_leader hush a s1) as A2. pose proof (frame_read_leader view_kept a s1) as B2.
    destruct (read_leader a s1) as [[k| |] s2]; cbn [fst snd] in *; [|by apply hush_led..].
    eapply hush_led_trans; [exact A2|]. rewrite bind_run.
    assert (led nothing (in_office s) s2
      (when (l_heartbeatDeadline k <=? l_heartbeatTicks k) (LeaderRole__sendAppendEntriesToAllNodes a) s2).2) as A3.
    { destruct (_ <=? _); [|by apply hush_led]. eapply led_weaken; [| |apply led_sendToAll]; [done|].
      intros U ->. split; [done|]. by rewrite (vk_term _ _ B2), (vk_term _ _ B1). }
    destruct (when _ _ s2) as [[[]| |] s3]; cbn [fst snd] in *; [|done..].
    eapply led_hush_trans; [exact A3|].
    assert (moves hush (r ← gets (λ r : node, r); l ← read_leader a; when (lease_expired r l) step_down : M unit))
      as Hm by moves_auto. apply Hm.
Qed.

Lemma role_type_leads (s s' : node) : role_type s = (Ret "leader"%string, s') → s' = s ∧ leads s.
Proof.
  unfold role_type, read_role. rewrite bind_run. cbn [gets].
  destruct (r_role s) as [a|] eqn:Hr; [|done]. rewrite !bind_run. cbn [gets].
  destruct (r_roles s !! a) as [[f|c|l]|] eqn:Ha; intros [=]; subst. split; [done|]. by exists a, l.
Qed.

Lemma LeaderRole__HandlePropose_led a d c n e (s : node) :
  led (in_office s) (in_office s) s (LeaderRole__HandlePropose a d c n e s).2.
Proof.
  unfold LeaderRole__HandlePropose. rewrite bind_run. cbn [gets]. destruct (IsDuplicate _ _ _) as [dup res].
  destruct (_ && dup); [by apply hush_led|]. rewrite bind_run. cbn [gets]. rewrite bind_run.
  destruct (negb _); [by apply hush_led|]. rewrite bind_run.
  destruct (role_type s) as [ty s0] eqn:Hty.
  assert (s0 = s) as -> by (destruct (role_type_run s) as (? & Hrt & _); congruence).
  destruct ty as [ty| |]; [|by apply hush_led..]. cbn [mret GoM_ret].
  case_bool_decide as Hl; cbn [negb]; [subst ty|by apply hush_led].
  apply role_type_leads in Hty as [_ Hl]. rewrite bind_run. cbn [gets]. rewrite bind_run.
  pose proof (frame_read_leader hush a s) as A1. pose proof (frame_read_leader office_kept a s) as B1.
  destruct (read_leader a s) as [[l| |] s1]; cbn [fst snd] in *; [|by apply hush_led..].
  eapply hush_led_trans; [exact A1|]. destruct (lease_expired s l); [by apply hush_led|].
  rewrite bind_run, GetCurrentTerm_run, bind_run, (ok_term _ _ B1).
  destruct (log_WriteCommit (Serialize (mkLogEntry d (term_of s) c n)) (r_log s1)) as [[i err] l1] eqn:Hw. rewrite (on_log_run _ _ _ _ Hw).
  destruct (log_writecommit_spec _ _ _ _ _ Hw) as [Hb Hi]. destruct err as [err|].
  { apply hush_led. by split. }
  set (s2 := set_r_log l1 s1). assert (term_of s2 = term_of s) as Ht by (unfold s2; apply B1).
  apply (led_sends_trans _ _ s1 s2).
  { destruct Hi as [_ Hi]. split; cbn; [done| |done..|by left]. right. eexists. split; [|exact Hi]. by split. }
  clear Hw Hb Hi. rewrite bind_run. pose proof (frame_make_chan hush s2) as A3. pose proof (frame_make_chan office_kept s2) as B3.
  destruct (make_chan s2) as [[ch| |] s3]; cbn [fst snd] in *; [|by apply hush_led..].
  eapply hush_led_trans; [exact A3|]. rewrite bind_run. set (f := λ l, set_l_pending _ l).
  pose proof (frame_update_leader hush a f s3) as A4. pose proof (frame_update_leader office_kept a f s3) as B4.
  destruct (update_leader a f s3) as [[[]| |] s4]; cbn [fst snd] in *; [|by apply hush_led..].
  eapply hush_led_trans; [exact A4|]. rewrite bind_run.
  assert (led nothing (in_office s) s4 (LeaderRole__sendAppendEntriesToAllNodes a s4).2) as A5.
  { eapply led_weaken; [| |apply led_sendToAll]; [done|]. intros U ->. split; [done|].
    by rewrite (ok_term _ _ B4), (ok_term _ _ B3). }
  destruct (LeaderRole__sendAppendEntriesToAllNodes a s4) as [[[]| |] s5]; cbn [fst snd] in *; [|done..].
  eapply led_hush_trans; [exact A5|]. match goal with |- hush s5 (?m s5).2 => assert (moves hush m) as Hm by moves_auto end.
  apply Hm.
Qed.

Lemma HandlePropose_led a d c n e (s : node) :
  led (in_office s) (in_office s) s (RaftRole__HandlePropose a d c n e s).2.
Proof.
  unfold RaftRole__HandlePropose, read_role. rewrite !bind_run. cbn [gets].
  destruct (r_roles s !! a) as [[f|k|l]|]; cbn [mret GoM_ret]; [| | |by apply hush_led].
  - apply hush_led. assert (moves hush (FollowerRole__HandlePropose d c n e : M _)) as Hm
      by (unfold FollowerRole__HandlePropose; moves_auto). apply Hm.
  - apply hush_led. assert (moves hush (CandidateRole__HandlePropose d c n e : M _)) as Hm
      by (unfold CandidateRole__HandlePropose; moves_auto). apply Hm.
  - apply LeaderRole__HandlePropose_led.
Qed.

(** ** The other operations *)
Lemma TakeSnapshot_finish_state sn (s : node) :
  (TakeSnapshot_finish sn s).2 = s
  ∨ r_snapshotIndex (TakeSnapshot_finish sn s).2 ≠ r_snapshotIndex s.
Proof.
  unfold TakeSnapshot_finish. rewrite bind_run. cbn [gets].
  destruct (Z.ltb_spec (r_snapshotIndex s) (LastIncludedIndex sn)); cbn [when]; [right|by left].
  rewrite !bind_run. cbn [modify gets]. rewrite !bind_run. cbn [modify gets]. rewrite !bind_run. cbn [gets].
  destruct (_ <? _); cbn [when].
  - rewrite bind_run. unfold on_log. destruct (log_TruncateTo _ _) as [? ?]. cbn. lia.
  - cbn. lia.
Qed.

(** Local operations: as a leader before or after, unless a snapshot cut the log. *)
Lemma run_local_led op (s : node) : r_snapshotIndex (run_local op s) = r_snapshotIndex s →
  led (in_office (run_local op s)) (in_office (run_local op s)) s (run_local op s)
  ∨ led (in_office s) (in_office s) s (run_local op s).
Proof.
  intros Hidx. destruct op; simpl in *.
  all: try (right; apply hush_led; match goal with |- hush ?r (?m ?r).2 =>
    let Hm := fresh in assert (moves hush m) as Hm by (auto using hush_Enable with moves); apply Hm end).
  - destruct (Tick_led s) as [?|Ht]; [by left|right]. eapply led_weaken; [| |exact Ht]; [intros ? []|done].
  - destruct (TakeSnapshot_finish_state sn s) as [-> |]; [|done]. by right; apply hush_led.
  - right. apply HandlePropose_led.
Qed.

(** ** Taking over entries *)

(** The log is as before, or took entries of a request of the term the node is in. *)
Record took (t prev prevT : Z) (es : list LogEntry) (s s' : node) : Prop := {
  tk_index : r_snapshotIndex s' = r_snapshotIndex s;
  tk_id : r_id s' = r_id s;
  tk_tasks k u : r_tasks s' !! k = Some u → carries u = true → r_tasks s !! k = Some u;
  tk_log : log_base (r_log s') = log_base (r_log s) ∧ log_items (r_log s') = log_items (r_log s)
    ∨ es ≠ [] ∧ term_of s <= t <= term_of s' ∧ prev_matches s prev prevT
      ∧ prev <= log_last (r_log s) ∧ ∃ i j, appended (r_log s) prev es (r_log s') i j
}.

Lemma hush_took t prev prevT es s s' : hush s s' → took t prev prevT es s s'.
Proof. intros [A1 A2 A3 A4 A5]. split; auto. Qed.

(** A quiet beginning, in a term not after the request's. *)
Lemma kept_took_trans t prev prevT es s s1 s' : term_of s <= t →
  hush s s1 → log_kept s s1 → took t prev prevT es s1 s' → took t prev prevT es s s'.
Proof.
  intros Ht [A1 A2 A3 A4 A5] [K1 K2 K3] [B1 B2 B3 B4]. split; [congruence..|auto|].
  destruct B4 as [[B4 B5]|(? & ? & Hp & B4 & B5)]; [left; split; congruence|right].
  unfold prev_matches in *. rewrite K1 in B4, B5. rewrite K1, K2, K3 in Hp. split_and!; [done|lia..|done|done|done].
Qed.

(** What a request must be for its entries to be taken. *)
Definition sendable (log : L) (prev : Z) (es : list LogEntry) : Prop :=
  decodable log ∧ (es ≠ [] → 0 <= prev ∧ log_base log <= prev ∧ prev + Z.of_nat (length es) < u64_max).

Lemma sendable_kept (s s1 : node) prev es : log_kept s s1 → sendable (r_log s) prev es → sendable (r_log s1) prev es.
Proof. intros [K _ _]. by rewrite K. Qed.

(** The rest of the handler once the request is for the current term. *)
Lemma take_entries_took ldr prev prevT es c (s : node) :
  sendable (r_log s) prev es → prev_matches s prev prevT → prev <= log_last (r_log s) →
  took (term_of s) prev prevT es s ((SetLeaderId ldr;; FollowerRole__appendEntries prev es;;
    setCommitIndex c;; FollowerRole__applyToFiniteStateMachine;;
    mret (mkAppendReply (term_of s) true 0 0)) s).2.
Proof.
  intros Hs Hp Hl. rewrite bind_run.
  pose proof (frame_SetLeaderId hush ldr s) as A1. pose proof (frame_SetLeaderId log_kept ldr s) as K1.
  pose proof (ok_term _ _ (frame_SetLeaderId office_kept ldr s)) as T1.
  destruct (SetLeaderId ldr s) as [[[]| |] s1]; cbn [fst snd] in *; [|by apply hush_took..].
  eapply (kept_took_trans _ _ _ _ s s1); [done..|]. rewrite <- T1.
  apply (sendable_kept s s1) in Hs; [|done]. destruct K1 as [K1 K2 K3].
  assert (prev_matches s1 prev prevT) as Hp1 by (unfold prev_matches in *; by rewrite K1, K2, K3).
  rewrite <- K1 in Hl. clear Hp K1 K2 K3 A1 T1. set (cur := term_of s1).
  set (rest := λ _ : unit, _ : M AppendReply).
  assert (moves hush (rest tt)) as Rh by (unfold rest; moves_auto).
  assert (moves office_kept (rest tt)) as Ro by (unfold rest; moves_auto).
  assert (moves log_kept (rest tt)) as Rk by (unfold rest; moves_auto).
  destruct es as [|e0 es0] eqn:Hes; [apply hush_took, Rh|]. rewrite <- Hes in *.
  destruct Hs as [Hdec Hsz]. destruct Hsz as (Hpos & Hb & Hsz); [by rewrite Hes|].
  rewrite bind_run. unfold FollowerRole__appendEntries. rewrite u64_small by (unfold is_u64, u64_max in *; lia).
  destruct (appendEntries_from_run es prev s1) as (l' & i & j & Hrun & Happ); [done|lia|done|].
  rewrite Hrun. set (s2 := set_r_log l' s1). specialize (Rh s2). specialize (Ro s2). specialize (Rk s2).
  destruct Rh as [_ _ R3 R4 R5]. split; [done|done|auto|]. right. split; [by rewrite Hes|].
  rewrite (ok_term _ _ Ro), (lk_log _ _ Rk). split_and!; try done; cbn; [unfold cur; lia..|]. eauto.
Qed.

Lemma follower_took n t ldr prev prevT es c : ∀ a (s : node), sendable (r_log s) prev es →
  took t prev prevT es s (FollowerRole__HandleAppendEntries n a t ldr prev prevT es c s).2.
Proof.
  induction n as [|n IH]; intros a s Hs; cbn [FollowerRole__HandleAppendEntries]; [by apply hush_took|].
  rewrite bind_run, GetCurrentTerm_run. destruct (Z.ltb_spec t (term_of s)); [by apply hush_took|].
  destruct (Z.ltb_spec (term_of s) t).
  { rewrite bind_run. pose proof (hush_becomeFollower t s) as A. pose proof (log_kept_becomeFollower t s) as K.
    destruct (becomeFollower t s) as [[f| |] s1]; cbn [fst snd] in *; [|by apply hush_took..].
    eapply kept_took_trans; [lia|done|done|]. apply IH. by eapply sendable_kept. }
  assert (t = term_of s) as -> by lia. rewrite bind_run.
  pose proof (frame_resetElectionTimer hush a s) as A. pose proof (frame_resetElectionTimer log_kept a s) as K.
  pose proof (ok_term _ _ (frame_resetElectionTimer office_kept a s)) as T.
  destruct (resetElectionTimer a s) as [[[]| |] s1]; cbn [fst snd] in *; [|by apply hush_took..].
  eapply (kept_took_trans _ _ _ _ s s1); [lia|done|done|]. rewrite bind_run. cbn [gets].
  rewrite log_last_spec. cbn [fst]. destruct (Z.ltb_spec (log_last (r_log s1)) prev); [by apply hush_took|].
  rewrite bind_run. cbn [gets]. destruct (checkLogConsistency prev prevT s1) as [[ok ci] ct] eqn:Eck.
  destruct ok; cbn [negb]; [|by apply hush_took]. rewrite <- T. apply take_entries_took; [by eapply sendable_kept| |done].
  pose proof (proj1 (checkLogConsistency_ok s1 prev prevT)) as Hck. rewrite Eck in Hck.
  specialize (Hck eq_refl). unfold prev_matches. tauto.
Qed.

Lemma become_took n t ldr prev prevT es c (s : node) : term_of s <= t → sendable (r_log s) prev es →
  took t prev prevT es s ((f ← becomeFollower t;
    FollowerRole__HandleAppendEntries n f t ldr prev prevT es c) s).2.
Proof.
  intros Ht Hs. rewrite bind_run. pose proof (hush_becomeFollower t s) as A. pose proof (log_kept_becomeFollower t s) as K.
  destruct (becomeFollower t s) as [[f| |] s1]; cbn [fst snd] in *; [|by apply hush_took..].
  eapply kept_took_trans; [done..|]. apply follower_took. by eapply sendable_kept.
Qed.

Lemma HandleAppendEntries_took n t ldr prev prevT es c (s : node) : sendable (r_log s) prev es →
  took t prev prevT es s (Raft__HandleAppendEntries n t ldr prev prevT es c s).2.
Proof.
  intros Hs. unfold Raft__HandleAppendEntries, if_enabled. rewrite bind_run. cbn [gets].
  destruct (r_enabled s); cbn [negb].
  2:{ rewrite bind_run, GetCurrentTerm_run. by apply hush_took. }
  unfold current_role, read_role. rewrite !bind_run. cbn [gets].
  destruct (r_role s) as [a|]; [|by apply hush_took]. rewrite !bind_run. cbn [gets].
  destruct (r_roles s !! a) as [[f|k|l]|]; cbn [mret GoM_ret]; [| | |by apply hush_took].
  - by apply follower_took.
  - unfold CandidateRole__HandleAppendEntries. rewrite bind_run, GetCurrentTerm_run.
    destruct (Z.ltb_spec t (term_of s)); [by apply hush_took|by apply become_took].
  - unfold LeaderRole__HandleAppendEntries. rewrite bind_run, GetCurrentTerm_run, bind_run. cbn [gets].
    destruct (Z.ltb_spec t (term_of s)); [by apply hush_took|].
    destruct (_ && _); [by apply hush_took|by apply become_took].
Qed.

(** ** Replies and starting *)
Lemma conclude_led t sn reply (s : node) :
  (∀ a m T id, t ≠ GoSendInstallSnapshot a m T id) →
  (∀ a m T id i j es c, t = GoSendAppendEntries a m T id i j es c → m ≠ r_id s) →
  let s' := (conclude t sn reply s).2 in
  led (in_office s') (in_office s') s s'
  ∨ ∃ a m T id i j es c, t = GoSendAppendEntries a m T id i j es c ∧ led nothing (λ U, U = T) s s'.
Proof.
  intros Hno Hpeer. cbv zeta.
  destruct t as [a v T id i j|a v T id i j|a v T id i j es ci|a v T id|a]; [| | |by destruct (Hno a v T id)|].
  - left. destruct reply; try (by apply hush_led). apply sendPreVote_led.
  - left. destruct reply; try (by apply hush_led). apply sendRequestVote_led.
  - destruct reply as [| |ar|]; try (left; by apply hush_led). right.
    exists a, v, T, id, i, j, es, ci. split; [done|]. cbn [conclude].
    assert (moves (sends (r_id s) (λ U, U = T))
      (sendAppendEntries_done a v T i es (decode_append ar) : M unit)) as Hm; [|by apply Hm].
    pose proof (sends_retry (r_id s) (λ U, U = T) a v T eq_refl (Hpeer _ _ _ _ _ _ _ _ eq_refl)).
    assert (∀ u, moves (sends (r_id s) (λ U, U = T)) (becomeFollower u : M nat)) as Hb.
    { intros u s1 _. apply hush_led, hush_becomeFollower. }
    unfold sendAppendEntries_done, LeaderRole__sendAppendEntriesToNode_reply. moves_auto.
  - left. by apply hush_led.
Qed.

(** A new node holds its log and has sent nothing. *)
Record dormant (s s' : node) : Prop := {
  do_log : r_log s' = r_log s;
  do_tasks k t : r_tasks s' !! k = Some t → carries t = true → r_tasks s !! k = Some t
}.

#[global] Instance dormant_preorder : PreOrder dormant.
Proof. split; [by split|]. intros x y z [A1 A2] [B1 B2]. split; [congruence|auto]. Qed.

#[global] Instance dormant_quiet : Quiet dormant.
Proof.
  split; [split; [apply _|..]|..]; intros; try (by split).
  - match goal with Hv : same_view _ _ |- _ => destruct Hv as [Hc El _ _] end.
    split; [done|]. intros k t. by rewrite (core_tasks _ _ Hc).
  - split; [done|]. apply hush_spawn_node. by destruct t.
Qed.

Lemma NewRaft_quiet id dir nodes log st fs fsm cfg rng n :
  let s := (NewRaft id dir nodes log st fs fsm cfg rng n).2 : node in
  r_log s = log ∧ ∀ k t, r_tasks s !! k = Some t → carries t = false.
Proof.
  assert (∀ t, moves dormant (becomeFollower t : M nat)) as Hb.
  { intros t s. split; [apply (log_kept_becomeFollower t s)|apply (hush_becomeFollower t s)]. }
  assert (moves dormant (NewRaft_restore : M unit)) as Hr.
  { intros s. unfold NewRaft_restore. apply (moves_at_gets dormant), (moves_at_bind dormant);
      [apply (frame_on_files dormant), LoadSnapshot_keeps|intros x].
    assert (∀ i, moves dormant (modify (set_r_snapshotIndex i) : M unit)) by (intros i; apply moves_modify; by split).
    assert (∀ i, moves dormant (modify (set_r_snapshotTerm i) : M unit)) by (intros i; apply moves_modify; by split).
    moves_auto. }
  assert (moves dormant (NewRaft_restore;; NewRaft_replay;; _ ← becomeFollower 0; mret tt : M unit)) as Hm by moves_auto.
  cbv zeta. unfold NewRaft. destruct (Hm (blank_node id dir nodes log st fs fsm cfg rng n)) as [El Et].
  split; [exact El|]. intros k t Hk. destruct (carries t) eqn:Ht; [|done]. apply (Et k t Hk) in Ht.
  cbn in Ht. by rewrite lookup_empty in Ht.
Qed.
End history.
