(* ===== verification/LogMatching.v ===== *)
(** * Log matching

    If two nodes ever hold an entry of the same term at the same index, their
    logs are the same, byte for byte, up to that index: over all runs of the
    cluster in which logs survive restarts, no snapshot cuts them, and JSON leaves
    the entries that are sent as they are ([intact]: their client identifiers are
    valid UTF-8).  [Server.proposal_changed_in_transit] is what happens to others.

    The proof keeps a history [H] of what was ever written: [H !! (i, T)] is the
    log up to index [i] of the leader of term [T] when it wrote that entry.  A log
    is [valid] when each of its prefixes is the one the history has for its last
    entry; a leader of a term still holds all it wrote in that term, so it never
    writes the same index twice. *)
From S2P Require Import Prelude GoMonad FileSystem LogEntry Store Snapshot Session Config GoLog Log Fsm Node Roles Follower Leader Candidate Raft Demo Frame Election Campaign Json Cluster ElectionSafety Persistence Replication Matching History.
Local Open Scope Z_scope.

Abbreviation history := (gmap (nat * Z) (list bytes)).

(** ** Valid logs *)
Definition valid (H : history) (items : list bytes) : Prop :=
  ∀ i d, items !! i = Some d →
    ∃ e, DeserializeLogEntry d = inr e ∧ H !! (S i, Term e) = Some (take (S i) items).

Lemma valid_mono H H' items : H ⊆ H' → valid H items → valid H' items.
Proof.
  intros Hs Hv i d Hd. destruct (Hv i d Hd) as (e & He & HH). exists e. split; [done|].
  by eapply lookup_weaken.
Qed.

Lemma valid_take H items n : valid H items → valid H (take n items).
Proof.
  intros Hv i d Hd. apply lookup_take_Some in Hd as [Hd Hi]. destruct (Hv i d Hd) as (e & He & HH).
  exists e. split; [done|]. rewrite HH. f_equal. rewrite take_take. f_equal. lia.
Qed.

Lemma valid_nil H : valid H [].
Proof. intros i d Hd. by rewrite lookup_nil in Hd. Qed.

Lemma valid_snoc H items d e : valid H items → DeserializeLogEntry d = inr e →
  H !! (S (length items), Term e) = Some (items ++ [d]) → valid H (items ++ [d]).
Proof.
  intros Hv He HH i d' Hd. destruct (decide (i < length items)%nat) as [Hlt|Hge].
  - rewrite lookup_app_l in Hd by done. destruct (Hv i d' Hd) as (e' & He' & Hi). exists e'. split; [done|].
    rewrite Hi, take_app_le by lia. done.
  - rewrite lookup_app_r in Hd by lia. apply list_lookup_singleton_Some in Hd as [Hi <-].
    assert (i = length items) as -> by lia. exists e. split; [done|].
    rewrite HH, take_ge; [done|]. rewrite length_app. cbn. lia.
Qed.

(** The same term at the same place: the same prefix. *)
Lemma valid_agree H p q i e e' : valid H p → valid H q →
  entry_in p i = Some e → entry_in q i = Some e' → Term e = Term e' → take (S i) p = take (S i) q.
Proof.
  intros Hp Hq He He' Ht. unfold entry_in in *.
  destruct (p !! i) as [d|] eqn:Hd; [|done]. destruct (q !! i) as [d'|] eqn:Hd'; [|done]. cbn in *.
  destruct (Hp i d Hd) as (f & Hf & HH). destruct (Hq i d' Hd') as (f' & Hf' & HH').
  rewrite Hf in He. rewrite Hf' in He'. injection He as ->. injection He' as ->. congruence.
Qed.

Lemma entry_in_lookup items i e : entry_in items i = Some e → items !! i = Some (Serialize e).
Proof.
  unfold entry_in. destruct (items !! i) as [d|]; [|done]. cbn.
  destruct (DeserializeLogEntry d) as [|e'] eqn:E; [done|]. intros [= ->].
  by rewrite (Serialize_Deserialize d e E).
Qed.

Lemma entry_in_Term_u64 items i e : entry_in items i = Some e → is_u64 (Term e).
Proof.
  unfold entry_in. destruct (items !! i) as [d|]; [|done]. cbn.
  destruct (DeserializeLogEntry d) as [|e'] eqn:E; [done|]. intros [= ->].
  by eapply DeserializeLogEntry_Term_u64.
Qed.

Lemma valid_decodable {L} `{GoLogLaws L} Hi (l : L) : valid Hi (log_items l) → decodable l.
Proof.
  intros Hv d Hd. apply list_elem_of_lookup in Hd as [i Hd]. destruct (Hv i d Hd) as (e & He & _). by exists e.
Qed.

Lemma payload_length items prev prevT es : payload items prev prevT es → es ≠ [] →
  0 <= prev ∧ (Z.to_nat prev + length es <= length items)%nat.
Proof.
  intros [->|(Hp & _ & Hes)] Hne; [done|]. split; [done|].
  destruct (lookup_lt_is_Some_2 es (length es - 1)) as [e He]; [destruct es; [done|cbn; lia]|].
  apply Hes, entry_in_lookup, lookup_lt_Some in He. destruct es; [done|cbn in *; lia].
Qed.

(** ** Entries taken from a request *)
Section taken.
Context {L : Type} `{GoLogLaws L}.

(** The log and the log the request was cut from agree up to the last entry that
    was already there. *)
Lemma taken_common Hi (l : L) p prev prevT es i :
  log_base l = 0 → valid Hi (log_items l) → valid Hi p → payload p prev prevT es → es ≠ [] →
  (prev = 0 ∨ term_at l prev = Some prevT) →
  (∀ k e, (k < i)%nat → es !! k = Some e → term_at l (prev + 1 + Z.of_nat k) = Some (Term e)) →
  (i <= length es)%nat →
  take (Z.to_nat prev + i) (log_items l) = take (Z.to_nat prev + i) p.
Proof.
  intros Hb Hl Hp [->|(Hpos & Hprev & Hes)] Hne Hm Hmatch Hle; [done|].
  destruct i as [|i].
  - rewrite Nat.add_0_r. destruct (decide (prev = 0)) as [->|Hn]; [done|].
    destruct Hm as [?|Hm]; [done|]. destruct Hprev as [?|(e & He & Ht)]; [done|].
    rewrite term_at_entry_at, entry_at_in in Hm by (done || lia).
    destruct (entry_in (log_items l) (Z.to_nat prev - 1)) as [e'|] eqn:He'; [|done]. injection Hm as Hm.
    replace (Z.to_nat prev) with (S (Z.to_nat prev - 1)) by lia.
    eapply valid_agree; [done|done|exact He'|exact He|congruence].
  - destruct (lookup_lt_is_Some_2 es i) as [e He]; [lia|].
    specialize (Hmatch i e ltac:(lia) He). rewrite term_at_entry_at, entry_at_in in Hmatch by (done || lia).
    replace (Z.to_nat (prev + 1 + Z.of_nat i) - 1)%nat with (Z.to_nat prev + i)%nat in Hmatch by lia.
    destruct (entry_in (log_items l) (Z.to_nat prev + i)) as [e'|] eqn:He'; [|done]. injection Hmatch as Hm'.
    replace (Z.to_nat prev + S i)%nat with (S (Z.to_nat prev + i)) by lia.
    eapply valid_agree; [done|done|exact He'|by apply Hes|congruence].
Qed.

(** So the log becomes a prefix of that log, or stays. *)
Lemma taken_prefix Hi (l l' : L) p prev prevT es i j :
  log_base l = 0 → valid Hi (log_items l) → valid Hi p → payload p prev prevT es → es ≠ [] →
  (prev = 0 ∨ term_at l prev = Some prevT) → appended l prev es l' i j →
  log_items l' = log_items l ∨ ∃ n, log_items l' = take n p.
Proof.
  intros Hb Hl Hp Hpay Hne Hm [Hle Hb' Hmatch Hshape _].
  destruct Hshape as [[Hs _]|[_ Hs]]; [by left|right].
  pose proof (taken_common Hi l p prev prevT es i Hb Hl Hp Hpay Hne Hm Hmatch ltac:(lia)) as Hc.
  destruct (payload_length _ _ _ _ Hpay Hne) as [Hpos Hlen].
  destruct Hpay as [->|(_ & _ & Hes)]; [done|]. exists (Z.to_nat prev + i + j)%nat.
  rewrite Hs, Hb. replace (Z.to_nat (prev + Z.of_nat i - 0)) with (Z.to_nat prev + i)%nat by lia.
  rewrite Hc, <- (take_take_drop p (Z.to_nat prev + i) j). f_equal.
  apply list_eq. intros k. rewrite list_lookup_fmap. destruct (decide (k < j)%nat) as [Hk|Hk].
  - rewrite !lookup_take_lt, !lookup_drop by done.
    destruct (lookup_lt_is_Some_2 es (i + k)) as [e He]; [lia|]. rewrite He. cbn.
    apply Hes, entry_in_lookup in He. rewrite <- He. f_equal. lia.
  - by rewrite !lookup_take_ge by lia.
Qed.
End taken.

(** ** The cluster *)
Section matching.
Context {L F : Type} `{GoLogLaws L} `{FSM F}.
Abbreviation node := (Raft L F).
Abbreviation slot := (Slot (L := L) (F := F)).
Abbreviation cluster := (Cluster (L := L) (F := F)).
Context (nodes : list string) (dataDir : string → string).

(** What a goroutine or a request of node [n] may carry. *)
Definition task_ok (V : votes) (H : history) (n : string) (t : Task) : Prop :=
  match t with
  | GoSendAppendEntries _ m T _ prev prevT es _ =>
      elected V nodes T n ∧ is_u64 T ∧ m ≠ n
      ∧ ∃ p, valid H p ∧ Z.of_nat (length p) < u64_max ∧ payload p prev prevT es
  | GoSendInstallSnapshot _ _ _ _ => False
  | _ => True
  end.

(** The writer of [p] in term [T] still has it while it is in that term. *)
Definition holds_written (n : string) (x : slot) (T : Z) (p : list bytes) : Prop :=
  ∃ t v, slot_holds dataDir n x t v ∧ T <= t ∧ (t = T → p `prefix_of` log_items (slot_log x)).

Record history_ok (V : votes) (H : history) (c : cluster) : Prop := {
  ho_written i T p : H !! (i, T) = Some p →
    length p = i ∧ valid H p
    ∧ ∃ n, elected V nodes T n ∧ ∀ x, cl_slots c !! n = Some x → holds_written n x T p;
  ho_base n x : cl_slots c !! n = Some x → log_base (slot_log x) = 0;
  ho_valid n x : cl_slots c !! n = Some x → valid H (log_items (slot_log x));
  ho_index n r : cl_slots c !! n = Some (Up r) → r_snapshotIndex r = 0;
  ho_tasks n r k t : cl_slots c !! n = Some (Up r) → r_tasks r !! k = Some t → task_ok V H n t;
  ho_net n k t sn : Request n k t sn ∈ cl_net c → task_ok V H n t
}.

(** Runs in which a log survives a restart, no snapshot is taken, no index
    reaches the top, and entries are not changed on their way. *)
Definition logs_survive (c c' : cluster) : Prop :=
  ∀ n fs log next y, cl_slots c !! n = Some (Down fs log next) → cl_slots c' !! n = Some y →
    log_base (slot_log y) = log_base log ∧ log_items (slot_log y) = log_items log.

Definition uncut (c : cluster) : Prop :=
  ∀ n x, cl_slots c !! n = Some x → log_last (slot_log x) < u64_max
    ∧ match x with Up r => r_snapshotIndex r = 0 | Down _ _ _ => True end.

(** The entries sent are such that JSON does not change them. *)
Definition task_intact (t : Task) : Prop :=
  match t with GoSendAppendEntries _ _ _ _ _ _ es _ => Forall entry_intact es | _ => True end.

Definition intact (c : cluster) : Prop := ∀ n k t sn, Request n k t sn ∈ cl_net c → task_intact t.

Definition plain_step (c c' : cluster) : Prop :=
  step nodes dataDir c c' ∧ logs_survive c c' ∧ uncut c' ∧ intact c'.

Definition plain_initial (c : cluster) : Prop :=
  initial nodes dataDir c ∧ ∀ n x, cl_slots c !! n = Some x →
    log_base (slot_log x) = 0 ∧ log_items (slot_log x) = [].

Lemma task_ok_mono (V V' : votes) (G0 G1 : history) n t : V ⊆ V' → G0 ⊆ G1 → task_ok V G0 n t → task_ok V' G1 n t.
Proof.
  intros HV HH. destruct t; try done. intros (He & Hu & Hn & p & Hp & Hl & Hpay).
  split_and!; [by eapply elected_grow|done|done|]. exists p. split_and!; try done. by eapply valid_mono.
Qed.

(** What a node [n] must be after its step; [p] stays written. *)
Record node_ok (V : votes) (G0 G1 : history) (n : string) (x y : slot) : Prop := {
  no_sub : G0 ⊆ G1;
  no_new i T p : G1 !! (i, T) = Some p → G0 !! (i, T) = Some p ∨
    length p = i ∧ valid G1 p ∧ elected V nodes T n ∧ holds_written n y T p;
  no_old T p : elected V nodes T n → holds_written n x T p → holds_written n y T p;
  no_base : log_base (slot_log y) = 0;
  no_valid : valid G1 (log_items (slot_log y));
  no_up r k t : y = Up r → r_tasks r !! k = Some t → task_ok V G1 n t
}.

Lemma node_ok_update (V V' : votes) (G0 G1 : history) c n x y ps :
  history_ok V G0 c → V ⊆ V' → cl_slots c !! n = Some x → node_ok V' G0 G1 n x y →
  (∀ r, y = Up r → r_snapshotIndex r = 0) →
  (∀ m k t sn, Request m k t sn ∈ ps → task_ok V' G1 m t) →
  history_ok V' G1 (send ps (set_slot n y c)).
Proof.
  intros [W B D I T N] HV Hx [Hs Hnew Hold Hb Hv Ht] Hi Hps.
  assert (∀ m z, cl_slots (send ps (set_slot n y c)) !! m = Some z →
    m = n ∧ z = y ∨ m ≠ n ∧ cl_slots c !! m = Some z) as Hslot.
  { intros m z. simpl. destruct (decide (n = m)) as [<-|Hne].
    - rewrite lookup_insert_eq. intros [= <-]. by left.
    - rewrite lookup_insert_ne by done. by right. }
  split.
  - intros i U p [Hp|(Hl & Hvp & He & Hw)]%Hnew.
    + destruct (W i U p Hp) as (Hl & Hvp & m & He & Hw). split_and!; [done|by eapply valid_mono|].
      exists m. split; [by eapply elected_grow|]. intros z [[-> ->]|[Hne Hz]]%Hslot; [|by apply Hw].
      apply Hold; [by eapply elected_grow|by apply Hw].
    + split_and!; try done. exists n. split; [done|]. intros z [[_ ->]|[? _]]%Hslot; done.
  - intros m z [[_ ->]|[_ Hz]]%Hslot; [done|by eapply B].
  - intros m z [[_ ->]|[_ Hz]]%Hslot; [done|]. eapply valid_mono; [done|by eapply D].
  - intros m r [[_ Hz]|[_ Hz]]%Hslot; [by apply Hi|by eapply I].
  - intros m r k t [[-> Hz]|[_ Hz]]%Hslot Hk; [by eapply Ht|].
    eapply task_ok_mono; [done|done|by eapply T].
  - intros m k t sn [Hp|Hp]%elem_of_app; [|by eapply Hps].
    eapply task_ok_mono; [done|done|by eapply N].
Qed.

Lemma node_ok_set (V V' : votes) (G0 G1 : history) c n x y :
  history_ok V G0 c → V ⊆ V' → cl_slots c !! n = Some x → node_ok V' G0 G1 n x y →
  (∀ r, y = Up r → r_snapshotIndex r = 0) → history_ok V' G1 (set_slot n y c).
Proof.
  intros Ho HV Hx Hn Hi. pose proof (node_ok_update V V' G0 G1 c n x y [] Ho HV Hx Hn Hi) as Hu.
  destruct c. unfold send, set_slot in *. simpl in *. rewrite app_nil_r in Hu. apply Hu.
  intros m k t sn Hin. by apply elem_of_nil in Hin.
Qed.

(** ** The terms slots hold *)
Lemma slot_holds_up V n (r : node) : slot_inv nodes dataDir V n (Up r) →
  slot_holds dataDir n (Up r) (term_of r) (vote_of r).
Proof. intros (_ & _ & _ & E & I). split_and!; [apply I|apply I|done..]. Qed.

(** From one slot to the next the term goes up, and the log must grow only while
    it stays. *)
Lemma holds_written_step n x y T p :
  slot_le dataDir n x y → holds_written n x T p →
  (∀ t v t' v', slot_holds dataDir n x t v → slot_holds dataDir n y t' v' → t = T → t' = T →
     p `prefix_of` log_items (slot_log x) → p `prefix_of` log_items (slot_log y)) →
  holds_written n y T p.
Proof.
  intros Hle (t & v & Hx & Ht & Hp) Hkeep. destruct (Hle t v Hx) as (t' & v' & Hy & Hpair).
  exists t', v'. split; [done|]. unfold pair_le in Hpair. split; [lia|]. intros ->.
  assert (t = T) as -> by lia. apply (Hkeep T v T v'); auto.
Qed.

Lemma holds_written_same n x y T p :
  slot_le dataDir n x y → log_items (slot_log y) = log_items (slot_log x) →
  holds_written n x T p → holds_written n y T p.
Proof. intros Hle Hi Hw. eapply holds_written_step; [done..|]. intros ???????. by rewrite Hi. Qed.

(** A slot whose log did not change, with goroutines that were there. *)
Lemma node_ok_same (V V0 : votes) (G0 : history) c n x y :
  history_ok V0 G0 c → V0 ⊆ V → cl_slots c !! n = Some x → slot_le dataDir n x y →
  log_base (slot_log y) = log_base (slot_log x) → log_items (slot_log y) = log_items (slot_log x) →
  (∀ r k t, y = Up r → r_tasks r !! k = Some t → task_ok V G0 n t) →
  node_ok V G0 G0 n x y.
Proof.
  intros Ho HV Hx Hle Hb Hi Ht. split; [done|by left| | | |done].
  - intros T p _. by apply holds_written_same.
  - rewrite Hb. by eapply ho_base.
  - rewrite Hi. by eapply ho_valid.
Qed.

(** ** A node that writes and sends as a leader *)
Section led_step.
Context (V V' : votes) (G0 : history) (c : cluster) (n : string) (r r' : node) (W P : Z → Prop).
Context (Hok : history_ok V G0 c) (HV : V ⊆ V') (Hr : cl_slots c !! n = Some (Up r)).
Context (Hinv : slot_inv nodes dataDir V n (Up r)) (Hinv' : slot_inv nodes dataDir V' n (Up r')).
Context (Hle : slot_le dataDir n (Up r) (Up r')) (Hterm : term_of r <= term_of r').
Context (Hled : led W P r r') (Hlast : log_last (r_log r') < u64_max).
Context (HW : ∀ T, W T → elected V' nodes T n ∧ (T = term_of r ∨ T = term_of r')).
Context (HP : ∀ T, P T → elected V' nodes T n ∧ is_u64 T).

Lemma led_base_0 : log_base (r_log r') = 0.
Proof. rewrite (led_base _ _ _ _ Hled). by apply (ho_base _ _ _ Hok n (Up r)). Qed.

Lemma led_tasks_ok G1 k t : G0 ⊆ G1 → valid G1 (log_items (r_log r')) →
  r_tasks r' !! k = Some t → task_ok V' G1 n t.
Proof.
  intros HG Hv Hk. destruct (carries t) eqn:Ht; [|by destruct t].
  destruct (led_tasks _ _ _ _ Hled k t Hk Ht) as [Hold|Hf].
  - eapply task_ok_mono; [done|done|]. by eapply ho_tasks.
  - pose proof (ho_index _ _ _ Hok n r Hr) as Hi. rewrite <- (led_index _ _ _ _ Hled) in Hi.
    destruct t; try done; cbn in Hf; [|lia]. destruct Hf as (HT & Hne & Hpay).
    destruct (HP _ HT). destruct Hinv' as [Hid _]. split_and!; [done|done|congruence|].
    exists (log_items (r_log r')). pose proof led_base_0 as Hb. split_and!; [done| |].
    + unfold log_last in Hlast. lia.
    + apply Hpay; [done|]. split_and!; [done|by eapply valid_decodable|done].
Qed.

(** A new index is new to the history. *)
Lemma led_unwritten T : W T → G0 !! (S (length (log_items (r_log r))), T) = None.
Proof.
  intros HT. destruct (G0 !! _) as [p|] eqn:Hp; [exfalso|done].
  destruct (ho_written _ _ _ Hok _ _ _ Hp) as (Hl & _ & m & He & Hw).
  destruct (HW T HT) as [He' Hor]. assert (m = n) as ->.
  { eapply elected_unique; [by eapply elected_grow|done]. }
  destruct (Hw _ Hr) as (t & v & (_ & _ & Ht & _) & Hge & Hpre). fold (term_of r) in Ht.
  assert (t = T) as Heq by (destruct Hor; lia). specialize (Hpre Heq).
  apply prefix_length in Hpre. cbn in Hpre. lia.
Qed.

Lemma led_node_ok : ∃ G1, node_ok V' G0 G1 n (Up r) (Up r').
Proof.
  pose proof led_base_0 as Hb. destruct (led_items _ _ _ _ Hled) as [Hi|(e & HT & Hi)].
  - exists G0. eapply node_ok_same; try done; [apply Hled|].
    intros q k t [= <-]. apply led_tasks_ok; [done|]. rewrite Hi. by apply (ho_valid _ _ _ Hok n (Up r)).
  - pose proof (led_unwritten _ HT) as Hnew. set (i := S (length (log_items (r_log r)))) in *.
    set (G1 := <[(i, Term e) := log_items (r_log r')]> G0).
    assert (G0 ⊆ G1) as Hsub by (by apply insert_subseteq).
    destruct (HW _ HT) as [He Hor]. assert (is_u64 (Term e)) as Hu.
    { destruct Hor as [-> | ->]; [destruct Hinv as (_ & _ & _ & E & I)|destruct Hinv' as (_ & _ & _ & E & I)]; apply I. }
    assert (valid G1 (log_items (r_log r'))) as Hv.
    { rewrite Hi. destruct (DeserializeLogEntry_Term e Hu) as (e' & Hd & Ht).
      eapply valid_snoc; [eapply valid_mono; [exact Hsub|by apply (ho_valid _ _ _ Hok n (Up r))]|exact Hd|].
      rewrite Ht. unfold G1. rewrite lookup_insert_eq. by rewrite Hi. }
    exists G1. split; try done.
    + intros j T p. unfold G1. destruct (decide ((i, Term e) = (j, T))) as [[= <- <-]|Hne].
      * rewrite lookup_insert_eq. intros [= <-]. right. split_and!; [|done|done|].
        { rewrite Hi, length_app. unfold i. cbn. lia. }
        exists (term_of r'), (vote_of r'). split_and!; [by eapply slot_holds_up|destruct Hor; lia|done].
      * rewrite lookup_insert_ne by done. by left.
    + intros T p _ Hw. eapply holds_written_step; [done|exact Hw|]. cbn. intros t v t' v' _ _ _ _ Hp.
      rewrite Hi. by apply prefix_app_r.
    + intros q k t [= <-]. by apply led_tasks_ok.
Qed.
End led_step.

(** ** A node that takes entries over *)
Lemma took_node_ok (V V' : votes) (G0 : history) c m n r r' T prev prevT es :
  history_ok V G0 c → V ⊆ V' → cl_slots c !! n = Some (Up r) →
  slot_le dataDir n (Up r) (Up r') → elected V nodes T m → m ≠ n →
  (∃ p, valid G0 p ∧ payload p prev prevT es) →
  took T prev prevT es r r' → node_ok V' G0 G0 n (Up r) (Up r').
Proof.
  intros Hok HV Hr Hle He Hmn (p & Hp & Hpay) [Ki Kid Kt Kl].
  assert (∀ q k t, Up r' = Up q → r_tasks q !! k = Some t → task_ok V' G0 n t) as Htask.
  { intros q k t [= <-] Hk. destruct (carries t) eqn:Ht; [|by destruct t].
    eapply task_ok_mono; [done|done|]. eapply ho_tasks; [done|done|]. by eapply Kt. }
  destruct Kl as [[Hb Hi]|(Hne & Ht & Hm & Hl & i & j & Hap)]; [by eapply node_ok_same|].
  pose proof (ho_base _ _ _ Hok n _ Hr) as Hb. pose proof (ho_valid _ _ _ Hok n _ Hr) as Hv. cbn in Hb, Hv.
  destruct (payload_length _ _ _ _ Hpay Hne) as [Hpos _].
  assert (log_items (r_log r') = log_items (r_log r) ∨ ∃ k, log_items (r_log r') = take k p) as Hshape.
  { eapply taken_prefix; try done. destruct Hm as [?|[[Hx _]|?]]; [by left| |by right].
    left. rewrite Hx. by eapply ho_index. }
  split; [done|by left| | | |done].
  - intros U q HeU Hw. eapply holds_written_step; [done|exact Hw|].
    intros t v t' v' (_ & _ & Htt & _) (_ & _ & Htt' & _) -> -> Hq. exfalso.
    assert (T = U) as -> by (unfold term_of in *; lia).
    apply Hmn. eapply elected_unique; [by eapply elected_grow|done].
  - cbn. by rewrite (ap_base _ _ _ _ _ _ Hap).
  - cbn. destruct Hshape as [-> |[k ->]]; [done|]. by apply valid_take.
Qed.

Lemma node_ok_stop (V V1 : votes) (G0 G1 : history) n x r : slot_inv nodes dataDir V1 n (Up r) →
  node_ok V G0 G1 n x (Up r) → node_ok V G0 G1 n x (stop r).
Proof.
  intros Hinv [Hs Hnew Hold Hb Hv Ht].
  assert (∀ T p, holds_written n (Up r) T p → holds_written n (stop r) T p) as Hstop.
  { intros T p. apply holds_written_same; [by eapply slot_le_stop|done]. }
  split; try done.
  - intros i T p Hp. destruct (Hnew i T p Hp) as [?|(? & ? & ? & ?)]; [by left|right]. auto.
  - auto.
Qed.

(** ** Every step of the cluster *)
Lemma hush_node_ok (V V' : votes) (G0 : history) c n r r' :
  history_ok V G0 c → V ⊆ V' → cl_slots c !! n = Some (Up r) →
  slot_le dataDir n (Up r) (Up r') → hush r r' → node_ok V' G0 G0 n (Up r) (Up r').
Proof.
  intros Hok HV Hr Hle [Hb Hi _ _ Ht]. eapply node_ok_same; [done..|].
  intros q k t [= <-] Hk. destruct (carries t) eqn:Hc; [|by destruct t].
  eapply task_ok_mono; [done|done|]. eapply ho_tasks; [done|done|]. by apply Ht.
Qed.

Lemma in_office_elected V n (r : node) T : slot_inv nodes dataDir V n (Up r) → in_office r T →
  elected V nodes T n ∧ is_u64 T.
Proof.
  intros (<- & Hn & _ & E & I) [Hl ->]. split; [|apply I]. rewrite <- Hn. by apply (ei_leader _ _ _ I).
Qed.

Lemma history_ok_send (V V' : votes) (G0 : history) c ps :
  history_ok V G0 c → V ⊆ V' → (∀ m k t sn, Request m k t sn ∈ ps → task_ok V' G0 m t) →
  history_ok V' G0 (send ps c).
Proof.
  intros [W B D I T N] HV Hps. split; try done.
  - intros i U p Hp. destruct (W i U p Hp) as (? & ? & m & He & Hw). split_and!; try done.
    exists m. split; [by eapply elected_grow|done].
  - intros m r k t Hr Hk. eapply task_ok_mono; [done|done|by eapply T].
  - intros m k t sn [Hp|Hp]%elem_of_app; [|by eapply Hps]. eapply task_ok_mono; [done|done|by eapply N].
Qed.

(** A running node ends where a leader's code takes it. *)
Lemma led_step (V V' : votes) (G0 : history) c n (r r' : node) (W P : Z → Prop) :
  history_ok V G0 c → V ⊆ V' → cluster_inv nodes dataDir V c →
  cluster_inv nodes dataDir V' (set_slot n (Up r') c) → uncut (set_slot n (Up r') c) →
  cl_slots c !! n = Some (Up r) → slot_le dataDir n (Up r) (Up r') → led W P r r' →
  (∀ T, W T → in_office r T ∨ in_office r' T) →
  (∀ T, P T → in_office r T ∨ in_office r' T ∨ (elected V nodes T n ∧ is_u64 T)) →
  ∃ G1, G0 ⊆ G1 ∧ history_ok V' G1 (set_slot n (Up r') c).
Proof.
  intros Hok HV Hc Hc' Hcut Hr Hle Hled HW HP.
  assert (cl_slots (set_slot n (Up r') c) !! n = Some (Up r')) as Hr' by (simpl; by rewrite lookup_insert_eq).
  assert (slot_inv nodes dataDir V n (Up r)) as Hinv by (by apply Hc).
  assert (slot_inv nodes dataDir V' n (Up r')) as Hinv' by (by apply Hc').
  destruct (Hcut n _ Hr') as [Hlast Hidx].
  assert (term_of r <= term_of r') as Hterm.
  { destruct (Hle _ _ (slot_holds_up _ _ _ Hinv)) as (t & v & (_ & _ & Ht & _) & Hp).
    unfold pair_le, term_of in *. lia. }
  assert (∀ T, in_office r T ∨ in_office r' T → elected V' nodes T n ∧ is_u64 T) as Hoff.
  { intros T [Ho|Ho]; [|by eapply in_office_elected].
    eapply in_office_elected in Ho as [? ?]; [|done]. split; [by eapply elected_grow|done]. }
  destruct (led_node_ok V V' G0 c n r r' W P) as [G1 Hn]; try done.
  - intros T HT%HW. split; [by apply Hoff|]. destruct HT as [[_ ->]|[_ ->]]; auto.
  - intros T [?|[?|[? ?]]]%HP; [by apply Hoff; left|by apply Hoff; right|]. split; [by eapply elected_grow|done].
  - exists G1. split; [apply Hn|]. eapply node_ok_set; [done..|]. by intros q [= <-].
Qed.

(** What a request of the network is when it is served. *)
Lemma sendable_payload (V : votes) (G0 : history) c n r p prev prevT es :
  history_ok V G0 c → cl_slots c !! n = Some (Up r) → valid G0 p → Z.of_nat (length p) < u64_max →
  payload p prev prevT es →
  sendable (r_log r) (u64 prev) es ∧ payload p (u64 prev) (u64 prevT) es.
Proof.
  intros Hok Hr Hp Hl Hpay.
  assert (decodable (r_log r)) as Hdec by (eapply valid_decodable; by apply (ho_valid _ _ _ Hok n (Up r))).
  destruct (decide (es = [])) as [->|Hne]; [by split; [split|left]|].
  destruct (payload_length _ _ _ _ Hpay Hne) as [Hpos Hlen].
  assert (u64 prev = prev) as -> by (apply u64_small; unfold is_u64, u64_max in *; lia).
  split.
  - split; [done|]. intros _. pose proof (ho_base _ _ _ Hok n _ Hr) as Hb. cbn in Hb. split_and!; lia.
  - destruct Hpay as [?|(_ & Hprev & Hes)]; [by left|right]. split_and!; [done| |done].
    destruct Hprev as [?|(e & He & <-)]; [by left|right]. exists e. split; [done|].
    symmetry. apply u64_small. by eapply entry_in_Term_u64.
Qed.

Lemma serve_node_ok (V V' : votes) (G0 : history) c n k t sn m r fuel handler :
  history_ok V G0 c → V ⊆ V' → cl_slots c !! m = Some (Up r) → Request n k t sn ∈ cl_net c →
  task_node t = Some m → serve fuel t sn = Some handler → task_intact t →
  slot_le dataDir m (Up r) (Up (handler r).2) →
  node_ok V' G0 G0 m (Up r) (Up (handler r).2).
Proof.
  intros Hok HV Hr Hreq Hto Hs Hint Hle. pose proof (ho_net _ _ _ Hok _ _ _ _ Hreq) as Ht.
  destruct t as [a v T id i j|a v T id i j|a v T id i j es ci|a v T id|a]; simpl in Hs; try done.
  - injection Hs as <-. eapply hush_node_ok; [done..|]. rewrite as_reply_state.
    apply (frame_HandlePreVote hush).
  - injection Hs as <-. eapply hush_node_ok; [done..|]. rewrite as_reply_state.
    apply hush_HandleRequestVote.
  - cbn in Hint. rewrite (wired_intact es) in Hs by done.
    injection Hs as <-. destruct Ht as (He & Hu & Hne & p & Hp & Hl & Hpay). injection Hto as ->.
    destruct (sendable_payload V G0 c m r p i j es) as [Hsend Hpay']; [done..|].
    eapply (took_node_ok V V' G0 c n m r _ (u64 T) (u64 i) (u64 j) es); try done.
    + by rewrite u64_small.
    + by exists p.
    + rewrite as_reply_state. by apply HandleAppendEntries_took.
Qed.

(** The goroutine that a reply or a failed call ends. *)
Lemma conclude_history (V V' : votes) (G0 : history) c n r k t sn reply :
  history_ok V G0 c → V ⊆ V' → cluster_inv nodes dataDir V c →
  let r' := (conclude t sn reply (drop_task k r)).2 in
  cluster_inv nodes dataDir V' (set_slot n (Up r') c) → uncut (set_slot n (Up r') c) →
  cl_slots c !! n = Some (Up r) → r_tasks r !! k = Some t → slot_le dataDir n (Up r) (Up r') →
  ∃ G1, G0 ⊆ G1 ∧ history_ok V' G1 (set_slot n (Up r') c).
Proof.
  intros Hok HV Hc r' Hc' Hcut Hr Hk Hle.
  destruct (slot_up _ _ V c n r Hc Hr) as (_ & _ & Hid & _).
  pose proof (ho_tasks _ _ _ Hok _ _ _ _ Hr Hk) as Ht.
  assert (hush r (drop_task k r)) as Hd.
  { split; try done. cbn. intros j u. by intros [_ ?]%lookup_delete_Some. }
  destruct (conclude_led t sn reply (drop_task k r)) as [Hl|(a & m & T & id & i & j & es & ci & -> & Hl)].
  - intros a m T id ->. done.
  - intros a m T id i j es ci ->. destruct Ht as (_ & _ & ? & _). cbn. congruence.
  - fold r' in Hl. eapply led_step; [done..|eapply hush_led_trans; [exact Hd|exact Hl]| |]; auto.
  - fold r' in Hl. destruct Ht as (? & ? & _).
    eapply led_step; [done..|eapply hush_led_trans; [exact Hd|exact Hl]|intros U []|intros U ->; auto].
Qed.

Lemma step_history (V : votes) (G0 : history) c c' :
  membership_ok nodes → cluster_inv nodes dataDir V c → history_ok V G0 c → plain_step c c' →
  ∃ V' G1, V ⊆ V' ∧ G0 ⊆ G1 ∧ cluster_inv nodes dataDir V' c' ∧ history_ok V' G1 c'.
Proof.
  intros Hmo Hc Hok (Hstep & Hsurv & Hcut & Hint).
  destruct (step_inv nodes dataDir V c c' Hmo Hc Hstep) as (V' & HV & Hc').
  assert (∀ n x y, cl_slots c !! n = Some x → cl_slots c' !! n = Some y → slot_le dataDir n x y) as Hpair.
  { intros n x y Hx Hy. destruct (step_pair nodes dataDir V c c' n x Hmo Hc Hstep Hx) as (z & Hz & Hle).
    by assert (z = y) as -> by congruence. }
  cut (∃ G1, G0 ⊆ G1 ∧ history_ok V' G1 c'); [intros (G1 & ? & ?); by exists V', G1|].
  assert (∀ n y (c0 : cluster), cl_slots (set_slot n y c0) !! n = Some y) as Hset by (intros; simpl; by rewrite lookup_insert_eq).
  destruct Hstep as [c n fs old next fs0 fs1 st log fsm cfg rng res Hn Hin Hf Hh Hst Hres
    |c n r Hr|c n r op Hr Hmax|c n r k t Hr Hk Ht|c n r k a node term id sn r' Hr Hk Hrun
    |c n r k a node term id r' Hr Hk Hrun|c n k t sn m r fuel handler res Hreq Hto Hr Hs Hres
    |c n r k t sn reply Hrep Hr Hk Hmax|c n r k t sn Hr Hk Hmax].
  - exists G0. split; [done|]. set (y := match res.1 with Ret _ => _ | _ => _ end) in *.
    destruct (Hsurv n _ _ _ y Hn (Hset _ _ _)) as [Hb Hi].
    eapply node_ok_set; [done..|eapply node_ok_same; [done..|by apply Hpair|done|done|]|].
    + intros q k t Hy Hk. assert (q = res.2) as -> by (subst y; destruct res as [[] ?]; unfold stop in *; cbn in *; congruence).
      destruct (NewRaft_quiet n (dataDir n) nodes log st fs1 fsm cfg rng next) as [_ Hq]. rewrite Hres in Hq.
      specialize (Hq k t Hk). by destruct t.
    + intros q Hy. destruct (Hcut n y (Hset _ _ _)) as [_ Hidx]. by rewrite Hy in Hidx.
  - exists G0. split; [done|]. eapply node_ok_set; [done..|eapply node_ok_same; [done..|by apply Hpair|done|done|done]|done].
  - eapply led_step with (r' := run_local op r) (W := λ T, in_office r T ∨ in_office (run_local op r) T)
      (P := λ T, in_office r T ∨ in_office (run_local op r) T); try done; [by apply Hpair| |tauto].
    assert (r_snapshotIndex (run_local op r) = r_snapshotIndex r) as Hidx.
    { destruct (Hcut n (Up (run_local op r)) (Hset _ _ _)) as [_ ->]. symmetry. by eapply ho_index. }
    destruct (run_local_led op r Hidx) as [Hl|Hl]; eapply led_weaken; [..|exact Hl|idtac| |exact Hl]; auto.
  - exists G0. split; [done|]. eapply history_ok_send; [done|done|].
    intros m j u sn [= -> -> -> ->]%list_elem_of_singleton. eapply task_ok_mono; [done|done|by eapply ho_tasks].
  - by pose proof (ho_tasks _ _ _ Hok _ _ _ _ Hr Hk).
  - by pose proof (ho_tasks _ _ _ Hok _ _ _ _ Hr Hk).
  - exists G0. split; [done|]. destruct (slot_up _ _ V c m r Hc Hr) as (_ & Hsl & Hid & E & I). subst m res.
    pose proof (serve_to nodes V E fuel t sn handler r (membership_members nodes Hmo) I Hto
      (request_asks nodes V n k t sn (proj2 Hc _ Hreq)) Hs) as Hel.
    destruct (elect_to_slot nodes dataDir V (r_id r) r _ _ Hsl Hel) as (V1 & _ & Hinv1 & _).
    assert (slot_le dataDir (r_id r) (Up r) (Up (handler r).2)) as Hle by (eapply slot_le_moved; eauto).
    assert (task_intact t) as Ht by (apply (Hint n k t sn), elem_of_app; by left).
    pose proof (serve_node_ok V V' G0 c n k t sn (r_id r) r fuel handler Hok HV Hr Hreq Hto Hs Ht Hle) as Hn.
    eapply node_ok_update; [done|done|exact Hr| | |].
    + unfold settle. destruct (handler r) as [[| |] r']; cbn [fst snd] in *; [done|done|by eapply node_ok_stop].
    + intros q Hy. destruct (Hcut (r_id r) (settle (handler r)) (Hset _ _ _)) as [_ Hidx]. by rewrite Hy in Hidx.
    + intros m j u sn' Hp. destruct (handler r) as [[| |] r']; cbn in Hp; [|by apply elem_of_nil in Hp..].
      by apply list_elem_of_singleton in Hp.
  - eapply conclude_history; try done. by apply Hpair.
  - eapply conclude_history; try done. by apply Hpair.
Qed.

Lemma initial_history c : plain_initial c → history_ok ∅ ∅ c.
Proof.
  intros [[Hnet Hs] Hl]. assert (∀ n r, cl_slots c !! n ≠ Some (Up r)) as Hdown.
  { intros n r Hr. by destruct (Hs n _ Hr) as (_ & fs & log & next & ? & _). }
  split.
  - intros i T p Hp. by rewrite lookup_empty in Hp.
  - intros n x Hx. by apply (Hl n).
  - intros n x Hx. destruct (Hl n x Hx) as [_ ->]. apply valid_nil.
  - intros n r Hr. by apply Hdown in Hr.
  - intros n r k t Hr. by apply Hdown in Hr.
  - intros n k t sn Hp. rewrite Hnet in Hp. by apply elem_of_nil in Hp.
Qed.

Lemma steps_history (V : votes) (G0 : history) c c' :
  membership_ok nodes → cluster_inv nodes dataDir V c → history_ok V G0 c → rtc plain_step c c' →
  ∃ V' G1, V ⊆ V' ∧ G0 ⊆ G1 ∧ cluster_inv nodes dataDir V' c' ∧ history_ok V' G1 c'.
Proof.
  intros Hmo Hc Hok Hsteps. revert V G0 Hc Hok.
  induction Hsteps as [c|c c1 c2 Hs _ IH]; intros V G0 Hc Hok; [by exists V, G0|].
  destruct (step_history V G0 c c1 Hmo Hc Hok Hs) as (V1 & G1 & HV1 & HG1 & Hc1 & Hok1).
  destruct (IH V1 G1 Hc1 Hok1) as (V2 & G2 & HV2 & HG2 & Hc2 & Hok2).
  exists V2, G2. split_and!; try done; by etrans.
Qed.

Lemma valid_same_prefix Hi (l l' : L) i T k :
  valid Hi (log_items l) → valid Hi (log_items l') → log_base l = 0 → log_base l' = 0 →
  term_at l i = Some T → term_at l' i = Some T → k <= i → item_at l' k = item_at l k.
Proof.
  intros Hl Hl' Hb Hb' Ht Ht' Hk. rewrite term_at_entry_at in Ht, Ht'.
  destruct (entry_at l i) as [e|] eqn:He; [|done]. destruct (entry_at l' i) as [e'|] eqn:He'; [|done].
  injection Ht as Ht. injection Ht' as Ht'.
  assert (0 < i) as Hpos by (apply entry_at_range in He; lia).
  rewrite entry_at_in in He, He' by done.
  assert (take (S (Z.to_nat i - 1)) (log_items l') = take (S (Z.to_nat i - 1)) (log_items l)) as Heq.
  { eapply valid_agree; [done|done|exact He'|exact He|congruence]. }
  unfold item_at. rewrite Hb, Hb'. destruct (decide (0 < k)); [|done].
  assert (Z.to_nat (k - 0 - 1) < S (Z.to_nat i - 1))%nat as Hlt by lia.
  by rewrite <- (lookup_take_lt (log_items l') _ _ Hlt), Heq, lookup_take_lt.
Qed.
End matching.

(** C2: Log matching.  In every run of the cluster, of members
    whose names are valid UTF-8, from empty logs (messages
    lost, delayed, reordered and duplicated, failing file operations and log
    writes, nodes stopping and starting again with the log they had), provided that
    no node cuts its log by a snapshot, no index reaches 2^64 - 1 and every entry
    sent has a client identifier that is valid UTF-8, which JSON leaves as it is: if a node holds an entry of some term at
    an index, and another node, then or at any later moment, holds an entry of
    the same term at that index, then the two logs are byte for byte the same up
    to the index. *)
Theorem log_matching {L F : Type} `{GoLogLaws L} `{FSM F} (nodes : list string)
    (dataDir : string → string) (c0 c1 c2 : Cluster (L:=L) (F:=F)) (n1 n2 : string) x1 x2 i T k
    (Hmembers : membership_ok nodes) (Hinit : plain_initial nodes dataDir c0)
    (Hrun1 : rtc (plain_step nodes dataDir) c0 c1) (Hrun2 : rtc (plain_step nodes dataDir) c1 c2)
    (Hx1 : cl_slots c1 !! n1 = Some x1) (Hx2 : cl_slots c2 !! n2 = Some x2)
    (Hterm1 : term_at (slot_log x1) i = Some T) (Hterm2 : term_at (slot_log x2) i = Some T)
    (Hk : k <= i) :
  item_at (slot_log x2) k = item_at (slot_log x1) k.
Proof.
  destruct (steps_history nodes dataDir ∅ ∅ c0 c1 Hmembers) as (V1 & G1 & _ & _ & Hc1 & Ho1);
    [by apply initial_inv, Hinit|by apply initial_history|done|].
  destruct (steps_history nodes dataDir V1 G1 c1 c2 Hmembers Hc1 Ho1 Hrun2) as (V2 & G2 & _ & HG & _ & Ho2).
  eapply (valid_same_prefix G2); [| |exact (ho_base _ _ _ _ _ Ho1 _ _ Hx1)|exact (ho_base _ _ _ _ _ Ho2 _ _ Hx2)|done..].
  - eapply valid_mono; [exact HG|exact (ho_valid _ _ _ _ _ Ho1 _ _ Hx1)].
  - exact (ho_valid _ _ _ _ _ Ho2 _ _ Hx2).
Qed.

(** ** A concrete run *)
Section check.
Context {L F : Type} `{GoLogLaws L} `{FSM F}.
Context (nodes : list string) (dataDir : string → string) (fsm0 : F) (cfg0 : Config).

Definition uncut_slot (x : Slot (L := L) (F := F)) : bool :=
  (log_last (slot_log x) <? u64_max)
  && match x with Up r => r_snapshotIndex r =? 0 | Down _ _ _ => true end.

Definition intact_packet (p : Packet) : bool :=
  match p with
  | Request _ _ (GoSendAppendEntries _ _ _ _ _ _ es _) _ =>
      forallb (λ e, utf8_valid (string_bytes (ClientId e))) es
  | _ => true
  end.

Definition survives (c' : Cluster (L := L) (F := F)) (n : string) (x : Slot (L := L) (F := F)) : bool :=
  match x, cl_slots c' !! n with
  | Down _ log _, Some y =>
      (log_base (slot_log y) =? log_base log) && bool_decide (log_items (slot_log y) = log_items log)
  | _, _ => true
  end.

(** Run a schedule, checking every step. *)
Fixpoint run_plain (c : Cluster) (cmds : list Command) : option Cluster :=
  match cmds with
  | [] => Some c
  | cmd :: cmds =>
      c' ← run_command nodes dataDir fsm0 cfg0 c cmd;
      if forallb (λ p, survives c' p.1 p.2) (map_to_list (cl_slots c))
         && (forallb (λ p, uncut_slot p.2) (map_to_list (cl_slots c')) && forallb intact_packet (cl_net c'))
      then run_plain c' cmds else None
  end.

Lemma run_plain_sound cmds : ∀ c c', run_plain c cmds = Some c' → rtc (plain_step nodes dataDir) c c'.
Proof.
  induction cmds as [|cmd cmds IH]; intros c c' Hrun; simpl in Hrun.
  { injection Hrun as <-. apply rtc_refl. }
  destruct (run_command _ _ _ _ c cmd) as [c1|] eqn:Hc; [|done]. simpl in Hrun.
  destruct (forallb _ _ && _) eqn:Hck; [|done]. apply andb_true_iff in Hck as [Hs [Hu Hp]%andb_true_iff].
  rewrite forallb_forall in Hs, Hu, Hp. eapply rtc_l; [|by apply IH]. split_and!.
  - by eapply run_command_sound.
  - intros n fs log next y Hn Hy. specialize (Hs (n, Down fs log next)).
    rewrite <- list_elem_of_In, elem_of_map_to_list in Hs. specialize (Hs Hn). unfold survives in Hs.
    cbn in Hs. rewrite Hy in Hs. apply andb_true_iff in Hs as [Hb Hi]. zbool. by apply bool_decide_eq_true in Hi.
  - intros n x Hx. specialize (Hu (n, x)). rewrite <- list_elem_of_In, elem_of_map_to_list in Hu.
    specialize (Hu Hx). unfold uncut_slot in Hu. cbn in Hu. apply andb_true_iff in Hu as [Hl Hi]. zbool.
    split; [done|]. by destruct x; zbool.
  - intros n k t sn Hreq. specialize (Hp (Request n k t sn)). rewrite <- list_elem_of_In in Hp. specialize (Hp Hreq).
    destruct t; try done. by apply List.Forall_forall, forallb_forall.
Qed.
End check.

(** [n1] is elected, proposes, replicates both entries to [n2], which stops and
    starts again. *)
Definition matching_schedule : list Command :=
  demo_schedule
  ++ [CLocal "n1" (OpPropose 6 (string_bytes "x") "" 0 3); CSend "n1" 7; CServe 4; CReply 5]%string.

Definition matching_before : Cluster (L := MemLog) (F := list bytes) :=
  default demo_cluster (run_plain demo_nodes demo_dirs [] DefaultConfig demo_cluster matching_schedule).

Definition matching_after : Cluster (L := MemLog) (F := list bytes) :=
  default demo_cluster (run_plain demo_nodes demo_dirs [] DefaultConfig matching_before
    [CSend "n1" 11; CServe 6; CStop "n2"; CStart "n2"]%string).

Definition slot_of (c : Cluster (L := MemLog) (F := list bytes)) (n : string) : Slot :=
  default (Down demo_files (mkMemLog 0 [] [] []) 0) (cl_slots c !! n).

Lemma slot_of_lookup c n : bool_decide (n ∈ (map_to_list (cl_slots c)).*1) = true →
  cl_slots c !! n = Some (slot_of c n).
Proof.
  intros Hn%bool_decide_eq_true. apply list_elem_of_fmap in Hn as ((m & x) & -> & Hx).
  apply elem_of_map_to_list in Hx. unfold slot_of. cbn. by rewrite Hx.
Qed.

Lemma default_run c (o : option (Cluster (L := MemLog) (F := list bytes))) :
  bool_decide (is_Some o) = true → o = Some (default c o).
Proof. intros Ho%bool_decide_eq_true. by destruct Ho as [x ->]. Qed.

Lemma demo_plain_initial : plain_initial demo_nodes demo_dirs demo_cluster.
Proof.
  split; [apply demo_initial|]. intros n x Hx.
  apply elem_of_list_to_map_2, list_elem_of_fmap in Hx as (m & [= -> ->] & _). done.
Qed.

Lemma log_matching_witness :
  term_at (slot_log (slot_of matching_after "n2")) 2 = Some 1
  ∧ item_at (slot_log (slot_of matching_after "n2")) 1
    = item_at (slot_log (slot_of matching_before "n1")) 1.
Proof.
  assert (term_at (slot_log (slot_of matching_after "n2")) 2 = Some 1) as Ht by (vm_compute; reflexivity).
  split; [exact Ht|].
  apply (log_matching demo_nodes demo_dirs demo_cluster matching_before matching_after "n1" "n2"
    (slot_of matching_before "n1") (slot_of matching_after "n2") 2 1 1).
  - exact demo_membership.
  - exact demo_plain_initial.
  - apply (run_plain_sound demo_nodes demo_dirs [] DefaultConfig matching_schedule).
    apply default_run. vm_compute. reflexivity.
  - apply (run_plain_sound demo_nodes demo_dirs [] DefaultConfig
      [CSend "n1" 11; CServe 6; CStop "n2"; CStart "n2"]%string).
    apply default_run. vm_compute. reflexivity.
  - apply slot_of_lookup. vm_compute. reflexivity.
  - apply slot_of_lookup. vm_compute. reflexivity.
  - vm_compute. reflexivity.
  - exact Ht.
  - vm_compute. discriminate.
Defined.
