(* ===== verification/StaleReply.v ===== *)
(** * A late reply and the commit index

    The reply to an AppendEntries request is compared with the term of the
    request, not with the node's current term, and is counted on the leader object
    that sent the request.  A reply that arrives after its node has lost and won
    back the leadership is therefore counted on the object of the old term.  The
    schedule below shows what follows: three nodes, no failing operation, every
    log kept; two of them end with different entries committed at one index. *)
From S2P Require Import Prelude GoMonad FileSystem LogEntry Store Snapshot Session Config GoLog Log Fsm Node Roles Follower Leader Candidate Raft Demo Frame Election Campaign Cluster ElectionSafety Persistence Replication Matching Commit History LogMatching.
Local Open Scope Z_scope.

(** ** The step of one node *)
Section late.
Context {L F : Type} `{GoLogLaws L} `{FSM F}.
Abbreviation node := (Raft L F).

(** A goroutine of an earlier term on a node that leads again is not turned away. *)
Lemma late_reply_counted a v T prev es (s : node) reply :
  ar_term reply = T → T <= term_of s → leads s → ar_success reply = true →
  (∃ l, r_roles s !! a = Some (RLeader l) ∧ map_bool (l_inflight l) v = false) →
  LeaderRole__sendAppendEntriesToNode_reply a v T prev es reply s
  = (needsRetry ← append_acknowledged a v prev es;
     when needsRetry (LeaderRole__retrySendAppendEntriesToNode a v T)) s.
Proof.
  intros Ht Hle (b & k & Hb & Hk) Hok (l & Hl & Hin).
  unfold LeaderRole__sendAppendEntriesToNode_reply, read_leader, read_role. rewrite !bind_run. cbn [gets].
  rewrite Hl. cbn [mret GoM_ret]. rewrite Hin. cbn [when]. rewrite bind_run. cbn [mret GoM_ret].
  rewrite bind_run, GetCurrentTerm_run, Ht.
  destruct (Z.ltb_spec (term_of s) T); [lia|]. unfold role_type, read_role. rewrite !bind_run. cbn [gets].
  rewrite Hb, !bind_run. cbn [gets]. rewrite Hk. cbn. rewrite Z.eqb_refl. cbn. by rewrite Hok.
Qed.
End late.

(** ** The run *)
Definition one_by_one : Config :=
  mkConfig (TickInterval DefaultConfig) (HeartbeatTicks DefaultConfig)
    (ElectionTimeoutMinTicks DefaultConfig) (ElectionTimeoutMaxTicks DefaultConfig) 1
    (SnapshotThreshold DefaultConfig) (MaxSnapshotSize DefaultConfig).

Definition times_out (n : string) : list Command := replicate 12 (CLocal n OpTick).
Definition restarts (n : string) : list Command := [CStop n; CStart n].
(** Goroutine [k] of [n]: its request becomes message [i]. *)
Definition asks (n : string) (k i : nat) : list Command := [CSend n k; CServe i].
Definition calls (n : string) (k i : nat) : list Command := asks n k i ++ [CReply (S i)].

Definition late_schedule : list Command :=
  [CStart "n1"; CStart "n2"; CStart "n3"]%string
  (* n1 leads term 1 and holds two entries of it *)
  ++ times_out "n1" ++ calls "n1" 2 0 ++ calls "n1" 4 2
  ++ [CLocal "n1" (OpPropose 6 (string_bytes "x") "" 0 3)]%string
  (* n3 leads term 2 and holds one entry of it *)
  ++ times_out "n3" ++ calls "n3" 3 4 ++ times_out "n3" ++ calls "n3" 7 6 ++ calls "n3" 9 8
  (* n1 leads term 3; n2 takes its two entries of term 1; the second reply, message 21, is late *)
  ++ restarts "n1" ++ times_out "n1" ++ calls "n1" 13 10 ++ times_out "n1" ++ calls "n1" 17 12
  ++ calls "n1" 19 14 ++ calls "n1" 22 16 ++ calls "n1" 25 18 ++ asks "n1" 26 20
  (* n3 leads term 4 and replaces the first entry of both others by its own *)
  ++ restarts "n3" ++ times_out "n3" ++ calls "n3" 17 22 ++ times_out "n3" ++ calls "n3" 21 24
  ++ calls "n3" 23 26 ++ calls "n3" 25 28 ++ asks "n3" 28 30 ++ calls "n3" 26 32 ++ asks "n3" 29 34
  (* n1 leads term 5, alone with its entry at index 2; the late reply arrives *)
  ++ times_out "n1" ++ calls "n1" 29 36 ++ calls "n1" 31 38 ++ [CReply 21]
  (* n3 leads term 6 and commits its own entry at index 2 *)
  ++ restarts "n3" ++ times_out "n3" ++ calls "n3" 33 40 ++ times_out "n3" ++ calls "n3" 37 42
  ++ calls "n3" 39 44 ++ calls "n3" 42 46 ++ calls "n3" 44 48 ++ calls "n3" 45 50.

Definition late_end : Cluster (L := MemLog) (F := list bytes) :=
  default demo_cluster (run_plain demo_nodes demo_dirs [] one_by_one demo_cluster late_schedule).

(** Node [n] holds [d] at index [i] and has committed it. *)
Definition committed (c : Cluster (L := MemLog) (F := list bytes)) (n : string) (i : Z) (d : bytes) : Prop :=
  ∃ r, cl_slots c !! n = Some (Up r) ∧ i <= commitIndex (r_store r) ∧ item_at (r_log r) i = Some d.

Definition committed_b (c : Cluster (L := MemLog) (F := list bytes)) (n : string) (i : Z) (d : bytes) : bool :=
  match cl_slots c !! n with
  | Some (Up r) => (i <=? commitIndex (r_store r)) && bool_decide (item_at (r_log r) i = Some d)
  | _ => false
  end.

Lemma committed_b_sound c n i d : committed_b c n i d = true → committed c n i d.
Proof.
  unfold committed_b, committed. destruct (cl_slots c !! n) as [[r|]|]; try done.
  intros [Hc Hd]%andb_true_iff. zbool. apply bool_decide_eq_true in Hd. by exists r.
Qed.

(** C36: Committed entries can differ.  There is a run of three nodes from empty
    disks, with no failing operation and no log ever lost, in which a reply that
    belongs to an earlier term of a leader is counted on the object of that term
    and commits an index only this leader holds; another leader then commits a
    different entry at the same index. *)
Theorem late_reply_breaks_commit :
  plain_initial demo_nodes demo_dirs demo_cluster
  ∧ rtc (plain_step demo_nodes demo_dirs) demo_cluster late_end
  ∧ ∃ d1 d3, committed late_end "n1" 2 d1 ∧ committed late_end "n3" 2 d3 ∧ d1 ≠ d3.
Proof.
  split; [exact demo_plain_initial|]. split.
  - apply (run_plain_sound demo_nodes demo_dirs [] one_by_one late_schedule).
    apply default_run. vm_compute. reflexivity.
  - exists (Serialize (mkLogEntry [] 5 "" 0)), (Serialize (mkLogEntry [] 4 "" 0)).
    split_and!; [apply committed_b_sound; vm_compute; reflexivity..|]. by vm_compute.
Qed.
