(* ===== verification/Range.v ===== *)
(** * Replies fit their types

    A node whose term is a [uint64] answers every request of [uint64]s with
    [uint64]s, and its term stays one.  The Go types say so; here integers are
    unbounded and it is proved, along the handlers. *)
From S2P Require Import Prelude GoMonad FileSystem LogEntry Store Snapshot Session Config GoLog Log Fsm Node Roles Follower Leader Candidate Raft Frame Election Campaign Cluster Matching.
Local Open Scope Z_scope.

(** The reply of a handler is in the range of its Go types. *)
Definition reply_u64 (reply : Reply) : Prop :=
  match reply with
  | PreVoteResponse t _ | RequestVoteResponse t _ | InstallSnapshotResponse t => is_u64 t
  | AppendEntriesResponse r => is_u64 (ar_term r) ∧ is_u64 (ar_conflictIndex r) ∧ is_u64 (ar_conflictTerm r)
  end.

Section range.
Context {L F : Type} `{GoLog L} `{FSM F}.
Abbreviation node := (Raft L F).
Abbreviation M := (RaftM L F).

Definition fits (s : node) : Prop := is_u64 (term_of s).
Definition term_fits (s s' : node) : Prop := fits s → fits s'.

#[global] Instance term_fits_preorder : PreOrder term_fits.
Proof. split; [by intros s Hs|]. intros x y z Hxy Hyz Hx. by apply Hyz, Hxy. Qed.

#[global] Instance term_fits_frame : Frame term_fits.
Proof.
  split; unfold term_fits, fits, term_of; try done; intros.
  - apply _.
  - match goal with Hc : same_core _ _ |- _ => by rewrite (core_store _ _ Hc) end.
Qed.

Lemma fits_on_store {A} (m : StoreM A) :
  (∀ st fs, is_u64 (currentTerm st) → is_u64 (currentTerm (m (st, fs)).2.1)) → moves term_fits (on_store m : M A).
Proof.
  intros Hm s Hs. unfold fits, term_of, on_store, zoom in *. specialize (Hm (r_store s) (r_fs s) Hs).
  by destruct (m _) as [r [st fs]].
Qed.

Lemma fits_SetCurrentTermAndVotedFor t v : is_u64 t →
  moves term_fits (on_store (Store__SetCurrentTermAndVotedFor t v) : M _).
Proof.
  intros Ht. apply fits_on_store. intros st fs Hst.
  destruct (SetCurrentTermAndVotedFor_run t v st fs) as (e & s' & fs' & -> & Hu). cbn.
  destruct e; destruct Hu as [-> _]; done.
Qed.

Lemma fits_SetVotedFor v : moves term_fits (on_store (Store__SetVotedFor v) : M _).
Proof.
  apply fits_on_store. intros st fs Hst.
  destruct (SetVotedFor_run v st fs) as (e & s' & fs' & -> & Hu). cbn. destruct e; destruct Hu as [-> _]; done.
Qed.
#[local] Hint Resolve fits_SetVotedFor : moves.
#[local] Hint Extern 3 (moves term_fits (on_store (Store__SetCurrentTermAndVotedFor _ _))) =>
  apply fits_SetCurrentTermAndVotedFor; assumption : moves.
#[local] Hint Extern 5 (moves term_fits (modify _)) => apply moves_modify; intros ? Hf; exact Hf : moves.

Lemma fits_becomeFollower t : is_u64 t → moves term_fits (becomeFollower t : M nat).
Proof.
  intros Ht. unfold becomeFollower, enter_role, NewFollowerRole, new_role, FollowerRole__OnEnter. moves_auto.
Qed.
#[local] Hint Extern 3 (moves term_fits (becomeFollower _)) => apply fits_becomeFollower; assumption : moves.

(** ** What a computation returns *)
Definition gives {A} (P : A → Prop) (m : M A) : Prop :=
  ∀ s a s', fits s → m s = (Ret a, s') → P a.

Lemma gives_ret {A} (P : A → Prop) a : P a → gives P (mret a).
Proof. by intros Ha s b s' _ [= <- <-]. Qed.

Lemma gives_seq {A B} (P : B → Prop) (m : M A) (f : A → M B) :
  moves term_fits m → (∀ a, gives P (f a)) → gives P (m ≫= f).
Proof.
  intros Hm Hf s b s' Hs Hr. apply bind_inv in Hr as (a & s1 & E & Hr).
  apply (Hf a s1 b s'); [|done]. by apply (moves_run term_fits _ _ _ _ Hm E).
Qed.

Lemma gives_term {B} (P : B → Prop) (f : Z → M B) :
  (∀ t, is_u64 t → gives P (f t)) → gives P (GetCurrentTerm ≫= f).
Proof. intros Hf s b s' Hs. rewrite bind_run, GetCurrentTerm_run. by apply Hf. Qed.

Lemma gives_gets {A B} (P : B → Prop) (g : node → A) (f : A → M B) :
  (∀ s, gives P (f (g s))) → gives P (gets g ≫= f).
Proof. intros Hf s b s' Hs. rewrite bind_run. cbn [gets]. by apply Hf. Qed.

Lemma gives_panic {A} (P : A → Prop) e : gives P (go_panic e).
Proof. by intros s a s' _ [=]. Qed.

Lemma gives_fuel {A} (P : A → Prop) : gives P out_of_fuel.
Proof. by intros s a s' _ [=]. Qed.

Lemma gives_as_reply {A} (P : A → Prop) (f : A → Reply) (m : M A) :
  gives P m → (∀ a, P a → reply_u64 (f a)) → gives reply_u64 (as_reply f m).
Proof.
  intros Hm Hf s a s' Hs Hr. unfold as_reply in Hr. apply bind_inv in Hr as (x & s1 & E & Hr).
  injection Hr as <- <-. by eapply Hf, Hm.
Qed.

(** Follow the code of a handler to its returns. *)
Ltac gives_step :=
  match goal with
  | |- gives _ (mret _) => apply gives_ret
  | |- gives _ (go_panic _) => apply gives_panic
  | |- gives _ out_of_fuel => apply gives_fuel
  | |- gives _ (GetCurrentTerm ≫= _) => apply gives_term; intros ? ?
  | |- gives _ (gets _ ≫= _) => apply gives_gets; intros ?
  | |- gives _ (match ?x with _ => _ end) => destruct x eqn:?
  | |- gives _ (_ ≫= _) => apply gives_seq; [moves_auto|intros ?]
  | |- gives _ (match ?x with _ => _ end _ _ _ _) => destruct x eqn:?
  | |- gives _ (match ?x with _ => _ end _ _ _ _ _) => destruct x eqn:?
  | |- gives _ (match ?x with _ => _ end _ _ _ _ _ _) => destruct x eqn:?
  end.
Ltac gives_auto := repeat gives_step.

Lemma entry_at_u64 (l : L) i e : entry_at l i = Some e → is_u64 (Term e).
Proof.
  unfold entry_at. destruct (log_Read i l) as [?|d]; [done|].
  destruct (DeserializeLogEntry d) as [?|e'] eqn:Hd; [done|]. intros [= <-]. by eapply DeserializeLogEntry_Term_u64.
Qed.

Lemma conflict_loop_u64 (l : L) snap ct fuel i : is_u64 i → is_u64 (conflict_loop l snap ct fuel i).
Proof.
  revert i. induction fuel as [|fuel IH]; intros i Hi; cbn [conflict_loop]; [done|].
  destruct (Z.ltb_spec 1 i); cbn [andb]; [|done]. destruct (_ <? i); [|done].
  destruct (entry_at l (i - 1)); [|done]. destruct (negb _); [done|]. apply IH. unfold is_u64 in *. lia.
Qed.

Lemma check_u64 (s : node) i t : is_u64 i → let c := checkLogConsistency i t s in is_u64 c.1.2 ∧ is_u64 c.2.
Proof.
  intros Hi. assert (is_u64 0) as H0u by (unfold is_u64; lia). pose proof (u64_range (r_snapshotIndex s + 1)).
  unfold checkLogConsistency. destruct (i =? 0); [done|]. destruct (i =? r_snapshotIndex s).
  { by destruct (t =? r_snapshotTerm s). }
  destruct (i <? r_snapshotIndex s); [done|]. destruct (entry_at (r_log s) i) as [e|] eqn:He; [|done].
  destruct (Term e =? t); [done|]. split; [by apply conflict_loop_u64|by eapply entry_at_u64].
Qed.

Definition append_u64 (r : AppendReply) : Prop := reply_u64 (AppendEntriesResponse r).

Lemma append_reply_u64 t b i c : is_u64 t → is_u64 i → is_u64 c → append_u64 (mkAppendReply t b i c).
Proof. intros Ht Hi Hc. exact (conj Ht (conj Hi Hc)). Qed.

Lemma zero_u64 : is_u64 0.
Proof. unfold is_u64. lia. Qed.
#[local] Hint Resolve append_reply_u64 zero_u64 u64_range : core.

Lemma follower_AppendEntries_gives n : ∀ a t l i j es c, is_u64 t → is_u64 i →
  gives append_u64 (FollowerRole__HandleAppendEntries n a t l i j es c : M _).
Proof.
  induction n as [|n IH]; intros a t l i j es c Ht Hi; cbn [FollowerRole__HandleAppendEntries]; gives_auto; auto.
  match goal with E : checkLogConsistency _ _ ?s = _ |- _ =>
    destruct (check_u64 s i j Hi) as [Hc1 Hc2]; rewrite E in Hc1, Hc2 end.
  simplify_eq. by apply append_reply_u64.
Qed.

Definition vote_u64 (p : Z * bool) : Prop := is_u64 p.1.

Lemma vote_reply_u64 t b : is_u64 t → vote_u64 (t, b).
Proof. done. Qed.
#[local] Hint Resolve follower_AppendEntries_gives vote_reply_u64 : core.

Lemma follower_RequestVote_gives n : ∀ a t c i j, is_u64 t →
  gives vote_u64 (FollowerRole__HandleRequestVote n a t c i j : M _).
Proof.
  induction n as [|n IH]; intros a t c i j Ht; cbn [FollowerRole__HandleRequestVote]; gives_auto; auto.
Qed.

Lemma follower_InstallSnapshot_gives a t l i j d : is_u64 t →
  gives is_u64 (FollowerRole__HandleInstallSnapshot a t l i j d : M _).
Proof. intros Ht. unfold FollowerRole__HandleInstallSnapshot. gives_auto; auto. Qed.
#[local] Hint Resolve follower_RequestVote_gives follower_InstallSnapshot_gives : core.

Lemma HandleAppendEntries_gives n t l i j es c : is_u64 t → is_u64 i →
  gives append_u64 (Raft__HandleAppendEntries n t l i j es c : M _).
Proof.
  intros Ht Hi. unfold Raft__HandleAppendEntries, if_enabled, current_role, CandidateRole__HandleAppendEntries,
    LeaderRole__HandleAppendEntries. gives_auto; auto.
Qed.

Lemma HandleRequestVote_gives n t c i j : is_u64 t → gives vote_u64 (Raft__HandleRequestVote n t c i j : M _).
Proof.
  intros Ht. unfold Raft__HandleRequestVote, if_enabled, current_role, CandidateRole__HandleRequestVote,
    LeaderRole__HandleRequestVote. gives_auto; auto.
Qed.

Lemma HandlePreVote_gives t c i j : gives vote_u64 (Raft__HandlePreVote t c i j : M _).
Proof.
  unfold Raft__HandlePreVote, if_enabled, current_role, FollowerRole__HandlePreVote, CandidateRole__HandlePreVote,
    LeaderRole__HandlePreVote. gives_auto; auto.
Qed.

Lemma HandleInstallSnapshot_gives t l i j d : is_u64 t →
  gives is_u64 (Raft__HandleInstallSnapshot t l i j d : M _).
Proof.
  intros Ht. unfold Raft__HandleInstallSnapshot, if_enabled, current_role, CandidateRole__HandleInstallSnapshot,
    LeaderRole__HandleInstallSnapshot. gives_auto; auto.
Qed.

(** Every route answers within its types. *)
Lemma serve_reply_u64 fuel t sn handler (s : node) reply s' :
  serve fuel t sn = Some handler → fits s → handler s = (Ret reply, s') → reply_u64 reply.
Proof.
  intros Hserve. enough (gives reply_u64 handler) as Hg by (intros; by eapply Hg).
  destruct t as [a v T id i j|a v T id i j|a v T id i j es ci|a v T id|a]; cbn [serve] in Hserve; [..|done].
  4: destruct sn as [sn|]; [|done].
  all: injection Hserve as <-.
  - by eapply gives_as_reply; [apply HandlePreVote_gives|].
  - by eapply gives_as_reply; [apply HandleRequestVote_gives, u64_range|].
  - by eapply gives_as_reply; [apply HandleAppendEntries_gives; apply u64_range|].
  - by eapply gives_as_reply; [apply HandleInstallSnapshot_gives, u64_range|].
Qed.
End range.
