(* ===== verification/Codec.v ===== *)
(** The Go side of JSON: [json.Decoder] on a stream, decoding into integers,
    booleans, strings, slices and structs (any letter case of a key, unknown
    keys skipped, [null] changes nothing, what does not fit is an error), base64
    for [[]byte], and the messages of transport.go with the round trip of each:
    every field comes back, strings as [wire_string] leaves them. *)
From S2P Require Import Prelude GoMonad LogEntry GoLog Fsm Node Follower Json Cluster.
Local Open Scope Z_scope.

(** ** [encoding/base64], the standard alphabet with padding *)
Definition sextet (v : Z) : byte :=
  byte_of_Z (if v <? 26 then 65 + v else if v <? 52 then 71 + v else if v <? 62 then v - 4
             else if v =? 62 then 43 else 47).

Definition unsextet (b : byte) : option Z :=
  if byte_in 65 90 b then Some (Z_of_byte b - 65)
  else if byte_in 97 122 b then Some (Z_of_byte b - 71)
  else if byte_in 48 57 b then Some (Z_of_byte b + 4)
  else if Byte.eqb b x2b then Some 62
  else if Byte.eqb b x2f then Some 63
  else None.

Fixpoint base64 (s : bytes) : bytes :=
  match s with
  | [] => []
  | [a] => let a := Z_of_byte a in [sextet (a / 4); sextet (a mod 4 * 16); x3d; x3d]
  | [a; b] =>
      let a := Z_of_byte a in let b := Z_of_byte b in
      [sextet (a / 4); sextet (a mod 4 * 16 + b / 16); sextet (b mod 16 * 4); x3d]
  | a :: b :: c :: s =>
      let a := Z_of_byte a in let b := Z_of_byte b in let c := Z_of_byte c in
      sextet (a / 4) :: sextet (a mod 4 * 16 + b / 16) :: sextet (b mod 16 * 4 + c / 64) ::
      sextet (c mod 64) :: base64 s
  end.

(** Groups of four characters; the bits left over in a padded group are not
    checked. *)
Fixpoint unbase64_groups (s : bytes) : option bytes :=
  match s with
  | [] => Some []
  | p :: q :: r :: t :: s =>
      p ← unsextet p; q ← unsextet q;
      let a := byte_of_Z (p * 4 + q / 16) in
      if Byte.eqb r x3d then
        if Byte.eqb t x3d && bool_decide (s = []) then Some [a] else None
      else
        r ← unsextet r;
        let b := byte_of_Z (q * 16 + r / 4) in
        if Byte.eqb t x3d then
          if bool_decide (s = []) then Some [a; b] else None
        else
          t ← unsextet t;
          l ← unbase64_groups s;
          Some (a :: b :: byte_of_Z (r * 64 + t) :: l)
  | _ => None
  end.

(** Line breaks are skipped. *)
Definition unbase64 (s : bytes) : option bytes :=
  unbase64_groups (filter (λ b, Byte.eqb b x0a || Byte.eqb b x0d = false) s).

(** ** Slices

    [None] is the nil slice.  The decoder fills the elements a slice already has,
    those beyond its length included: a key that occurs twice meets them. *)
Abbreviation slice A := (option (list A)).

Record Buffer (A : Type) := mkBuffer { backing : list A; filled : nat }.
Arguments mkBuffer {A}. Arguments backing {A}. Arguments filled {A}.

Definition empty_buffer {A} : Buffer A := mkBuffer [] 0.
Definition contents {A} (b : Buffer A) : list A := take (filled b) (backing b).

(** ** [json.Unmarshal] by the type of the destination *)
Definition decoder (A : Type) : Type := A → json → option A.

Definition decode_uint64 : decoder Z := λ old j,
  match j with JNumber n => ParseUint n | JNull => Some old | _ => None end.

Definition decode_byte : decoder byte := λ old j,
  z ← decode_uint64 (Z_of_byte old) j; if z <? 256 then Some (byte_of_Z z) else None.

Definition decode_bool : decoder bool := λ old j,
  match j with JBool b => Some b | JNull => Some old | _ => None end.

Definition decode_string : decoder string := λ old j,
  match j with JString s => Some (bytes_string s) | JNull => Some old | _ => None end.

Section decode_slice.
Context {A : Type} (elem : decoder A) (zero : A).

Fixpoint decode_elements (old : list A) (l : list json) : option (list A) :=
  match l with
  | [] => Some old
  | j :: l =>
      v ← elem (default zero (head old)) j;
      r ← decode_elements (tail old) l;
      Some (v :: r)
  end.

Definition decode_slice : decoder (Buffer A) := λ old j,
  match j with
  | JNull | JArray [] => Some empty_buffer
  | JArray l => r ← decode_elements (backing old) l; Some (mkBuffer r (length l))
  | _ => None
  end.
End decode_slice.

Definition decode_bytes : decoder (Buffer byte) := λ old j,
  match j with
  | JString s => l ← unbase64 s; Some (mkBuffer l (length l))
  | _ => decode_slice decode_byte x00 old j
  end.

(** [foldName]: letters in upper case, with the two other runes that fold to
    an ASCII letter (U+017F and U+212A). *)
Fixpoint fold_name (s : bytes) : bytes :=
  match s with
  | [] => []
  | xc5 :: xbf :: s => x53 :: fold_name s
  | xe2 :: x84 :: xaa :: s => x4b :: fold_name s
  | b :: s => (if byte_in 97 122 b then byte_of_Z (Z_of_byte b - 32) else b) :: fold_name s
  end.

Definition is_key (name : string) (key : bytes) : bool :=
  bool_decide (fold_name key = fold_name (string_bytes name)).

(** A struct: [field] stores the value of one key. *)
Definition decode_struct {A} (field : bytes → json → A → option A) : decoder A := λ old j,
  match j with
  | JNull => Some old
  | JObject m => foldl (λ a p, a ← a; field p.1 p.2 a) (Some old) m
  | _ => None
  end.

(** The first of the named fields that the key names; a key of no field is
    skipped. *)
Fixpoint in_fields {A} (fields : list (string * (json → A → option A))) (key : bytes) (j : json) (a : A)
    : option A :=
  match fields with
  | [] => Some a
  | (name, store) :: fields => if is_key name key then store j a else in_fields fields key j a
  end.

(** ** [json.NewDecoder(r).Decode] and [More]

    A body is what could be read of it; [broken] when reading ended in an error
    instead of the end of the body. *)
Record Body := mkBody { content : bytes; broken : bool }.

(** [io.LimitReader] *)
Definition limit (n : Z) (b : Body) : Body :=
  mkBody (take (Z.to_nat n) (content b)) (broken b && (Z.of_nat (length (content b)) <? n)).

Definition closed_by_bracket (j : json) : bool :=
  match j with JArray _ | JObject _ => true | _ => false end.

(** A value that is not ended by its own last byte needs one byte more. *)
Definition Decode {A} (dec : decoder A) (zero : A) (b : Body) : option (A * Body) :=
  '(j, rest) ← parse (content b);
  if broken b && bool_decide (rest = []) && negb (closed_by_bracket j) then None
  else a ← dec zero j; Some (a, mkBody rest (broken b)).

Definition More (b : Body) : bool :=
  match skip_space (content b) with
  | [] => false
  | c :: _ => negb (Byte.eqb c x5d || Byte.eqb c x7d)
  end.

(** ** Marshalling *)
Definition JUint (z : Z) : json := JNumber (print_uint z).
Definition JText (s : string) : json := JString (string_bytes s).
Definition JBytes (l : bytes) : json := JString (base64 l).
Definition obj (m : list (string * json)) : json := JObject (prod_map string_bytes id <$> m).
Definition json_slice {A} (f : A → json) (l : slice A) : json :=
  match l with None => JNull | Some l => JArray (f <$> l) end.

Definition json_bytes (l : slice byte) : json := match l with None => JNull | Some l => JBytes l end.

(** ** The messages of transport.go *)

(** [E]: the type of the entries, a slice at the sender, a buffer where the
    message is decoded. *)
Record AppendEntriesRequest (E : Type) := mkAppendEntriesRequest {
  ae_Term : Z;
  ae_LeaderId : string;
  ae_PrevLogEntryIndex : Z;
  ae_PrevLogEntryTerm : Z;
  ae_LogEntries : E;
  ae_LeaderCommitIndex : Z
}.
Arguments mkAppendEntriesRequest {E}.
Arguments ae_Term {E}. Arguments ae_LeaderId {E}. Arguments ae_PrevLogEntryIndex {E}.
Arguments ae_PrevLogEntryTerm {E}. Arguments ae_LogEntries {E}. Arguments ae_LeaderCommitIndex {E}.

(** [PreVoteRequest] and [RequestVoteRequest] have the same fields. *)
Record VoteRequest := mkVoteRequest {
  vr_Term : Z;
  vr_CandidateID : string;
  vr_LastLogEntryIndex : Z;
  vr_LastLogEntryTerm : Z
}.

Record InstallSnapshotRequest (D : Type) := mkInstallSnapshotRequest {
  is_Term : Z;
  is_LeaderId : string;
  is_LastIncludedIndex : Z;
  is_LastIncludedTerm : Z;
  is_Data : D
}.
Arguments mkInstallSnapshotRequest {D}.
Arguments is_Term {D}. Arguments is_LeaderId {D}. Arguments is_LastIncludedIndex {D}.
Arguments is_LastIncludedTerm {D}. Arguments is_Data {D}.

(** The data of an entry is never the nil slice: it was cut out of the bytes
    [DeserializeLogEntry] parsed. *)
Definition json_LogEntry (e : LogEntry) : json :=
  obj [("Data", JBytes (Data e)); ("Term", JUint (Term e)); ("ClientId", JText (ClientId e));
       ("SequenceNumber", JUint (SequenceNumber e))]%string.

Definition json_AppendEntriesRequest (r : AppendEntriesRequest (slice LogEntry)) : json :=
  obj [("term", JUint (ae_Term r)); ("leader_id", JText (ae_LeaderId r));
       ("prev_log_entry_index", JUint (ae_PrevLogEntryIndex r));
       ("prev_log_entry_term", JUint (ae_PrevLogEntryTerm r));
       ("log_entries", json_slice json_LogEntry (ae_LogEntries r));
       ("leader_commit_index", JUint (ae_LeaderCommitIndex r))]%string.

Definition json_AppendEntriesResponse (r : AppendReply) : json :=
  obj [("term", JUint (ar_term r)); ("success", JBool (ar_success r));
       ("conflict_index", JUint (ar_conflictIndex r));
       ("conflict_term", JUint (ar_conflictTerm r))]%string.

Definition json_VoteRequest (r : VoteRequest) : json :=
  obj [("term", JUint (vr_Term r)); ("candidate_id", JText (vr_CandidateID r));
       ("last_log_entry_index", JUint (vr_LastLogEntryIndex r));
       ("last_log_entry_term", JUint (vr_LastLogEntryTerm r))]%string.

Definition json_VoteResponse (r : Z * bool) : json :=
  obj [("term", JUint r.1); ("vote_granted", JBool r.2)]%string.

Definition json_InstallSnapshotRequest (r : InstallSnapshotRequest (slice byte)) : json :=
  obj [("term", JUint (is_Term r)); ("leader_id", JText (is_LeaderId r));
       ("last_included_index", JUint (is_LastIncludedIndex r));
       ("last_included_term", JUint (is_LastIncludedTerm r));
       ("data", json_bytes (is_Data r))]%string.

Definition json_InstallSnapshotResponse (term : Z) : json := obj [("term", JUint term)]%string.

(** *** Decoding *)
Record WireEntry := mkWireEntry {
  we_Data : Buffer byte;
  we_Term : Z;
  we_ClientId : string;
  we_SequenceNumber : Z
}.

Definition zero_WireEntry : WireEntry := mkWireEntry empty_buffer 0 "" 0.

Definition entry_of (w : WireEntry) : LogEntry :=
  mkLogEntry (contents (we_Data w)) (we_Term w) (we_ClientId w) (we_SequenceNumber w).

Definition decode_LogEntry : decoder WireEntry := decode_struct (in_fields [
  ("Data"%string, λ j '(mkWireEntry d t c n), d ← decode_bytes d j; Some (mkWireEntry d t c n));
  ("Term"%string, λ j '(mkWireEntry d t c n), t ← decode_uint64 t j; Some (mkWireEntry d t c n));
  ("ClientId"%string, λ j '(mkWireEntry d t c n), c ← decode_string c j; Some (mkWireEntry d t c n));
  ("SequenceNumber"%string, λ j '(mkWireEntry d t c n), n ← decode_uint64 n j; Some (mkWireEntry d t c n))]).

Abbreviation WireAppend := (AppendEntriesRequest (Buffer WireEntry)).

Definition zero_AppendEntriesRequest : WireAppend := mkAppendEntriesRequest 0 "" 0 0 empty_buffer 0.

Definition decode_AppendEntriesRequest : decoder WireAppend := decode_struct (in_fields [
  ("term"%string, λ j '(mkAppendEntriesRequest t l i p es c),
     t ← decode_uint64 t j; Some (mkAppendEntriesRequest t l i p es c));
  ("leader_id"%string, λ j '(mkAppendEntriesRequest t l i p es c),
     l ← decode_string l j; Some (mkAppendEntriesRequest t l i p es c));
  ("prev_log_entry_index"%string, λ j '(mkAppendEntriesRequest t l i p es c),
     i ← decode_uint64 i j; Some (mkAppendEntriesRequest t l i p es c));
  ("prev_log_entry_term"%string, λ j '(mkAppendEntriesRequest t l i p es c),
     p ← decode_uint64 p j; Some (mkAppendEntriesRequest t l i p es c));
  ("log_entries"%string, λ j '(mkAppendEntriesRequest t l i p es c),
     es ← decode_slice decode_LogEntry zero_WireEntry es j; Some (mkAppendEntriesRequest t l i p es c));
  ("leader_commit_index"%string, λ j '(mkAppendEntriesRequest t l i p es c),
     c ← decode_uint64 c j; Some (mkAppendEntriesRequest t l i p es c))]).

Definition received_entries (r : WireAppend) : list LogEntry := entry_of <$> contents (ae_LogEntries r).

Definition decode_AppendEntriesResponse : decoder AppendReply := decode_struct (in_fields [
  ("term"%string, λ j '(mkAppendReply t s i c), t ← decode_uint64 t j; Some (mkAppendReply t s i c));
  ("success"%string, λ j '(mkAppendReply t s i c), s ← decode_bool s j; Some (mkAppendReply t s i c));
  ("conflict_index"%string, λ j '(mkAppendReply t s i c), i ← decode_uint64 i j; Some (mkAppendReply t s i c));
  ("conflict_term"%string, λ j '(mkAppendReply t s i c), c ← decode_uint64 c j; Some (mkAppendReply t s i c))]).

Definition zero_AppendEntriesResponse : AppendReply := mkAppendReply 0 false 0 0.

Definition zero_VoteRequest : VoteRequest := mkVoteRequest 0 "" 0 0.

Definition decode_VoteRequest : decoder VoteRequest := decode_struct (in_fields [
  ("term"%string, λ j '(mkVoteRequest t c i l), t ← decode_uint64 t j; Some (mkVoteRequest t c i l));
  ("candidate_id"%string, λ j '(mkVoteRequest t c i l), c ← decode_string c j; Some (mkVoteRequest t c i l));
  ("last_log_entry_index"%string, λ j '(mkVoteRequest t c i l),
     i ← decode_uint64 i j; Some (mkVoteRequest t c i l));
  ("last_log_entry_term"%string, λ j '(mkVoteRequest t c i l),
     l ← decode_uint64 l j; Some (mkVoteRequest t c i l))]).

Definition decode_VoteResponse : decoder (Z * bool) := decode_struct (in_fields [
  ("term"%string, λ j '(t, g), t ← decode_uint64 t j; Some (t, g));
  ("vote_granted"%string, λ j '(t, g), g ← decode_bool g j; Some (t, g))]).

Abbreviation WireSnapshot := (InstallSnapshotRequest (Buffer byte)).

Definition zero_InstallSnapshotRequest : WireSnapshot := mkInstallSnapshotRequest 0 "" 0 0 empty_buffer.

Definition decode_InstallSnapshotRequest : decoder WireSnapshot := decode_struct (in_fields [
  ("term"%string, λ j '(mkInstallSnapshotRequest t l i p d),
     t ← decode_uint64 t j; Some (mkInstallSnapshotRequest t l i p d));
  ("leader_id"%string, λ j '(mkInstallSnapshotRequest t l i p d),
     l ← decode_string l j; Some (mkInstallSnapshotRequest t l i p d));
  ("last_included_index"%string, λ j '(mkInstallSnapshotRequest t l i p d),
     i ← decode_uint64 i j; Some (mkInstallSnapshotRequest t l i p d));
  ("last_included_term"%string, λ j '(mkInstallSnapshotRequest t l i p d),
     p ← decode_uint64 p j; Some (mkInstallSnapshotRequest t l i p d));
  ("data"%string, λ j '(mkInstallSnapshotRequest t l i p d),
     d ← decode_bytes d j; Some (mkInstallSnapshotRequest t l i p d))]).

Definition decode_InstallSnapshotResponse : decoder Z := decode_struct (in_fields [
  ("term"%string, λ j t, decode_uint64 t j)]).

Create HintDb codec discriminated.

(** ** Round trips *)
Lemma unsextet_sextet v : 0 <= v < 64 → unsextet (sextet v) = Some v ∧ Byte.eqb (sextet v) x3d = false ∧
  (Byte.eqb (sextet v) x0a || Byte.eqb (sextet v) x0d = false) ∧ byte_in 0 127 (sextet v) = true.
Proof.
  intros Hv.
  assert (Forall (λ n, unsextet (sextet (Z.of_nat n)) = Some (Z.of_nat n) ∧
    Byte.eqb (sextet (Z.of_nat n)) x3d = false ∧
    (Byte.eqb (sextet (Z.of_nat n)) x0a || Byte.eqb (sextet (Z.of_nat n)) x0d = false) ∧
    byte_in 0 127 (sextet (Z.of_nat n)) = true) (seq 0 64)) as Hall.
  { cbn [seq]. repeat constructor. }
  rewrite list.Forall_forall in Hall. specialize (Hall (Z.to_nat v)).
  rewrite Z2Nat.id in Hall by lia. apply Hall, elem_of_seq. lia.
Qed.

(** Induction over the groups of three. *)
Lemma triples_ind {A} (P : list A → Prop) : P [] → (∀ a, P [a]) → (∀ a b, P [a; b]) →
  (∀ a b c s, P s → P (a :: b :: c :: s)) → ∀ s, P s.
Proof.
  intros H0 H1 H2 H3. fix IH 1. intros [|a [|b [|c s]]]; [done..|]. apply H3, IH.
Qed.

Lemma sextets_of a b c : 0 <= a < 256 → 0 <= b < 256 → 0 <= c < 256 →
  0 <= a / 4 < 64 ∧ 0 <= a mod 4 * 16 + b / 16 < 64 ∧ 0 <= b mod 16 * 4 + c / 64 < 64 ∧ 0 <= c mod 64 < 64.
Proof. intros. Z.to_euclidean_division_equations. lia. Qed.

Lemma byte_of_Z_mod z b : z mod 256 = Z_of_byte b → byte_of_Z z = b.
Proof. intros Hz. apply Z_of_byte_inj. by rewrite Z_of_byte_of_Z. Qed.

Lemma joined_1 a r : 0 <= a < 256 → 0 <= r < 16 → (a / 4 * 4 + (a mod 4 * 16 + r) / 16) mod 256 = a.
Proof. intros. Z.to_euclidean_division_equations. lia. Qed.
Lemma joined_2 p b r : 0 <= b < 256 → 0 <= r < 4 → ((p * 16 + b / 16) * 16 + (b mod 16 * 4 + r) / 4) mod 256 = b.
Proof. intros. Z.to_euclidean_division_equations. lia. Qed.
Lemma joined_3 p c : 0 <= c < 256 → ((p * 4 + c / 64) * 64 + c mod 64) mod 256 = c.
Proof. intros. Z.to_euclidean_division_equations. lia. Qed.

Lemma unbase64_groups_base64 s : unbase64_groups (base64 s) = Some s.
Proof.
  induction s as [|a|a b|a b c s IH] using triples_ind; [done|..];
    pose proof (Z_of_byte_range a) as Ha; cbn [base64 unbase64_groups].
  - destruct (sextets_of (Z_of_byte a) 0 0) as (H1 & H2 & _); [lia..|]. rewrite Z.add_0_r in H2.
    destruct (unsextet_sextet _ H1) as (-> & _), (unsextet_sextet _ H2) as (-> & _). cbn.
    do 2 f_equal. apply byte_of_Z_mod. rewrite <- (Z.add_0_r (_ * 16)). by apply joined_1.
  - pose proof (Z_of_byte_range b) as Hb.
    destruct (sextets_of (Z_of_byte a) (Z_of_byte b) 0) as (H1 & H2 & H3 & _); [lia..|].
    rewrite Z.add_0_r in H3.
    destruct (unsextet_sextet _ H1) as (-> & _), (unsextet_sextet _ H2) as (-> & _).
    destruct (unsextet_sextet _ H3) as (E3 & N3 & _). cbn. rewrite N3, E3. cbn.
    do 3 f_equal; apply byte_of_Z_mod; [apply joined_1; [done|]|].
    + split; [apply Z.div_pos; lia|apply Z.div_lt_upper_bound; lia].
    + rewrite <- (Z.add_0_r (Z_of_byte b mod 16 * 4)). by apply joined_2.
  - pose proof (Z_of_byte_range b) as Hb. pose proof (Z_of_byte_range c) as Hc.
    destruct (sextets_of (Z_of_byte a) (Z_of_byte b) (Z_of_byte c)) as (H1 & H2 & H3 & H4); [lia..|].
    destruct (unsextet_sextet _ H1) as (-> & _), (unsextet_sextet _ H2) as (-> & _).
    destruct (unsextet_sextet _ H3) as (E3 & N3 & _), (unsextet_sextet _ H4) as (E4 & N4 & _).
    cbn. rewrite N3, E3. cbn. rewrite N4, E4. cbn. rewrite IH. cbn.
    do 2 f_equal; [|f_equal; [|f_equal]]; apply byte_of_Z_mod;
      [apply joined_1|apply joined_2|apply joined_3]; try done;
      (split; [apply Z.div_pos; lia|apply Z.div_lt_upper_bound; lia]).
Qed.

Lemma base64_chars s : Forall (λ b, (Byte.eqb b x0a || Byte.eqb b x0d = false) ∧ byte_in 0 127 b = true) (base64 s).
Proof.
  assert (∀ v, 0 <= v < 64 → (Byte.eqb (sextet v) x0a || Byte.eqb (sextet v) x0d = false) ∧
    byte_in 0 127 (sextet v) = true) as Hs by (intros v Hv; by destruct (unsextet_sextet v Hv) as (_ & _ & ? & ?)).
  induction s as [|a|a b|a b c s IH] using triples_ind; [by constructor|..];
    pose proof (Z_of_byte_range a) as Ha; cbn [base64].
  - destruct (sextets_of (Z_of_byte a) 0 0) as (H1 & H2 & _); [lia..|]. rewrite Z.add_0_r in H2.
    repeat constructor; by apply Hs.
  - pose proof (Z_of_byte_range b) as Hb.
    destruct (sextets_of (Z_of_byte a) (Z_of_byte b) 0) as (H1 & H2 & H3 & _); [lia..|].
    rewrite Z.add_0_r in H3. repeat constructor; by apply Hs.
  - pose proof (Z_of_byte_range b) as Hb. pose proof (Z_of_byte_range c) as Hc.
    destruct (sextets_of (Z_of_byte a) (Z_of_byte b) (Z_of_byte c)) as (H1 & H2 & H3 & H4); [lia..|].
    repeat (apply Forall_cons; [by apply Hs|]). exact IH.
Qed.

Lemma unbase64_base64 s : unbase64 (base64 s) = Some s.
Proof.
  unfold unbase64. rewrite filter_all; [apply unbase64_groups_base64|].
  eapply list.Forall_impl; [apply base64_chars|]. by intros b [].
Qed.

(** Strings of ASCII characters are valid. *)
Lemma ascii_valid s : Forall (λ b, byte_in 0 127 b = true) s → utf8_valid s = true.
Proof.
  intros Hs. unfold utf8_valid, utf8_runes. induction Hs as [|b s Hb Hs IH]; [done|].
  cbn [length runes rune_len]. rewrite Hb. cbn [drop take forallb]. by rewrite bool_decide_true by by eexists.
Qed.

Lemma base64_clean l : to_valid (base64 l) = base64 l.
Proof.
  apply to_valid_id, ascii_valid. eapply list.Forall_impl; [apply base64_chars|]. by intros b [].
Qed.

Lemma decode_JUint old z : is_u64 z → decode_uint64 old (JUint z) = Some z.
Proof. apply ParseUint_print. Qed.

Lemma writable_JUint z : is_u64 z → writable (JUint z).
Proof. intros Hz. by exists z. Qed.

Lemma decode_JText old s : decode_string old (JText s) = Some s.
Proof. cbn. by rewrite bytes_string_bytes. Qed.

Lemma decode_JBool old b : decode_bool old (JBool b) = Some b.
Proof. done. Qed.

Lemma decode_JBytes old l : decode_bytes old (JBytes l) = Some (mkBuffer l (length l)).
Proof. cbn. by rewrite unbase64_base64. Qed.

Lemma contents_full {A} (l : list A) : contents (mkBuffer l (length l)) = l.
Proof. unfold contents. cbn. by rewrite take_ge. Qed.

(** One member at a time: the key picks its field. *)
Lemma in_fields_hit {A} name store fs key j (a : A) : is_key name key = true →
  in_fields ((name, store) :: fs) key j a = store j a.
Proof. intros Hk. cbn. by rewrite Hk. Qed.

Lemma in_fields_miss {A} name store fs key j (a : A) : is_key name key = false →
  in_fields ((name, store) :: fs) key j a = in_fields fs key j a.
Proof. intros Hk. cbn. by rewrite Hk. Qed.

Ltac codec_fields :=
  cbn [decode_struct obj fmap list_fmap prod_map foldl fst snd id mbind option_bind];
  repeat (first [rewrite in_fields_hit by reflexivity | rewrite in_fields_miss by reflexivity];
    cbn [mbind option_bind id]; rewrite ?decode_JUint, ?decode_JText, ?decode_JBytes, ?decode_JBool by assumption;
    cbn [mbind option_bind]).

Lemma writable_obj m : Forall (λ p, writable p.2) m → writable (obj m).
Proof. intros Hm. apply writable_object, List.Forall_map. exact Hm. Qed.

Lemma writable_JBytes l : writable (JBytes l).
Proof. done. Qed.

Lemma writable_JText s : writable (JText s).
Proof. done. Qed.

Lemma writable_JBool b : writable (JBool b).
Proof. done. Qed.

Lemma writable_JNull : writable JNull.
Proof. done. Qed.

#[export] Hint Resolve writable_JUint writable_JBytes writable_JText writable_JBool writable_JNull : codec.

(** The keys of the messages are ASCII. *)
Lemma clean_obj m : Forall (λ p : string * json, utf8_valid (string_bytes p.1) = true) m →
  clean (obj m) = obj (prod_map id clean <$> m).
Proof.
  intros Hm. unfold obj. cbn [clean]. f_equal. rewrite <- list_fmap_compose.
  change (map ?f (?g <$> m)) with (f <$> (g <$> m)). rewrite <- list_fmap_compose.
  apply list_fmap_ext. intros i [k j] Hi. cbn. f_equal. apply to_valid_id.
  apply (proj1 (list.Forall_lookup _ _) Hm i _ Hi).
Qed.

Lemma clean_JText s : clean (JText s) = JText (wire_string s).
Proof. unfold JText, wire_string. cbn. by rewrite string_bytes_string. Qed.

Lemma clean_JBytes l : clean (JBytes l) = JBytes l.
Proof. unfold JBytes. cbn. by rewrite base64_clean. Qed.

Lemma clean_JUint z : clean (JUint z) = JUint z.
Proof. done. Qed.

Lemma clean_JBool b : clean (JBool b) = JBool b.
Proof. done. Qed.

Lemma clean_JNull : clean JNull = JNull.
Proof. done. Qed.

Ltac codec_clean :=
  rewrite clean_obj by (repeat first [apply Forall_nil | apply Forall_cons; [reflexivity|]]);
  cbn [fmap list_fmap prod_map fst snd id]; rewrite ?clean_JText, ?clean_JBytes, ?clean_JUint, ?clean_JBool, ?clean_JNull; reflexivity.

Ltac codec_writable :=
  apply writable_obj; repeat first [apply Forall_nil | apply Forall_cons];
    cbn [snd]; auto with codec.

(** An entry in the range of its Go types. *)
Definition sendable_entry (e : LogEntry) : Prop := is_u64 (Term e) ∧ is_u64 (SequenceNumber e).

Lemma clean_LogEntry e : clean (json_LogEntry e) = json_LogEntry (wired e).
Proof. unfold json_LogEntry. codec_clean. Qed.

Lemma wired_sendable e : sendable_entry e → sendable_entry (wired e).
Proof. done. Qed.

Definition wire_entry (e : LogEntry) : WireEntry :=
  mkWireEntry (mkBuffer (Data e) (length (Data e))) (Term e) (ClientId e) (SequenceNumber e).

Lemma entry_of_wire e : entry_of (wire_entry e) = e.
Proof. destruct e. unfold entry_of, wire_entry. cbn [we_Data]. by rewrite contents_full. Qed.

Lemma decode_json_LogEntry e : sendable_entry e →
  decode_LogEntry zero_WireEntry (json_LogEntry e) = Some (wire_entry e).
Proof.
  intros [Ht Hn]. unfold decode_LogEntry, json_LogEntry, zero_WireEntry. codec_fields. done.
Qed.

Lemma writable_LogEntry e : sendable_entry e → writable (json_LogEntry e).
Proof. intros [Ht Hn]. unfold json_LogEntry. codec_writable. Qed.

Lemma decode_elements_entries es : Forall sendable_entry es →
  decode_elements decode_LogEntry zero_WireEntry [] (json_LogEntry <$> es) = Some (wire_entry <$> es).
Proof.
  induction 1 as [|e es He Hes IH]; [done|]. rewrite !fmap_cons. cbn [decode_elements head tail default].
  rewrite decode_json_LogEntry by done. cbn. by rewrite IH.
Qed.

Lemma decode_json_entries es : Forall sendable_entry (default [] es) →
  ∃ b, decode_slice decode_LogEntry zero_WireEntry empty_buffer (json_slice json_LogEntry es) = Some b ∧
    entry_of <$> contents b = default [] es.
Proof.
  destruct es as [es|]; cbn [default json_slice decode_slice]; [|by eexists].
  intros Hes. pose proof (decode_elements_entries es Hes) as Hd.
  destruct es as [|e es]; [by eexists|]. rewrite fmap_cons in *. cbn [decode_slice empty_buffer backing].
  rewrite Hd. eexists. split; [done|]. rewrite fmap_cons.
  replace (length (json_LogEntry e :: _)) with (length (wire_entry e :: (wire_entry <$> es)))
    by (cbn; by rewrite !length_fmap).
  rewrite contents_full, <- fmap_cons, <- list_fmap_compose. rewrite <- (list_fmap_id (e :: es)) at 2.
  apply list_fmap_ext. intros. apply entry_of_wire.
Qed.

(** A marshalled message of a few levels is decoded to its value, and nothing
    follows it. *)
Lemma depth_obj m d : Forall (λ p, depth p.2 ≤ d)%nat m → (depth (obj m) ≤ S d)%nat.
Proof.
  intros Hm. cbn [obj depth]. apply le_n_S, list_max_le, List.Forall_map. exact Hm.
Qed.

Lemma clean_bracket j : closed_by_bracket (clean j) = closed_by_bracket j.
Proof. by destruct j. Qed.

Lemma Decode_print {A} (dec : decoder A) zero j v b : writable j → (depth j ≤ 3)%nat →
  dec zero (clean j) = Some v → Decode dec zero (mkBody (print j) b) = if b && negb (closed_by_bracket j) then None
    else Some (v, mkBody [] b).
Proof.
  intros Hw Hd Hv. unfold Decode. cbn [content broken].
  rewrite <- (app_nil_r (print j)), parse_print;
    [|done|etrans; [exact Hd|]; by apply Nat.leb_le; vm_compute|done].
  cbn [mbind option_bind]. rewrite bool_decide_true, andb_true_r, Hv by done.
  rewrite clean_bracket. by destruct (b && _).
Qed.

Ltac codec_depth :=
  apply depth_obj; repeat first [apply Forall_nil | apply Forall_cons]; cbn [snd depth JUint JText JBytes]; lia.

Definition sendable_append (r : AppendEntriesRequest (slice LogEntry)) : Prop :=
  is_u64 (ae_Term r) ∧ is_u64 (ae_PrevLogEntryIndex r) ∧
  is_u64 (ae_PrevLogEntryTerm r) ∧ Forall sendable_entry (default [] (ae_LogEntries r)) ∧
  is_u64 (ae_LeaderCommitIndex r).

Lemma entries_writable es : Forall sendable_entry (default [] es) →
  writable (json_slice json_LogEntry es) ∧ (depth (json_slice json_LogEntry es) ≤ 2)%nat.
Proof.
  destruct es as [es|]; [|split; [done|cbn; lia]]. cbn [default json_slice]. intros Hes. split.
  - apply writable_array, List.Forall_map. eapply list.Forall_impl; [exact Hes|]. apply writable_LogEntry.
  - cbn [depth]. apply le_n_S, list_max_le, List.Forall_map. apply list.Forall_forall. intros e _.
    unfold json_LogEntry. codec_depth.
Qed.

Lemma clean_entries es :
  clean (json_slice json_LogEntry es) = json_slice json_LogEntry (option_map (map wired) es).
Proof.
  destruct es as [es|]; [|done]. cbn. f_equal. change (map ?f ?l) with (f <$> l).
  rewrite <- !list_fmap_compose. apply list_fmap_ext. intros i e _. apply clean_LogEntry.
Qed.

Lemma wired_entries_sendable (es : slice LogEntry) : Forall sendable_entry (default [] es) →
  Forall sendable_entry (default [] (option_map (map wired) es)).
Proof. destruct es as [es|]; [|done]. cbn. intros Hes. by apply List.Forall_map. Qed.

Lemma AppendEntriesRequest_roundtrip r b : sendable_append r →
  ∃ w, Decode decode_AppendEntriesRequest zero_AppendEntriesRequest
         (mkBody (print (json_AppendEntriesRequest r)) b) = Some (w, mkBody [] b) ∧
    ae_Term w = ae_Term r ∧ ae_LeaderId w = wire_string (ae_LeaderId r) ∧
    ae_PrevLogEntryIndex w = ae_PrevLogEntryIndex r ∧ ae_PrevLogEntryTerm w = ae_PrevLogEntryTerm r ∧
    ae_LeaderCommitIndex w = ae_LeaderCommitIndex r ∧
    received_entries w = wired <$> default [] (ae_LogEntries r).
Proof.
  destruct r as [t l i p es c]. intros (Ht & Hi & Hp & Hes & Hc). cbn in Ht, Hi, Hp, Hes, Hc.
  destruct (decode_json_entries (option_map (map wired) es)) as (buf & Hbuf & Hent); [by apply wired_entries_sendable|].
  destruct (entries_writable es Hes) as [Hw Hd].
  exists (mkAppendEntriesRequest t (wire_string l) i p buf c).
  split; [|split_and!; [done..|]; unfold received_entries; cbn; rewrite Hent; by destruct es].
  rewrite Decode_print with (v := mkAppendEntriesRequest t (wire_string l) i p buf c).
  - cbn [json_AppendEntriesRequest obj closed_by_bracket negb]. by rewrite andb_false_r.
  - unfold json_AppendEntriesRequest. codec_writable.
  - unfold json_AppendEntriesRequest. apply depth_obj.
    repeat first [apply Forall_nil | apply Forall_cons]; cbn [snd ae_LogEntries]; first [exact Hd | cbn; lia].
  - assert (clean (json_AppendEntriesRequest (mkAppendEntriesRequest t l i p es c))
      = json_AppendEntriesRequest (mkAppendEntriesRequest t (wire_string l) i p (option_map (map wired) es) c)) as ->.
    { unfold json_AppendEntriesRequest. cbn [ae_LogEntries ae_Term ae_LeaderId ae_PrevLogEntryIndex
        ae_PrevLogEntryTerm ae_LeaderCommitIndex]. rewrite <- clean_entries. codec_clean. }
    unfold decode_AppendEntriesRequest, json_AppendEntriesRequest, zero_AppendEntriesRequest.
    cbn [ae_Term ae_LeaderId ae_PrevLogEntryIndex ae_PrevLogEntryTerm ae_LogEntries ae_LeaderCommitIndex].
    codec_fields. rewrite Hbuf. cbn [mbind option_bind]. codec_fields. done.
Qed.

(** The other messages have no slice of structs. *)
Lemma Decode_obj {A} (dec : decoder A) zero m m' v b : writable (obj m) → (depth (obj m) ≤ 1)%nat →
  clean (obj m) = obj m' → dec zero (obj m') = Some v →
  Decode dec zero (mkBody (print (obj m)) b) = Some (v, mkBody [] b).
Proof.
  intros Hw Hd Hc Hv. rewrite (Decode_print dec zero (obj m) v) by (rewrite ?Hc; done || lia).
  cbn [obj closed_by_bracket negb]. by rewrite andb_false_r.
Qed.

Lemma AppendEntriesResponse_roundtrip r b :
  is_u64 (ar_term r) → is_u64 (ar_conflictIndex r) → is_u64 (ar_conflictTerm r) →
  Decode decode_AppendEntriesResponse zero_AppendEntriesResponse
    (mkBody (print (json_AppendEntriesResponse r)) b) = Some (r, mkBody [] b).
Proof.
  destruct r as [t s i c]. intros Ht Hi Hc. cbn in Ht, Hi, Hc. unfold json_AppendEntriesResponse.
  eapply Decode_obj; [codec_writable|codec_depth|codec_clean|].
  unfold decode_AppendEntriesResponse, zero_AppendEntriesResponse.
  cbn [ar_term ar_success ar_conflictIndex ar_conflictTerm]. codec_fields. done.
Qed.

Lemma VoteRequest_roundtrip t id i j b : is_u64 t → is_u64 i → is_u64 j →
  Decode decode_VoteRequest zero_VoteRequest (mkBody (print (json_VoteRequest (mkVoteRequest t id i j))) b)
  = Some (mkVoteRequest t (wire_string id) i j, mkBody [] b).
Proof.
  intros Ht Hi Hj. unfold json_VoteRequest.
  eapply Decode_obj; [codec_writable|codec_depth|codec_clean|]. unfold decode_VoteRequest, zero_VoteRequest.
  cbn [vr_Term vr_CandidateID vr_LastLogEntryIndex vr_LastLogEntryTerm]. codec_fields. done.
Qed.

Lemma VoteResponse_roundtrip r b : is_u64 r.1 →
  Decode decode_VoteResponse (0, false) (mkBody (print (json_VoteResponse r)) b) = Some (r, mkBody [] b).
Proof.
  destruct r as [t g]. intros Ht. cbn in Ht. unfold json_VoteResponse.
  eapply Decode_obj; [codec_writable|codec_depth|codec_clean|]. unfold decode_VoteResponse. cbn [fst snd].
  codec_fields. done.
Qed.

Lemma InstallSnapshotRequest_roundtrip r b : is_u64 (is_Term r) →
  is_u64 (is_LastIncludedIndex r) → is_u64 (is_LastIncludedTerm r) →
  ∃ w, Decode decode_InstallSnapshotRequest zero_InstallSnapshotRequest
         (mkBody (print (json_InstallSnapshotRequest r)) b) = Some (w, mkBody [] b) ∧
    is_Term w = is_Term r ∧ is_LeaderId w = wire_string (is_LeaderId r) ∧
    is_LastIncludedIndex w = is_LastIncludedIndex r ∧ is_LastIncludedTerm w = is_LastIncludedTerm r ∧
    contents (is_Data w) = default [] (is_Data r).
Proof.
  destruct r as [t l i p d]. intros Ht Hi Hp. cbn in Ht, Hi, Hp. unfold json_InstallSnapshotRequest.
  exists (mkInstallSnapshotRequest t (wire_string l) i p
            (match d with None => empty_buffer | Some d => mkBuffer d (length d) end)).
  split; [|destruct d; repeat split; apply contents_full].
  destruct d as [d|]; cbn [is_Data json_bytes is_Term is_LeaderId is_LastIncludedIndex is_LastIncludedTerm];
    (eapply Decode_obj; [codec_writable|codec_depth|codec_clean|]);
    unfold decode_InstallSnapshotRequest, zero_InstallSnapshotRequest; codec_fields; reflexivity.
Qed.

Lemma InstallSnapshotResponse_roundtrip t b : is_u64 t →
  Decode decode_InstallSnapshotResponse 0 (mkBody (print (json_InstallSnapshotResponse t)) b)
  = Some (t, mkBody [] b).
Proof.
  intros Ht. unfold json_InstallSnapshotResponse. eapply Decode_obj; [codec_writable|codec_depth|codec_clean|].
  unfold decode_InstallSnapshotResponse. codec_fields. done.
Qed.

(** The responses fit into the limit the transport reads. *)
Lemma length_separated_le l n : Forall (λ x : bytes, length x ≤ n)%nat l →
  (length (separated l) ≤ length l * S n)%nat.
Proof.
  induction 1 as [|x l Hx Hl IH]; [cbn; lia|]. destruct l as [|y l].
  - unfold separated. cbn. rewrite length_app. cbn. lia.
  - rewrite separated_cons, length_app. cbn [length] in *. lia.
Qed.

Definition small_member (p : string * json) : Prop :=
  (length (quote (string_bytes p.1)) ≤ 30 ∧ length (print p.2) ≤ 20)%nat.

Lemma length_print_obj m : Forall small_member m → (length m ≤ 4)%nat →
  Z.of_nat (length (print (obj m))) < 1048576.
Proof.
  intros Hm Hlen. cbn [obj print length]. rewrite length_app.
  assert (length (separated (map (λ p, quote p.1 ++ x3a :: print p.2) (prod_map string_bytes id <$> m)))
    ≤ length m * 52)%nat as Hs.
  { etrans; [apply (length_separated_le _ 51)|].
    - apply List.Forall_map, List.Forall_map. eapply list.Forall_impl; [exact Hm|].
      intros [k v] [Hk Hv]. cbn [fst snd] in Hk, Hv. cbn [prod_map fst snd id].
      rewrite length_app. cbn [length]. lia.
    - by rewrite length_map, length_fmap. }
  cbn [length]. lia.
Qed.

Lemma small_JUint k z : (length (quote (string_bytes k)) ≤ 30)%nat → small_member (k, JUint z).
Proof. intros Hk. split; [done|]. apply length_print_uint. Qed.

Lemma small_JBool k b : (length (quote (string_bytes k)) ≤ 30)%nat → small_member (k, JBool b).
Proof. intros Hk. split; [done|]. destruct b; cbn; lia. Qed.

Lemma limit_id n s b : Z.of_nat (length s) < n → limit n (mkBody s b) = mkBody s b.
Proof.
  intros Hs. unfold limit. cbn [content broken]. rewrite take_ge by lia.
  destruct (Z.ltb_spec (Z.of_nat (length s)) n); [by rewrite andb_true_r|lia].
Qed.
