(* ===== verification/Transport.v ===== *)
(** transport.go: the remote calls of a node over HTTP.  The network is a
    parameter: [NewRequest] says which URLs are refused, [Do] is what happens to
    a request, as a computation over the state [W] of whatever answers.  The
    time-outs, connection limits and the draining of bodies are part of [Do]. *)
From S2P Require Import Prelude GoMonad LogEntry Snapshot GoLog Fsm Node Follower Raft Cluster Json Codec.
Local Open Scope Z_scope.

(** Every request is a POST. *)
Record HttpRequest := mkHttpRequest { rq_URL : string; rq_ContentType : string; rq_Body : bytes }.
Record HttpResponse := mkHttpResponse { rs_StatusCode : Z; rs_Body : Body }.

Definition StatusOK : Z := 200.
Definition maxBody : Z := Z.shiftl 1 20.

(** *** [any] values from JSON

    An object becomes a map: the last of equal keys counts, and marshalling
    orders the keys.  A number is kept as it was written (in Go it is a
    [float64]; no result of this program holds one). *)
Fixpoint bytes_ltb (a b : bytes) : bool :=
  match a, b with
  | _, [] => false
  | [], _ => true
  | x :: a, y :: b =>
      (Z_of_byte x <? Z_of_byte y) || ((Z_of_byte x =? Z_of_byte y) && bytes_ltb a b)
  end.

Fixpoint map_put (k : bytes) (v : json) (m : list (bytes * json)) : list (bytes * json) :=
  match m with
  | [] => [(k, v)]
  | (k', v') :: m =>
      if bytes_ltb k k' then (k, v) :: (k', v') :: m
      else if bool_decide (k = k') then (k, v) :: m
      else (k', v') :: map_put k v m
  end.

Fixpoint any_of_json (j : json) : json :=
  match j with
  | JArray l => JArray (map any_of_json l)
  | JObject m => JObject (fold_left (λ acc p, map_put p.1 (any_of_json p.2) acc) m [])
  | j => j
  end.

Definition decode_any : decoder json := λ _ j, Some (any_of_json j).

Definition decode_result : decoder json := decode_struct (in_fields [("result"%string, λ j a, decode_any a j)]).

Section transport.
Context {W : Type} (NewRequest : string → option error).
Context (Do : HttpRequest → GoM W (error + HttpResponse)).

Definition rpc_url (node path : string) : string := "http://" +:+ node +:+ "/rpc/" +:+ path.

(** [http.NewRequestWithContext], the header, [t.client.Do]. *)
Definition post (url contentType : string) (data : bytes) : GoM W (error + HttpResponse) :=
  match NewRequest url with
  | Some err => mret (inl err)
  | None => Do (mkHttpRequest url contentType data)
  end.

(** Status, limited body, one JSON value and nothing after it. *)
Definition read_reply {A} (dec : decoder A) (zero : A) (response : HttpResponse) : option A :=
  if negb (rs_StatusCode response =? StatusOK) then None
  else
    match Decode dec zero (limit maxBody (rs_Body response)) with
    | None => None
    | Some (reply, rest) => if More rest then None else Some reply
    end.

Definition Transport__AppendEntries (node : string) (term : Z) (leaderId : string)
    (prevLogEntryIndex prevLogEntryTerm : Z) (logEntries : slice LogEntry) (leaderCommitIndex : Z)
    : GoM W AppendReply :=
  let data := print (json_AppendEntriesRequest (mkAppendEntriesRequest term leaderId
    prevLogEntryIndex prevLogEntryTerm logEntries leaderCommitIndex)) in
  response ← post (rpc_url node "append-entries") "application/json" data;
  mret match response with
       | inl _ => AppendEntries_failed term
       | inr response =>
           default (AppendEntries_failed term)
             (read_reply decode_AppendEntriesResponse zero_AppendEntriesResponse response)
       end.

Definition Transport__PreVote (node : string) (term : Z) (candidateId : string)
    (lastLogEntryIndex lastLogEntryTerm : Z) : GoM W (Z * bool) :=
  let data := print (json_VoteRequest (mkVoteRequest term candidateId lastLogEntryIndex lastLogEntryTerm)) in
  response ← post (rpc_url node "pre-vote") "application/json" data;
  mret match response with
       | inl _ => PreVote_failed term
       | inr response => default (PreVote_failed term) (read_reply decode_VoteResponse (0, false) response)
       end.

Definition Transport__RequestVote (node : string) (term : Z) (candidateId : string)
    (lastLogEntryIndex lastLogEntryTerm : Z) : GoM W (Z * bool) :=
  let data := print (json_VoteRequest (mkVoteRequest term candidateId lastLogEntryIndex lastLogEntryTerm)) in
  response ← post (rpc_url node "request-vote") "application/json" data;
  mret match response with
       | inl _ => RequestVote_failed term
       | inr response => default (RequestVote_failed term) (read_reply decode_VoteResponse (0, false) response)
       end.

(** The reply to a snapshot is neither limited nor checked for what follows. *)
Definition Transport__InstallSnapshot (node : string) (term : Z) (leaderId : string)
    (lastIncludedIndex lastIncludedTerm : Z) (data : slice byte) : GoM W Z :=
  let body := print (json_InstallSnapshotRequest (mkInstallSnapshotRequest term leaderId
    lastIncludedIndex lastIncludedTerm data)) in
  response ← post (rpc_url node "install-snapshot") "application/json" body;
  mret match response with
       | inl _ => InstallSnapshot_failed term
       | inr response =>
           if negb (rs_StatusCode response =? StatusOK) then InstallSnapshot_failed term
           else
             match Decode decode_InstallSnapshotResponse 0 (rs_Body response) with
             | None => InstallSnapshot_failed term
             | Some (reply, _) => reply
             end
       end.

(** The text of a decoding error is not modelled. *)
Definition Transport__Propose (node : string) (data : bytes) : GoM W (json * option error) :=
  response ← post (rpc_url node "propose") "application/octet-stream" data;
  mret match response with
       | inl err => (JNull, Some err)
       | inr response =>
           if negb (rs_StatusCode response =? StatusOK)
           then (JNull, Some (ErrFmt "propose forwarding failed: status %d" [rs_StatusCode response]))
           else
             match Decode decode_result JNull (limit maxBody (rs_Body response)) with
             | None => (JNull, Some (ErrNew "json"))
             | Some (result, rest) => if More rest then (JNull, None) else (result, None)
             end
       end.

(** The call a goroutine makes ([sendPreVote], [sendRequestVote],
    [sendAppendEntriesToNode], [sendInstallSnapshotToNode]); [no_entries] is the
    empty slice the leader has when there is nothing to send, nil or not. *)
Definition slice_of {A} (empty : slice A) (l : list A) : slice A :=
  match l with [] => empty | _ => Some l end.

Definition transport_call (no_entries : slice LogEntry) (t : Task) (sn : option Snapshot)
    : option (GoM W Reply) :=
  match t with
  | GoSendPreVote _ node term candidateId i j =>
      Some (p ← Transport__PreVote node (u64 (term + 1)) candidateId i j; mret (PreVoteResponse p.1 p.2))
  | GoSendRequestVote _ node term candidateId i j =>
      Some (p ← Transport__RequestVote node term candidateId i j; mret (RequestVoteResponse p.1 p.2))
  | GoSendAppendEntries _ node term leaderId i j es c =>
      Some (r ← Transport__AppendEntries node term leaderId i j (slice_of no_entries es) c;
            mret (AppendEntriesResponse r))
  | GoSendInstallSnapshot _ node term leaderId =>
      sn ← sn;
      Some (r ← Transport__InstallSnapshot node term leaderId
                  (LastIncludedIndex sn) (LastIncludedTerm sn) (Some (sn_Data sn));
            mret (InstallSnapshotResponse r))
  | GoApplier _ => None
  end.
End transport.
