(* ===== verification/Server.v ===== *)
(** main.go: the addresses of a node, its HTTP routes, start and the events of
    its life.  gin is a parameter ([Gin]) with the behaviour its documentation
    states as laws ([GinLaws]); [plain_gin] is an instance.

    Main result: a remote call whose request and reply the network carries is
    exactly the step [serve] of the cluster, and one it loses is [failed_reply]. *)
From S2P Require Import Prelude GoMonad FileSystem LogEntry Store Snapshot Session Config GoLog Log Fsm Node Roles Follower Leader Candidate Raft Demo Frame Election Campaign Cluster ElectionSafety Persistence Replication Matching History LogMatching Range Json Codec Transport.
Local Open Scope Z_scope.

(** ** Addresses *)

(** [strings.TrimSpace]: the white space of [unicode.IsSpace], as bytes. *)
Definition space_runes : list bytes :=
  [[x09]; [x0a]; [x0b]; [x0c]; [x0d]; [x20]; [xc2; x85]; [xc2; xa0]; [xe1; x9a; x80];
   [xe2; x80; x80]; [xe2; x80; x81]; [xe2; x80; x82]; [xe2; x80; x83]; [xe2; x80; x84];
   [xe2; x80; x85]; [xe2; x80; x86]; [xe2; x80; x87]; [xe2; x80; x88]; [xe2; x80; x89];
   [xe2; x80; x8a]; [xe2; x80; xa8]; [xe2; x80; xa9]; [xe2; x80; xaf]; [xe2; x81; x9f];
   [xe3; x80; x80]].

Fixpoint first_some {A B} (f : A → option B) (l : list A) : option B :=
  match l with
  | [] => None
  | x :: l => match f x with Some y => Some y | None => first_some f l end
  end.

(** Drop leading runes of [set]. *)
Fixpoint trim_left (set : list bytes) (fuel : nat) (s : bytes) : bytes :=
  match fuel with
  | O => s
  | S fuel =>
      match first_some (λ p, expect p s) set with
      | Some s => trim_left set fuel s
      | None => s
      end
  end.

Definition TrimSpace (s : string) : string :=
  let b := string_bytes s in
  let left := trim_left space_runes (length b) b in
  bytes_string (reverse (trim_left (reverse <$> space_runes) (length left) (reverse left))).

(** [strings.Split(s, ",")] *)
Fixpoint split_comma (s : bytes) : list bytes :=
  match s with
  | [] => [[]]
  | b :: s =>
      if Byte.eqb b x2c then [] :: split_comma s
      else match split_comma s with w :: ws => (b :: w) :: ws | [] => [[b]] end
  end.

Definition Split (s : string) : list string := bytes_string <$> split_comma (string_bytes s).

(** [%d] of an [int] *)
Definition format_int (z : Z) : string :=
  bytes_string (if z <? 0 then x2d :: print_uint (- z) else print_uint z).

(** The command line, with the defaults of the flags. *)
Record Flags := mkFlags {
  flag_data : string;
  flag_bindHost : string;
  flag_nodes : string;
  flag_advertiseHost : string;
  flag_port : Z
}.

Definition default_flags : Flags :=
  mkFlags "data" "127.0.0.1" "127.0.0.1:8081,127.0.0.1:8082,127.0.0.1:8083" "" 8081.

Definition effectiveAdvertiseHost (f : Flags) : string :=
  let host := TrimSpace (flag_advertiseHost f) in
  if bool_decide (host = ""%string) then flag_bindHost f else host.

Definition bindAddr (f : Flags) : string := flag_bindHost f +:+ ":" +:+ format_int (flag_port f).
Definition advertiseAddr (f : Flags) : string :=
  effectiveAdvertiseHost f +:+ ":" +:+ format_int (flag_port f).
Definition peers (f : Flags) : list string := Split (flag_nodes f).

(** ** gin *)
Record Gin := mkGin {
  ShouldBindJSON : ∀ A, decoder A → A → Body → option A;
  c_JSON : Z → json → HttpResponse;
  recovery : HttpResponse  (* what the Recovery middleware of [gin.Default] sends after a panic *)
}.

(** ShouldBindJSON decodes the body with a JSON decoder; JSON sends the status
    and the marshalled value; Recovery sends a 500. *)
Class GinLaws (g : Gin) : Prop := {
  bind_decodes A (dec : decoder A) zero b v rest :
    Decode dec zero b = Some (v, rest) → ShouldBindJSON g A dec zero b = Some v;
  bind_fails A (dec : decoder A) zero b :
    Decode dec zero b = None → ShouldBindJSON g A dec zero b = None;
  json_sends code j : c_JSON g code j = mkHttpResponse code (mkBody (print j) false);
  recovery_sends : rs_StatusCode (recovery g) = 500
}.

Definition plain_gin : Gin := mkGin
  (λ A dec zero b, fst <$> Decode dec zero b)
  (λ code j, mkHttpResponse code (mkBody (print j) false))
  (mkHttpResponse 500 (mkBody [] false)).

#[global] Instance plain_gin_laws : GinLaws plain_gin.
Proof.
  split; [| |done..]; intros A dec zero b.
  - intros v rest Hd. cbn. by rewrite Hd.
  - intros Hd. cbn. by rewrite Hd.
Qed.

(** ** The routes *)
Section routes.
Context {L F : Type} `{GoLog L} `{FSM F} (g : Gin).
Abbreviation node := (Raft L F).
Abbreviation M := (RaftM L F).

Definition bad_request : HttpResponse := c_JSON g 400 (obj [("error", JText "bad request")]%string).
Definition message (m : string) : HttpResponse := c_JSON g StatusOK (obj [("message", JText m)]%string).

Definition rpc_append_entries (fuel : nat) (b : Body) : M HttpResponse :=
  match ShouldBindJSON g _ decode_AppendEntriesRequest zero_AppendEntriesRequest b with
  | None => mret bad_request
  | Some request =>
      r ← Raft__HandleAppendEntries fuel (ae_Term request) (ae_LeaderId request)
            (ae_PrevLogEntryIndex request) (ae_PrevLogEntryTerm request) (received_entries request)
            (ae_LeaderCommitIndex request);
      mret (c_JSON g StatusOK (json_AppendEntriesResponse r))
  end.

Definition rpc_pre_vote (b : Body) : M HttpResponse :=
  match ShouldBindJSON g _ decode_VoteRequest zero_VoteRequest b with
  | None => mret bad_request
  | Some request =>
      p ← Raft__HandlePreVote (vr_Term request) (vr_CandidateID request)
            (vr_LastLogEntryIndex request) (vr_LastLogEntryTerm request);
      mret (c_JSON g StatusOK (json_VoteResponse p))
  end.

Definition rpc_request_vote (fuel : nat) (b : Body) : M HttpResponse :=
  match ShouldBindJSON g _ decode_VoteRequest zero_VoteRequest b with
  | None => mret bad_request
  | Some request =>
      p ← Raft__HandleRequestVote fuel (vr_Term request) (vr_CandidateID request)
            (vr_LastLogEntryIndex request) (vr_LastLogEntryTerm request);
      mret (c_JSON g StatusOK (json_VoteResponse p))
  end.

Definition rpc_install_snapshot (b : Body) : M HttpResponse :=
  match ShouldBindJSON g _ decode_InstallSnapshotRequest zero_InstallSnapshotRequest b with
  | None => mret bad_request
  | Some request =>
      t ← Raft__HandleInstallSnapshot (is_Term request) (is_LeaderId request)
            (is_LastIncludedIndex request) (is_LastIncludedTerm request) (contents (is_Data request));
      mret (c_JSON g StatusOK (json_InstallSnapshotResponse t))
  end.

(** The results of a state machine in JSON. *)
Definition json_of_any (a : any) : json :=
  match a with
  | AnyNil => JNull
  | AnyUnit => JObject []
  | AnyBool b => JBool b
  | AnyBytes l => JBytes l
  end.

(** The end of both propose routes, once [raft.Propose] has returned. *)
Definition propose_response (result : json) (err : option error) : HttpResponse :=
  match err with
  | Some _ => bad_request
  | None => c_JSON g StatusOK (obj [("result", result)]%string)
  end.

(** A proposal is answered at once, or waits for another node or the applier. *)
Definition propose_route (data : bytes) : M (HttpResponse + proposal) :=
  p ← Raft__Propose data;
  mret match p with
       | ProposalDone result err => inl (propose_response (json_of_any result) err)
       | p => inr p
       end.

(** [/rpc/propose]: the body is the command. *)
Definition rpc_propose (b : Body) : M (HttpResponse + proposal) :=
  if broken b then mret (inl bad_request) else propose_route (content b).

(** [/propose]: the command is a fresh UUID. *)
Definition route_propose (uuid : string) : M (HttpResponse + proposal) := propose_route (string_bytes uuid).

Definition route_ping : HttpResponse := message "pong".
Definition route_disable : M HttpResponse := Raft__Disable;; mret (message "disabled").
Definition route_enable : M HttpResponse := Raft__Enable;; mret (message "enabled").

(** [Error] renders the error. *)
Definition route_snapshot (Error : error → string) : M HttpResponse :=
  err ← Raft__TakeSnapshot;
  mret match err with
       | Some e => c_JSON g 500 (obj [("error", JText (Error e))]%string)
       | None => message "snapshot taken"
       end.

(** A proposal that was forwarded ends with what the leader answered. *)
Definition forward_response {W} (NewRequest : string → option error)
    (Do : HttpRequest → GoM W (error + HttpResponse)) (leaderId : string) (data : bytes) : GoM W HttpResponse :=
  p ← Transport__Propose NewRequest Do leaderId data;
  mret (propose_response p.1 p.2).

(** ** A peer over the network

    [net/http] around the four routes that goroutines call: a panic ends in gin's
    500, a stack overflow takes the process down and the caller sees its
    connection fail.  A request for anything else does not occur between nodes
    here; it counts as a failed connection. *)
Definition answered (m : M HttpResponse) : M (error + HttpResponse) := λ s,
  match m s with
  | (Ret response, s') => (Ret (inr response), s')
  | (Panic _, s') => (Ret (inr (recovery g)), s')
  | (OutOfFuel, s') => (Ret (inl ErrIO), s')
  end.

Definition served (fuel : nat) (addr : string) (request : HttpRequest) : M (error + HttpResponse) :=
  let b := mkBody (rq_Body request) false in
  if bool_decide (rq_URL request = rpc_url addr "append-entries") then answered (rpc_append_entries fuel b)
  else if bool_decide (rq_URL request = rpc_url addr "pre-vote") then answered (rpc_pre_vote b)
  else if bool_decide (rq_URL request = rpc_url addr "request-vote") then answered (rpc_request_vote fuel b)
  else if bool_decide (rq_URL request = rpc_url addr "install-snapshot") then answered (rpc_install_snapshot b)
  else mret (inl ErrIO).
End routes.

(** ** Start and life of the process *)
Section life.
Context {L F : Type} `{GoLog L} `{FSM F}.
Abbreviation node := (Raft L F).

(** [log.Load] has returned a log or an error; a panic ends the process with
    status 2. *)
Definition main_start (f : Flags) (log : error + L) (fs : Fs) (fsm : F) (rng : nat → Z) (next : nat)
    : Z + outcome unit * node :=
  match log with
  | inl _ => inl 1
  | inr log =>
      match NewStore (flag_data f +:+ "/store.data") fs with
      | (Ret (inl _), _) => inl 1
      | (Ret (inr store), fs) =>
          inr (NewRaft (advertiseAddr f) (flag_data f) (peers f) log store fs fsm DefaultConfig rng next)
      | _ => inl 2
      end
  end.

(** What reaches the node from [main] itself: the two tickers (350 ms and 30 s). *)
Inductive Event := EvTick | EvSnapshot.

(** A panic in a ticker's goroutine is not recovered: the process ends. *)
Fixpoint main_events (l : list Event) (r : node) : option node :=
  match l with
  | [] => Some r
  | e :: l =>
      match e with
      | EvTick => match Raft__Tick r with (Ret _, r) => main_events l r | _ => None end
      | EvSnapshot => match Raft__TakeSnapshot r with (Ret _, r) => main_events l r | _ => None end
      end
  end.

(** The signal: [raft.Shutdown], then the server stops. *)
Definition main_life (l : list Event) (r : node) : option (outcome unit * node) :=
  r ← main_events l r; Some (Raft__Shutdown r).

(** Starting the process is the first step of a node in the cluster. *)
Lemma main_start_step (nodes : list string) (dataDir : string → string) (c : Cluster) f fs old log next fs0 fsm rng res :
  peers f = nodes → advertiseAddr f ∈ nodes → dataDir (advertiseAddr f) = flag_data f →
  cl_slots c !! advertiseAddr f = Some (Down fs old next) →
  fs_cur fs0 !! store_file dataDir (advertiseAddr f) = fs_cur fs !! store_file dataDir (advertiseAddr f) →
  io_honest fs0 → main_start f (inr log) fs0 fsm rng next = inr res →
  step nodes dataDir c
    (set_slot (advertiseAddr f) (match res.1 with Ret _ => Up res.2 | _ => stop res.2 end) c).
Proof.
  intros <- Hin Hd Hc Hf Hh Hm. cbn in Hm.
  destruct (NewStore _ fs0) as [[[e|st]| |] fs1] eqn:Hst; try discriminate Hm. injection Hm as <-.
  eapply (step_start (peers f) dataDir c (advertiseAddr f) fs old next fs0 fs1 st log fsm DefaultConfig rng _);
    [exact Hc|exact Hin|exact Hf|exact Hh| |rewrite Hd; reflexivity].
  unfold store_file. rewrite Hd. exact Hst.
Qed.

Lemma Tick_disabled (r : node) : r_enabled r = false → Raft__Tick r = (Ret tt, r).
Proof. intros He. unfold Raft__Tick. rewrite bind_run. cbn [gets]. by rewrite He. Qed.
End life.

(** With the default flags the node is one of its own peers. *)
Example default_addresses : advertiseAddr default_flags = "127.0.0.1:8081"%string ∧
  advertiseAddr default_flags ∈ peers default_flags ∧ length (peers default_flags) = 3%nat.
Proof. split; [vm_compute; reflexivity|]. split; [|vm_compute; reflexivity].
  apply (bool_decide_unpack _). vm_compute. exact I. Qed.

(** ** A call over the network is a step of the cluster *)
Lemma append_inj (s t u : string) : s +:+ t = s +:+ u → t = u.
Proof. induction s as [|c s IH]; [done|]. intros [=]. by apply IH. Qed.

Lemma rpc_url_inj addr p q : rpc_url addr p = rpc_url addr q → p = q.
Proof. unfold rpc_url. intros E. by do 3 apply append_inj in E. Qed.

Lemma rpc_url_eqb addr p q : bool_decide (rpc_url addr p = rpc_url addr q) = bool_decide (p = q).
Proof. apply bool_decide_ext. split; [apply rpc_url_inj|by intros ->]. Qed.

(** The call of a goroutine is in the range of its Go types. *)
Definition sendable_task (t : Task) (sn : option Snapshot) : Prop :=
  match t with
  | GoSendPreVote _ _ term id i j | GoSendRequestVote _ _ term id i j =>
      is_u64 term ∧ is_u64 i ∧ is_u64 j
  | GoSendAppendEntries _ _ term id i j es c =>
      is_u64 term ∧ is_u64 i ∧ is_u64 j ∧ Forall sendable_entry es ∧ is_u64 c
  | GoSendInstallSnapshot _ _ term id =>
      is_u64 term ∧
      match sn with
      | Some sn => is_u64 (LastIncludedIndex sn) ∧ is_u64 (LastIncludedTerm sn)
      | None => True
      end
  | GoApplier _ => True
  end.

Lemma slice_of_entries (empty : slice LogEntry) es : default [] empty = [] → default [] (slice_of empty es) = es.
Proof. by destruct es. Qed.

Section calls.
Context {L F : Type} `{GoLog L} `{FSM F} (g : Gin) `{!GinLaws g}.
Abbreviation node := (Raft L F).
Abbreviation M := (RaftM L F).

Lemma read_reply_ok {A} (dec : decoder A) zero m v : Forall small_member m → (length m ≤ 4)%nat →
  Decode dec zero (mkBody (print (obj m)) false) = Some (v, mkBody [] false) →
  read_reply dec zero (c_JSON g StatusOK (obj m)) = Some v.
Proof.
  intros Hm Hlen Hd. rewrite json_sends. unfold read_reply. cbn [rs_StatusCode rs_Body StatusOK Z.eqb Pos.eqb negb].
  rewrite limit_id by (apply (length_print_obj m); done). by rewrite Hd.
Qed.

Lemma read_reply_recovery {A} (dec : decoder A) zero : read_reply dec zero (recovery g) = None.
Proof. unfold read_reply. by rewrite recovery_sends. Qed.

(** What the caller makes of a route that runs [m] and answers with [enc]. *)
Lemma answered_run {A} (m : M A) (enc : A → HttpResponse) s :
  answered g (a ← m; mret (enc a)) s =
    match m s with
    | (Ret a, s') => (Ret (inr (enc a)), s')
    | (Panic _, s') => (Ret (inr (recovery g)), s')
    | (OutOfFuel, s') => (Ret (inl ErrIO), s')
    end.
Proof. unfold answered. rewrite bind_run. by destruct (m s) as [[| |] ?]. Qed.

Lemma append_reply_read r : reply_u64 (AppendEntriesResponse r) →
  read_reply decode_AppendEntriesResponse zero_AppendEntriesResponse
    (c_JSON g StatusOK (json_AppendEntriesResponse r)) = Some r.
Proof.
  intros (Ht & Hi & Hc). apply read_reply_ok; [|cbn; lia|by apply AppendEntriesResponse_roundtrip].
  repeat first [apply Forall_nil | apply Forall_cons]; first [apply small_JUint | apply small_JBool];
    by apply Nat.leb_le; vm_compute.
Qed.

Lemma vote_reply_read p : is_u64 p.1 →
  read_reply decode_VoteResponse (0, false) (c_JSON g StatusOK (json_VoteResponse p)) = Some p.
Proof.
  intros Ht. apply read_reply_ok; [|cbn; lia|by apply VoteResponse_roundtrip].
  repeat first [apply Forall_nil | apply Forall_cons]; first [apply small_JUint | apply small_JBool];
    by apply Nat.leb_le; vm_compute.
Qed.

(** What comes back from a peer that is reached. *)
Definition reached (t : Task) (res : outcome Reply * node) : outcome Reply * node :=
  match res with
  | (Ret reply, s') => (Ret reply, s')
  | (_, s') => (Ret (failed_reply t), s')
  end.

(** Each path reaches its route. *)
Lemma served_append fuel addr ct data :
  served g fuel addr (mkHttpRequest (rpc_url addr "append-entries") ct data)
  = answered g (rpc_append_entries g fuel (mkBody data false)).
Proof. unfold served. cbn [rq_URL rq_Body]. by rewrite !rpc_url_eqb. Qed.

Lemma served_pre_vote fuel addr ct data :
  served g fuel addr (mkHttpRequest (rpc_url addr "pre-vote") ct data)
  = answered g (rpc_pre_vote g (mkBody data false)).
Proof. unfold served. cbn [rq_URL rq_Body]. by rewrite !rpc_url_eqb. Qed.

Lemma served_request_vote fuel addr ct data :
  served g fuel addr (mkHttpRequest (rpc_url addr "request-vote") ct data)
  = answered g (rpc_request_vote g fuel (mkBody data false)).
Proof. unfold served. cbn [rq_URL rq_Body]. by rewrite !rpc_url_eqb. Qed.

Lemma served_install_snapshot fuel addr ct data :
  served g fuel addr (mkHttpRequest (rpc_url addr "install-snapshot") ct data)
  = answered g (rpc_install_snapshot g (mkBody data false)).
Proof. unfold served. cbn [rq_URL rq_Body]. by rewrite !rpc_url_eqb. Qed.

Lemma append_call_serve fuel addr term leaderId i j es c no_entries t s :
  default [] no_entries = [] →
  sendable_task (GoSendAppendEntries 0 addr term leaderId i j es c) None →
  failed_reply t = AppendEntriesResponse (AppendEntries_failed term) →
  let handler := as_reply AppendEntriesResponse
    (Raft__HandleAppendEntries fuel term (wire_string leaderId) i j (wired <$> es) c) in
  (∀ reply s', handler s = (Ret reply, s') → reply_u64 reply) →
  (r ← Transport__AppendEntries (λ _, None) (served g fuel addr) addr term leaderId i j
         (slice_of no_entries es) c; mret (AppendEntriesResponse r)) s = reached t (handler s).
Proof.
  intros Hne (Ht & Hi & Hj & Hes & Hc) Hf handler Hrep. unfold Transport__AppendEntries, post.
  rewrite served_append. unfold rpc_append_entries.
  destruct (AppendEntriesRequest_roundtrip (mkAppendEntriesRequest term leaderId i j (slice_of no_entries es) c) false)
    as (w & Hw & E1 & E2 & E3 & E4 & E5 & E6).
  { repeat (split; [done|]). cbn. by rewrite slice_of_entries. }
  rewrite (bind_decodes _ _ _ _ _ _ Hw), E1, E2, E3, E4, E5, E6.
  cbn [ae_Term ae_LeaderId ae_PrevLogEntryIndex ae_PrevLogEntryTerm ae_LogEntries ae_LeaderCommitIndex].
  rewrite slice_of_entries by done. subst handler. unfold as_reply in *.
  rewrite !bind_run, answered_run. rewrite bind_run in Hrep.
  destruct (Raft__HandleAppendEntries _ _ _ _ _ _ _ s) as [[r| |] s'] eqn:E; cbn in *.
  - rewrite append_reply_read by by eapply Hrep. done.
  - by rewrite read_reply_recovery, Hf.
  - by rewrite Hf.
Qed.

Lemma pre_vote_call_serve fuel addr term id i j t s :
  is_u64 term → is_u64 i → is_u64 j →
  failed_reply t = PreVoteResponse term false →
  let handler := as_reply (λ p, PreVoteResponse p.1 p.2) (Raft__HandlePreVote term (wire_string id) i j) in
  (∀ reply s', handler s = (Ret reply, s') → reply_u64 reply) →
  (p ← Transport__PreVote (λ _, None) (served g fuel addr) addr term id i j;
   mret (PreVoteResponse p.1 p.2)) s = reached t (handler s).
Proof.
  intros Ht Hi Hj Hf handler Hrep. unfold Transport__PreVote, post.
  rewrite served_pre_vote. unfold rpc_pre_vote.
  rewrite (bind_decodes _ _ _ _ _ _ (VoteRequest_roundtrip term id i j false Ht Hi Hj)).
  cbn [vr_Term vr_CandidateID vr_LastLogEntryIndex vr_LastLogEntryTerm]. subst handler. unfold as_reply in *.
  rewrite !bind_run, answered_run. rewrite bind_run in Hrep.
  destruct (Raft__HandlePreVote _ _ _ _ s) as [[r| |] s'] eqn:E; cbn in *.
  - rewrite vote_reply_read by (specialize (Hrep _ _ eq_refl); done). done.
  - by rewrite read_reply_recovery, Hf.
  - by rewrite Hf.
Qed.

Lemma request_vote_call_serve fuel addr term id i j t s :
  is_u64 term → is_u64 i → is_u64 j →
  failed_reply t = RequestVoteResponse term false →
  let handler := as_reply (λ p, RequestVoteResponse p.1 p.2) (Raft__HandleRequestVote fuel term (wire_string id) i j) in
  (∀ reply s', handler s = (Ret reply, s') → reply_u64 reply) →
  (p ← Transport__RequestVote (λ _, None) (served g fuel addr) addr term id i j;
   mret (RequestVoteResponse p.1 p.2)) s = reached t (handler s).
Proof.
  intros Ht Hi Hj Hf handler Hrep. unfold Transport__RequestVote, post.
  rewrite served_request_vote. unfold rpc_request_vote.
  rewrite (bind_decodes _ _ _ _ _ _ (VoteRequest_roundtrip term id i j false Ht Hi Hj)).
  cbn [vr_Term vr_CandidateID vr_LastLogEntryIndex vr_LastLogEntryTerm]. subst handler. unfold as_reply in *.
  rewrite !bind_run, answered_run. rewrite bind_run in Hrep.
  destruct (Raft__HandleRequestVote _ _ _ _ _ s) as [[r| |] s'] eqn:E; cbn in *.
  - rewrite vote_reply_read by (specialize (Hrep _ _ eq_refl); done). done.
  - by rewrite read_reply_recovery, Hf.
  - by rewrite Hf.
Qed.

Lemma install_snapshot_call_serve fuel addr term id i j d t s :
  is_u64 term → is_u64 i → is_u64 j →
  failed_reply t = InstallSnapshotResponse term →
  let handler := as_reply InstallSnapshotResponse
    (Raft__HandleInstallSnapshot term (wire_string id) i j (default [] d)) in
  (∀ reply s', handler s = (Ret reply, s') → reply_u64 reply) →
  (r ← Transport__InstallSnapshot (λ _, None) (served g fuel addr) addr term id i j d;
   mret (InstallSnapshotResponse r)) s = reached t (handler s).
Proof.
  intros Ht Hi Hj Hf handler Hrep. unfold Transport__InstallSnapshot, post.
  rewrite served_install_snapshot. unfold rpc_install_snapshot.
  destruct (InstallSnapshotRequest_roundtrip (mkInstallSnapshotRequest term id i j d) false Ht Hi Hj)
    as (w & Hw & E1 & E2 & E3 & E4 & E5).
  rewrite (bind_decodes _ _ _ _ _ _ Hw), E1, E2, E3, E4, E5.
  cbn [is_Term is_LeaderId is_LastIncludedIndex is_LastIncludedTerm is_Data]. subst handler. unfold as_reply in *.
  rewrite !bind_run, answered_run. rewrite bind_run in Hrep.
  destruct (Raft__HandleInstallSnapshot _ _ _ _ _ s) as [[r| |] s'] eqn:E; cbn in *.
  - rewrite json_sends. cbn [rs_StatusCode rs_Body StatusOK Z.eqb Pos.eqb negb].
    rewrite InstallSnapshotResponse_roundtrip by (specialize (Hrep _ _ eq_refl); done). done.
  - by rewrite recovery_sends, Hf.
  - by rewrite Hf.
Qed.
(** C5: What the cluster assumes of the network holds of the code: whatever the
    state of the peer, a goroutine's remote call that reaches it - marshalled,
    routed, decoded, handled, marshalled, read back - has the effect and the reply
    of the step [serve] of the cluster, and a call that ends in a panic or a dead
    peer has the reply the cluster gives a failed one.  Strings that are not valid
    UTF-8 included: JSON changes them as [serve] says. *)
Theorem call_is_serve fuel addr t sn no_entries call handler s :
  default [] no_entries = [] → task_node t = Some addr → sendable_task t sn →
  transport_call (λ _, None) (served g fuel addr) no_entries t sn = Some call →
  serve fuel t sn = Some handler → is_u64 (term_of s) →
  call s = reached t (handler s).
Proof.
  intros Hne Hn Hs Hc Hh Hterm.
  assert (∀ reply s', handler s = (Ret reply, s') → reply_u64 reply) as Hrep
    by (intros reply s'; by apply (serve_reply_u64 fuel t sn)).
  destruct t as [a v term id i j|a v term id i j|a v term id i j es c|a v term id|a]; [..|done]; injection Hn as ->.
  - destruct Hs as (Ht & Hi & Hj). injection Hc as <-. injection Hh as <-.
    rewrite (u64_small i), (u64_small j) in * by done.
    apply pre_vote_call_serve; [apply u64_range|done..].
  - destruct Hs as (Ht & Hi & Hj). injection Hc as <-. injection Hh as <-.
    rewrite (u64_small i), (u64_small j), (u64_small term) in * by done.
    by apply request_vote_call_serve.
  - pose proof Hs as (Ht & Hi & Hj & Hes & Hcm). injection Hc as <-. injection Hh as <-.
    rewrite (u64_small i), (u64_small j), (u64_small term), (u64_small c) in * by done.
    by apply append_call_serve.
  - destruct sn as [sn|]; [|done]. destruct Hs as (Ht & Hi & Hj).
    injection Hc as <-. injection Hh as <-. rewrite (u64_small term) in * by done.
    by apply (install_snapshot_call_serve fuel addr term id _ _ (Some (sn_Data sn))).
Qed.
End calls.

(** *** Calls that fail *)
Section failures.
Context {W : Type} (NewRequest : string → option error) (Do : HttpRequest → GoM W (error + HttpResponse)).

(** An answer the transport does not accept: another status, or a body no part of
    which is JSON. *)
Definition rejected (response : HttpResponse) : Prop :=
  rs_StatusCode response ≠ StatusOK ∨ ∀ n, parse (take n (content (rs_Body response))) = None.

Lemma rejected_read {A} (dec : decoder A) zero response : rejected response → read_reply dec zero response = None.
Proof.
  intros Hr. unfold read_reply. destruct (Z.eqb_spec (rs_StatusCode response) StatusOK) as [E|]; [|done].
  destruct Hr as [|Hp]; [done|]. unfold Decode. cbn [limit content]. by rewrite Hp.
Qed.

Lemma rejected_unlimited {A} (dec : decoder A) zero response : rejected response →
  rs_StatusCode response = StatusOK → Decode dec zero (rs_Body response) = None.
Proof.
  intros [Hr|Hp] E; [done|]. unfold Decode. specialize (Hp (length (content (rs_Body response)))).
  rewrite take_ge in Hp by done. by rewrite Hp.
Qed.

(** A request that gets no answer, or one that is not accepted. *)
Definition lost (w : W) : Prop :=
  ∀ q, ∃ res w', Do q w = (Ret res, w') ∧ match res with inl _ => True | inr r => rejected r end.

Lemma post_lost url ct data w : lost w →
  ∃ res w', post NewRequest Do url ct data w = (Ret res, w') ∧
    match res with inl _ => True | inr r => rejected r end.
Proof. intros Hd. unfold post. destruct (NewRequest url) as [e|]; [by exists (inl e), w|apply Hd]. Qed.

(** C33: A call that does not get through - a URL that is refused, a failed
    connection, a status other than 200, a body that is not JSON - returns to its
    goroutine the reply the cluster gives a failed call: the term of the request
    and a refusal. *)
Theorem lost_call_is_failed_reply no_entries t sn call w :
  lost w → transport_call NewRequest Do no_entries t sn = Some call →
  ∃ w', call w = (Ret (failed_reply t), w').
Proof.
  intros Hl Hc.
  destruct t as [a v term id i j|a v term id i j|a v term id i j es c|a v term id|a]; [| | |destruct sn as [sn|]; [|done]|done];
    injection Hc as <-;
    [unfold Transport__PreVote|unfold Transport__RequestVote|unfold Transport__AppendEntries
    |unfold Transport__InstallSnapshot];
    rewrite !bind_run; edestruct post_lost as ([e|r] & w' & -> & Hr); [exact Hl| | |exact Hl| | |exact Hl| | |exact Hl| |];
    exists w'; try done; cbn; try (by rewrite rejected_read).
  destruct (Z.eqb_spec (rs_StatusCode r) StatusOK) as [E|]; [|done]. cbn. by rewrite rejected_unlimited.
Qed.
End failures.

(** ** Concrete calls *)

(** [n1] leads; client data [d] is proposed to it, and goroutine 11 of [n1] holds
    the request that carries it to [n2]. *)
Definition proposed (d : bytes) : Cluster (L := MemLog) (F := list bytes) :=
  default demo_cluster (run_plain demo_nodes demo_dirs [] DefaultConfig demo_cluster
    (demo_schedule ++ [CLocal "n1" (OpPropose 6 d "" 0 3); CSend "n1" 7; CServe 4; CReply 5]%string)).

Definition node_of (c : Cluster (L := MemLog) (F := list bytes)) (n : string) : Raft MemLog (list bytes) :=
  match cl_slots c !! n with Some (Up r) => r | _ => n1 end.

Definition carrying (d : bytes) : Task :=
  default (GoApplier 0) (r_tasks (node_of (proposed d) "n1") !! 11%nat).

Definition x_task : Task :=
  GoSendAppendEntries 6 "n2" 1 "n1" 1 1 [mkLogEntry [x78] 1 "" 0] 1.
Definition x_peer : Raft MemLog (list bytes) := node_of (proposed [x78]) "n2".
Definition x_handler : RaftM MemLog (list bytes) Reply :=
  as_reply AppendEntriesResponse
    (Raft__HandleAppendEntries 8 (u64 1) (wire_string "n1") (u64 1) (u64 1)
       (wired <$> [mkLogEntry [x78] 1 "" 0]) (u64 1)).
Definition x_call : RaftM MemLog (list bytes) Reply :=
  r ← Transport__AppendEntries (λ _, None) (served plain_gin 8 "n2") "n2" 1 "n1" 1 1
        (slice_of None [mkLogEntry [x78] 1 "" 0]) 1; mret (AppendEntriesResponse r).

Lemma x_sendable : sendable_task x_task None.
Proof.
  assert (is_u64 1) as Hu by (unfold is_u64; lia). assert (is_u64 0) as H0 by (unfold is_u64; lia).
  split; [exact Hu|]. split; [exact Hu|]. split; [exact Hu|]. split; [|exact Hu].
  apply Forall_cons; [|apply Forall_nil]. split; [exact Hu|exact H0].
Qed.

Lemma x_term : is_u64 (term_of x_peer).
Proof.
  assert (term_of x_peer = 1) as -> by (vm_compute; reflexivity). unfold is_u64. lia.
Qed.

Lemma call_is_serve_witness :
  carrying [x78] = x_task ∧
  (x_handler x_peer).1 = Ret (AppendEntriesResponse (mkAppendReply 1 true 0 0)) ∧
  x_call x_peer = reached x_task (x_handler x_peer).
Proof.
  assert ((x_handler x_peer).1 = Ret (AppendEntriesResponse (mkAppendReply 1 true 0 0))) as Hr
    by (vm_compute; reflexivity).
  split; [vm_compute; reflexivity|]. split; [exact Hr|].
  apply (call_is_serve plain_gin 8 "n2" x_task None None x_call x_handler x_peer).
  - reflexivity.
  - reflexivity.
  - exact x_sendable.
  - reflexivity.
  - reflexivity.
  - exact x_term.
Defined.

Definition no_answer : HttpRequest → RaftM MemLog (list bytes) (error + HttpResponse) :=
  λ _ s, (Ret (inr (mkHttpResponse 502 (mkBody [] false))), s).

Lemma lost_call_is_failed_reply_witness :
  ∃ s', (r ← Transport__AppendEntries (λ _, None) no_answer "n2" 1 "n1" 1 1
           (slice_of None [mkLogEntry [x78] 1 "" 0]) 1; mret (AppendEntriesResponse r)) x_peer
    = (Ret (AppendEntriesResponse (mkAppendReply 1 false 0 0)), s').
Proof.
  apply (lost_call_is_failed_reply (λ _, None) no_answer None x_task None).
  - intros q. exists (inr (mkHttpResponse 502 (mkBody [] false))), x_peer.
    split; [reflexivity|]. left. discriminate.
  - reflexivity.
Defined.

(** ** Entries JSON does not leave alone *)

(** The bytes of the entry as it arrives are more than those that were sent. *)
Lemma wired_longer e : ¬ entry_intact e → (length (Serialize e) < length (Serialize (wired e)))%nat.
Proof.
  unfold entry_intact. intros Hv. apply not_true_is_false, to_valid_longer in Hv.
  assert (ClientId e ≠ ""%string) as Hc by (intros Hc; rewrite Hc in Hv; cbn in Hv; lia).
  assert (ClientId (wired e) ≠ ""%string) as Hw.
  { intros Hw. cbn in Hw. unfold wire_string in Hw. apply (f_equal string_bytes) in Hw.
    rewrite string_bytes_string in Hw. rewrite Hw in Hv. cbn in Hv. lia. }
  rewrite !Serialize_session by auto. cbn [Term Data SequenceNumber ClientId wired].
  unfold wire_string. rewrite string_bytes_string, !length_app, !length_le_put. lia.
Qed.

(** C34: A replicated command can change on its way.  A leader sends a peer the
    request it builds for some [nextIndex], and an entry of it has a client
    identifier that is not valid UTF-8.  If the peer, which has no entry of that
    term at that index and whose log can be written, answers success, it has
    stored other bytes there than the leader holds, under the same term: the two
    logs differ at an index and term on which both sides count them as equal. *)
Theorem proposal_changed_in_transit {L F : Type} `{GoLogLaws L} `{FSM F} (leader s s' : Raft L F)
    fuel a peer term next sn handler reply k e
    (Hserve : serve fuel (replication_task leader a peer term next (log_last (r_log leader))) sn = Some handler)
    (Hrun : handler s = (Ret (AppendEntriesResponse reply), s'))
    (Hok : ar_success reply = true)
    (Hleader : decodable (r_log leader)) (Hdec : decodable (r_log s)) (Hrel : log_reliable (r_log s))
    (Hnext : log_base (r_log leader) < next <= log_last (r_log leader) + 1)
    (Hbase : log_base (r_log s) < next) (Hmax : log_last (r_log leader) < u64_max)
    (Hbatch : 0 < MaxBatchEntries (r_config leader) < u64_max)
    (Hsent : next <= k < next + Z.of_nat (length (batch_entries leader next (log_last (r_log leader)))))
    (Hentry : entry_at (r_log leader) k = Some e) (Hbad : ¬ entry_intact e)
    (Hnew : term_at (r_log s) k ≠ Some (Term e)) :
  item_at (r_log leader) k = Some (Serialize e)
  ∧ item_at (r_log s') k = Some (Serialize (wired e))
  ∧ Serialize (wired e) ≠ Serialize e
  ∧ term_at (r_log s') k = Some (Term e) ∧ term_at (r_log leader) k = Some (Term e).
Proof.
  destruct (request_accepted leader s s' fuel a peer term next sn handler reply) as [_ Hafter]; [done..|].
  destruct (Hafter k e Hsent Hentry) as [Ht [Hb|[? _]]]; [|done].
  split_and!; [by apply entry_at_bytes|done| |done|by rewrite term_at_entry_at, Hentry].
  intros E. pose proof (wired_longer e Hbad) as Hl. rewrite E in Hl. lia.
Qed.

(** A client proposes 13 bytes that look like a session header.  The leader
    stores them behind the term and reads them back as an entry of a client whose
    identifier is the byte 255; JSON replaces it. *)
Definition lookalike : bytes := [x01; x00; x00; x00; xff; x01; x00; x00; x00; x00; x00; x00; x00].

(** The request reaches [n2], in a run of the cluster from empty disks. *)
Definition changed : Cluster :=
  run_demo demo_cluster
    (demo_schedule ++ [CLocal "n1" (OpPropose 6 lookalike "" 0 3); CSend "n1" 7; CServe 4; CReply 5;
                       CSend "n1" 11; CServe 6]%string).

Definition changed_leader : Raft MemLog (list bytes) := node_of (proposed lookalike) "n1".
Definition changed_peer : Raft MemLog (list bytes) := node_of (proposed lookalike) "n2".
Definition changed_handler : RaftM MemLog (list bytes) Reply :=
  default (mret (InstallSnapshotResponse 0)) (serve 8 (replication_task changed_leader 6 "n2" 1 2 2) None).
Definition changed_reply : outcome Reply * Raft MemLog (list bytes) := changed_handler changed_peer.
Definition changed_entry : LogEntry := mkLogEntry [] 1 (bytes_string [xff]) 1.

Lemma changed_served : serve 8 (replication_task changed_leader 6 "n2" 1 2 2) None = Some changed_handler.
Proof. unfold changed_handler, replication_task. cbn [serve default from_option id]. reflexivity. Qed.

Lemma changed_reply_ok : changed_reply.1 = Ret (AppendEntriesResponse (mkAppendReply 1 true 0 0)).
Proof. vm_compute. reflexivity. Qed.

Lemma changed_decodable n : bool_decide (n ∈ ["n1"; "n2"]%string) = true →
  decodable (r_log (node_of (proposed lookalike) n)).
Proof.
  intros Hn%bool_decide_eq_true d Hd. apply DeserializeLogEntry_long.
  assert (Forall (λ d, 8 <= length d)%nat (log_items (r_log (node_of (proposed lookalike) n)))) as Hall.
  { repeat (apply elem_of_cons in Hn as [-> |Hn]; [apply (bool_decide_unpack _); vm_compute; exact I|]).
    by apply elem_of_nil in Hn. }
  by apply (proj1 (list.Forall_forall _ _) Hall).
Qed.

Lemma proposal_changed_in_transit_witness :
  rtc (step demo_nodes demo_dirs) demo_cluster changed
  ∧ carrying lookalike = replication_task changed_leader 6 "n2" 1 2 2
  ∧ slot_log (slot_of changed "n1") = r_log changed_leader
  ∧ slot_log (slot_of changed "n2") = r_log changed_reply.2
  ∧ item_at (r_log changed_leader) 2 = Some (put_u64 1 ++ lookalike)
  ∧ item_at (r_log changed_reply.2) 2 = Some (Serialize (wired changed_entry))
  ∧ Serialize (wired changed_entry) ≠ put_u64 1 ++ lookalike.
Proof.
  assert (rtc (step demo_nodes demo_dirs) demo_cluster changed) as Hrun
    by (apply run_demo_sound; vm_compute; discriminate).
  assert (carrying lookalike = replication_task changed_leader 6 "n2" 1 2 2) as Hc by (vm_compute; reflexivity).
  assert (slot_log (slot_of changed "n1") = r_log changed_leader) as H1 by (vm_compute; reflexivity).
  assert (slot_log (slot_of changed "n2") = r_log changed_reply.2) as H2 by (vm_compute; reflexivity).
  split; [exact Hrun|]. split; [exact Hc|]. split; [exact H1|]. split; [exact H2|].
  assert (Serialize changed_entry = put_u64 1 ++ lookalike) as He by (vm_compute; reflexivity).
  rewrite <- He.
  refine (match proposal_changed_in_transit changed_leader changed_peer changed_reply.2 8 6 "n2" 1 2 None
    changed_handler (mkAppendReply 1 true 0 0) 2 changed_entry _ _ _ _ _ _ _ _ _ _ _ _ _ _ with
    conj A (conj B (conj C _)) => conj A (conj B C) end).
  - exact changed_served.
  - rewrite <- changed_reply_ok. exact (surjective_pairing changed_reply).
  - reflexivity.
  - apply changed_decodable. reflexivity.
  - apply changed_decodable. reflexivity.
  - apply mem_reliable. vm_compute. reflexivity.
  - vm_compute. split; congruence.
  - vm_compute. reflexivity.
  - vm_compute. reflexivity.
  - vm_compute. split; congruence.
  - vm_compute. split; congruence.
  - vm_compute. reflexivity.
  - vm_compute. discriminate.
  - vm_compute. discriminate.
Defined.
