(* ===== verification/Liveness.v ===== *)
(** * The election timer

    From the ticks of main.go to the pre-votes: a tick of a follower or candidate
    moves its timer, and the one that runs it out starts a pre-vote round with a
    request to every other member and draws a new time-out within the configured
    bounds.  Isolation.v puts the ticks of a whole run together. *)
From S2P Require Import Prelude GoMonad FileSystem LogEntry Store Snapshot Session Config GoLog Log Fsm Node Roles Follower Leader Candidate Raft Demo Frame Election Campaign Replication Votes.
Local Open Scope Z_scope.

(** What the timer of a role object shows: the deadline and the ticks so far. *)
Definition timer (x : RaftRole) : option (Z * Z) :=
  match x with
  | RFollower f => Some (f_electionDeadline f, f_electionTicks f)
  | RCandidate c => Some (c_electionDeadline c, c_electionTicks c)
  | RLeader _ => None
  end.

Definition set_ticks (n : Z) (x : RaftRole) : RaftRole :=
  match x with
  | RFollower f => RFollower (mkFollowerRole (f_electionDeadline f) n)
  | RCandidate c => RCandidate (set_c_electionTicks n c)
  | RLeader l => RLeader l
  end.

(** The bounds of the time-out leave room for the arithmetic of [int]. *)
Definition timeouts_ok (c : Config) : Prop :=
  0 < ElectionTimeoutMinTicks c ≤ ElectionTimeoutMaxTicks c ∧ ElectionTimeoutMaxTicks c < 2 ^ 62.

Section liveness.
Context {L F : Type} `{GoLog L} `{FSM F}.
Abbreviation node := (Raft L F).
Abbreviation M := (RaftM L F).

(** What a tick of a node that is not a leader leaves alone. *)
Record still (s s' : node) : Prop := {
  still_enabled : r_enabled s' = r_enabled s;
  still_healthy : r_healthy s' = r_healthy s;
  still_id : r_id s' = r_id s;
  still_nodes : r_nodes s' = r_nodes s;
  still_config : r_config s' = r_config s;
  still_store : r_store s' = r_store s;
  still_log : r_log s' = r_log s;
  still_snapshotIndex : r_snapshotIndex s' = r_snapshotIndex s;
  still_snapshotTerm : r_snapshotTerm s' = r_snapshotTerm s;
  still_fs : r_fs s' = r_fs s
}.

#[local] Instance still_preorder : PreOrder still.
Proof. split; [by split|]. intros a b c Hab Hbc. split; (etrans; [apply Hbc|apply Hab]). Qed.

Lemma still_last (s s' : node) : still s s' → last_entry s' = last_entry s.
Proof. intros [_ _ _ _ _ _ El Ei Et _]. unfold last_entry. by rewrite El, Ei, Et. Qed.

(** The pre-vote request of candidate [b] of [s] to [n]. *)
Definition pre_vote_of (s : node) (b : nat) (n : string) : Task :=
  GoSendPreVote b n (term_of s) (r_id s) (last_entry s).1 (last_entry s).2.

(** [s] has a pre-vote round under way, with its own vote, a request to every
    other member, and a timer that has shown [e] of [d] ticks. *)
Definition round_of (s : node) (d e : Z) : Prop :=
  ∃ b c, r_role s = Some b ∧ r_roles s !! b = Some (RCandidate c)
  ∧ c_preVote c = true ∧ c_preVotes c = 1 ∧ c_electionDeadline c = d ∧ c_electionTicks c = e
  ∧ ∀ n, n ∈ r_nodes s → n ≠ r_id s →
      ∃ k, (k < r_next s)%nat ∧ r_tasks s !! k = Some (pre_vote_of s b n).

(** Goroutines that were there, and those of a new round. *)
Definition pre_votes_added (s s' : node) : Prop :=
  ∀ k t, r_tasks s' !! k = Some t →
    r_tasks s !! k = Some t ∨ ∃ b n i j, t = GoSendPreVote b n (term_of s) (r_id s) i j.

(** ** One tick *)
Definition put_role (a : nat) (x : RaftRole) (s : node) : node := set_r_roles (<[a := x]> (r_roles s)) s.

Lemma tick_run (s : node) a x d e :
  r_enabled s = true → r_healthy s = true → r_role s = Some a → r_roles s !! a = Some x →
  timer x = Some (d, e) →
  Raft__Tick s = when (d <=? i64 (e + 1)) (_ ← becomeCandidate; mret tt) (put_role a (set_ticks (i64 (e + 1)) x) s).
Proof.
  intros He Hh Hr Ha Ht. unfold Raft__Tick. rewrite bind_run. cbn [gets]. rewrite He, Hh. cbn [negb orb].
  rewrite (bind_ret_run _ _ _ _ _ (current_role_run s a x Hr Ha)).
  destruct x as [f|c|l]; [..|done]; injection Ht as <- <-.
  - unfold FollowerRole__Tick, read_follower, read_role. rewrite !bind_run. cbn [gets]. by rewrite Ha.
  - unfold CandidateRole__Tick, update_candidate, read_candidate, read_role. rewrite !bind_run. cbn [gets].
    rewrite Ha. cbn [mret GoM_ret]. unfold write_role, modify. cbn [mret GoM_ret].
    rewrite !bind_run. cbn [gets]. unfold put_role. cbn [r_roles set_r_roles].
    by rewrite lookup_insert_eq.
Qed.

(** ** A new round *)
Lemma random_deadline_ok (s : node) : timeouts_ok (r_config s) →
  ∃ d, ElectionTimeoutMinTicks (r_config s) ≤ d ≤ ElectionTimeoutMaxTicks (r_config s) ∧
    random_deadline s = (Ret d, set_r_rng (λ k, r_rng s (S k)) s).
Proof.
  intros [[Hmin Hle] Hmax]. unfold random_deadline, rng_IntN. rewrite bind_run. cbn [gets].
  set (mx := ElectionTimeoutMaxTicks (r_config s)) in *. set (mn := ElectionTimeoutMinTicks (r_config s)) in *.
  rewrite (i64_small (mx - mn)) by lia. rewrite (i64_small (mx - mn + 1)) by lia.
  destruct (Z.leb_spec (mx - mn + 1) 0); [lia|].
  pose proof (Z.mod_pos_bound (r_rng s 0%nat) (mx - mn + 1) ltac:(lia)) as Hm.
  eexists. split; [|reflexivity]. rewrite i64_small by lia. lia.
Qed.

(** A state with more goroutines. *)
Record asked (mk : string → Task) (s s' : node) : Prop := {
  asked_state : s' = set_r_next (r_next s') (set_r_tasks (r_tasks s') s);
  asked_next : (r_next s ≤ r_next s')%nat;
  asked_tasks k : (k < r_next s)%nat → r_tasks s' !! k = r_tasks s !! k;
  asked_new k t : r_tasks s' !! k = Some t → r_tasks s !! k = Some t ∨ ∃ n, t = mk n
}.

Lemma ask_each self (mk : string → Task) l : ∀ s : node, ∃ s',
  go_each (λ n, if bool_decide (n = self) then mret tt else spawn (mk n)) l s = (Ret tt, s') ∧ asked mk s s' ∧
  ∀ n, n ∈ l → n ≠ self → ∃ k, (k < r_next s')%nat ∧ r_tasks s' !! k = Some (mk n).
Proof.
  induction l as [|m l IH]; intros s; cbn [go_each].
  - exists s. split; [done|]. split; [split; [by destruct s|lia|done|by left]|]. by intros n Hn%elem_of_nil.
  - rewrite bind_run. case_bool_decide as Hm.
    + cbn [mret GoM_ret]. destruct (IH s) as (s' & E & Ha & Hall). exists s'. split; [done|]. split; [done|].
      intros n [->|Hn]%elem_of_cons Hne; [done|by apply Hall].
    + unfold spawn at 1, modify. set (s1 := set_r_next _ _). destruct (IH s1) as (s' & E & [Es En Et Ew] & Hall).
      exists s'. split; [done|]. split.
      * split.
        -- rewrite Es at 1. by subst s1.
        -- subst s1. cbn in En. lia.
        -- intros k Hk. rewrite Et by (subst s1; cbn; lia). subst s1. cbn. by rewrite lookup_insert_ne by lia.
        -- intros k t [Hk|Hk]%Ew; [|by right]. subst s1. cbn in Hk. apply lookup_insert_Some in Hk as [[_ <-]|[_ Hk]];
             [right; by exists m|by left].
      * intros n [->|Hn]%elem_of_cons Hne; [|by apply Hall]. exists (r_next s).
        subst s1. cbn in En, Et. split; [lia|]. rewrite Et by lia. by rewrite lookup_insert_eq.
Qed.

Lemma exit_run (s : node) a x : r_role s = Some a → r_roles s !! a = Some x → timer x ≠ None →
  exit_current_role s = (Ret tt, s).
Proof.
  intros Hr Ha Hx. unfold exit_current_role, RaftRole__OnExit, read_role. rewrite bind_run. cbn [gets].
  rewrite Hr, !bind_run. cbn [gets]. rewrite Ha. by destruct x.
Qed.

Lemma majority_of_many nodes : (2 ≤ length nodes)%nat → Z.of_nat (length nodes) < 2 ^ 62 → 1 < majority_of nodes.
Proof.
  intros Hl Hu. unfold majority_of. rewrite Z.quot_div_nonneg by lia.
  pose proof (Z.div_le_lower_bound (Z.of_nat (length nodes)) 2 1).
  pose proof (Z.div_le_upper_bound (Z.of_nat (length nodes)) 2 (2 ^ 62)). rewrite i64_small; lia.
Qed.

Lemma startPreElection_run (s : node) b d :
  (2 ≤ length (r_nodes s))%nat → Z.of_nat (length (r_nodes s)) < 2 ^ 62 →
  r_role s = Some b →
  r_roles s !! b = Some (RCandidate (mkCandidateRole d 0 (majority_of (r_nodes s)) (r_nodes s) true 0 0)) →
  ∃ s', CandidateRole__startPreElection b s = (Ret tt, s') ∧ still s s' ∧ round_of s' d 0 ∧ pre_votes_added s s'.
Proof.
  intros Hl Hu Hr Hb. pose proof (majority_of_many _ Hl Hu) as Hmaj.
  unfold CandidateRole__startPreElection. rewrite bind_run, GetCurrentTerm_run.
  unfold update_candidate, read_candidate, read_role. rewrite !bind_run. cbn [gets]. rewrite Hb.
  cbn [mret GoM_ret]. unfold write_role at 1, modify at 1. rewrite !bind_run. cbn [gets r_roles set_r_roles].
  rewrite lookup_insert_eq. cbn [mret GoM_ret set_c_preVotes c_majority c_preVotes].
  destruct (Z.leb_spec (majority_of (r_nodes s)) (i64 (0 + 1))) as [Hle|_]; [rewrite i64_small in Hle; lia|].
  set (s1 := set_r_roles _ s). rewrite bind_run, getLast_run, bind_run. cbn [gets c_nodes].
  destruct (ask_each (r_id s1) (pre_vote_of s1 b) (r_nodes s) s1) as (s' & E & [Es En Et Ew] & Hall).
  exists s'. split; [exact E|]. assert (still s1 s') as Hstill by (by rewrite Es).
  assert (still s s') as Hs by (etrans; [|exact Hstill]; by split).
  split; [exact Hs|]. split.
  2: { intros k t [Hk|[n ->]]%Ew; [by left|right]. by exists b, n, (last_entry s1).1, (last_entry s1).2. }
  exists b. eexists. split; [by rewrite Es|]. split.
  { rewrite Es. cbn. by rewrite lookup_insert_eq. }
  do 4 (split; [done|]). intros n Hn Hne. destruct (Hall n) as (k & Hk & Ht).
  { by rewrite <- (still_nodes _ _ Hs). } { by rewrite <- (still_id _ _ Hstill). }
  exists k. split; [done|]. rewrite Ht. unfold pre_vote_of, term_of.
  by rewrite (still_last _ _ Hstill), (still_id _ _ Hstill), (still_store _ _ Hstill).
Qed.

Lemma becomeCandidate_run (s : node) a x :
  r_role s = Some a → r_roles s !! a = Some x → timer x ≠ None → timeouts_ok (r_config s) →
  (2 ≤ length (r_nodes s))%nat → Z.of_nat (length (r_nodes s)) < 2 ^ 62 →
  ∃ d s' b, becomeCandidate s = (Ret b, s') ∧ still s s' ∧ round_of s' d 0 ∧ pre_votes_added s s' ∧
    ElectionTimeoutMinTicks (r_config s) ≤ d ≤ ElectionTimeoutMaxTicks (r_config s).
Proof.
  intros Hr Ha Hx Hto Hl Hu. unfold becomeCandidate. rewrite bind_run, (exit_run s a x) by done.
  unfold enter_role. rewrite !bind_run. unfold modify at 1. set (s0 := set_r_roleEpoch _ s).
  destruct (random_deadline_ok s0 Hto) as (d & Hd & Er).
  unfold NewCandidateRole, new_role. rewrite !bind_run, Er. unfold gets at 1, modify at 1, mret, GoM_ret.
  rewrite !bind_run. unfold gets at 1, modify at 1. rewrite !bind_run. set (s1 := set_r_role _ _).
  unfold CandidateRole__OnEnter, read_candidate, read_role. rewrite !bind_run. cbn [gets].
  subst s1. cbn [r_roles set_r_role set_r_next set_r_roles]. rewrite lookup_insert_eq.
  set (s1 := set_r_role _ _).
  destruct (startPreElection_run s1 (r_next s) d) as (s' & E & Hs & Hround & Hadd); [done..|cbn; by rewrite lookup_insert_eq|].
  exists d, s', (r_next s). cbn [mret GoM_ret c_preVote].
  change (r_next (set_r_rng (λ k, r_rng s0 (S k)) s0)) with (r_next s). rewrite E.
  split; [done|]. split; [etrans; [|exact Hs]; by split|]. split; [done|]. split; [exact Hadd|]. exact Hd.
Qed.

(** The timer of the node's role object. *)
Definition timing (s : node) (d e : Z) : Prop :=
  ∃ a x, r_role s = Some a ∧ r_roles s !! a = Some x ∧ timer x = Some (d, e) ∧ 0 ≤ e < d ∧ d < 2 ^ 62.

(** A node that can campaign. *)
Definition able (s : node) : Prop :=
  r_enabled s = true ∧ r_healthy s = true ∧ timeouts_ok (r_config s) ∧
  (2 ≤ length (r_nodes s))%nat ∧ Z.of_nat (length (r_nodes s)) < 2 ^ 62.

Lemma able_still (s s' : node) : still s s' → able s → able s'.
Proof. intros [E1 E2 E3 E4 E5 _ _ _ _ _]. unfold able. by rewrite E1, E2, E4, E5. Qed.

Lemma round_timing (s : node) d e : 0 ≤ e < d → d < 2 ^ 62 → round_of s d e → timing s d e.
Proof.
  intros He Hd (b & c & Hr & Hb & _ & _ & <- & <- & _). by exists b, (RCandidate c).
Qed.

Lemma tick_waits (s : node) d e : able s → timing s d e → e + 1 < d →
  ∃ s', Raft__Tick s = (Ret tt, s') ∧ still s s' ∧ timing s' d (e + 1) ∧ r_tasks s' = r_tasks s.
Proof.
  intros (He & Hh & _) (a & x & Hr & Ha & Ht & Hb & Hd) Hlt.
  rewrite (tick_run s a x d e) by done. rewrite i64_small by lia.
  destruct (Z.leb_spec d (e + 1)); [lia|]. cbn [when]. eexists. split; [done|]. split; [by split|]. split.
  - exists a, (set_ticks (e + 1) x). split; [done|]. split; [cbn; by rewrite lookup_insert_eq|].
    split; [destruct x; cbn in Ht |- *; congruence|lia].
  - done.
Qed.

Lemma tick_fires (s : node) d e : able s → timing s d e → d <= e + 1 →
  ∃ d' s', Raft__Tick s = (Ret tt, s') ∧ still s s' ∧ round_of s' d' 0 ∧ pre_votes_added s s' ∧
    ElectionTimeoutMinTicks (r_config s) ≤ d' ≤ ElectionTimeoutMaxTicks (r_config s).
Proof.
  intros (He & Hh & Hto & Hl & Hu) (a & x & Hr & Ha & Ht & Hb & Hd) Hle.
  rewrite (tick_run s a x d e) by done. rewrite i64_small by lia.
  destruct (Z.leb_spec d (e + 1)); [|lia]. cbn [when]. set (s0 := put_role _ _ _).
  destruct (becomeCandidate_run s0 a (set_ticks (e + 1) x)) as (d' & s' & b & E & Hs & Hround & Hadd & Hd');
    [done|cbn; by rewrite lookup_insert_eq|by destruct x|done..|].
  exists d', s'. rewrite bind_run, E. split; [done|]. split; [etrans; [|exact Hs]; by split|]. done.
Qed.
End liveness.
