(* ===== verification/Isolation.v ===== *)
(** * A node that is cut off keeps campaigning

    What a node does when nothing from another node reaches it: its ticks, its
    remote calls failing one after the other in any order, its snapshots, and the
    proposals of its clients, interleaved in any way ([OwnEvent]; every one is a
    step of the cluster, [own_is_step]).  A pre-vote call that fails raises the
    term and makes the node a follower with a new time-out ([failed_prevote_raises_term]); that happens at
    most once per round, because the raised term is above those of all calls
    under way.  So a new round starts within two maximal time-outs, again and
    again.  The applier of a term the node led earlier has ended. *)
From S2P Require Import Prelude GoMonad FileSystem LogEntry Store Snapshot Session Config GoLog Log Fsm Node Roles Follower Leader Candidate Raft Demo Frame Election Campaign Cluster Replication Votes Liveness.
Local Open Scope Z_scope.

(** ** Files: later in the same stream of outcomes *)
Record io_later (fs fs' : Fs) : Prop := {
  later_io : fs_io fs' = fs_io fs;
  later_clock : (fs_clock fs ≤ fs_clock fs')%nat
}.

#[global] Instance io_later_preorder : PreOrder io_later.
Proof. split; [by split|]. intros x y z [A1 A2] [B1 B2]. split; [congruence|lia]. Qed.

Lemma io_later_reliable fs fs' : io_later fs fs' → io_reliable fs → io_reliable fs'.
Proof. intros [Hi Hc] R n Hn. rewrite Hi. apply R. lia. Qed.

Lemma io_later_syscall : moves io_later syscall.
Proof. intros fs. split; [done|]. cbn. lia. Qed.
#[local] Hint Resolve io_later_syscall : moves.

Lemma io_later_sys_unit f : (∀ fs, io_later fs (f fs)) → moves io_later (sys_unit f).
Proof. intros Hf. unfold sys_unit. moves_auto. Qed.

Lemma io_later_Write n l : moves io_later (file_Write n l).
Proof. unfold file_Write. moves_auto. all: by apply moves_modify. Qed.

Lemma io_later_ReadFull n l : moves io_later (io_ReadFull n l).
Proof. unfold io_ReadFull. moves_auto. Qed.
#[local] Hint Resolve io_later_Write io_later_ReadFull : moves.
#[local] Hint Extern 2 (moves io_later (sys_unit _)) => apply io_later_sys_unit; by intros ? : moves.

Lemma io_later_Rename o n : moves io_later (os_Rename o n).
Proof. apply io_later_sys_unit. intros fs. by destruct (fs_cur fs !! o). Qed.
#[local] Hint Resolve io_later_Rename : moves.

Lemma SaveSnapshot_later path sn : moves io_later (SaveSnapshot path sn).
Proof.
  unfold SaveSnapshot, os_MkdirAll, os_OpenTrunc, file_Sync, file_Close, dir_OpenSyncClose. moves_auto.
Qed.

Lemma LoadSnapshot_later path : moves io_later (LoadSnapshot path).
Proof. unfold LoadSnapshot, loadSnapshotV1, loadSnapshotV2, os_Open. moves_auto. Qed.

Section isolation.
Context {L F : Type} `{GoLog L} `{FSM F}.
Abbreviation node := (Raft L F).
Abbreviation M := (RaftM L F).

(** ** What leaves the campaign alone *)
Record aside (s s' : node) : Prop := {
  aside_enabled : r_enabled s' = r_enabled s;
  aside_healthy : r_healthy s' = r_healthy s;
  aside_id : r_id s' = r_id s;
  aside_nodes : r_nodes s' = r_nodes s;
  aside_config : r_config s' = r_config s;
  aside_role : r_role s' = r_role s;
  aside_term : term_of s' = term_of s;
  aside_roles a x : r_roles s !! a = Some x → timer x ≠ None → r_roles s' !! a = Some x;
  aside_tasks k t : r_tasks s' !! k = Some t → r_tasks s !! k = Some t;
  aside_disk : io_reliable (r_fs s) → io_reliable (r_fs s')
}.

#[global] Instance aside_preorder : PreOrder aside.
Proof. split; [by split|]. intros x y z [] []. split; try congruence; eauto. Qed.

Lemma aside_on_fsm {A} (m : GoM F A) : moves aside (on_fsm m : M A).
Proof. intros s. unfold on_fsm, zoom. destruct (m (r_fsm s)). by split. Qed.

Lemma aside_on_log {A} (f : L → A * L) : moves aside (on_log f : M A).
Proof. intros s. unfold on_log. destruct (f (r_log s)). by split. Qed.

Lemma aside_on_files {A} (m : GoM Fs A) : moves io_later m → moves aside (on_files m : M A).
Proof.
  intros Hm s. specialize (Hm (r_fs s)). unfold on_files, zoom. destruct (m (r_fs s)) as [a fs].
  split; try done. by apply io_later_reliable.
Qed.

Lemma aside_get_store {A} (f : Store → A) : moves aside (on_store (gets (λ p, f p.1)) : M A).
Proof. intros s. by split. Qed.

Lemma aside_GetCurrentTerm : moves aside (GetCurrentTerm : M Z).
Proof. apply aside_get_store. Qed.

Lemma aside_GetLeaderId : moves aside (Raft__GetLeaderId : M string).
Proof. apply aside_get_store. Qed.

Lemma aside_read_role a : moves aside (read_role a : M RaftRole).
Proof. unfold read_role. moves_auto. Qed.
#[local] Hint Resolve aside_on_fsm aside_on_log aside_GetCurrentTerm aside_GetLeaderId aside_read_role : moves.

Lemma aside_read_leader a : moves aside (read_leader a : M LeaderRole).
Proof. unfold read_leader. moves_auto. Qed.

Lemma aside_role_type : moves aside (role_type : M string).
Proof. unfold role_type. moves_auto. Qed.

(** A leader's object has no timer. *)
Lemma aside_update_leader a f : moves aside (update_leader a f : M unit).
Proof.
  intros s. unfold update_leader, read_leader, read_role. rewrite !bind_run. cbn [gets].
  destruct (r_roles s !! a) as [[]|] eqn:E; try reflexivity. split; try done.
  intros b x Hb Hx. cbn. rewrite lookup_insert_ne; [done|]. intros ->. rewrite E in Hb. by injection Hb as <-.
Qed.

Lemma aside_set_inflight a n b : moves aside (set_inflight a n b : M unit).
Proof. apply aside_update_leader. Qed.

Lemma aside_drop k (s : node) : aside s (drop_task k s).
Proof. split; try done. cbn. by intros j t [_ ?]%lookup_delete_Some. Qed.
#[local] Hint Resolve aside_read_leader aside_role_type aside_update_leader aside_set_inflight : moves.
#[local] Hint Extern 5 (moves aside (modify _)) => apply moves_modify; intros ?; by split : moves.

(** ** The operations of the node itself *)
Definition own_op (op : LocalOp) : bool :=
  match op with
  | OpSnapshotCapture | OpSnapshotSave _ | OpSnapshotFinish _
  | OpProposeLookup | OpPropose _ _ _ _ _ | OpProposeCancel _ _ _ => true
  | _ => false
  end.

Inductive OwnEvent :=
| OwnTick
| OwnFail (k : nat) (sn : option Snapshot)  (* the call of goroutine [k] fails *)
| OwnRead (k : nat)                         (* goroutine [k] reads the snapshot it is to send *)
| OwnLocal (op : LocalOp).

Definition run_own (ev : OwnEvent) (s : node) : node :=
  match ev with
  | OwnTick => (Raft__Tick s).2
  | OwnFail k sn =>
      match r_tasks s !! k with
      | Some t => (conclude t sn (failed_reply t) (drop_task k s)).2
      | None => s
      end
  | OwnRead k =>
      match r_tasks s !! k with
      | Some (GoSendInstallSnapshot a m _ _) =>
          match LeaderRole__sendInstallSnapshotToNode a m s with
          | (Ret (Some _), s') => s'
          | (Ret None, s') => drop_task k s'
          | _ => s
          end
      | _ => s
      end
  | OwnLocal op => if own_op op then run_local op s else s
  end.

Definition run_all (evs : list OwnEvent) (s : node) : node := foldl (λ s ev, run_own ev s) s evs.

Fixpoint tick_count (evs : list OwnEvent) : Z :=
  match evs with
  | [] => 0
  | OwnTick :: evs => 1 + tick_count evs
  | _ :: evs => tick_count evs
  end.

(** Each is a step of the cluster, or nothing happens. *)
Lemma own_is_step (nodes : list string) (dataDir : string → string) (c : Cluster) n (s : node) ev :
  cl_slots c !! n = Some (Up s) → term_of s < u64_max →
  run_own ev s = s ∨ ∃ c', step nodes dataDir c c' ∧ cl_slots c' !! n = Some (Up (run_own ev s)).
Proof.
  intros Hn Hmax. assert (∀ x ps, cl_slots (send ps (set_slot n x c)) !! n = Some x) as Hset
    by (intros; apply lookup_insert_eq).
  destruct ev as [|k sn|k|op]; cbn [run_own].
  - right. eexists. split; [by apply (step_local nodes dataDir c n s OpTick)|]. apply (Hset _ []).
  - destruct (r_tasks s !! k) as [t|] eqn:Hk; [right|by left].
    eexists. split; [by eapply (step_fail nodes dataDir c n s k t sn)|]. apply (Hset _ []).
  - destruct (r_tasks s !! k) as [[| | |a m T id|]|] eqn:Hk; try (by left).
    destruct (LeaderRole__sendInstallSnapshotToNode a m s) as [[[sn|]| |] s'] eqn:Hr; try (by left); right.
    + eexists. split; [by eapply (step_send_snapshot nodes dataDir)|]. apply Hset.
    + eexists. split; [by eapply (step_no_snapshot nodes dataDir)|]. apply (Hset _ []).
  - destruct (own_op op); [right|by left].
    eexists. split; [by apply (step_local nodes dataDir c n s op)|]. apply (Hset _ []).
Qed.

(** ** None of the others disturbs a node that does not lead *)
Definition not_leading (s : node) : Prop :=
  ∃ a x, r_role s = Some a ∧ r_roles s !! a = Some x ∧ timer x ≠ None.

Lemma role_type_not_leading (s : node) : not_leading s →
  ∃ ty, role_type s = (Ret ty, s) ∧ ty ≠ "leader"%string.
Proof.
  intros (a & x & Hr & Ha & Hx). unfold role_type, read_role. rewrite bind_run. cbn [gets].
  rewrite Hr, !bind_run. cbn [gets]. rewrite Ha. exists (GetType x). by destruct x.
Qed.

Lemma not_leading_aside (s s' : node) : aside s s' → not_leading s → not_leading s'.
Proof.
  intros A (a & x & Hr & Ha & Hx). exists a, x. split; [by rewrite (aside_role _ _ A)|].
  split; [by apply (aside_roles _ _ A)|done].
Qed.

Lemma aside_HandlePropose a d c n e (s : node) : not_leading s →
  aside s (RaftRole__HandlePropose a d c n e s).2.
Proof.
  intros Hs. destruct (role_type_not_leading s Hs) as (ty & Hty & Hne).
  unfold RaftRole__HandlePropose. rewrite bind_run. pose proof (aside_read_role a s) as A.
  destruct (read_role a s) as [[x| |] s1] eqn:E; [|done..].
  assert (s1 = s) as -> by (unfold read_role in E; rewrite bind_run in E; cbn [gets] in E;
    destruct (r_roles s !! a); by injection E).
  assert (∀ d c n e, moves aside (FollowerRole__HandlePropose d c n e : M proposal)) as Hf
    by (intros; unfold FollowerRole__HandlePropose; moves_auto).
  destruct x as [f|k|l]; [apply Hf|apply Hf|].
  unfold LeaderRole__HandlePropose. rewrite bind_run. cbn [gets]. destruct (IsDuplicate _ _ _) as [dup res].
  destruct (_ && dup); [done|]. rewrite bind_run. cbn [gets]. rewrite bind_run. destruct (negb _); [done|].
  rewrite bind_run, Hty. cbn [mret GoM_ret]. rewrite bool_decide_false by done. done.
Qed.

Lemma own_op_aside op (s : node) : own_op op = true → not_leading s → aside s (run_local op s).
Proof.
  intros Hop Hs. destruct op; try done; cbn [run_local].
  - assert (moves aside (TakeSnapshot_capture : M _)) as Hm by (unfold TakeSnapshot_capture; moves_auto). apply Hm.
  - pose proof (SaveSnapshot_later (snapshotPath s) sn) as Hl. unfold TakeSnapshot_save.
    apply (moves_at_gets aside), aside_on_files, Hl.
  - assert (moves aside (TakeSnapshot_finish sn : M _)) as Hm by (unfold TakeSnapshot_finish; moves_auto). apply Hm.
  - assert (moves aside (Raft__ProposeWithSession_lookup : M _)) as Hm
      by (unfold Raft__ProposeWithSession_lookup, current_role; moves_auto). apply Hm.
  - by apply aside_HandlePropose.
  - assert (moves aside (LeaderRole__HandlePropose_cancel a index ch : M _)) as Hm
      by (unfold LeaderRole__HandlePropose_cancel; moves_auto). apply Hm.
Qed.

Lemma own_read_aside k (s : node) : aside s (run_own (OwnRead k) s).
Proof.
  cbn [run_own]. destruct (r_tasks s !! k) as [[| | |a m T id|]|]; try done.
  assert (aside s (LeaderRole__sendInstallSnapshotToNode a m s).2) as A.
  { unfold LeaderRole__sendInstallSnapshotToNode. apply (moves_at_gets aside), (moves_at_bind aside).
    - apply aside_on_files, LoadSnapshot_later.
    - intros x. moves_auto. }
  destruct (LeaderRole__sendInstallSnapshotToNode a m s) as [[[sn|]| |] s']; cbn [snd] in A; try done.
  etrans; [exact A|apply aside_drop].
Qed.

(** ** Calls that fail *)
Definition task_term (t : Task) : Z :=
  match t with
  | GoSendPreVote _ _ T _ _ _ | GoSendRequestVote _ _ T _ _ _
  | GoSendAppendEntries _ _ T _ _ _ _ _ | GoSendInstallSnapshot _ _ T _ => T
  | GoApplier _ => 0
  end.

Definition is_pre_vote (t : Task) : bool := match t with GoSendPreVote _ _ _ _ _ _ => true | _ => false end.

Lemma recovering_aside (m h : M unit) (s : node) :
  aside s (m s).2 → moves aside h → aside s (recovering m h s).2.
Proof.
  intros Hm Hh. unfold recovering. destruct (m s) as [[| |] s']; try done.
  etrans; [exact Hm|apply Hh].
Qed.

(** A reply of no later term, to a node that does not lead, once the goroutine has
    cleared its mark on the leader object [a]. *)
Lemma stale_reply_aside (m : M unit) (k : string → M unit) (t : Z) (s : node) :
  moves aside m → not_leading s → t ≤ term_of s →
  (∀ ty s, ty ≠ "leader"%string → k ty s = (Ret tt, s)) →
  aside s ((m;; currentTerm ← GetCurrentTerm;
            if currentTerm <? t then _ ← becomeFollower t; mret tt
            else ty ← role_type; k ty) s).2.
Proof.
  intros Hm Hs Ht Hk. rewrite bind_run. pose proof (Hm s) as A. destruct (m s) as [[[]| |] s1]; cbn [snd] in A; try done.
  rewrite bind_run, GetCurrentTerm_run. rewrite (aside_term _ _ A).
  destruct (Z.ltb_spec (term_of s) t); [lia|].
  destruct (role_type_not_leading s1) as (ty & Hty & Hne); [by eapply not_leading_aside|].
  by rewrite bind_run, Hty, Hk.
Qed.

Lemma fail_aside t sn (s : node) : not_leading s → 0 ≤ task_term t ≤ term_of s → term_of s < u64_max →
  (is_pre_vote t = true → task_term t < term_of s) → aside s (conclude t sn (failed_reply t) s).2.
Proof.
  intros Hs Ht Hmax Hpre. assert (u64 (task_term t) = task_term t) as Hu by (apply u64_small; unfold is_u64, u64_max in *; lia).
  destruct t as [a m T id i j|a m T id i j|a m T id i j es ci|a m T id|a]; cbn [task_term] in *.
  - cbn [failed_reply conclude PreVote_failed]. specialize (Hpre eq_refl).
    rewrite !(u64_small (T + 1)) by (unfold is_u64, u64_max in *; lia).
    apply recovering_aside; [|moves_auto]. unfold CandidateRole__sendPreVote_reply. cbn [fst snd].
    rewrite bind_run, GetCurrentTerm_run. by destruct (Z.ltb_spec (term_of s) (T + 1)); [lia|].
  - cbn [failed_reply conclude RequestVote_failed]. rewrite Hu.
    apply recovering_aside; [|moves_auto]. unfold CandidateRole__sendRequestVote_reply. cbn [fst snd].
    rewrite bind_run, GetCurrentTerm_run. by destruct (Z.ltb_spec (term_of s) T); [lia|].
  - cbn [failed_reply conclude]. unfold decode_append, AppendEntries_failed, sendAppendEntries_done.
    cbn [ar_term ar_success ar_conflictIndex ar_conflictTerm]. rewrite Hu.
    apply recovering_aside; [|moves_auto]. unfold LeaderRole__sendAppendEntriesToNode_reply. cbn [ar_term ar_success].
    rewrite bind_run. pose proof (aside_read_leader a s) as A.
    destruct (read_leader a s) as [[l| |] s1]; cbn [snd] in A; try done.
    etrans; [exact A|].
    refine (stale_reply_aside _ (λ ty, if negb (bool_decide (ty = "leader"%string)) || negb (T =? T) then mret tt else _)
      T s1 _ _ _ _).
    + destruct (map_bool _ _); cbn [when]; moves_auto.
    + by eapply not_leading_aside.
    + rewrite (aside_term _ _ A). lia.
    + intros ty s2 Hne. by rewrite bool_decide_false.
  - cbn [failed_reply conclude]. unfold InstallSnapshot_failed. destruct sn as [sn|]; [|done]. rewrite Hu.
    apply recovering_aside; [|moves_auto]. unfold LeaderRole__sendInstallSnapshotToNode_reply.
    refine (stale_reply_aside _ (λ ty, if negb (bool_decide (ty = "leader"%string)) then mret tt else _) T s _ _ _ _).
    + moves_auto.
    + done.
    + lia.
    + intros ty s2 Hne. by rewrite bool_decide_false.
  - done.
Qed.

(** ** A pre-vote of the current term that fails *)
Record stepped_back (s s' : node) : Prop := {
  back_enabled : r_enabled s' = r_enabled s;
  back_healthy : r_healthy s' = r_healthy s;
  back_nodes : r_nodes s' = r_nodes s;
  back_config : r_config s' = r_config s;
  back_tasks : r_tasks s' = r_tasks s;
  back_disk : io_reliable (r_fs s');
  back_role : ∃ b d, r_role s' = Some b ∧ r_roles s' !! b = Some (RFollower (mkFollowerRole d 0))
    ∧ ElectionTimeoutMinTicks (r_config s) ≤ d ≤ ElectionTimeoutMaxTicks (r_config s)
}.

Lemma becomeFollower_back t (s : node) : not_leading s → timeouts_ok (r_config s) → io_reliable (r_fs s) →
  term_of s < t → ∃ b s', becomeFollower t s = (Ret b, s') ∧ term_of s' = t ∧ stepped_back s s'.
Proof.
  intros (a & x & Hr & Ha & Hx) Hto R Hlt. unfold becomeFollower. rewrite bind_run, (exit_run s a x) by done.
  unfold enter_role. rewrite !bind_run. unfold modify at 1. set (s0 := set_r_roleEpoch _ s).
  destruct (random_deadline_ok s0 Hto) as (d & Hd & Er).
  unfold NewFollowerRole, new_role. rewrite !bind_run, Er. unfold gets at 1, modify at 1, mret, GoM_ret.
  rewrite !bind_run. unfold modify at 1. rewrite !bind_run. set (s1 := set_r_role _ _).
  unfold FollowerRole__OnEnter. rewrite bind_run, GetCurrentTerm_run.
  change (term_of s1) with (term_of s). destruct (Z.ltb_spec (term_of s) t); [|lia].
  destruct (SetCurrentTermAndVotedFor_reliable t "" (r_store s1) (r_fs s1) R) as (fs' & E & R').
  rewrite bind_run, (on_store_run _ _ _ _ _ E). unfold SetLeaderId. rewrite bind_run.
  eexists _, _. split; [reflexivity|]. split; [done|]. split; try done.
  exists (r_next s), d. split; [done|]. split; [cbn; by rewrite lookup_insert_eq|exact Hd].
Qed.

(** ** A node that is cut off *)
Record alone (s : node) : Prop := {
  alone_able : able s;
  alone_disk : io_reliable (r_fs s);
  alone_term : 0 ≤ term_of s;
  alone_tasks k t : r_tasks s !! k = Some t → 0 ≤ task_term t ≤ term_of s;
  alone_timing : ∃ d e, timing s d e ∧ d ≤ ElectionTimeoutMaxTicks (r_config s)
}.

(** No pre-vote of its term is under way. *)
Definition quiet (s : node) : Prop :=
  ∀ k t, r_tasks s !! k = Some t → is_pre_vote t = true → task_term t < term_of s.

Lemma timing_not_leading (s : node) d e : timing s d e → not_leading s.
Proof. intros (a & x & Hr & Ha & Ht & _). exists a, x. by rewrite Ht. Qed.

Lemma timing_bounds (s : node) d e : timing s d e → 0 ≤ e < d ∧ d < 2 ^ 62.
Proof. by intros (a & x & _ & _ & _ & Hb). Qed.

Lemma timing_aside (s s' : node) d e : aside s s' → timing s d e → timing s' d e.
Proof.
  intros A (a & x & Hr & Ha & Ht & He). exists a, x. split; [by rewrite (aside_role _ _ A)|].
  split; [apply (aside_roles _ _ A); [done|by rewrite Ht]|done].
Qed.

Lemma alone_aside (s s' : node) : aside s s' → alone s → alone s'.
Proof.
  intros A [Ha Hd Ht Hk (d & e & Hti & Hmax)]. split.
  - unfold able in *. by rewrite (aside_enabled _ _ A), (aside_healthy _ _ A), (aside_config _ _ A), (aside_nodes _ _ A).
  - by apply (aside_disk _ _ A).
  - by rewrite (aside_term _ _ A).
  - intros k t Hkt. rewrite (aside_term _ _ A). by eapply Hk, (aside_tasks _ _ A).
  - exists d, e. rewrite (aside_config _ _ A). split; [by eapply timing_aside|done].
Qed.

Lemma quiet_aside (s s' : node) : aside s s' → quiet s → quiet s'.
Proof. intros A Hq k t Hk. rewrite (aside_term _ _ A). by eapply Hq, (aside_tasks _ _ A). Qed.

(** The timer after [s], when the node was thrown back: a full time-out, no
    pre-vote of the new term. *)
Record thrown_back (s s' : node) : Prop := {
  thrown_alone : alone s';
  thrown_config : r_config s' = r_config s;
  thrown_term : term_of s' = term_of s + 1;
  thrown_quiet : quiet s';
  thrown_timing : ∃ d, timing s' d 0 ∧ d ≤ ElectionTimeoutMaxTicks (r_config s')
}.

Lemma fail_thrown_back k t sn (s : node) : alone s → term_of s < u64_max → r_tasks s !! k = Some t →
  is_pre_vote t = true → task_term t = term_of s →
  thrown_back s (conclude t sn (failed_reply t) (drop_task k s)).2.
Proof.
  intros [Ha Hd Hz Hk (d0 & e0 & Hti & _)] Hmax Ht Hp HT. destruct t as [a m T id i j| | | |]; try done.
  cbn [task_term] in HT. subst T. cbn [failed_reply conclude PreVote_failed]. set (s0 := drop_task k s).
  rewrite !(u64_small (term_of s + 1)) by (unfold is_u64, u64_max in *; lia).
  unfold sendPreVote_done, recovering, CandidateRole__sendPreVote_reply. cbn [fst snd].
  rewrite bind_run, GetCurrentTerm_run. change (term_of s0) with (term_of s).
  destruct (Z.ltb_spec (term_of s) (term_of s + 1)); [|lia].
  pose proof Ha as (He & Hh & Hto & Hl & Hu).
  destruct (becomeFollower_back (term_of s + 1) s0) as (b & s' & E & Et & [B1 B2 B3 B4 B5 B6 (r & d & Hr & Hf & Hb)]);
    [by eapply timing_not_leading, (timing_aside s s0 d0 e0 (aside_drop k s))|done|done|cbn; unfold term_of; cbn; lia|].
  rewrite bind_run, E. cbn [snd mret GoM_ret]. cbn [r_config drop_task set_r_tasks s0] in Hb.
  assert (timing s' d 0) as Hti'.
  { exists r, (RFollower (mkFollowerRole d 0)). do 3 (split; [done|]). destruct Hto as [[Hpos _] Htop].
    split; lia. }
  assert (∀ q u, r_tasks s' !! q = Some u → 0 ≤ task_term u ≤ term_of s) as Hold.
  { intros q u. rewrite B5. cbn. intros [_ Hq]%lookup_delete_Some. by eapply Hk. }
  assert (d ≤ ElectionTimeoutMaxTicks (r_config s')) as Hdm by (rewrite B4; apply Hb).
  split; [split|..].
  - unfold able. rewrite B1, B2, B3, B4. done.
  - done.
  - lia.
  - intros q u Hq. specialize (Hold q u Hq). lia.
  - by exists d, 0.
  - done.
  - done.
  - intros q u Hq _. specialize (Hold q u Hq). lia.
  - by exists d.
Qed.

(** ** One event *)
Lemma own_event (s : node) ev : alone s → term_of s < u64_max → ev ≠ OwnTick →
  aside s (run_own ev s) ∨ ¬ quiet s ∧ thrown_back s (run_own ev s).
Proof.
  intros Hal Hmax Hne. destruct (alone_timing _ Hal) as (d & e & Hti & _).
  pose proof (timing_not_leading _ _ _ Hti) as Hnl. destruct ev as [|k sn|k|op]; [done|..].
  - cbn [run_own]. destruct (r_tasks s !! k) as [t|] eqn:Ht; [|by left].
    pose proof (alone_tasks _ Hal _ _ Ht) as Hb. pose proof (aside_drop k s) as A.
    destruct (decide (is_pre_vote t = true ∧ task_term t = term_of s)) as [[Hp HT]|Hno].
    + right. split; [|by apply fail_thrown_back]. intros Hq. specialize (Hq k t Ht Hp). lia.
    + left. etrans; [exact A|]. apply fail_aside; [by eapply not_leading_aside|done|done|].
      intros Hp. change (term_of (drop_task k s)) with (term_of s).
      assert (task_term t ≠ term_of s) by tauto. lia.
  - left. apply own_read_aside.
  - left. cbn [run_own]. destruct (own_op op) eqn:E; [|done]. by apply own_op_aside.
Qed.

Lemma tick_or_not ev : ev = OwnTick ∨ ev ≠ OwnTick.
Proof. destruct ev; [by left|by right..]. Qed.

(** A round has just started. *)
Definition round_starts (s s' : node) : Prop :=
  alone s' ∧ r_config s' = r_config s ∧ term_of s' = term_of s
  ∧ ∃ d, round_of s' d 0 ∧ ElectionTimeoutMinTicks (r_config s) ≤ d ≤ ElectionTimeoutMaxTicks (r_config s).

Lemma tick_event (s : node) d e : alone s → timing s d e →
  let s' := run_own OwnTick s in
  round_starts s s'
  ∨ alone s' ∧ r_config s' = r_config s ∧ term_of s' = term_of s ∧ timing s' d (e + 1) ∧ e + 1 < d ∧ r_tasks s' = r_tasks s.
Proof.
  intros [Ha Hd Hz Hk (d0 & e0 & Hti0 & Hm)] Hti. cbv zeta. cbn [run_own].
  assert (d0 = d) as ->.
  { destruct Hti as (a & x & Hr & Hx & Ht & _), Hti0 as (a0 & x0 & Hr0 & Hx0 & Ht0 & _). congruence. }
  destruct (decide (e + 1 < d)) as [Hlt|Hge].
  - right. destruct (tick_waits s d e Ha Hti Hlt) as (s' & -> & Hs & Hti' & Ets). cbn [snd].
    assert (term_of s' = term_of s) as Et by (unfold term_of; by rewrite (still_store _ _ Hs)).
    split; [|by rewrite (still_config _ _ Hs)]. split.
    + by eapply able_still.
    + by rewrite (still_fs _ _ Hs).
    + by rewrite Et.
    + intros k t. rewrite Ets, Et. apply Hk.
    + exists d, (e + 1). by rewrite (still_config _ _ Hs).
  - left. destruct (tick_fires s d e Ha Hti) as (d' & s' & -> & Hs & Hround & Hadd & Hd'); [lia|]. cbn [snd].
    assert (term_of s' = term_of s) as Et by (unfold term_of; by rewrite (still_store _ _ Hs)).
    pose proof Ha as (_ & _ & [[Hpos _] Htop] & _).
    split; [|split; [by rewrite (still_config _ _ Hs)|split; [done|by exists d']]]. split.
    + by eapply able_still.
    + by rewrite (still_fs _ _ Hs).
    + by rewrite Et.
    + intros k t [Ht|(b & n & i & j & ->)]%Hadd; rewrite Et; [by eapply Hk|]. cbn [task_term]. lia.
    + exists d', 0. rewrite (still_config _ _ Hs). split; [|lia]. apply round_timing; [lia|lia|done].
Qed.

(** ** Whole runs *)
Lemma run_all_app evs1 evs2 (s : node) : run_all (evs1 ++ evs2) s = run_all evs2 (run_all evs1 s).
Proof. apply foldl_app. Qed.

Lemma tick_count_nonneg evs : 0 ≤ tick_count evs.
Proof. induction evs as [|[] evs IH]; cbn [tick_count]; lia. Qed.

(** Enough ticks bring a round: those left on the timer, and one full time-out
    more while a pre-vote of the term may still fail. *)
Lemma round_comes evs : ∀ (s : node) d e, alone s → timing s d e →
  term_of s + Z.of_nat (length evs) < u64_max →
  (quiet s ∧ d - e ≤ tick_count evs ∨ ElectionTimeoutMaxTicks (r_config s) + (d - e) ≤ tick_count evs) →
  ∃ evs1 evs2, evs = evs1 ++ OwnTick :: evs2 ∧
    r_config (run_all evs1 s) = r_config s ∧
    round_starts (run_all evs1 s) (run_own OwnTick (run_all evs1 s)).
Proof.
  induction evs as [|ev evs IH]; intros s d e Hal Hti Hmax Hbud.
  { exfalso. pose proof (timing_bounds _ _ _ Hti).
    destruct Hal as [(_ & _ & [[? ?] _] & _) _ _ _ _]. cbn in Hbud. lia. }
  assert (∀ s1, run_own ev s = s1 → r_config s1 = r_config s →
    (∃ evs1 evs2, evs = evs1 ++ OwnTick :: evs2 ∧ r_config (run_all evs1 s1) = r_config s1 ∧
      round_starts (run_all evs1 s1) (run_own OwnTick (run_all evs1 s1))) →
    ∃ evs1 evs2, ev :: evs = evs1 ++ OwnTick :: evs2 ∧ r_config (run_all evs1 s) = r_config s ∧
      round_starts (run_all evs1 s) (run_own OwnTick (run_all evs1 s))) as Hlater.
  { intros s1 <- Hc (evs1 & evs2 & -> & Hc1 & Hr). exists (ev :: evs1), evs2. cbn [app run_all foldl].
    split; [done|]. split; [by etrans|exact Hr]. }
  cbn [length] in Hmax. destruct (tick_or_not ev) as [->|Hne].
  - destruct (tick_event s d e Hal Hti) as [Hr|(Hal' & Hc & Ht & Hti' & Hlt & Ek)].
    { by exists [], evs. }
    apply (Hlater _ eq_refl Hc). apply (IH _ d (e + 1) Hal' Hti'); [lia|]. cbn [tick_count] in Hbud.
    rewrite Hc. destruct Hbud as [[Hq Hb]|Hb]; [left|right; lia]. split; [|lia].
    intros k t. rewrite Ek, Ht. apply Hq.
  - assert (tick_count (ev :: evs) = tick_count evs) as Ec by by destruct ev.
    rewrite Ec in Hbud.
    destruct (own_event s ev Hal ltac:(lia) Hne) as [A|[Hnq [Hal' Hc Ht Hq (d' & Hti' & Hd')]]].
    + apply (Hlater _ eq_refl (aside_config _ _ A)).
      apply (IH _ d e); [by eapply alone_aside|by eapply timing_aside|rewrite (aside_term _ _ A); lia|].
      rewrite (aside_config _ _ A). destruct Hbud as [[Hq Hb]|Hb]; [left|by right]. split; [by eapply quiet_aside|done].
    + apply (Hlater _ eq_refl Hc). apply (IH _ d' 0 Hal' Hti'); [lia|]. left. split; [done|].
      destruct Hbud as [[? _]|Hb]; [done|]. rewrite Hc in Hd'.
      pose proof (timing_bounds _ _ _ Hti). lia.
Qed.

Lemma alone_run evs : ∀ s : node, alone s → term_of s + Z.of_nat (length evs) < u64_max →
  alone (run_all evs s) ∧ r_config (run_all evs s) = r_config s
  ∧ term_of s ≤ term_of (run_all evs s) ≤ term_of s + Z.of_nat (length evs).
Proof.
  induction evs as [|ev evs IH]; intros s Hal Hmax; cbn [length] in *; [cbn; split_and!; (done || lia)|].
  assert (alone (run_own ev s) ∧ r_config (run_own ev s) = r_config s
    ∧ term_of s ≤ term_of (run_own ev s) ≤ term_of s + 1) as (Hal' & Hc & Ht).
  { destruct (tick_or_not ev) as [->|Hne].
    - destruct (alone_timing _ Hal) as (d & e & Hti & _).
      destruct (tick_event s d e Hal Hti) as [(? & ? & ? & _)|(? & ? & ? & _)]; split_and!; (done || lia).
    - destruct (own_event s ev Hal ltac:(lia) Hne) as [A|[_ [? ? ? _ _]]]; [|split_and!; (done || lia)].
      split; [by eapply alone_aside|]. split; [apply A|]. rewrite (aside_term _ _ A). lia. }
  change (run_all (ev :: evs) s) with (run_all evs (run_own ev s)).
  destruct (IH (run_own ev s) Hal') as (H1 & H2 & H3); [lia|]. split_and!; [done|by etrans|lia..].
Qed.
End isolation.

(** C11: A node that is cut off keeps campaigning.  Whatever such a node does by
    itself - its ticks, its remote calls failing one by one in any order, pre-votes
    of the current term that raise it and throw the node back included, snapshots,
    proposals of its clients - every stretch of the run with two maximal election
    time-outs of ticks contains a tick that starts a pre-vote round: the node is a
    candidate with its own vote, a request of its current term under way to every
    other member, and a fresh time-out within the configured bounds.  Its disk
    works, and no term reaches 2^64 - 1. *)
Theorem silent_node_campaigns {L F : Type} `{GoLog L} `{FSM F} (s : Raft L F) before window
    (Halone : alone s)
    (Hmax : term_of s + Z.of_nat (length (before ++ window)) < u64_max)
    (Hticks : 2 * ElectionTimeoutMaxTicks (r_config s) ≤ tick_count window) :
  ∃ w1 w2, window = w1 ++ OwnTick :: w2 ∧
    let s1 := run_all (before ++ w1) s in
    let s2 := run_own OwnTick s1 in
    alone s2 ∧ term_of s ≤ term_of s1 ∧ term_of s2 = term_of s1
    ∧ ∃ d, round_of s2 d 0 ∧
        ElectionTimeoutMinTicks (r_config s) ≤ d ≤ ElectionTimeoutMaxTicks (r_config s).
Proof.
  rewrite length_app in Hmax. destruct (alone_run before s Halone) as (Hal & Hc & Ht); [lia|].
  destruct (alone_timing _ Hal) as (d & e & Hti & Hd). pose proof (timing_bounds _ _ _ Hti).
  destruct (round_comes window (run_all before s) d e Hal Hti) as (w1 & w2 & -> & Hc1 & Hal2 & _ & Et & Hround);
    [lia|right; rewrite Hc in *; lia|].
  exists w1, w2. split; [done|]. cbv zeta. rewrite run_all_app. rewrite Hc1, Hc in Hround.
  split; [done|]. split; [|done].
  destruct (alone_run w1 (run_all before s) Hal) as (_ & _ & Ht1); [|lia].
  rewrite length_app in Hmax. cbn [length] in Hmax. lia.
Qed.

(** Node [n1] of three, just started, starts a round at its twelfth tick; the call
    to [n2] fails, which throws it back, then the one to [n3]. *)
Definition first_round : list OwnEvent := replicate 12 OwnTick.
Definition calls_fail : list OwnEvent :=
  replicate 5 OwnTick ++ [OwnFail 2 None; OwnLocal OpSnapshotCapture] ++ replicate 5 OwnTick
  ++ [OwnFail 3 None] ++ replicate 30 OwnTick.

Lemma alone_n1 : alone n1.
Proof.
  split.
  - split; [vm_compute; reflexivity|]. split; [vm_compute; reflexivity|].
    split; [split; [split|]; vm_compute; congruence|]. split; [apply Nat.leb_le|apply Z.ltb_lt]; vm_compute; reflexivity.
  - intros n Hn. reflexivity.
  - vm_compute. discriminate.
  - intros k t Hk. assert (r_tasks n1 = ∅) as E by (vm_compute; reflexivity).
    rewrite E, lookup_empty in Hk. discriminate Hk.
  - exists 12, 0. split; [|vm_compute; discriminate].
    exists 0%nat, (RFollower (mkFollowerRole 12 0)). split; [vm_compute; reflexivity|].
    split; [vm_compute; reflexivity|]. split; [reflexivity|]. split; [lia|]. reflexivity.
Qed.

Lemma silent_node_campaigns_witness :
  term_of (run_all (first_round ++ calls_fail) n1) = 1 ∧
  ∃ w1 w2, calls_fail = w1 ++ OwnTick :: w2 ∧
    ∃ d, round_of (run_own OwnTick (run_all (first_round ++ w1) n1)) d 0.
Proof.
  split; [vm_compute; reflexivity|].
  destruct (silent_node_campaigns n1 first_round calls_fail alone_n1) as (w1 & w2 & E & _ & _ & _ & d & Hd & _).
  - vm_compute. reflexivity.
  - vm_compute. discriminate.
  - exact (ex_intro _ w1 (ex_intro _ w2 (conj E (ex_intro _ d Hd)))).
Defined.
